(* ===== verification/_CoqProject ===== *)
-Q . S2P
Prelude.v
Text.v
Io.v
Tcp.v
Utf8.v
DeviceMux.v
Plist.v
Builder.v
UsbMux.v
Request.v
Errors.v
Conn.v
Bridge.v
Poll.v
ProviderStream.v
Backend.v
Ids.v
Hotplug.v
HotplugStream.v
Router.v
Loops.v
RusbIo.v
Transfer.v
Endpoints.v
DeviceFlow.v
FlowPackets.v
DeviceBus.v
UsbDevice.v
Registry.v
WatchUsb.v
World.v
Records.v
Network.v
WatchNetwork.v
Watchers.v
Preflight.v
Provider.v
NetConn.v
Handlers.v
Session.v
Cli.v
Daemon.v
WinDriver.v
Witnesses.v
LibraryWitnesses.v
ToolWitnesses.v
