(* ===== verification/Prelude.v ===== *)
(** * rusbmux: a verification library

    rusbmux replaces usbmuxd, the daemon through which programs talk to Apple
    devices over USB and the network.  Clients connect to the daemon's socket and
    send property-list requests; the daemon lists devices, tells listening clients
    about arrivals and departures, keeps pair records, and hands a client over to
    a TCP port of a device.  Over USB all TCP connections of a device share one
    pair of bulk endpoints: packets are multiplexed, and the daemon plays the part
    of a TCP stack for its end of each connection.  The same code is a library that
    watches for devices and gives the [idevice] crate connections to them.

    ** How the parts correspond to the code

    Every file is one component (sources under [src/src/], the Windows tool's under
    [src/windows/]).  What all share:
    - [Prelude]: integers of a width ([wrap]), bytes, [outcome] (a [Result], a
      panic, undefined behaviour), [stateful] functions and their notation, the
      interface [ByteReader]; shared lemmas and tactics.
    - [Text]: the string functions of the standard library that the code uses.
    - [Io] ([std::io], [utils.rs]): error kinds, and the byte stream that stands
      for a socket or endpoint, with scripted faults of its writes.
    - [Poll]: [Poll], [ReadBuf] and functions on an object that is polled.
    - [Ids] ([usb_backend/mod.rs]): device ids and what is expected of a watcher.

    The wire, from the bottom up:
    - [Tcp]: [etherparse]'s TCP header as the class [TcpCodec] with its laws, and
      [WireTcp], an implementation of the wire format that satisfies them.
    - [Utf8]: [std::str::from_utf8].
    - [DeviceMux] ([parser/device_mux/mod.rs]): packets between daemon and device,
      the slice parser and the stream parser, with panics and the [unsafe] casts.
    - [Plist]: property lists and the class [PlistCodec] of the [plist] crate.
    - [Builder] ([parser/device_mux/builder.rs]): the typestate packet builder.
    - [UsbMux], [Request] ([parser/usbmux.rs]): the client protocol's packets, and
      requests with the reading [serde] derives.
    - [Errors] ([error/mod.rs]).

    Connections:
    - [Conn] ([conn/usb.rs]): a connection's handshake, numbering, acknowledgment
      and window, against the interface [Link] to its two channels.
    - [Bridge] ([handler/connect.rs]): the [select!] loop between a client and a
      connection, one branch per round.
    - [ProviderStream], [Provider] ([provider.rs]): a connection as [AsyncRead] and
      [AsyncWrite], over the interface [PollLink], and how it is made.
    - [NetConn] ([conn/], [device/mod.rs], [device/power_assertion.rs]): connections
      over the network, a connection to either kind of device, and the task that
      renews a power assertion.

    Devices:
    - [Backend] ([usb_backend/]): what is read off a USB device, and how the [nusb]
      and the [rusb] backend find and claim its endpoints.
    - [RusbIo], [Transfer] ([usb_backend/rusb/mod.rs]): the endpoints over libusb
      transfers, and the memory of a transfer shared by two threads.
    - [Endpoints] ([usb_backend/mod.rs]): the enums that dispatch to a backend, and
      what a device's two tasks see through them.
    - [Hotplug] ([usb_backend/]): the backends' watches, and polling;
      [HotplugStream] ([usb_backend/rusb/hotplug.rs]): where [rusb]'s events come
      from, as a bus that is watched.
    - [Router] ([device/packet_router.rs]): ports and channels; the operations, the
      atomic steps they are put together from, and a step relation for any
      interleaving of these.
    - [Loops], [UsbDevice] ([device/usb.rs]): version negotiation, the reader and
      the writer task; connecting, closing and shutting down.
    - [DeviceFlow]: the reader task, the router, the writer's queue and the bridges
      of any number of clients of a device, as one system; [FlowPackets]: what the
      packets in it are; [DeviceBus]: the system with the two endpoints, where the
      reader task reads, counts and handles, and the writer task numbers and writes.
    - [Network] ([device/network.rs], [device/power_assertion.rs]): reaching a
      network device, the heartbeat task.
    - [WatchUsb] ([watcher/usb.rs], [device/usb.rs]): opening a device, with
      retries; [WatchNetwork] ([watcher/network.rs]): mDNS services.
    - [Preflight] ([watcher/preflight.rs], there and in the daemon): pairing.

    The daemon ([bin/rusbmux/]):
    - [Registry] ([watcher/], [device/mod.rs], [device/network.rs]): the connected
      devices, the hotplug events, which devices are visible.
    - [Watchers]: the backend's watch, the library's and the daemon's two loops,
      as one system that shares the counter of ids and the registry.
    - [World], [Records] ([handler/]): what handlers work on (client, registry,
      files) and the pair-record and BUID handlers.
    - [Handlers], [Session] ([handler/]): the other handlers; the dispatch of
      requests and the loop over a client's packets.
    - [Cli] ([cli.rs]): the [add-device] command; [Daemon] ([daemon.rs],
      [main.rs]): starting on each platform, accepting clients and ending.

    Beside it:
    - [WinDriver] ([windows/rusbmux-usb-win-driver/]): the tool that removes drivers
      and installs the one that libusb needs.
    - [Witnesses], [LibraryWitnesses], [ToolWitnesses]: every theorem with hypotheses
      at a concrete input.

    A component's state is a record and its operations are functions on it, with
    the names of the code; a method that fails half way leaves the state it has
    reached.  Code that runs concurrently is cut into steps.  [Router.router_step] takes
    the steps that [DashMap] and the atomic counter make atomic; [register], [clear],
    [take_all_conns] and [route] are schedules of them ([register_runs] and its like), and
    the components above use these schedules as one step.  What the watchers and
    [add_device] do to the registry between two of their awaits is one step each
    ([registry_step]); the [meanwhile] argument of [connect] is what the reader task does
    during a handshake, an [Env] says what happens around a request and between the
    entries of a snapshot, [Watchers.system_step], [DeviceFlow.flow_step] and
    [DeviceBus.device_step] are one turn of one task.

    Clients may be left wrong about some device ids: [registry_step] says with each
    transition which ids it disturbs, none but for a USB device that connects while its
    old entry is still there, an [add_device] that fails after it has taken the old device
    out, and one that ends when the device has been added meanwhile.  The theorems on the
    registry, the watchers and listening are about all transitions, and promise clients the
    truth about every id that was not disturbed.

    What a system call or a transfer comes to is scripted in the state or an
    argument.  Parameters stand for code of other crates ([TcpCodec],
    [PlistCodec], [IpText], [PlistErrors], [PlistText], [ErrorText], [Idevice],
    [Lockdown], [Mdns], [TcpNet], [NusbIo], [LibusbHotplug], [Wdi]), of the system
    ([ReadDir], [Pnputil]), and for unspecified
    orders ([MapOrder], [RegistryOrder], [HashOrder]).

    ** What the theorems show

    - Formats: printing and parsing are inverse for device packets, built packets,
      requests (up to two named losses) and the frames of the assertion service;
      the two packet parsers agree; the client parser implements a framing
      contract; no input reaches undefined behaviour, and exactly which inputs
      make the stream parser panic.
    - Connections: the handshake, contiguous sequence numbers over any calls,
      exact acknowledgment, the window; the bridge carries both directions of a
      stream unchanged and within the window, unless a [recv] is interrupted, which loses
      at most the one packet it had taken.  The
      provider's stream does the same however its polls are given up and repeated;
      a poll ends, and does not wait when it need not.
    - Endpoints: both backends find and claim the same of a plain device, with command
      sequences that differ as stated; the
      [rusb] reader keeps every byte and the writer implements the endpoint that
      the writer loop is verified against; a transfer's callback frees everything
      once, and the one access to freed memory that is left is named.  On the bus:
      a device gets each packet by itself from its opening on, and packets that come
      in transfers cut anywhere reach the router until the device goes away; what a
      first packet of an unlucky length, and a transfer without data, do instead.
    - Routing: over any interleaving of the atomic steps, an invariant, and that a
      connection gets in order the packets routed to its port from its registration
      until it is unregistered; isolation of ports, port allocation; the reader and the writer loop refine
      sequential handling of packets; closing and shutdown.  The connections of a
      device side by side: each client gets the stream sent to its port, but for at most
      one packet per interrupted [recv], and the
      device the stream each client wrote, also seen from the device's end: the packets
      that went over the endpoint carry it, whole, numbered and in order.
    - Watching: ids are given once and taken back only when held, on all watches;
      with either hotplug stream, once the bus rests, ids are held for exactly the
      Apple devices that are there; retrying to open a device ends; what opening a
      device needs; which pairing file a service resolves to.
    - Devices: the registry's events keep every listening client's view right about
      every id that was not disturbed, and equal to the visible devices when none was, also
      with all watchers running side by side; a device connected twice is visible once;
      what each of the three disturbing transitions does to clients.
    - Pairing: the preflight changes no file but two, and saves a pairing file only
      after the device has accepted it; a write that fails leaves a file cut short.
    - Sessions: on files whose errors are not those of a lost connection, requests are
      served in order and what is sent for them carries their own tag, whatever fails;
      a request that succeeds is answered; [Listen] and [Connect] are served last; the codes of refused requests; the handlers of lists,
      listening, connecting, pair records and the BUID.
    - The process: [add-device] and the daemon understand each other; on every
      platform what start-up survives is named, and every device is shut down however
      the daemon ends; when its exit status is 0.
    - The driver tool: its parser finds what the blocks of the enumeration say; only
      drivers that were reported are removed, and with enough rounds none is left;
      each exit status says which call failed and how, or that the driver was installed.

    ** Bounds

    The loops of the code that only end from outside are run for a list of rounds
    ([handle_client], [bridge_run], [listen_loop], [start_reader_loop], [nw_run],
    [polling_run], [watching_run], [serve]): the theorems hold for every number of rounds.  The
    loops inside a poll have fuel, [read_fuel] and [write_fuel]: a round takes a
    packet from the inbox, or sends the acknowledgment it asked for, or is the last
    but one, so twice the inbox and three is enough ([polls_terminate]).
    [retry_open] is given its rounds: each takes 100 ms of three seconds, so thirty
    are enough ([usb_turn_ends]).  [register] probes 64 ports as the code does,
    channels hold 256 packets, the event channel 32, a write is submitted by
    itself at [AUTO_FLUSH] bytes.  [rusb_read_exact] polls once for each byte that is
    asked for and each time a transfer can be polled, which is enough since every poll
    uses one of these up.  The driver tool runs the rounds it is told to; more than
    there are drivers are enough ([uninstall_leaves_none]).  Its parser of the
    enumeration has fuel for each line.

    ** What is not modelled

    What libusb does itself and the thread that hands it events; the tasks' timers
    other than the retry loop's; the declarations of the command line, logging;
    getters; paths of Windows and macOS in the handlers (they are Linux's) and what is
    behind a socket there; that a [DashMap] entry that is held makes others wait. *)

From Stdlib Require Import ZArith Lia.
From Stdlib Require Strings.Byte.
From stdpp Require Export base list gmap strings pretty option numbers.

Set Default Proof Using "Type".

(** ** Machine integers and bytes

    An unsigned [w]-bit Rust integer is a [Z]; arithmetic that Rust wraps is
    written with [wrap w].  A byte is the Standard Library's [Byte.byte]. *)

Abbreviation byte := Init.Byte.byte.

#[export] Instance byte_eq_dec : EqDecision byte := Byte.byte_eq_dec.

Definition wrap (w z : Z) : Z := z `mod` 2 ^ w.

Definition in_width (w z : Z) : Prop := (0 ≤ z < 2 ^ w)%Z.

Definition byte_to_Z (b : byte) : Z := Z.of_N (Byte.to_N b).

Definition Z_to_byte (z : Z) : byte :=
  default Byte.x00 (Byte.of_N (Z.to_N (wrap 8 z))).

(** [u16::to_le_bytes], [u32::to_le_bytes]: the [n] low bytes of [z], least
    significant first; the big-endian versions are their reversals. *)
Fixpoint le_encode (n : nat) (z : Z) : list byte :=
  match n with
  | O => []
  | S n => Z_to_byte z :: le_encode n (z `div` 256)
  end.

Fixpoint le_decode (bs : list byte) : Z :=
  match bs with
  | [] => 0
  | b :: bs => byte_to_Z b + 256 * le_decode bs
  end.

(** [&s[i..i+n]] of a fixed layout *)
Definition slice_at {A} (i n : nat) (s : list A) : list A := take n (drop i s).

Definition be_encode (n : nat) (z : Z) : list byte := reverse (le_encode n z).
Definition be_decode (bs : list byte) : Z := le_decode (reverse bs).

(** ** Outcomes

    What a call of a Rust function can end in: [Ok] and [Err] are the two
    constructors of [Result], [Panic] is a panic, [Ub] is reached where an
    [unsafe] block would have undefined behaviour. *)

Inductive outcome (E A : Type) : Type :=
| Ok (a : A)
| Err (e : E)
| Panic
| Ub.
Arguments Ok {E A} a.
Arguments Err {E A} e.
Arguments Panic {E A}.
Arguments Ub {E A}.

Definition outcome_bind {E A B} (f : A → outcome E B) (m : outcome E A) : outcome E B :=
  match m with
  | Ok a => f a
  | Err e => Err e
  | Panic => Panic
  | Ub => Ub
  end.

(** [map_err], and the [?] operator's [From::from] on the error. *)
Definition map_err {E F A} (f : E → F) (m : outcome E A) : outcome F A :=
  match m with
  | Ok a => Ok a
  | Err e => Err (f e)
  | Panic => Panic
  | Ub => Ub
  end.

Definition ok_or {E A} (e : E) (o : option A) : outcome E A :=
  match o with Some a => Ok a | None => Err e end.

(** A stateful Rust function: [S] is what it has [&mut] access to. *)
Definition stateful (S E A : Type) : Type := S → outcome E A * S.

Definition st_ret {S E A} (a : A) : stateful S E A := λ s, (Ok a, s).

Definition st_lift {S E A} (m : outcome E A) : stateful S E A := λ s, (m, s).

Definition st_get {S E} : stateful S E S := λ s, (Ok s, s).

Definition st_put {S E} (s : S) : stateful S E () := λ _, (Ok (), s).

Definition st_bind {S E A B} (m : stateful S E A) (f : A → stateful S E B) : stateful S E B :=
  λ s, match m s with
       | (Ok a, s') => f a s'
       | (Err e, s') => (Err e, s')
       | (Panic, s') => (Panic, s')
       | (Ub, s') => (Ub, s')
       end.

Definition st_map_err {S E F A} (f : E → F) (m : stateful S E A) : stateful S F A :=
  λ s, let '(r, s') := m s in (map_err f r, s').

Declare Scope rust_scope.
Delimit Scope rust_scope with rust.

Notation "'let?' x := m 'in' k" := (outcome_bind (λ x, k) m)
  (at level 10, x pattern, m at level 100, k at level 200) : rust_scope.
Notation "'let!' x := m 'in' k" := (st_bind m (λ x, k))
  (at level 10, x pattern, m at level 100, k at level 200) : rust_scope.

Open Scope rust_scope.

(** ** Reading exactly [n] bytes

    What the packet parsers ask of a byte source ([tokio]'s [AsyncReadExt]):
    [read_exact n] gives [n] bytes or an I/O error.  [reader_data] is the
    specification's view of the bytes a source is going to deliver. *)

Class ByteReader (R IoErr : Type) : Type := {
  read_exact : nat → stateful R IoErr (list byte);
  reader_data : R → list byte;
}.

Class ByteReaderLaws (R IoErr : Type) `{ByteReader R IoErr} : Prop := {
  read_exact_enough : ∀ n r, n ≤ length (reader_data r) →
    ∃ r', read_exact n r = (Ok (take n (reader_data r)), r') ∧
          reader_data r' = drop n (reader_data r);
  read_exact_short : ∀ n r, length (reader_data r) < n →
    ∃ e r', read_exact n r = (Err e, r');
}.

(** * Lemmas *)

Create HintDb rusbmux.
Create Rewrite HintDb wrap.
Create Rewrite HintDb rusbmux_rw.

Lemma wrap_range w z : (0 ≤ w)%Z → in_width w (wrap w z).
Proof. intros ?. apply Z.mod_pos_bound. lia. Qed.

Lemma wrap_small w z : in_width w z → wrap w z = z.
Proof. intros ?. by apply Z.mod_small. Qed.

Lemma wrap_wrap w z : (0 ≤ w)%Z → wrap w (wrap w z) = wrap w z.
Proof. intros. apply wrap_small, wrap_range; lia. Qed.

Lemma wrap_add_l w a b : wrap w (wrap w a + b) = wrap w (a + b).
Proof. apply Zplus_mod_idemp_l. Qed.

Lemma wrap_add_r w a b : wrap w (a + wrap w b) = wrap w (a + b).
Proof. apply Zplus_mod_idemp_r. Qed.

Lemma wrap_sub_l w a b : wrap w (wrap w a - b) = wrap w (a - b).
Proof. apply Zminus_mod_idemp_l. Qed.

Lemma wrap_sub_r w a b : wrap w (a - wrap w b) = wrap w (a - b).
Proof. apply Zminus_mod_idemp_r. Qed.

#[export] Hint Rewrite wrap_add_l wrap_add_r wrap_sub_l wrap_sub_r : wrap.

Lemma byte_to_Z_range b : (0 ≤ byte_to_Z b < 256)%Z.
Proof. destruct b; vm_compute; split; congruence. Qed.

Lemma byte_to_Z_to_byte z : byte_to_Z (Z_to_byte z) = wrap 8 z.
Proof.
  unfold Z_to_byte, byte_to_Z.
  pose proof (wrap_range 8 z ltac:(lia)) as [H0 H1].
  set (n := Z.to_N (wrap 8 z)). assert (Hn : (n ≤ 255)%N) by lia.
  destruct (Byte.of_N n) as [b|] eqn:Hb; simpl.
  - apply Byte.to_of_N in Hb. rewrite Hb. subst n. lia.
  - apply Byte.of_N_None_iff in Hb. lia.
Qed.

Lemma Z_to_byte_to_Z b : Z_to_byte (byte_to_Z b) = b.
Proof. by destruct b. Qed.

Lemma Z_to_byte_wrap z : Z_to_byte (wrap 8 z) = Z_to_byte z.
Proof. unfold Z_to_byte. by rewrite wrap_wrap by lia. Qed.

Lemma length_le_encode n z : length (le_encode n z) = n.
Proof. revert z. induction n; intros; simpl; auto. Qed.

Lemma length_be_encode n z : length (be_encode n z) = n.
Proof. unfold be_encode. by rewrite length_reverse, length_le_encode. Qed.

Lemma le_decode_range bs : (0 ≤ le_decode bs < 2 ^ (8 * Z.of_nat (length bs)))%Z.
Proof.
  induction bs as [|b bs IH]; simpl; [lia|].
  pose proof (byte_to_Z_range b).
  replace (8 * Z.of_nat (S (length bs)))%Z with (8 + 8 * Z.of_nat (length bs))%Z by lia.
  rewrite Z.pow_add_r by lia. change (2 ^ 8)%Z with 256%Z. lia.
Qed.

Lemma be_decode_range bs : (0 ≤ be_decode bs < 2 ^ (8 * Z.of_nat (length bs)))%Z.
Proof. unfold be_decode. rewrite <- (length_reverse bs). apply le_decode_range. Qed.

Lemma le_decode_encode n z :
  in_width (8 * Z.of_nat n) z → le_decode (le_encode n z) = z.
Proof.
  revert z. induction n as [|n IH]; intros z [H0 H1]; simpl; [simpl in H1; lia|].
  rewrite byte_to_Z_to_byte.
  rewrite IH.
  - unfold wrap. change (2 ^ 8)%Z with 256%Z. pose proof (Z.div_mod z 256). lia.
  - replace (8 * Z.of_nat (S n))%Z with (8 + 8 * Z.of_nat n)%Z in H1 by lia.
    rewrite Z.pow_add_r in H1 by lia. split.
    + apply Z.div_pos; lia.
    + apply Z.div_lt_upper_bound; lia.
Qed.

Lemma be_decode_encode n z :
  in_width (8 * Z.of_nat n) z → be_decode (be_encode n z) = z.
Proof. intros. unfold be_decode, be_encode. rewrite reverse_involutive. by apply le_decode_encode. Qed.

Lemma le_encode_decode bs : le_encode (length bs) (le_decode bs) = bs.
Proof.
  induction bs as [|b bs IH]; simpl; [done|].
  pose proof (byte_to_Z_range b).
  f_equal.
  - rewrite <- Z_to_byte_wrap. unfold wrap. change (2 ^ 8)%Z with 256%Z.
    rewrite (Z.mul_comm 256), Z_mod_plus_full, Z.mod_small by lia. apply Z_to_byte_to_Z.
  - rewrite (Z.mul_comm 256), Z.div_add, Z.div_small by lia. apply IH.
Qed.

Lemma be_encode_decode bs n : length bs = n → be_encode n (be_decode bs) = bs.
Proof.
  intros <-. unfold be_encode, be_decode.
  rewrite <- (length_reverse bs), le_encode_decode. apply reverse_involutive.
Qed.

Lemma le_encode_decode' bs n : length bs = n → le_encode n (le_decode bs) = bs.
Proof. intros <-. apply le_encode_decode. Qed.

#[export] Hint Rewrite length_le_encode length_be_encode : rusbmux_rw.

(** Inverting a chain of [let?]. *)
Lemma outcome_bind_ok {E A B} (m : outcome E A) (f : A → outcome E B) b :
  outcome_bind f m = Ok b → ∃ a, m = Ok a ∧ f a = Ok b.
Proof. destruct m; simpl; naive_solver. Qed.

Lemma outcome_bind_err {E A B} (m : outcome E A) (f : A → outcome E B) e :
  outcome_bind f m = Err e → m = Err e ∨ ∃ a, m = Ok a ∧ f a = Err e.
Proof. destruct m; simpl; naive_solver. Qed.

Lemma st_bind_ok {S E A B} (m : stateful S E A) (f : A → stateful S E B) s b s'' :
  st_bind m f s = (Ok b, s'') → ∃ a s', m s = (Ok a, s') ∧ f a s' = (Ok b, s'').
Proof. unfold st_bind. destruct (m s) as [[]]; naive_solver. Qed.

Lemma st_map_err_ok {S E F A} (f : E → F) (m : stateful S E A) s a s' :
  st_map_err f m s = (Ok a, s') ↔ m s = (Ok a, s').
Proof. unfold st_map_err. destruct (m s) as [[]]; naive_solver. Qed.

(** Running a [let!] chain forward. *)
Lemma st_bind_eq {S E A B} (m : stateful S E A) (f : A → stateful S E B) s a s' :
  m s = (Ok a, s') → st_bind m f s = f a s'.
Proof. intros H. unfold st_bind. by rewrite H. Qed.

Lemma st_bind_fail {S E A B} (m : stateful S E A) (f : A → stateful S E B) s e s' :
  m s = (Err e, s') → st_bind m f s = (Err e, s').
Proof. intros H. unfold st_bind. by rewrite H. Qed.

(** Where a panic or undefined behaviour of a [let!] comes from. *)
Lemma st_bind_ub {S E A B} (m : stateful S E A) (f : A → stateful S E B) s :
  (st_bind m f s).1 = Ub ↔
  (m s).1 = Ub ∨ ∃ a s', m s = (Ok a, s') ∧ (f a s').1 = Ub.
Proof. unfold st_bind. destruct (m s) as [[]]; naive_solver. Qed.

Lemma st_bind_panic {S E A B} (m : stateful S E A) (f : A → stateful S E B) s :
  (st_bind m f s).1 = Panic ↔
  (m s).1 = Panic ∨ ∃ a s', m s = (Ok a, s') ∧ (f a s').1 = Panic.
Proof. unfold st_bind. destruct (m s) as [[]]; naive_solver. Qed.

Lemma st_get_eq {S E} (s : S) : st_get (E := E) s = (Ok s, s).
Proof. done. Qed.

Lemma st_put_eq {S E} (s s' : S) : st_put (E := E) s' s = (Ok (), s').
Proof. done. Qed.

Lemma st_lift_eq {S E A} (m : outcome E A) (a : A) (s : S) :
  m = Ok a → st_lift m s = (Ok a, s).
Proof. by intros ->. Qed.

(** Taking a prefix of known length apart. *)
Lemma take_app_exact {A} (l k : list A) n : length l = n → take n (l ++ k) = l.
Proof. intros <-. by rewrite take_app_length. Qed.

Lemma drop_app_exact {A} (l k : list A) n : length l = n → drop n (l ++ k) = k.
Proof. intros <-. by rewrite drop_app_length. Qed.

(** A sublist that is as long as the list is the list. *)
Lemma sublist_all {A} (l k : list A) : l `sublist_of` k → length k ≤ length l → l = k.
Proof.
  induction 1 as [|x l k S IH|x l k S IH]; cbn; intros Hl; [done|f_equal; apply IH; lia|].
  apply sublist_length in S. lia.
Qed.

(** Fields of a fixed layout. *)
Lemma length_slice_at_le {A} i n (s : list A) : length (slice_at i n s) ≤ n.
Proof. unfold slice_at. rewrite length_take. lia. Qed.

Lemma slice_at_app {A} i n (s k : list A) : i + n ≤ length s → slice_at i n (s ++ k) = slice_at i n s.
Proof.
  intros H. unfold slice_at. rewrite drop_app_le by lia.
  rewrite take_app_le; [done|]. rewrite length_drop. lia.
Qed.

Lemma slice_at_take {A} i n m (s : list A) :
  i + n ≤ m → slice_at i n (take m s) = slice_at i n s.
Proof.
  intros H. unfold slice_at. replace m with (i + (m - i)) by lia.
  rewrite <- take_drop_commute, take_take. f_equal. lia.
Qed.

Lemma slice_at_first {A} (a b : list A) i n : i = 0 → n = length a → slice_at i n (a ++ b) = a.
Proof. intros -> ->. unfold slice_at. rewrite drop_0. apply take_app_length. Qed.

Lemma slice_at_later {A} (a b : list A) i n :
  length a ≤ i → slice_at i n (a ++ b) = slice_at (i - length a) n b.
Proof. intros Hi. unfold slice_at. by rewrite drop_app_ge. Qed.

Lemma slice_at_whole {A} (a : list A) n : n = length a → slice_at 0 n a = a.
Proof. intros ->. unfold slice_at. by rewrite drop_0, take_ge. Qed.

Lemma slice_at_all {A} (a b : list A) i n : i = 0 → n = length (a ++ b) → slice_at i n (a ++ b) = a ++ b.
Proof. intros -> ->. by apply slice_at_whole. Qed.

(** Splits a fixed-layout encoding into its fields. *)
Ltac solve_slices :=
  repeat match goal with
  | |- context [slice_at ?i ?n (?a ++ ?b)] =>
      first
        [ rewrite (slice_at_first a b i n) by (autorewrite with rusbmux_rw; simpl; done)
        | rewrite (slice_at_later a b i n) by (autorewrite with rusbmux_rw; simpl; lia);
          autorewrite with rusbmux_rw; cbn [Nat.sub]
        | rewrite (slice_at_all a b i n) by (rewrite ?length_app; autorewrite with rusbmux_rw; simpl; done) ]
  | |- context [slice_at 0 ?n ?a] =>
      rewrite (slice_at_whole a n) by (autorewrite with rusbmux_rw; done)
  end.

(** Rewrites a successful [st_bind] into its two halves, everywhere. *)
Ltac invert_binds :=
  repeat match goal with
  | H : st_bind _ _ _ = (Ok _, _) |- _ =>
      apply st_bind_ok in H; destruct H as (? & ? & ? & H)
  | H : st_map_err _ _ _ = (Ok _, _) |- _ => apply st_map_err_ok in H
  | H : outcome_bind _ _ = Ok _ |- _ =>
      apply outcome_bind_ok in H; destruct H as (? & ? & H)
  | H : st_ret _ _ = (Ok _, _) |- _ => unfold st_ret in H; simplify_eq
  | H : st_get _ = (Ok _, _) |- _ => unfold st_get in H; simplify_eq
  | H : st_put _ _ = (Ok _, _) |- _ => unfold st_put in H; simplify_eq
  | H : st_lift _ _ = (Ok _, _) |- _ => unfold st_lift in H; simplify_eq
  end.

(** Case analysis of the first [match] or [if] of the goal, keeping the equation. *)
Ltac case_step :=
  match goal with
  | |- context [match ?x with _ => _ end] =>
      lazymatch x with context [match _ with _ => _ end] => fail | _ => destruct x eqn:? end
  end.

#[global] Arguments be_encode : simpl never.
#[global] Arguments be_decode : simpl never.
#[global] Arguments le_encode : simpl never.
#[global] Arguments le_decode : simpl never.
#[global] Arguments byte_to_Z : simpl never.
#[global] Arguments Z_to_byte : simpl never.
#[global] Arguments wrap : simpl never.
