(* ===== verification/Text.v ===== *)
(** * Strings ([std::str], [std::path])

    The operations of the standard library on text that the watchers, the preflight
    and the command line use.  A Rust string is the [String.string] of its UTF-8
    bytes. *)

From Stdlib Require Import Strings.Ascii.
From S2P Require Import Prelude.

(** [s.split(c).next()]: what is before the first [c], all of it if there is none. *)
Fixpoint split_next (c : ascii) (s : string) : string :=
  match s with
  | EmptyString => ""
  | String.String x s => if Ascii.eqb x c then "" else String.String x (split_next c s)
  end.

Definition ascii_code (c : ascii) : Z := Z.of_N (Ascii.N_of_ascii c).

(** [c.to_digit(10)] *)
Definition digit_value (c : ascii) : option Z :=
  let n := ascii_code c in
  if decide (48 ≤ n ≤ 57)%Z then Some (n - 48)%Z else None.

Fixpoint parse_digits (acc : Z) (s : string) : option Z :=
  match s with
  | EmptyString => Some acc
  | String.String c s => digit_value c ≫= λ d, parse_digits (acc * 10 + d) s
  end.

(** [s.parse::<u32>().ok()]: an optional [+], at least one digit, no overflow.  (The
    value only grows from digit to digit: one test at the end is enough.) *)
Definition parse_u32 (s : string) : option Z :=
  let digits := match s with String.String "+" s => s | _ => s end in
  match digits with
  | EmptyString => None
  | _ => parse_digits 0 digits ≫= λ n, if decide (n < 2 ^ 32)%Z then Some n else None
  end.

(** [str::is_char_boundary]: the byte there does not continue a character. *)
Definition is_char_boundary (s : string) (i : nat) : bool :=
  match String.get i s with
  | None => i =? String.length s
  | Some c => negb (bool_decide (128 ≤ ascii_code c < 192)%Z)
  end.

(** [&s[..i]] and [&s[i..]], which panic off a boundary *)
Definition str_split_at {E} (i : nat) (s : string) : outcome E (string * string) :=
  if is_char_boundary s i
  then Ok (String.substring 0 i s, String.substring i (String.length s - i) s)
  else Panic.

(** ** [str::trim] *)

Definition ascii_of_code (n : N) : ascii := Ascii.ascii_of_N n.

(** The UTF-8 encodings of the characters with the property [White_Space] *)
Definition white_space : list (list ascii) :=
  map (map ascii_of_code)
    ([[9]; [10]; [11]; [12]; [13]; [32]; [0xC2; 0x85]; [0xC2; 0xA0]; [0xE1; 0x9A; 0x80];
      [0xE2; 0x80; 0xA8]; [0xE2; 0x80; 0xA9]; [0xE2; 0x80; 0xAF]; [0xE2; 0x81; 0x9F];
      [0xE3; 0x80; 0x80]]%N
     ++ map (λ n, [0xE2; 0x80; 0x80 + N.of_nat n]%N) (seq 0 11)).

Fixpoint strip_prefix (p l : list ascii) : option (list ascii) :=
  match p, l with
  | [], l => Some l
  | x :: p, y :: l => if Ascii.eqb x y then strip_prefix p l else None
  | _ :: _, [] => None
  end.

(** What is left of [l] after one of the prefixes [ws]. *)
Definition strip_one (ws : list (list ascii)) (l : list ascii) : option (list ascii) :=
  head (omap (λ w, strip_prefix w l) ws).

Fixpoint strip_all (fuel : nat) (ws : list (list ascii)) (l : list ascii) : list ascii :=
  match fuel with
  | O => l
  | S fuel => match strip_one ws l with Some l' => strip_all fuel ws l' | None => l end
  end.

Definition trim_list (l : list ascii) : list ascii :=
  let l := strip_all (length l) white_space l in
  reverse (strip_all (length l) (map reverse white_space) (reverse l)).

Definition trim (s : string) : string :=
  String.string_of_list_ascii (trim_list (String.list_ascii_of_string s)).

(** ** Searching and lines *)

(** [str::strip_prefix] *)
Definition str_strip_prefix (p s : string) : option string :=
  String.string_of_list_ascii <$>
    strip_prefix (String.list_ascii_of_string p) (String.list_ascii_of_string s).

(** [str::contains] *)
Fixpoint str_contains (p s : string) : bool :=
  String.prefix p s || match s with
                       | EmptyString => false
                       | String.String _ s => str_contains p s
                       end.

Definition LF : ascii := ascii_of_code 10.
Definition CR : ascii := ascii_of_code 13.

Definition starts_with_lf (s : string) : bool :=
  match s with String.String c _ => Ascii.eqb c LF | EmptyString => false end.

(** [str::lines]: the pieces that a line feed ends, without it and a carriage return
    before it, and what is left at the end if anything is. *)
Fixpoint str_lines (s : string) : list string :=
  match s with
  | EmptyString => []
  | String.String c s =>
      if Ascii.eqb c LF then "" :: str_lines s
      else if Ascii.eqb c CR && starts_with_lf s then str_lines s
      else match str_lines s with
           | [] => [String.String c ""]
           | l :: ls => String.String c l :: ls
           end
  end.

(** [l.trim().is_empty()] *)
Definition is_blank (l : string) : bool := String.eqb (trim l) "".

(** ** Paths *)

(** [Path::file_stem] of a path whose last component is a file name: the name
    without what follows its last dot, all of it when that dot comes first. *)
Fixpoint last_component (cur : string) (p : string) : string :=
  match p with
  | EmptyString => cur
  | String.String c p =>
      if Ascii.eqb c "/"%char then last_component "" p
      else last_component (cur +:+ String.String c "") p
  end.

(** Before the last dot, if there is one. *)
Fixpoint before_last_dot (s : string) : option string :=
  match s with
  | EmptyString => None
  | String.String c s =>
      match before_last_dot s with
      | Some b => Some (String.String c b)
      | None => if Ascii.eqb c "."%char then Some "" else None
      end
  end.

Definition file_stem (path : string) : option string :=
  let name := last_component "" path in
  if String.eqb name "" then None
  else if String.eqb name ".." then None
  else match before_last_dot name with
       | Some "" | None => Some name
       | Some stem => Some stem
       end.

Example file_stem_plist : file_stem "/var/lib/lockdown/00008030-001.plist" = Some "00008030-001".
Proof. reflexivity. Qed.

Example file_stem_hidden : file_stem "/var/lib/lockdown/.plist" = Some ".plist".
Proof. reflexivity. Qed.

Example trim_both : trim "  ab c
 " = "ab c".
Proof. vm_compute. reflexivity. Qed.

Example parse_u32_cases :
  (parse_u32 "17", parse_u32 "+09", parse_u32 "", parse_u32 "+", parse_u32 "1a", parse_u32 "4294967296")
  = (Some 17, Some 9, None, None, None, None)%Z.
Proof. vm_compute. reflexivity. Qed.

(** ** Lemmas *)

(** [split(c).next()] is a prefix without [c], followed by [c] or by nothing. *)
Lemma split_next_spec c s :
  ∃ rest, s = split_next c s +:+ rest ∧
    (rest = "" ∨ ∃ tail, rest = String.String c tail) ∧
    c ∉ String.list_ascii_of_string (split_next c s).
Proof.
  induction s as [|x s (rest & Hs & Hr & Hc)]; cbn [split_next].
  - exists "". split_and!; [reflexivity|left; reflexivity|cbn; intros H; inversion H].
  - destruct (Ascii.eqb x c) eqn:E.
    + apply Ascii.eqb_eq in E as ->. exists (String.String c s). split_and!; [reflexivity|eauto|cbn; intros H; inversion H].
    + exists rest. split_and!; [|done|].
      * change (String.String x s = String.String x (split_next c s +:+ rest)). by f_equal.
      * apply Ascii.eqb_neq in E. cbn. rewrite elem_of_cons. naive_solver.
Qed.

Lemma strip_prefix_app p l l' : strip_prefix p l = Some l' → l = p ++ l'.
Proof.
  revert l. induction p as [|x p IH]; intros [|y l]; cbn; try congruence.
  destruct (Ascii.eqb x y) eqn:E; [|done]. apply Ascii.eqb_eq in E as ->. intros H. f_equal. by apply IH.
Qed.

Lemma strip_one_app ws l l' : strip_one ws l = Some l' → ∃ w, w ∈ ws ∧ l = w ++ l'.
Proof.
  unfold strip_one. induction ws as [|w ws IH]; [done|]. cbn.
  destruct (strip_prefix w l) as [k|] eqn:E; cbn.
  - intros [= <-]. exists w. split; [by left|by apply strip_prefix_app].
  - intros H. destruct (IH H) as (v & ? & ?). exists v. split; [by right|done].
Qed.

Lemma strip_all_suffix fuel ws l : strip_all fuel ws l `suffix_of` l.
Proof.
  revert l. induction fuel as [|fuel IH]; intros l; cbn; [done|].
  destruct (strip_one ws l) as [l'|] eqn:E; [|done].
  apply strip_one_app in E as (w & _ & ->). etrans; [apply IH|]. by exists w.
Qed.

(** Nothing is left to strip. *)
Lemma strip_all_done fuel ws l :
  [] ∉ ws → length l ≤ fuel → strip_one ws (strip_all fuel ws l) = None.
Proof.
  intros Hw. revert l. induction fuel as [|fuel IH]; intros l Hl.
  - destruct l; [|cbn in Hl; lia]. cbn. destruct (strip_one ws []) as [l'|] eqn:E; [|done].
    apply strip_one_app in E as (w & Hin & E). symmetry in E. apply app_eq_nil in E as [-> _]. done.
  - cbn. destruct (strip_one ws l) as [l'|] eqn:E; [|done]. apply IH.
    apply strip_one_app in E as (w & Hin & ->). rewrite length_app in Hl.
    destruct w; [done|]. cbn in Hl. lia.
Qed.

(** [trim] takes something off both ends. *)
Lemma trim_factor l : ∃ a b, l = a ++ trim_list l ++ b.
Proof.
  unfold trim_list. set (m := strip_all (length l) white_space l).
  destruct (strip_all_suffix (length l) white_space l) as [a Ha]. fold m in Ha.
  destruct (strip_all_suffix (length m) (map reverse white_space) (reverse m)) as [b Hb].
  exists a, (reverse b). rewrite Ha at 1. f_equal.
  apply (f_equal reverse) in Hb. by rewrite reverse_involutive, reverse_app in Hb.
Qed.
