(* ===== verification/Io.v ===== *)
(** * I/O errors and byte streams

    [std::io::ErrorKind] as far as the daemon tells kinds apart, the parsers'
    error type ([src/error/mod.rs], [ParseError]), [is_disconnect_io]
    ([src/utils.rs], [src/bin/rusbmux/utils.rs]) and the byte stream the packet
    parsers and the client handlers work on: the bytes a peer is going to send,
    the error the stream ends with, the bytes written to it so far and the
    outcome of the writes to come. *)

From S2P Require Import Prelude.

(** [std::io::ErrorKind]: the kinds the source matches on, and any other. *)
Inductive ErrorKind : Type :=
| NotFound
| PermissionDenied
| ConnectionRefused
| ConnectionReset
| ConnectionAborted
| NetworkUnreachable
| NotConnected
| BrokenPipe
| UnexpectedEof
| OtherKind.

#[export] Instance ErrorKind_eq_dec : EqDecision ErrorKind.
Proof. solve_decision. Defined.

(** [utils::is_disconnect_io], the same function in the library and the daemon. *)
Definition is_disconnect_io (err : ErrorKind) : bool :=
  match err with
  | ConnectionReset | ConnectionAborted | BrokenPipe | UnexpectedEof => true
  | _ => false
  end.

Module ParseError.

(** [ParseError]; a [plist::Error] and an [etherparse] error are kept as their
    [Display] text. *)
Inductive t : Type :=
| IO (kind : ErrorKind)
| Plist (display : string)
| TcpHeaderSlice (display : string)
| InvalidData (msg : string).

End ParseError.

(** A connected socket or endpoint.  [s_in] is everything the peer is still
    going to send, [s_end] the error of a read past it ([UnexpectedEof] when the
    peer just closes), [s_out] what has been written.  [s_faults] scripts the
    writes: each [write_all] takes the head, [None] (or an empty script) lets it
    succeed, [Some (n, k)] makes it fail with kind [k] after [n] bytes. *)
Record stream : Type := Stream {
  s_in : list byte;
  s_end : ErrorKind;
  s_out : list byte;
  s_faults : list (option (nat * ErrorKind));
}.

Definition stream_of (bs : list byte) : stream := Stream bs UnexpectedEof [] [].

Definition set_in (bs : list byte) (s : stream) : stream :=
  Stream bs (s_end s) (s_out s) (s_faults s).

(** [AsyncReadExt::read_exact]: past the end all remaining bytes are consumed. *)
Definition stream_read_exact (n : nat) : stateful stream ErrorKind (list byte) := λ s,
  if decide (n ≤ length (s_in s))
  then (Ok (take n (s_in s)), set_in (drop n (s_in s)) s)
  else (Err (s_end s), set_in [] s).

#[export] Instance stream_reader : ByteReader stream ErrorKind := {
  read_exact := stream_read_exact;
  reader_data := s_in;
}.

(** [AsyncWriteExt::write_all]. *)
Definition write_all (bs : list byte) : stateful stream ErrorKind () := λ s,
  match s_faults s with
  | Some (n, k) :: fs => (Err k, Stream (s_in s) (s_end s) (s_out s ++ take n bs) fs)
  | None :: fs => (Ok (), Stream (s_in s) (s_end s) (s_out s ++ bs) fs)
  | [] => (Ok (), Stream (s_in s) (s_end s) (s_out s ++ bs) [])
  end.

(** ** Lemmas *)

#[export] Instance stream_reader_laws : ByteReaderLaws stream ErrorKind.
Proof.
  split; intros n r Hn; unfold read_exact, stream_reader, stream_read_exact in *; simpl in *.
  - rewrite decide_True by done. eexists; split; reflexivity.
  - rewrite decide_False by lia. eauto.
Qed.

(** Reading a prefix of known length off a stream. *)
Lemma stream_read_app bs k e out fs n :
  length bs = n → read_exact n (Stream (bs ++ k) e out fs) = (Ok bs, Stream k e out fs).
Proof.
  intros <-. unfold read_exact, stream_reader, stream_read_exact, set_in. cbn [s_in s_end s_out s_faults].
  rewrite length_app, decide_True by lia. by rewrite take_app_length, drop_app_length.
Qed.

(** Reading touches neither what has been written nor what writing will do. *)
Lemma stream_read_keeps out faults n (s : stream) :
  s_out s = out ∧ s_faults s = faults →
  s_out (read_exact n s).2 = out ∧ s_faults (read_exact n s).2 = faults.
Proof. unfold read_exact, stream_reader, stream_read_exact. by case_decide. Qed.

(** Writing only appends, and leaves the reading side alone. *)
Lemma write_all_prefix bs s r s' :
  write_all bs s = (r, s') →
  s_in s' = s_in s ∧ s_end s' = s_end s ∧ ∃ w, s_out s' = s_out s ++ w ∧ w `prefix_of` bs.
Proof.
  unfold write_all. intros H.
  repeat case_match; simplify_eq; simpl; split_and!; try done; eexists; split; try done.
  - exists (drop n bs). by rewrite take_drop.
Qed.

Lemma write_all_ok bs s a s' :
  write_all bs s = (Ok a, s') → s_out s' = s_out s ++ bs ∧ s_in s' = s_in s.
Proof. unfold write_all. intros. repeat case_match; by simplify_eq. Qed.

Lemma write_all_total bs s :
  (∃ s', write_all bs s = (Ok (), s')) ∨ (∃ k s', write_all bs s = (Err k, s')).
Proof. unfold write_all. repeat case_match; eauto. Qed.

Lemma write_all_faultless bs s :
  s_faults s = [] → write_all bs s = (Ok (), Stream (s_in s) (s_end s) (s_out s ++ bs) []).
Proof. intros H. unfold write_all. by rewrite H. Qed.
