(* ===== verification/Tcp.v ===== *)
(** * TCP headers

    [etherparse::TcpHeader] is third-party code: the record has the public
    fields of that struct, and its codec ([to_bytes], [from_slice]) is the
    class [TcpCodec], whose laws are the documented behaviour the program
    relies on.  [WireTcp] is an implementation of the RFC 9293 layout that
    satisfies them: the theorems about the program are proved from the laws,
    and their witnesses evaluate with [WireTcp]. *)

From S2P Require Import Prelude.

Record TcpHeader : Type := {
  source_port : Z;
  destination_port : Z;
  sequence_number : Z;
  acknowledgment_number : Z;
  ns : bool;
  fin : bool;
  syn : bool;
  rst : bool;
  psh : bool;
  ack : bool;
  urg : bool;
  ece : bool;
  cwr : bool;
  window_size : Z;
  checksum : Z;
  urgent_pointer : Z;
  options : list byte;
}.

(** [TcpHeader::MIN_LEN], [TcpHeader::header_len]. *)
Definition TCP_MIN_LEN : nat := 20.
Definition tcp_header_len (h : TcpHeader) : nat := TCP_MIN_LEN + length (options h).

(** [TcpHeader::new]: everything else is zero or unset. *)
Definition TcpHeader_new (source destination seq window : Z) : TcpHeader := {|
  source_port := source; destination_port := destination;
  sequence_number := seq; acknowledgment_number := 0;
  ns := false; fin := false; syn := false; rst := false; psh := false;
  ack := false; urg := false; ece := false; cwr := false;
  window_size := window; checksum := 0; urgent_pointer := 0; options := [];
|}.

(** The values the struct's field types admit. *)
Definition tcp_wf (h : TcpHeader) : Prop :=
  in_width 16 (source_port h) ∧ in_width 16 (destination_port h) ∧
  in_width 32 (sequence_number h) ∧ in_width 32 (acknowledgment_number h) ∧
  in_width 16 (window_size h) ∧ in_width 16 (checksum h) ∧
  in_width 16 (urgent_pointer h) ∧
  length (options h) ≤ 40 ∧ length (options h) `mod` 4 = 0.

Class TcpCodec : Type := {
  tcp_to_bytes : TcpHeader → list byte;
  (** [Ok]: the header and what follows it; [Err]: the error's [Display]. *)
  tcp_from_slice : list byte → outcome string (TcpHeader * list byte);
}.

Class TcpCodecLaws `{TcpCodec} : Prop := {
  length_tcp_to_bytes : ∀ h, tcp_wf h → length (tcp_to_bytes h) = tcp_header_len h;
  tcp_from_to_bytes : ∀ h rest, tcp_wf h →
    tcp_from_slice (tcp_to_bytes h ++ rest) = Ok (h, rest);
  tcp_from_slice_ok : ∀ s h rest, tcp_from_slice s = Ok (h, rest) →
    tcp_wf h ∧ rest = drop (tcp_header_len h) s ∧ tcp_header_len h ≤ length s;
  tcp_from_slice_total : ∀ s,
    (∃ h rest, tcp_from_slice s = Ok (h, rest)) ∨ (∃ e, tcp_from_slice s = Err e);
  (** the parser looks at the header's own bytes only *)
  tcp_from_slice_local : ∀ s h rest k, tcp_from_slice s = Ok (h, rest) →
    tcp_from_slice (take (tcp_header_len h) s ++ k) = Ok (h, k);
}.

(** ** The wire format *)

Definition flag_byte (h : TcpHeader) : Z :=
  Z.b2z (fin h) + 2 * Z.b2z (syn h) + 4 * Z.b2z (rst h) + 8 * Z.b2z (psh h)
  + 16 * Z.b2z (ack h) + 32 * Z.b2z (urg h) + 64 * Z.b2z (ece h) + 128 * Z.b2z (cwr h).

Definition wire_to_bytes (h : TcpHeader) : list byte :=
  be_encode 2 (source_port h) ++ be_encode 2 (destination_port h)
  ++ be_encode 4 (sequence_number h) ++ be_encode 4 (acknowledgment_number h)
  ++ [Z_to_byte (16 * (5 + Z.of_nat (length (options h)) `div` 4) + Z.b2z (ns h));
      Z_to_byte (flag_byte h)]
  ++ be_encode 2 (window_size h) ++ be_encode 2 (checksum h)
  ++ be_encode 2 (urgent_pointer h) ++ options h.

Definition wire_from_slice (s : list byte) : outcome string (TcpHeader * list byte) :=
  if decide (length s < TCP_MIN_LEN) then Err "slice too short for a TCP header" else
  let off := byte_to_Z (default Byte.x00 (s !! 12)) in
  let flags := byte_to_Z (default Byte.x00 (s !! 13)) in
  let doff := (off `div` 16)%Z in
  if decide (doff < 5)%Z then Err "data offset too small" else
  let olen := (4 * (Z.to_nat doff - 5))%nat in
  if decide (length s < TCP_MIN_LEN + olen) then Err "slice too short for the TCP options" else
  Ok ({| source_port := be_decode (slice_at 0 2 s);
         destination_port := be_decode (slice_at 2 2 s);
         sequence_number := be_decode (slice_at 4 4 s);
         acknowledgment_number := be_decode (slice_at 8 4 s);
         ns := Z.odd off;
         fin := Z.testbit flags 0; syn := Z.testbit flags 1;
         rst := Z.testbit flags 2; psh := Z.testbit flags 3;
         ack := Z.testbit flags 4; urg := Z.testbit flags 5;
         ece := Z.testbit flags 6; cwr := Z.testbit flags 7;
         window_size := be_decode (slice_at 14 2 s);
         checksum := be_decode (slice_at 16 2 s);
         urgent_pointer := be_decode (slice_at 18 2 s);
         options := slice_at 20 olen s |},
      drop (TCP_MIN_LEN + olen) s).

Definition WireTcp : TcpCodec := {|
  tcp_to_bytes := wire_to_bytes;
  tcp_from_slice := wire_from_slice;
|}.

(** ** [WireTcp] satisfies the laws *)

Lemma be_encode_2 x : in_width 16 x →
  ∃ a b, be_encode 2 x = [a; b] ∧ be_decode [a; b] = x.
Proof.
  intros H. destruct (be_encode 2 x) as [|a [|b [|]]] eqn:E;
    apply (f_equal length) in E as L; rewrite length_be_encode in L; try discriminate L.
  exists a, b. split; [done|]. rewrite <- E. by apply be_decode_encode.
Qed.

Lemma be_encode_4 x : in_width 32 x →
  ∃ a b c d, be_encode 4 x = [a; b; c; d] ∧ be_decode [a; b; c; d] = x.
Proof.
  intros H. destruct (be_encode 4 x) as [|a [|b [|c [|d [|]]]]] eqn:E;
    apply (f_equal length) in E as L; rewrite length_be_encode in L; try discriminate L.
  exists a, b, c, d. split; [done|]. rewrite <- E. by apply be_decode_encode.
Qed.

Lemma in_width_be_decode n w s :
  w = (8 * Z.of_nat n)%Z → length s ≤ n → in_width w (be_decode s).
Proof.
  intros -> Hn. pose proof (be_decode_range s) as [H0 H1]. split; [done|].
  eapply Z.lt_le_trans; [exact H1|]. apply Z.pow_le_mono_r; lia.
Qed.

Lemma flag_byte_testbits h :
  byte_to_Z (Z_to_byte (flag_byte h)) = flag_byte h ∧
  Z.testbit (flag_byte h) 0 = fin h ∧ Z.testbit (flag_byte h) 1 = syn h ∧
  Z.testbit (flag_byte h) 2 = rst h ∧ Z.testbit (flag_byte h) 3 = psh h ∧
  Z.testbit (flag_byte h) 4 = ack h ∧ Z.testbit (flag_byte h) 5 = urg h ∧
  Z.testbit (flag_byte h) 6 = ece h ∧ Z.testbit (flag_byte h) 7 = cwr h.
Proof.
  unfold flag_byte.
  destruct (fin h), (syn h), (rst h), (psh h), (ack h), (urg h), (ece h), (cwr h);
    repeat split.
Qed.

Lemma offset_byte n b :
  n ≤ 40 → n `mod` 4 = 0 →
  let o := byte_to_Z (Z_to_byte (16 * (5 + Z.of_nat n `div` 4) + Z.b2z b)) in
  (o `div` 16)%Z = (5 + Z.of_nat n `div` 4)%Z ∧ Z.odd o = b ∧
  (4 * (Z.to_nat (5 + Z.of_nat n `div` 4) - 5))%nat = n.
Proof.
  intros Hn Hm o. subst o. rewrite byte_to_Z_to_byte, wrap_small.
  2:{ split; destruct b; simpl; [| |..]; try apply Z.lt_le_incl;
      pose proof (Z.div_pos (Z.of_nat n) 4 ltac:(lia) ltac:(lia));
      assert (Z.of_nat n `div` 4 ≤ 10)%Z by (apply Z.div_le_upper_bound; lia); lia. }
  apply Nat.Div0.mod_divides in Hm as [k ->].
  assert (Z.of_nat (4 * k) `div` 4 = Z.of_nat k)%Z as ->
    by (rewrite Nat2Z.inj_mul, Z.mul_comm; apply Z.div_mul; lia).
  split_and!.
  - rewrite Z.mul_comm, Z.div_add_l by lia. destruct b; simpl; rewrite ?Z.add_0_r; done.
  - rewrite Z.odd_add, Z.odd_mul. by destruct b.
  - lia.
Qed.

Lemma wire_from_to_bytes h rest :
  tcp_wf h → wire_from_slice (wire_to_bytes h ++ rest) = Ok (h, rest).
Proof.
  intros (Hsp & Hdp & Hseq & Hack & Hwin & Hck & Hurg & Hopt & Hmod).
  unfold wire_to_bytes, wire_from_slice.
  destruct (be_encode_2 _ Hsp) as (a1 & a2 & -> & E1).
  destruct (be_encode_2 _ Hdp) as (b1 & b2 & -> & E2).
  destruct (be_encode_4 _ Hseq) as (c1 & c2 & c3 & c4 & -> & E3).
  destruct (be_encode_4 _ Hack) as (d1 & d2 & d3 & d4 & -> & E4).
  destruct (be_encode_2 _ Hwin) as (e1 & e2 & -> & E5).
  destruct (be_encode_2 _ Hck) as (f1 & f2 & -> & E6).
  destruct (be_encode_2 _ Hurg) as (g1 & g2 & -> & E7).
  destruct (offset_byte (length (options h)) (ns h) Hopt Hmod) as (O1 & O2 & O3).
  destruct (flag_byte_testbits h) as (F0 & F1 & F2 & F3 & F4 & F5 & F6 & F7 & F8).
  cbn [app lookup list_lookup default from_option id].
  rewrite decide_False by (simpl; unfold TCP_MIN_LEN; lia).
  rewrite O1, O2, O3, F0, F1, F2, F3, F4, F5, F6, F7, F8.
  rewrite decide_False
    by (pose proof (Z.div_pos (Z.of_nat (length (options h))) 4); lia).
  rewrite decide_False by (simpl; rewrite length_app; unfold TCP_MIN_LEN; lia).
  unfold slice_at. cbn [drop take]. rewrite take_0, drop_0.
  rewrite E1, E2, E3, E4, E5, E6, E7.
  unfold TCP_MIN_LEN. cbn [Nat.add drop].
  rewrite take_app_length, drop_app_length. by destruct h.
Qed.

Lemma wire_from_slice_ok s h rest :
  wire_from_slice s = Ok (h, rest) →
  tcp_wf h ∧ rest = drop (tcp_header_len h) s ∧ tcp_header_len h ≤ length s.
Proof.
  intros H. unfold wire_from_slice in H.
  pose proof (byte_to_Z_range (default Byte.x00 (s !! 12))) as Hr.
  set (o := byte_to_Z (default Byte.x00 (s !! 12))) in *.
  assert (o `div` 16 < 16)%Z as Ho by (apply Z.div_lt_upper_bound; lia).
  remember (4 * (Z.to_nat (o `div` 16) - 5)) as olen eqn:Eo.
  assert (olen ≤ 40 ∧ olen `mod` 4 = 0) as [Hle Hmod].
  { subst olen. split; [lia|]. rewrite Nat.mul_comm. apply Nat.Div0.mod_mul. }
  clear Eo. repeat case_decide; try discriminate. simplify_eq.
  assert (Hl : length (slice_at 20 olen s) = olen).
  { unfold slice_at. rewrite length_take, length_drop. unfold TCP_MIN_LEN in *. lia. }
  unfold tcp_wf, tcp_header_len.
  cbn [source_port destination_port sequence_number acknowledgment_number
       window_size checksum urgent_pointer options].
  rewrite Hl. split_and!; try (eapply in_width_be_decode; [|apply length_slice_at_le]; done).
  all: unfold TCP_MIN_LEN in *; first [done | lia].
Qed.

Lemma wire_from_slice_local s h rest k :
  wire_from_slice s = Ok (h, rest) →
  wire_from_slice (take (tcp_header_len h) s ++ k) = Ok (h, k).
Proof.
  intros H. unfold wire_from_slice in *.
  destruct (decide (length s < TCP_MIN_LEN)) as [|Hs]; [done|].
  case_decide as H5; [done|]. case_decide as Hl; [done|].
  set (off := byte_to_Z (default Byte.x00 (s !! 12))) in *.
  remember (4 * (Z.to_nat (off `div` 16) - 5)) as olen eqn:Eo.
  assert (Hlen : tcp_header_len h = TCP_MIN_LEN + olen).
  { simplify_eq. unfold tcp_header_len. cbn [options]. unfold slice_at.
    rewrite length_take, length_drop. unfold TCP_MIN_LEN in *. lia. }
  rewrite Hlen. unfold TCP_MIN_LEN in *. remember (20 + olen) as n eqn:En.
  assert (Hlt : length (take n s) = n) by (rewrite length_take; lia).
  rewrite decide_False by (rewrite length_app, Hlt; lia).
  rewrite !lookup_app_l by lia. rewrite !lookup_take_lt by lia. fold off.
  rewrite decide_False by done. rewrite <- Eo.
  rewrite decide_False by (rewrite length_app, Hlt; lia).
  rewrite !slice_at_app, !slice_at_take by lia.
  rewrite <- En, drop_app_exact by done. by simplify_eq.
Qed.

#[export] Instance WireTcp_laws : @TcpCodecLaws WireTcp.
Proof.
  split; cbn [tcp_to_bytes tcp_from_slice WireTcp].
  - intros h _. unfold wire_to_bytes, tcp_header_len, TCP_MIN_LEN.
    rewrite !length_app. autorewrite with rusbmux_rw. simpl. lia.
  - apply wire_from_to_bytes.
  - apply wire_from_slice_ok.
  - intros s. unfold wire_from_slice. repeat case_decide; eauto.
  - apply wire_from_slice_local.
Qed.
