(* ===== verification/Utf8.v ===== *)
(** * UTF-8 and [String::from_utf8_lossy]

    A Rust [String] is its list of bytes.  [utf8_head] is one step of the
    standard library's decoder: the length of the character at the head of the
    input, or of the maximal invalid part there; [from_utf8_lossy] replaces each
    invalid part by U+FFFD, as the control-packet decoder of
    [src/parser/device_mux/mod.rs] does with a device's error message. *)

From S2P Require Import Prelude.

Definition rust_string : Type := list byte.

Definition between (lo hi : Z) (b : byte) : bool :=
  ((lo <=? byte_to_Z b) && (byte_to_Z b <=? hi))%Z.

Definition is_cont : byte → bool := between 0x80 0xBF.

(** The second byte a three- or four-byte sequence allows after its first. *)
Definition second_ok (b0 : byte) : byte → bool :=
  match byte_to_Z b0 with
  | 0xE0 => between 0xA0 0xBF
  | 0xED => between 0x80 0x9F
  | 0xF0 => between 0x90 0xBF
  | 0xF4 => between 0x80 0x8F
  | _ => is_cont
  end%Z.

(** [(true, n)]: a character of [n] bytes; [(false, n)]: [n] invalid bytes. *)
Definition utf8_head (bs : list byte) : bool * nat :=
  match bs with
  | [] => (false, 0)
  | b0 :: r =>
    if between 0 0x7F b0 then (true, 1)
    else if between 0xC2 0xDF b0 then
      match r with
      | b1 :: _ => if is_cont b1 then (true, 2) else (false, 1)
      | [] => (false, 1)
      end
    else if between 0xE0 0xEF b0 then
      match r with
      | b1 :: r => if second_ok b0 b1 then
          match r with
          | b2 :: _ => if is_cont b2 then (true, 3) else (false, 2)
          | [] => (false, 2)
          end else (false, 1)
      | [] => (false, 1)
      end
    else if between 0xF0 0xF4 b0 then
      match r with
      | b1 :: r => if second_ok b0 b1 then
          match r with
          | b2 :: r => if is_cont b2 then
              match r with
              | b3 :: _ => if is_cont b3 then (true, 4) else (false, 3)
              | [] => (false, 3)
              end else (false, 2)
          | [] => (false, 2)
          end else (false, 1)
      | [] => (false, 1)
      end
    else (false, 1)
  end.

Definition replacement : list byte := [Byte.xef; Byte.xbf; Byte.xbd].

Fixpoint lossy_go (fuel : nat) (bs : list byte) : list byte :=
  match fuel, bs with
  | S fuel, _ :: _ =>
    let '(valid, n) := utf8_head bs in
    (if valid then take n bs else replacement) ++ lossy_go fuel (drop n bs)
  | _, _ => []
  end.

(** [String::from_utf8_lossy(bs).to_string()]; every step consumes a byte, so
    the input's length is enough fuel. *)
Definition from_utf8_lossy (bs : list byte) : rust_string := lossy_go (length bs) bs.

Fixpoint valid_go (fuel : nat) (bs : list byte) : bool :=
  match fuel, bs with
  | _, [] => true
  | O, _ => false
  | S fuel, _ =>
    let '(valid, n) := utf8_head bs in valid && valid_go fuel (drop n bs)
  end.

Definition valid_utf8 (bs : list byte) : bool := valid_go (length bs) bs.

(** ** Lemmas *)

Lemma utf8_head_bounds b bs : 1 ≤ (utf8_head (b :: bs)).2 ≤ length (b :: bs).
Proof. unfold utf8_head. repeat case_match; simpl; lia. Qed.

(** A character is recognised by its own bytes. *)
Lemma utf8_head_local bs n k :
  utf8_head bs = (true, n) → utf8_head (take n bs ++ k) = (true, n) ∧ n ≤ length bs.
Proof.
  intros H. unfold utf8_head in H.
  repeat (case_match; simplify_eq); simpl; (split; [|lia]);
    repeat match goal with E : _ = true |- _ => rewrite E; clear E
                         | E : _ = false |- _ => rewrite E; clear E end; done.
Qed.

Lemma valid_go_lossy fuel bs : valid_go fuel bs = true → lossy_go fuel bs = bs.
Proof.
  revert bs. induction fuel as [|fuel IH]; intros [|b bs]; try done.
  cbn [valid_go lossy_go]. destruct (utf8_head (b :: bs)) as [[] n]; [|done].
  simpl (true && _). intros H. rewrite IH by done. apply take_drop.
Qed.

Lemma lossy_valid bs : valid_utf8 bs = true → from_utf8_lossy bs = bs.
Proof. apply valid_go_lossy. Qed.

Lemma valid_go_fuel fuel bs : length bs ≤ fuel → valid_go fuel bs = valid_utf8 bs.
Proof.
  unfold valid_utf8. revert bs.
  assert (G : ∀ n bs m, length bs ≤ n → length bs ≤ m → valid_go n bs = valid_go m bs).
  { induction n as [|n IH]; intros [|b bs] [|m]; simpl length; intros ??; try lia; try done.
    cbn [valid_go]. pose proof (utf8_head_bounds b bs) as Hb.
    destruct (utf8_head (b :: bs)) as [[] k]; simpl in *; [|done].
    apply IH; rewrite length_drop; simpl; lia. }
  intros bs H. by apply G.
Qed.

Lemma valid_utf8_app c n k :
  utf8_head c = (true, n) → n = length c → valid_utf8 (c ++ k) = valid_utf8 k.
Proof.
  intros H ->. apply (utf8_head_local _ _ k) in H as [H _].
  rewrite take_ge in H by done. unfold valid_utf8 at 1.
  destruct c as [|b c]; [done|].
  rewrite length_app. cbn [length Nat.add valid_go app].
  simpl app in H. rewrite H. cbn [andb].
  change (b :: c ++ k) with ((b :: c) ++ k).
  rewrite drop_app_exact by done. apply valid_go_fuel. lia.
Qed.

Lemma lossy_go_valid fuel bs : length bs ≤ fuel → valid_utf8 (lossy_go fuel bs) = true.
Proof.
  revert bs. induction fuel as [|fuel IH]; intros [|b bs] Hl; try done.
  cbn [lossy_go]. pose proof (utf8_head_bounds b bs) as Hb.
  destruct (utf8_head (b :: bs)) as [v n] eqn:E; cbn [snd] in Hb.
  assert (Hrest : valid_utf8 (lossy_go fuel (drop n (b :: bs))) = true).
  { apply IH. rewrite length_drop. simpl length in *. lia. }
  destruct v.
  - rewrite (valid_utf8_app _ n); [done| |].
    + apply (utf8_head_local _ _ []) in E as [E _]. by rewrite app_nil_r in E.
    + rewrite length_take. lia.
  - by rewrite (valid_utf8_app _ 3).
Qed.

(** The message a control packet decodes to is always a well-formed string. *)
Lemma from_utf8_lossy_valid bs : valid_utf8 (from_utf8_lossy bs) = true.
Proof. by apply lossy_go_valid. Qed.

Lemma from_utf8_lossy_nil bs : from_utf8_lossy bs = [] ↔ bs = [].
Proof.
  split; [|by intros ->]. destruct bs as [|b bs]; [done|].
  unfold from_utf8_lossy. cbn [length lossy_go].
  pose proof (utf8_head_bounds b bs) as Hb.
  destruct (utf8_head (b :: bs)) as [[] n]; [|done].
  destruct n; simpl in *; [lia|done].
Qed.
