(* ===== verification/DeviceMux.v ===== *)
(** * The device-mux packet format ([src/parser/device_mux/mod.rs])

    Packets exchanged with the device over USB: a version-1 header (version
    packets) or a version-2 header, then a TCP header for TCP packets, then the
    payload, all big-endian.  [packet_from_slice] and [packet_from_reader] are
    the two parsers, [packet_encode] the printer.  A record of big-endian
    wrappers ([pack1::U32BE]) that [bytemuck] casts to and from bytes is the
    record of its integers, with [be_encode]/[be_decode] at the cast. *)

From S2P Require Import Prelude Io Tcp Utf8.

(** ** Data *)

Inductive UsbDevicePacketProtocol : Type := Version | Control | Setup | Tcp.

Record UsbDevicePacketHeaderV1 : Type := HeaderV1 {
  v1_protocol : Z;
  v1_length : Z;
}.

Record UsbDevicePacketHeaderV2 : Type := HeaderV2 {
  v2_protocol : Z;
  v2_length : Z;
  v2_magic : Z;
  v2_send_seq : Z;
  v2_recv_seq : Z;
}.

Inductive UsbDevicePacketHeader : Type :=
| V1 (h : UsbDevicePacketHeaderV1)
| V2 (h : UsbDevicePacketHeaderV2).

Record UsbDevicePacketVersion : Type := PacketVersion {
  major : Z;
  minor : Z;
  padding : Z;
}.

Inductive UsbDevicePacketPayload : Type :=
| PayloadBytes (b : list byte)
| PayloadVersion (v : UsbDevicePacketVersion)
| PayloadError (error_code : option byte) (message : option rust_string).

Record UsbDevicePacket : Type := Packet {
  header : UsbDevicePacketHeader;
  tcp_hdr : option TcpHeader;
  payload : UsbDevicePacketPayload;
}.

Definition HEADER_V1_SIZE : nat := 8.
Definition HEADER_V2_SIZE : nat := 16.
Definition PACKET_VERSION_SIZE : nat := 12.
Definition DEVICE_MUX_HEADER_V2_MAGIC : Z := 0xfeedface.

(** [UsbDevicePacket::HEADERS_LEN_V2] *)
Definition HEADERS_LEN_V2 : nat := HEADER_V2_SIZE + TCP_MIN_LEN.

(** ** [UsbDevicePacketProtocol] *)

(** [protocol as u32] *)
Definition protocol_as_u32 (p : UsbDevicePacketProtocol) : Z :=
  match p with Version => 0 | Control => 1 | Setup => 2 | Tcp => 6 end.

Definition protocol_encode (p : UsbDevicePacketProtocol) : list byte :=
  be_encode 4 (protocol_as_u32 p).

Definition bad_protocol (value : Z) : string :=
  "`" +:+ pretty value +:+ "` is not a valid device mux protocol".

(** [UsbDevicePacketProtocol::new], on a [[u8; 4]] *)
Definition protocol_new (v : list byte) : outcome ParseError.t UsbDevicePacketProtocol :=
  match be_decode v with
  | 0 => Ok Version
  | 1 => Ok Control
  | 2 => Ok Setup
  | 6 => Ok Tcp
  | value => Err (ParseError.InvalidData (bad_protocol value))
  end%Z.

(** [TryFrom<u32>], and [TryFrom<[u8; 4]>] which goes through it *)
Definition protocol_try_from_u32 (value : Z) : outcome string UsbDevicePacketProtocol :=
  match value with
  | 0 => Ok Version
  | 1 => Ok Control
  | 2 => Ok Setup
  | 6 => Ok Tcp
  | _ => Err (bad_protocol value)
  end%Z.

Definition protocol_try_from_bytes (value : list byte) : outcome string UsbDevicePacketProtocol :=
  protocol_try_from_u32 (be_decode value).

(** [from_u32_unchecked] transmutes: undefined behaviour off the discriminants. *)
Definition from_u32_unchecked (v : Z) : outcome ParseError.t UsbDevicePacketProtocol :=
  match v with
  | 0 => Ok Version
  | 1 => Ok Control
  | 2 => Ok Setup
  | 6 => Ok Tcp
  | _ => Ub
  end%Z.

(** ** Headers *)

Definition header_v1_new (protocol : UsbDevicePacketProtocol) (length : Z)
  : UsbDevicePacketHeaderV1 := HeaderV1 (protocol_as_u32 protocol) length.

(** [length as u32] truncates. *)
Definition header_v2_new (protocol : UsbDevicePacketProtocol) (length : nat)
    (send_seq recv_seq : Z) : UsbDevicePacketHeaderV2 :=
  HeaderV2 (protocol_as_u32 protocol) (wrap 32 (Z.of_nat length))
    DEVICE_MUX_HEADER_V2_MAGIC send_seq recv_seq.

(** [bytemuck::from_bytes] on an array of the struct's size *)
Definition header_v1_decode (h : list byte) : UsbDevicePacketHeaderV1 :=
  HeaderV1 (be_decode (slice_at 0 4 h)) (be_decode (slice_at 4 4 h)).

Definition header_v1_encode (h : UsbDevicePacketHeaderV1) : list byte :=
  be_encode 4 (v1_protocol h) ++ be_encode 4 (v1_length h).

Definition header_v2_decode (h : list byte) : UsbDevicePacketHeaderV2 :=
  HeaderV2 (be_decode (slice_at 0 4 h)) (be_decode (slice_at 4 4 h))
    (be_decode (slice_at 8 4 h)) (be_decode (slice_at 12 2 h)) (be_decode (slice_at 14 2 h)).

Definition header_v2_encode (h : UsbDevicePacketHeaderV2) : list byte :=
  be_encode 4 (v2_protocol h) ++ be_encode 4 (v2_length h) ++ be_encode 4 (v2_magic h)
  ++ be_encode 2 (v2_send_seq h) ++ be_encode 2 (v2_recv_seq h).

Definition as_v1 (h : UsbDevicePacketHeader) : option UsbDevicePacketHeaderV1 :=
  match h with V1 v1 => Some v1 | V2 _ => None end.

Definition as_v2 (h : UsbDevicePacketHeader) : option UsbDevicePacketHeaderV2 :=
  match h with V2 v2 => Some v2 | V1 _ => None end.

Definition header_size (h : UsbDevicePacketHeader) : nat :=
  match h with V1 _ => HEADER_V1_SIZE | V2 _ => HEADER_V2_SIZE end.

Definition get_protocol (h : UsbDevicePacketHeader) : outcome ParseError.t UsbDevicePacketProtocol :=
  from_u32_unchecked (match h with V1 h => v1_protocol h | V2 h => v2_protocol h end).

Definition get_length (h : UsbDevicePacketHeader) : Z :=
  match h with V1 h => v1_length h | V2 h => v2_length h end.

(** [let h = &s[..n]; *s = &s[n..]]: slicing past the end panics.  The
    [try_into().unwrap_unchecked()] on the result is an array of that length. *)
Definition advance_exact {E} (n : nat) : stateful (list byte) E (list byte) := λ s,
  if decide (n ≤ length s) then (Ok (take n s), drop n s) else (Panic, s).

Definition header_from_slice : stateful (list byte) ParseError.t UsbDevicePacketHeader :=
  let! s := st_get in
  if decide (length s < 4)
  then st_lift (Err (ParseError.InvalidData "slice too short for header"))
  else
    let! protocol := st_lift (protocol_new (take 4 s)) in
    match protocol with
    | Version =>
        let! h := advance_exact HEADER_V1_SIZE in st_ret (V1 (header_v1_decode h))
    | Tcp | Setup | Control =>
        let! h := advance_exact HEADER_V2_SIZE in st_ret (V2 (header_v2_decode h))
    end.

Definition header_encode (h : UsbDevicePacketHeader) : list byte :=
  match h with V1 v1 => header_v1_encode v1 | V2 v2 => header_v2_encode v2 end.

(** ** Payloads *)

Definition packet_version_new (major minor padding : Z) : UsbDevicePacketVersion :=
  PacketVersion major minor padding.

(** [bytemuck::from_bytes] on a slice panics unless it has the struct's size. *)
Definition packet_version_decode (payload : list byte)
  : outcome ParseError.t UsbDevicePacketVersion :=
  if decide (length payload = PACKET_VERSION_SIZE)
  then Ok (PacketVersion (be_decode (slice_at 0 4 payload)) (be_decode (slice_at 4 4 payload))
             (be_decode (slice_at 8 4 payload)))
  else Panic.

Definition packet_version_encode (v : UsbDevicePacketVersion) : list byte :=
  be_encode 4 (major v) ++ be_encode 4 (minor v) ++ be_encode 4 (padding v).

Definition payload_len (p : UsbDevicePacketPayload) : nat :=
  match p with
  | PayloadBytes b => length b
  | PayloadVersion _ => PACKET_VERSION_SIZE
  | PayloadError (Some _) (Some m) => length m + 1
  | PayloadError (Some _) None => 1
  | PayloadError None _ => 0
  end.

Definition payload_is_empty (p : UsbDevicePacketPayload) : bool := payload_len p =? 0.

Definition payload_decode (payload : list byte) (protocol : UsbDevicePacketProtocol)
  : outcome ParseError.t UsbDevicePacketPayload :=
  match protocol with
  | Version => let? v := packet_version_decode payload in Ok (PayloadVersion v)
  | Control =>
      Ok match payload with
         | [] => PayloadError None None
         | [c] => PayloadError (Some c) None
         | c :: m => PayloadError (Some c) (Some (from_utf8_lossy m))
         end
  | Setup | Tcp => Ok (PayloadBytes payload)
  end.

Definition payload_encode (p : UsbDevicePacketPayload) : list byte :=
  match p with
  | PayloadBytes b => b
  | PayloadVersion v => packet_version_encode v
  | PayloadError None _ => []
  | PayloadError (Some e) None => [e]
  | PayloadError (Some e) (Some m) => e :: m
  end.

Definition as_bytes (p : UsbDevicePacketPayload) : option (list byte) :=
  match p with PayloadBytes r => Some r | _ => None end.

Definition as_version (p : UsbDevicePacketPayload) : option UsbDevicePacketVersion :=
  match p with PayloadVersion v => Some v | _ => None end.

(** ** Packets *)

Section codec.
Context {codec : TcpCodec}.

Definition tcp_hdr_len (t : option TcpHeader) : nat :=
  match t with Some h => tcp_header_len h | None => 0 end.

Definition is_tcp (p : UsbDevicePacketProtocol) : bool :=
  match p with Tcp => true | _ => false end.

Definition too_short (total_length : Z) (total_header_len : nat) : ParseError.t :=
  ParseError.InvalidData ("packet length " +:+ pretty total_length
    +:+ " is less than header size " +:+ pretty total_header_len).

(** [UsbDevicePacket::from_slice]: [s] is advanced past what was parsed. *)
Definition packet_from_slice : stateful (list byte) ParseError.t UsbDevicePacket :=
  let! s0 := st_get in
  let! header := header_from_slice in
  let! protocol := st_lift (get_protocol header) in
  let! s1 := st_get in
  let consumed := length s0 - length s1 in
  let! tcp_hdr :=
    if is_tcp protocol && bool_decide (is_Some (as_v2 header)) then
      let! (h, rest) := st_lift (map_err (λ err, ParseError.InvalidData
        ("failed to parse TCP header from slice: " +:+ err)) (tcp_from_slice s1)) in
      let! _ := st_put rest in
      st_ret (Some h)
    else st_ret None in
  let total_header_len := header_size header + tcp_hdr_len tcp_hdr in
  let total_length := get_length header in
  if decide (total_length < Z.of_nat total_header_len)%Z
  then st_lift (Err (too_short total_length total_header_len))
  else
    let payload_len := Z.to_nat total_length - total_header_len in
    let! s := st_get in
    if decide (length s < payload_len)
    then st_lift (Err (ParseError.InvalidData ("packet length " +:+ pretty total_length
           +:+ " exceeds remaining slice length " +:+ pretty (length s + consumed))))
    else
      let! _ := st_put (drop payload_len s) in
      let! payload := st_lift (payload_decode (take payload_len s) protocol) in
      st_ret (Packet header tcp_hdr payload).

Definition packet_encode (p : UsbDevicePacket) : list byte :=
  header_encode (header p)
  ++ match tcp_hdr p with Some h => tcp_to_bytes h | None => [] end
  ++ payload_encode (payload p).

(** [get_payload_len_from_headers]: two [usize] subtractions.  An underflow
    panics with overflow checks (a debug build) and wraps without. *)
Definition get_payload_len_from_headers {E} (overflow_checks : bool) (p : UsbDevicePacket)
  : outcome E Z :=
  let n := (get_length (header p) - Z.of_nat (header_size (header p))
            - Z.of_nat (tcp_hdr_len (tcp_hdr p)))%Z in
  if overflow_checks && (n <? 0)%Z then Panic else Ok (wrap 64 n).

Section reader.
Context {R : Type} {reader : ByteReader R ErrorKind}.

Definition read_exact_io (n : nat) : stateful R ParseError.t (list byte) :=
  st_map_err ParseError.IO (read_exact n).

Definition header_from_reader : stateful R ParseError.t UsbDevicePacketHeader :=
  let! b1 := read_exact_io HEADER_V1_SIZE in
  let! protocol := st_lift (protocol_new (take 4 b1)) in
  match protocol with
  | Version => st_ret (V1 (header_v1_decode b1))
  | Tcp | Setup | Control =>
      let! b2 := read_exact_io (HEADER_V2_SIZE - HEADER_V1_SIZE) in
      st_ret (V2 (header_v2_decode (b1 ++ b2)))
  end.

Definition packet_from_reader : stateful R ParseError.t UsbDevicePacket :=
  let! header := header_from_reader in
  let! protocol := st_lift (get_protocol header) in
  let! tcp_hdr :=
    if is_tcp protocol then
      let! tcp_hdr_buff := read_exact_io TCP_MIN_LEN in
      let! (h, _) := st_lift (map_err ParseError.TcpHeaderSlice (tcp_from_slice tcp_hdr_buff)) in
      st_ret (Some h)
    else st_ret None in
  let total_header_len := header_size header + tcp_hdr_len tcp_hdr in
  let total_length := get_length header in
  if decide (total_length < Z.of_nat total_header_len)%Z
  then st_lift (Err (too_short total_length total_header_len))
  else
    let payload_len := Z.to_nat total_length - total_header_len in
    let! payload := read_exact_io payload_len in
    let! payload := st_lift (payload_decode payload protocol) in
    st_ret (Packet header tcp_hdr payload).

End reader.
End codec.

(** ** Well-formedness

    What a packet must satisfy for its bytes to parse back: field widths, the
    discriminant the header's version allows, the payload form its protocol
    has, and a length field that counts the whole packet. *)

Definition header_ok (h : UsbDevicePacketHeader) : Prop :=
  match h with
  | V1 h => v1_protocol h = protocol_as_u32 Version ∧ in_width 32 (v1_length h)
  | V2 h => (v2_protocol h = protocol_as_u32 Control ∨ v2_protocol h = protocol_as_u32 Setup
             ∨ v2_protocol h = protocol_as_u32 Tcp)
            ∧ in_width 32 (v2_length h) ∧ in_width 32 (v2_magic h)
            ∧ in_width 16 (v2_send_seq h) ∧ in_width 16 (v2_recv_seq h)
  end.

Definition payload_ok (protocol : UsbDevicePacketProtocol) (p : UsbDevicePacketPayload) : Prop :=
  match protocol, p with
  | Version, PayloadVersion v =>
      in_width 32 (major v) ∧ in_width 32 (minor v) ∧ in_width 32 (padding v)
  | Control, PayloadError None None | Control, PayloadError (Some _) None => True
  | Control, PayloadError (Some _) (Some m) => m ≠ [] ∧ valid_utf8 m = true
  | (Setup | Tcp), PayloadBytes _ => True
  | _, _ => False
  end.

Definition packet_ok (p : UsbDevicePacket) : Prop :=
  header_ok (header p) ∧
  ∃ protocol, get_protocol (header p) = Ok protocol ∧
    payload_ok protocol (payload p) ∧
    match tcp_hdr p with Some h => protocol = Tcp ∧ tcp_wf h | None => protocol ≠ Tcp end ∧
    get_length (header p) =
      Z.of_nat (header_size (header p) + tcp_hdr_len (tcp_hdr p) + payload_len (payload p)).

(** ** Lemmas: headers *)

Lemma protocol_new_ok v p : protocol_new v = Ok p → be_decode v = protocol_as_u32 p.
Proof. unfold protocol_new. intros. repeat case_match; simplify_eq; done. Qed.

Lemma protocol_new_as_u32 v p : be_decode v = protocol_as_u32 p → protocol_new v = Ok p.
Proof. intros H. unfold protocol_new. rewrite H. by destruct p. Qed.

Lemma protocol_new_total v :
  (∃ p, protocol_new v = Ok p) ∨ (∃ m, protocol_new v = Err (ParseError.InvalidData m)).
Proof. unfold protocol_new. repeat case_match; eauto. Qed.

Lemma from_u32_unchecked_as_u32 p :
  from_u32_unchecked (protocol_as_u32 p) = Ok p.
Proof. by destruct p. Qed.

Lemma length_header_v1_encode h : length (header_v1_encode h) = HEADER_V1_SIZE.
Proof. unfold header_v1_encode. rewrite length_app. by autorewrite with rusbmux_rw. Qed.

Lemma length_header_v2_encode h : length (header_v2_encode h) = HEADER_V2_SIZE.
Proof. unfold header_v2_encode. rewrite !length_app. by autorewrite with rusbmux_rw. Qed.

Lemma length_header_encode h : length (header_encode h) = header_size h.
Proof. destruct h; [apply length_header_v1_encode | apply length_header_v2_encode]. Qed.

#[export] Hint Rewrite length_header_v1_encode length_header_v2_encode length_header_encode
  : rusbmux_rw.

Lemma header_v1_decode_encode h :
  in_width 32 (v1_protocol h) → in_width 32 (v1_length h) →
  header_v1_decode (header_v1_encode h) = h.
Proof.
  intros. unfold header_v1_decode, header_v1_encode. solve_slices.
  rewrite !be_decode_encode by done. by destruct h.
Qed.

Lemma header_v2_decode_encode h :
  in_width 32 (v2_protocol h) → header_ok (V2 h) →
  header_v2_decode (header_v2_encode h) = h.
Proof.
  intros Hp (_ & ? & ? & ? & ?). unfold header_v2_decode, header_v2_encode. solve_slices.
  rewrite !be_decode_encode by done. by destruct h.
Qed.

Lemma protocol_as_u32_width p : in_width 32 (protocol_as_u32 p).
Proof. by destruct p. Qed.

#[export] Hint Resolve protocol_as_u32_width : rusbmux.

Lemma be_decode_slice_width n i w s :
  w = (8 * Z.of_nat n)%Z → in_width w (be_decode (slice_at i n s)).
Proof. intros ->. eapply in_width_be_decode; [done|]. apply length_slice_at_le. Qed.

Lemma take4_header_encode h k : take 4 (header_encode h ++ k)
  = be_encode 4 (match h with V1 h => v1_protocol h | V2 h => v2_protocol h end).
Proof.
  destruct h as [h|h]; unfold header_encode, header_v1_encode, header_v2_encode;
    rewrite <- !app_assoc; apply take_app_exact; by autorewrite with rusbmux_rw.
Qed.

Lemma header_ok_protocol h : header_ok h →
  ∃ p, get_protocol h = Ok p
     ∧ match h with V1 h => v1_protocol h | V2 h => v2_protocol h end = protocol_as_u32 p
     ∧ match h with V1 _ => p = Version | V2 _ => p ≠ Version end.
Proof.
  destruct h as [h|h]; unfold get_protocol.
  - intros [-> _]. by exists Version.
  - intros [[-> | [-> | ->]] _]; [exists Control | exists Setup | exists Tcp]; done.
Qed.

Lemma advance_exact_app {E} n a b :
  length a = n → advance_exact (E := E) n (a ++ b) = (Ok a, b).
Proof.
  intros <-. unfold advance_exact. rewrite decide_True by (rewrite length_app; lia).
  by rewrite take_app_length, drop_app_length.
Qed.

Lemma advance_exact_ok {E} n s a s' :
  advance_exact (E := E) n s = (Ok a, s') → a = take n s ∧ s' = drop n s ∧ n ≤ length s.
Proof. unfold advance_exact. intros. case_decide; by simplify_eq. Qed.

Lemma protocol_v1_or_v2 p : p = Version ∨ p ≠ Version.
Proof. destruct p; auto. Qed.

(** Printing a header and parsing it back. *)
Lemma header_from_slice_encode h rest :
  header_ok h → header_from_slice (header_encode h ++ rest) = (Ok h, rest).
Proof.
  intros Hok. destruct (header_ok_protocol h Hok) as (p & Hp & Hraw & Hver).
  assert (in_width 32 (protocol_as_u32 p)) as Hw by auto with rusbmux.
  unfold header_from_slice, st_bind, st_get, st_lift.
  rewrite decide_False
    by (rewrite length_app, length_header_encode; destruct h; simpl;
        unfold HEADER_V1_SIZE, HEADER_V2_SIZE; lia).
  rewrite take4_header_encode, Hraw.
  rewrite (protocol_new_as_u32 _ p) by (by apply be_decode_encode).
  destruct h as [h|h]; unfold header_encode.
  - subst p. rewrite advance_exact_app by apply length_header_v1_encode.
    unfold st_ret. destruct Hok. rewrite header_v1_decode_encode; [done| |done]. by rewrite Hraw.
  - destruct p; [done| | |];
      rewrite advance_exact_app by apply length_header_v2_encode; unfold st_ret;
      rewrite header_v2_decode_encode; (done || by rewrite Hraw).
Qed.

Lemma slice_at_take4 n (s : list byte) : 4 ≤ n → slice_at 0 4 (take n s) = take 4 s.
Proof. intros Hn. unfold slice_at. rewrite drop_0, take_take. f_equal. lia. Qed.

(** What a successful parse of a header establishes. *)
Lemma header_from_slice_ok s h rest :
  header_from_slice s = (Ok h, rest) →
  header_ok h ∧ rest = drop (header_size h) s ∧ header_size h ≤ length s
  ∧ h = match h with V1 _ => V1 (header_v1_decode (take HEADER_V1_SIZE s))
                   | V2 _ => V2 (header_v2_decode (take HEADER_V2_SIZE s)) end.
Proof.
  unfold header_from_slice. intros H. invert_binds. case_decide; [by invert_binds|].
  invert_binds.
  match goal with E : protocol_new _ = Ok ?p |- _ =>
    apply protocol_new_ok in E; rename E into Hp; destruct p end; invert_binds;
  match goal with E : advance_exact _ _ = _ |- _ =>
    apply advance_exact_ok in E as (-> & -> & Hlen) end;
  simpl; unfold header_v1_decode, header_v2_decode; simpl;
  rewrite ?slice_at_take4 by (unfold HEADER_V1_SIZE, HEADER_V2_SIZE; lia);
  split_and!; auto; by apply be_decode_slice_width.
Qed.

(** ** Lemmas: the reader and the slice parser agree *)

Section reader_lemmas.
Context {R : Type} {reader : ByteReader R ErrorKind} {rlaws : ByteReaderLaws R ErrorKind}.

Lemma read_exact_io_enough n (r : R) :
  n ≤ length (reader_data r) →
  ∃ r', read_exact_io n r = (Ok (take n (reader_data r)), r')
        ∧ reader_data r' = drop n (reader_data r).
Proof.
  intros Hn. destruct (read_exact_enough n r Hn) as (r' & E & ?).
  exists r'. unfold read_exact_io, st_map_err. by rewrite E.
Qed.

Lemma read_exact_io_short n (r : R) :
  length (reader_data r) < n → ∃ e r', read_exact_io n r = (Err (ParseError.IO e), r').
Proof.
  intros Hn. destruct (read_exact_short n r Hn) as (e & r' & E).
  exists e, r'. unfold read_exact_io, st_map_err. by rewrite E.
Qed.

Lemma read_exact_io_ok n (r r' : R) bs :
  read_exact_io n r = (Ok bs, r') →
  n ≤ length (reader_data r) ∧ bs = take n (reader_data r)
  ∧ reader_data r' = drop n (reader_data r).
Proof.
  intros E. destruct (decide (n ≤ length (reader_data r))) as [Hn|Hn].
  - destruct (read_exact_io_enough n r Hn) as (r'' & E' & ?). rewrite E in E'. by simplify_eq.
  - destruct (read_exact_io_short n r) as (e & r'' & E'); [lia|]. congruence.
Qed.

Lemma read_exact_io_cases n (r : R) :
  (∃ bs r', read_exact_io n r = (Ok bs, r'))
  ∨ (∃ e r', read_exact_io n r = (Err (ParseError.IO e), r')).
Proof.
  destruct (decide (n ≤ length (reader_data r))) as [Hn|Hn].
  - left. destruct (read_exact_io_enough n r Hn) as (r' & E & _). eauto.
  - right. apply read_exact_io_short. lia.
Qed.

Lemma advance_exact_enough {E} n s :
  n ≤ length s → advance_exact (E := E) n s = (Ok (take n s), drop n s).
Proof. intros. unfold advance_exact. by rewrite decide_True. Qed.

Lemma header_from_reader_ok (r r' : R) h :
  header_from_reader r = (Ok h, r') →
  header_from_slice (reader_data r) = (Ok h, reader_data r').
Proof.
  unfold header_from_reader, HEADER_V1_SIZE, HEADER_V2_SIZE. intros H. invert_binds.
  match goal with E : read_exact_io 8 r = _ |- _ =>
    apply read_exact_io_ok in E as (Hlen & -> & Hd) end.
  match goal with E : protocol_new _ = Ok _ |- _ =>
    rewrite take_take in E; change (4 `min` 8) with 4 in E; rename E into Hp end.
  unfold header_from_slice, HEADER_V1_SIZE, HEADER_V2_SIZE.
  rewrite (st_bind_eq _ _ _ _ _ (st_get_eq _)), decide_False by lia.
  rewrite (st_bind_eq _ _ _ _ _ (st_lift_eq _ _ _ Hp)).
  destruct (protocol_v1_or_v2 x1) as [-> | E].
  - rewrite (st_bind_eq _ _ _ _ _ (advance_exact_enough 8 _ Hlen)).
    invert_binds. unfold st_ret. by rewrite Hd.
  - assert (∃ b2, read_exact_io 8 x2 = (Ok b2, r') ∧
      h = V2 (header_v2_decode (take 8 (reader_data r) ++ b2))) as (b2 & Eb & ->)
      by (destruct x1; [done| | |]; invert_binds; eauto).
    apply read_exact_io_ok in Eb as (Hlen2 & -> & Hd2).
    rewrite Hd in Hlen2, Hd2 |- *. rewrite length_drop in Hlen2.
    rewrite take_take_drop, drop_drop in *.
    assert (16 ≤ length (reader_data r)) as Hlen3 by lia.
    pose proof (advance_exact_enough (E := ParseError.t) 16 _ Hlen3) as Ea.
    change (8 + 8) with 16 in *. rewrite <- Hd2 in Ea.
    destruct x1; [done| | |]; rewrite (st_bind_eq _ _ _ _ _ Ea); done.
Qed.

Lemma header_from_reader_complete (r : R) h rest :
  header_from_slice (reader_data r) = (Ok h, rest) →
  ∃ r', header_from_reader r = (Ok h, r') ∧ reader_data r' = rest.
Proof.
  unfold header_from_slice, header_from_reader, HEADER_V1_SIZE, HEADER_V2_SIZE.
  intros H. apply st_bind_ok in H as (s & s' & Hs & H). invert_binds.
  case_decide as Hs4; [by invert_binds|]. invert_binds.
  match goal with E : protocol_new _ = Ok _ |- _ => rename E into Hp end.
  assert (Hlen : 8 ≤ length (reader_data r)).
  { destruct x; invert_binds;
      match goal with E : advance_exact _ _ = _ |- _ => apply advance_exact_ok in E end; lia. }
  destruct (read_exact_io_enough 8 r Hlen) as (r1 & E1 & Hd1).
  rewrite (st_bind_eq _ _ _ _ _ E1).
  assert (Hp' : protocol_new (take 4 (take 8 (reader_data r))) = Ok x)
    by (by rewrite take_take).
  rewrite (st_bind_eq _ _ _ _ _ (st_lift_eq _ _ _ Hp')).
  destruct (protocol_v1_or_v2 x) as [-> | E].
  - invert_binds. match goal with E : advance_exact _ _ = _ |- _ =>
      apply advance_exact_ok in E as (-> & -> & _) end. by exists r1.
  - assert (16 ≤ length (reader_data r) ∧ rest = drop 16 (reader_data r) ∧
      h = V2 (header_v2_decode (take 16 (reader_data r)))) as (Hlen2 & -> & ->).
    { destruct x; [done| | |]; invert_binds;
        match goal with E : advance_exact _ _ = _ |- _ =>
          apply advance_exact_ok in E as (-> & -> & ?) end; done. }
    destruct (read_exact_io_enough 8 r1) as (r2 & E2 & Hd2);
      [rewrite Hd1, length_drop; lia|].
    rewrite Hd1, drop_drop in Hd2. rewrite Hd1 in E2. exists r2. split; [|done].
    destruct x; [done| | |]; rewrite (st_bind_eq _ _ _ _ _ E2);
      rewrite take_take_drop; done.
Qed.
End reader_lemmas.

(** ** Lemmas: payloads *)

Lemma length_packet_version_encode v : length (packet_version_encode v) = PACKET_VERSION_SIZE.
Proof. unfold packet_version_encode. rewrite !length_app. by autorewrite with rusbmux_rw. Qed.

Lemma length_payload_encode p : length (payload_encode p) = payload_len p.
Proof.
  destruct p as [b|v|[e|] [m|]]; try done; simpl; lia.
Qed.

#[export] Hint Rewrite length_packet_version_encode length_payload_encode : rusbmux_rw.

Lemma packet_version_decode_encode v :
  in_width 32 (major v) → in_width 32 (minor v) → in_width 32 (padding v) →
  packet_version_decode (packet_version_encode v) = Ok v.
Proof.
  intros. unfold packet_version_decode.
  rewrite decide_True by apply length_packet_version_encode.
  unfold packet_version_encode. solve_slices. rewrite !be_decode_encode by done. by destruct v.
Qed.

Lemma payload_decode_encode protocol p :
  payload_ok protocol p → payload_decode (payload_encode p) protocol = Ok p.
Proof.
  destruct protocol, p as [b|v|[e|] [m|]]; try done;
    cbn [payload_ok payload_decode payload_encode].
  - intros (? & ? & ?). by rewrite packet_version_decode_encode.
  - intros [Hm Hv]. destruct m as [|b m]; [done|]. by rewrite lossy_valid.
Qed.

Lemma payload_decode_cases bs protocol :
  (∃ p, payload_decode bs protocol = Ok p)
  ∨ (payload_decode bs protocol = Panic ∧ protocol = Version
     ∧ length bs ≠ PACKET_VERSION_SIZE).
Proof.
  destruct protocol; simpl; eauto.
  unfold packet_version_decode. case_decide; simpl; eauto.
Qed.

(** ** Lemmas: packets *)

Section packet_lemmas.
Context {codec : TcpCodec} {laws : TcpCodecLaws}.

Lemma length_packet_encode p : (∀ h, tcp_hdr p = Some h → tcp_wf h) →
  length (packet_encode p) = header_size (header p) + tcp_hdr_len (tcp_hdr p) + payload_len (payload p).
Proof.
  intros Hwf. unfold packet_encode. rewrite !length_app, length_header_encode, length_payload_encode.
  destruct (tcp_hdr p) as [h|]; simpl; [rewrite length_tcp_to_bytes by auto|]; lia.
Qed.

(** The TCP step of the slice parser, isolated. *)
Definition slice_tcp_step (is_v2 : bool) (protocol : UsbDevicePacketProtocol)
    (s1 : list byte) : stateful (list byte) ParseError.t (option TcpHeader) :=
  if is_tcp protocol && is_v2 then
    let! (h, rest) := st_lift (map_err (λ err, ParseError.InvalidData
      ("failed to parse TCP header from slice: " +:+ err)) (tcp_from_slice s1)) in
    let! _ := st_put rest in
    st_ret (Some h)
  else st_ret None.

(** The length check and the payload step of the slice parser, isolated. *)
Definition slice_payload_step (consumed : nat) (header : UsbDevicePacketHeader)
    (protocol : UsbDevicePacketProtocol) (tcp_hdr : option TcpHeader)
  : stateful (list byte) ParseError.t UsbDevicePacket :=
  let total_header_len := header_size header + tcp_hdr_len tcp_hdr in
  let total_length := get_length header in
  if decide (total_length < Z.of_nat total_header_len)%Z
  then st_lift (Err (too_short total_length total_header_len))
  else
    let payload_len := Z.to_nat total_length - total_header_len in
    let! s := st_get in
    if decide (length s < payload_len)
    then st_lift (Err (ParseError.InvalidData ("packet length " +:+ pretty total_length
           +:+ " exceeds remaining slice length " +:+ pretty (length s + consumed))))
    else
      let! _ := st_put (drop payload_len s) in
      let! payload := st_lift (payload_decode (take payload_len s) protocol) in
      st_ret (Packet header tcp_hdr payload).

Lemma packet_from_slice_unfold s h p s1 :
  header_from_slice s = (Ok h, s1) → get_protocol h = Ok p →
  packet_from_slice s =
    st_bind (slice_tcp_step (bool_decide (is_Some (as_v2 h))) p s1)
      (slice_payload_step (length s - length s1) h p) s1.
Proof.
  intros Hh Hp. unfold packet_from_slice.
  rewrite (st_bind_eq _ _ _ _ _ (st_get_eq _)), (st_bind_eq _ _ _ _ _ Hh),
    (st_bind_eq _ _ _ _ _ (st_lift_eq _ _ _ Hp)), (st_bind_eq _ _ _ _ _ (st_get_eq _)).
  done.
Qed.

Lemma slice_payload_step_ok c h p t s pkt rest :
  slice_payload_step c h p t s = (Ok pkt, rest) ↔
  (Z.of_nat (header_size h + tcp_hdr_len t) ≤ get_length h)%Z ∧
  Z.to_nat (get_length h) - (header_size h + tcp_hdr_len t) ≤ length s ∧
  rest = drop (Z.to_nat (get_length h) - (header_size h + tcp_hdr_len t)) s ∧
  ∃ pl, payload_decode (take (Z.to_nat (get_length h) - (header_size h + tcp_hdr_len t)) s) p = Ok pl ∧
        pkt = Packet h t pl.
Proof.
  unfold slice_payload_step, st_bind, st_get, st_put, st_lift, st_ret.
  case_decide; [naive_solver lia|]. case_decide; [naive_solver lia|].
  destruct (payload_decode _ _) eqn:E; split; try naive_solver lia.
  all: intros (? & ? & ? & ? & ? & ?); simplify_eq; done.
Qed.

Lemma as_v2_of_tcp h : header_ok h → get_protocol h = Ok Tcp →
  bool_decide (is_Some (as_v2 h)) = true.
Proof.
  intros Hok Hp. destruct h as [h|h]; [|done].
  destruct Hok as [Hr _]. unfold get_protocol in Hp. rewrite Hr in Hp. done.
Qed.

Lemma slice_tcp_step_ok v2 p s t rest :
  slice_tcp_step v2 p s s = (Ok t, rest) ↔
  match t with
  | Some h => p = Tcp ∧ v2 = true ∧ tcp_from_slice s = Ok (h, rest)
  | None => (p ≠ Tcp ∨ v2 = false) ∧ rest = s
  end.
Proof.
  unfold slice_tcp_step, st_bind, st_put, st_lift, st_ret.
  destruct p, v2; simpl; try (destruct t; naive_solver).
  destruct (tcp_from_slice s) as [[]| | |]; simpl; destruct t; naive_solver.
Qed.
End packet_lemmas.

Section packet_theorems.
Context {codec : TcpCodec} {laws : TcpCodecLaws}.

(** A packet's successful parse, taken apart. *)
Lemma packet_from_slice_inv s p rest :
  packet_from_slice s = (Ok p, rest) →
  ∃ protocol, header_from_slice s = (Ok (header p), drop (header_size (header p)) s) ∧
    header_ok (header p) ∧ get_protocol (header p) = Ok protocol ∧
    header_size (header p) ≤ length s ∧
    slice_tcp_step (bool_decide (is_Some (as_v2 (header p)))) protocol
      (drop (header_size (header p)) s) (drop (header_size (header p)) s)
      = (Ok (tcp_hdr p), drop (header_size (header p) + tcp_hdr_len (tcp_hdr p)) s) ∧
    slice_payload_step (length s - length (drop (header_size (header p)) s)) (header p)
      protocol (tcp_hdr p) (drop (header_size (header p) + tcp_hdr_len (tcp_hdr p)) s)
      = (Ok p, rest).
Proof.
  intros H. pose proof H as H'. unfold packet_from_slice in H'.
  apply st_bind_ok in H' as (? & ? & [= <- <-] & H').
  apply st_bind_ok in H' as (h & s1 & Hh & H').
  apply header_from_slice_ok in Hh as Hh'. destruct Hh' as (Hok & -> & Hlen & _).
  destruct (header_ok_protocol h Hok) as (pr & Hp & _).
  rewrite (packet_from_slice_unfold _ _ _ _ Hh Hp) in H.
  apply st_bind_ok in H as (t & s2 & Ht & H).
  assert (s2 = drop (header_size h + tcp_hdr_len t) s) as ->.
  { apply slice_tcp_step_ok in Ht. destruct t as [t|].
    - destruct Ht as (_ & _ & Ht). apply tcp_from_slice_ok in Ht as (_ & -> & _).
      simpl. by rewrite drop_drop.
    - destruct Ht as [_ ->]. simpl. by rewrite Nat.add_0_r. }
  pose proof H as H2. apply slice_payload_step_ok in H2 as (_ & _ & _ & pl & _ & ->).
  exists pr. simpl. done.
Qed.

Lemma packet_from_slice_intro s h protocol t s2 p rest :
  header_from_slice s = (Ok h, drop (header_size h) s) → get_protocol h = Ok protocol →
  slice_tcp_step (bool_decide (is_Some (as_v2 h))) protocol
    (drop (header_size h) s) (drop (header_size h) s) = (Ok t, s2) →
  slice_payload_step (length s - length (drop (header_size h) s)) h protocol t s2 = (Ok p, rest) →
  packet_from_slice s = (Ok p, rest).
Proof.
  intros Hh Hp Ht Hpl. rewrite (packet_from_slice_unfold _ _ _ _ Hh Hp).
  by rewrite (st_bind_eq _ _ _ _ _ Ht).
Qed.

(** Printing and parsing one packet. *)
Lemma slice_parses_encode p rest :
  packet_ok p → packet_from_slice (packet_encode p ++ rest) = (Ok p, rest).
Proof.
  intros (Hok & protocol & Hp & Hpl & Ht & Hlen).
  assert (∀ h, tcp_hdr p = Some h → tcp_wf h) as Hwf
    by (intros h E; rewrite E in Ht; apply Ht).
  unfold packet_encode. rewrite <- !app_assoc.
  assert (Hd : ∀ k, drop (header_size (header p)) (header_encode (header p) ++ k) = k)
    by (intros; apply drop_app_exact, length_header_encode).
  eapply packet_from_slice_intro; rewrite ?Hd.
  - by apply header_from_slice_encode.
  - exact Hp.
  - apply (slice_tcp_step_ok _ _ _ (tcp_hdr p) (payload_encode (payload p) ++ rest)).
    destruct (tcp_hdr p) as [h|]; [|by split; [left|]].
    destruct Ht as [-> Hw]. split_and!; [done|by apply as_v2_of_tcp|].
    by apply tcp_from_to_bytes.
  - apply slice_payload_step_ok. rewrite Hlen, Nat2Z.id.
    replace (_ - _) with (payload_len (payload p)) by lia.
    rewrite take_app_exact, drop_app_exact by apply length_payload_encode.
    split_and!; [lia| |done|].
    + rewrite length_app, length_payload_encode. lia.
    + exists (payload p). split; [by apply payload_decode_encode|by destruct p].
Qed.

(** C23.  Printing a well-formed packet and parsing the bytes, whatever
    follows them, gives the packet back and leaves exactly what follows. *)
Theorem packet_from_slice_encode p rest :
  packet_ok p → packet_from_slice (packet_encode p ++ rest) = (Ok p, rest).
Proof. apply slice_parses_encode. Qed.

(** A parsed packet consumes exactly the number of bytes its header's length field
    announces, and everything it reports comes from those bytes: a TCP header is
    present exactly in TCP packets, and the payload is what is left of them. *)
Theorem packet_from_slice_consumes s p rest :
  packet_from_slice s = (Ok p, rest) →
  let total := Z.to_nat (get_length (header p)) in
  let hlen := header_size (header p) + tcp_hdr_len (tcp_hdr p) in
  hlen ≤ total ≤ length s ∧ rest = drop total s ∧
  ∃ protocol, get_protocol (header p) = Ok protocol ∧
    (is_Some (tcp_hdr p) ↔ protocol = Tcp) ∧
    payload_decode (slice_at hlen (total - hlen) s) protocol = Ok (payload p).
Proof.
  intros H total hlen.
  destruct (packet_from_slice_inv _ _ _ H) as (protocol & Hh & Hok & Hp & Hs & Ht & Hpl).
  apply slice_payload_step_ok in Hpl as (Hle & Hfit & -> & pl & Hdec & Epl).
  apply slice_tcp_step_ok in Ht.
  fold total hlen in Hle, Hfit, Hdec |- *.
  assert (hlen ≤ total) by (subst total hlen; lia).
  assert (hlen ≤ length s).
  { subst hlen. destruct (tcp_hdr p) as [t|]; simpl; [|lia].
    destruct Ht as (_ & _ & Ht). apply tcp_from_slice_ok in Ht as (_ & _ & Ht).
    rewrite length_drop in Ht. lia. }
  rewrite length_drop in Hfit. split; [lia|].
  rewrite drop_drop. replace (hlen + (total - hlen)) with total by lia. split; [done|].
  exists protocol. split_and!; [done| |].
  - destruct (tcp_hdr p) as [t|].
    + split; [by destruct Ht|by eexists].
    + split; [by intros []|]. intros ->. destruct Ht as [[|Hv] _]; [done|].
      rewrite (as_v2_of_tcp _ Hok Hp) in Hv. done.
  - unfold slice_at. by rewrite Hdec, Epl.
Qed.

(** ** The unsafe code and the panics *)

Lemma protocol_new_no_ub v : protocol_new v ≠ Ub ∧ protocol_new v ≠ Panic.
Proof. unfold protocol_new. split; repeat case_match; done. Qed.

Lemma advance_exact_cases {E} n s :
  (n ≤ length s ∧ advance_exact (E := E) n s = (Ok (take n s), drop n s))
  ∨ (length s < n ∧ advance_exact (E := E) n s = (Panic, s)).
Proof. unfold advance_exact. case_decide; [left|right]; split; by try lia. Qed.

(** The slice parser's header step panics exactly when the slice holds the
    protocol word but not the whole header. *)
Lemma header_from_slice_panic s :
  (header_from_slice s).1 = Panic ↔
  4 ≤ length s ∧ ∃ p, protocol_new (take 4 s) = Ok p ∧
    length s < match p with Version => HEADER_V1_SIZE | _ => HEADER_V2_SIZE end.
Proof.
  unfold header_from_slice. rewrite (st_bind_eq _ _ _ _ _ (st_get_eq _)).
  case_decide; [naive_solver lia|]. unfold st_bind at 1, st_lift.
  destruct (protocol_new (take 4 s)) as [p| | |] eqn:E; simpl;
    [|naive_solver|by destruct (protocol_new_no_ub (take 4 s))|naive_solver].
  unfold st_bind, HEADER_V1_SIZE, HEADER_V2_SIZE.
  destruct (advance_exact_cases (E := ParseError.t) 8 s) as [[? E8]|[? E8]],
    (advance_exact_cases (E := ParseError.t) 16 s) as [[? E16]|[? E16]];
  destruct p; rewrite ?E8, ?E16; simpl; split; try naive_solver lia.
Qed.

Lemma header_from_slice_no_ub s : (header_from_slice s).1 ≠ Ub.
Proof.
  unfold header_from_slice. intros H.
  apply st_bind_ub in H as [|(? & ? & [= <- <-] & H)]; [done|].
  case_decide; [done|].
  apply st_bind_ub in H as [H|(p & ? & _ & H)]; [by apply protocol_new_no_ub in H|].
  destruct p; apply st_bind_ub in H as [H|(? & ? & _ & H)]; try done;
    unfold advance_exact in H; by case_decide.
Qed.

Lemma slice_tcp_step_no_abort v2 p s s' :
  (slice_tcp_step v2 p s s').1 ≠ Ub ∧ (slice_tcp_step v2 p s s').1 ≠ Panic.
Proof.
  unfold slice_tcp_step. destruct (is_tcp p && v2); [|done].
  unfold st_bind, st_lift, st_put, st_ret.
  destruct (tcp_from_slice_total s) as [(h & r & ->) | (e & ->)]; done.
Qed.

Lemma slice_payload_step_abort c h p t s :
  (slice_payload_step c h p t s).1 ≠ Ub ∧
  ((slice_payload_step c h p t s).1 = Panic ↔
    (Z.of_nat (header_size h + tcp_hdr_len t) ≤ get_length h)%Z ∧
    Z.to_nat (get_length h) - (header_size h + tcp_hdr_len t) ≤ length s ∧
    p = Version ∧ Z.to_nat (get_length h) - (header_size h + tcp_hdr_len t) ≠ PACKET_VERSION_SIZE).
Proof.
  unfold slice_payload_step. case_decide; [naive_solver lia|].
  rewrite (st_bind_eq _ _ _ _ _ (st_get_eq _)). case_decide; [naive_solver lia|].
  rewrite (st_bind_eq _ _ _ _ _ (st_put_eq _ _)). unfold st_bind, st_lift, st_ret.
  set (n := Z.to_nat (get_length h) - _) in *.
  assert (length (take n s) = n) as Hl by (rewrite length_take; lia).
  destruct (payload_decode_cases (take n s) p) as [[pl E] | (E & -> & Hne)]; rewrite E; simpl.
  - split; [done|]. split; [done|]. intros (_ & _ & -> & Hne).
    unfold payload_decode, packet_version_decode in E. rewrite Hl, decide_False in E by done. done.
  - rewrite Hl in Hne. naive_solver lia.
Qed.

(** The parsers' [unsafe] code is sound: on no input does a transmuted
    protocol number lie outside the enum (the assumption of [get_protocol]), so
    undefined behaviour is never reached, whatever bytes a device sends. *)
Theorem packet_from_slice_no_ub s : (packet_from_slice s).1 ≠ Ub.
Proof.
  unfold packet_from_slice at 1. intros H.
  apply st_bind_ub in H as [|(? & ? & [= <- <-] & H)]; [done|].
  apply st_bind_ub in H as [H|(h & s1 & Hh & H)]; [by apply header_from_slice_no_ub in H|].
  apply header_from_slice_ok in Hh as Hh'. destruct Hh' as (Hok & _).
  destruct (header_ok_protocol h Hok) as (p & Hp & _).
  rewrite (st_bind_eq _ _ _ _ _ (st_lift_eq _ _ _ Hp)), (st_bind_eq _ _ _ _ _ (st_get_eq _)) in H.
  apply st_bind_ub in H as [H|(t & s2 & _ & H)].
  - by destruct (slice_tcp_step_no_abort (bool_decide (is_Some (as_v2 h))) p s1 s1).
  - by destruct (slice_payload_step_abort (length s - length s1) h p t s2).
Qed.

End packet_theorems.

Section reader_theorems.
Context {codec : TcpCodec} {laws : TcpCodecLaws}.
Context {R : Type} {reader : ByteReader R ErrorKind} {rlaws : ByteReaderLaws R ErrorKind}.

(** The two later steps of the stream parser, isolated. *)
Definition reader_tcp_step (protocol : UsbDevicePacketProtocol)
  : stateful R ParseError.t (option TcpHeader) :=
  if is_tcp protocol then
    let! tcp_hdr_buff := read_exact_io TCP_MIN_LEN in
    let! (h, _) := st_lift (map_err ParseError.TcpHeaderSlice (tcp_from_slice tcp_hdr_buff)) in
    st_ret (Some h)
  else st_ret None.

Definition reader_payload_step (header : UsbDevicePacketHeader)
    (protocol : UsbDevicePacketProtocol) (tcp_hdr : option TcpHeader)
  : stateful R ParseError.t UsbDevicePacket :=
  let total_header_len := header_size header + tcp_hdr_len tcp_hdr in
  let total_length := get_length header in
  if decide (total_length < Z.of_nat total_header_len)%Z
  then st_lift (Err (too_short total_length total_header_len))
  else
    let payload_len := Z.to_nat total_length - total_header_len in
    let! payload := read_exact_io payload_len in
    let! payload := st_lift (payload_decode payload protocol) in
    st_ret (Packet header tcp_hdr payload).

Lemma packet_from_reader_unfold (r r1 : R) h p :
  header_from_reader r = (Ok h, r1) → get_protocol h = Ok p →
  packet_from_reader r = st_bind (reader_tcp_step p) (reader_payload_step h p) r1.
Proof.
  intros Hh Hp. unfold packet_from_reader.
  by rewrite (st_bind_eq _ _ _ _ _ Hh), (st_bind_eq _ _ _ _ _ (st_lift_eq _ _ _ Hp)).
Qed.

Lemma reader_payload_step_ok h p t (r r' : R) pkt :
  reader_payload_step h p t r = (Ok pkt, r') →
  ∀ c, slice_payload_step c h p t (reader_data r) = (Ok pkt, reader_data r').
Proof.
  unfold reader_payload_step. intros H c. case_decide; [done|]. invert_binds.
  match goal with E : read_exact_io _ _ = _ |- _ => apply read_exact_io_ok in E as (? & -> & ->) end.
  apply slice_payload_step_ok. split_and!; [lia|done|done|]. eauto.
Qed.

Lemma reader_payload_step_complete h p t (r : R) pkt rest c :
  slice_payload_step c h p t (reader_data r) = (Ok pkt, rest) →
  ∃ r', reader_payload_step h p t r = (Ok pkt, r') ∧ reader_data r' = rest.
Proof.
  intros (Hle & Hfit & -> & pl & Hdec & ->)%slice_payload_step_ok.
  unfold reader_payload_step. rewrite decide_False by lia.
  destruct (read_exact_io_enough _ r Hfit) as (r' & E & Hd).
  exists r'. rewrite (st_bind_eq _ _ _ _ _ E), (st_bind_eq _ _ _ _ _ (st_lift_eq _ _ _ Hdec)).
  done.
Qed.

Lemma reader_tcp_step_ok p v2 t (r r' : R) :
  (p = Tcp → v2 = true) → reader_tcp_step p r = (Ok t, r') →
  slice_tcp_step v2 p (reader_data r) (reader_data r) = (Ok t, reader_data r')
  ∧ (∀ h, t = Some h → options h = []).
Proof.
  intros Hv2. unfold reader_tcp_step. destruct (is_tcp p) eqn:Ep.
  - intros H. invert_binds.
    match goal with E : read_exact_io _ _ = _ |- _ => apply read_exact_io_ok in E as (Hlen & -> & Hd) end.
    destruct x1 as [h k]. invert_binds.
    destruct (tcp_from_slice _) as [[h' k']| | |] eqn:E; simplify_eq/=.
    pose proof (tcp_from_slice_ok _ _ _ E) as (Hwf & -> & Hh).
    rewrite length_take in Hh. unfold tcp_header_len, TCP_MIN_LEN in *.
    assert (options h = []) as Ho by (apply nil_length_inv; lia).
    split; [|naive_solver].
    apply slice_tcp_step_ok. split_and!; [by destruct p|apply Hv2; by destruct p|].
    apply (tcp_from_slice_local _ _ _ (drop 20 (reader_data r))) in E.
    unfold tcp_header_len, TCP_MIN_LEN in E. rewrite Ho in E. simpl in E.
    rewrite take_take in E. change (20 `min` 20) with 20 in E.
    rewrite take_drop in E. by rewrite Hd.
  - intros [= <- <-]. split; [|done]. apply slice_tcp_step_ok.
    split; [left|done]. by intros ->.
Qed.

Lemma reader_tcp_step_complete p v2 t (r : R) rest :
  (p = Tcp → v2 = true) → (∀ h, t = Some h → options h = []) →
  slice_tcp_step v2 p (reader_data r) (reader_data r) = (Ok t, rest) →
  ∃ r', reader_tcp_step p r = (Ok t, r') ∧ reader_data r' = rest.
Proof.
  intros Hv2 Ho H%slice_tcp_step_ok. destruct t as [h|].
  - destruct H as (-> & _ & E). specialize (Ho h eq_refl).
    pose proof (tcp_from_slice_ok _ _ _ E) as (_ & -> & Hlen).
    apply (tcp_from_slice_local _ _ _ []) in E.
    unfold tcp_header_len in *. rewrite Ho, Nat.add_0_r, app_nil_r in *.
    destruct (read_exact_io_enough TCP_MIN_LEN r Hlen) as (r' & Er & Hd).
    exists r'. split; [|done]. unfold reader_tcp_step. cbn [is_tcp].
    rewrite (st_bind_eq _ _ _ _ _ Er). unfold st_bind, st_lift. by rewrite E.
  - destruct H as [Hp ->]. exists r. split; [|done]. unfold reader_tcp_step.
    destruct p; try done. destruct Hp as [|Hf]; [done|]. by rewrite Hv2 in Hf.
Qed.

(** The stream parser against the slice parser. *)
Lemma reader_iff_slice (r : R) p rest :
  (∃ r', packet_from_reader r = (Ok p, r') ∧ reader_data r' = rest) ↔
  packet_from_slice (reader_data r) = (Ok p, rest) ∧
  (∀ h, tcp_hdr p = Some h → options h = []).
Proof.
  split.
  - intros (r' & H & <-). unfold packet_from_reader in H.
    apply st_bind_ok in H as (h & r1 & Hh & H). apply header_from_reader_ok in Hh as Hs.
    apply header_from_slice_ok in Hs as Hs'. destruct Hs' as (Hok & Hd & _ & _).
    apply st_bind_ok in H as (pr & ? & Hp & H). unfold st_lift in Hp. simplify_eq.
    apply st_bind_ok in H as (t & r2 & Ht & H).
    change (reader_payload_step h pr t r2 = (Ok p, r')) in H.
    apply (reader_tcp_step_ok pr (bool_decide (is_Some (as_v2 h)))) in Ht as [Ht Ho];
      [|intros ->; by apply as_v2_of_tcp].
    pose proof (reader_payload_step_ok _ _ _ _ _ _ H) as Hpl.
    rewrite Hd in Hs, Ht. split.
    + by eapply packet_from_slice_intro.
    + specialize (Hpl 0). apply slice_payload_step_ok in Hpl as (_ & _ & _ & ? & _ & ->). done.
  - intros [H Ho].
    destruct (packet_from_slice_inv _ _ _ H) as (pr & Hh & Hok & Hp & _ & Ht & Hpl).
    destruct (header_from_reader_complete r _ _ Hh) as (r1 & Hh1 & Hd1).
    rewrite (packet_from_reader_unfold _ _ _ _ Hh1 Hp).
    rewrite <- Hd1 in Ht. apply reader_tcp_step_complete in Ht as (r2 & Ht & Hd2);
      [|intros ->; by apply as_v2_of_tcp|done].
    rewrite <- Hd2 in Hpl. apply reader_payload_step_complete in Hpl as (r' & Hr & Hd3).
    exists r'. by rewrite (st_bind_eq _ _ _ _ _ Ht).
Qed.

(** C24.  The stream parser and the slice parser accept the same packets and stop
    at the same byte, except that the stream parser takes no TCP options (it
    reads a fixed 20-byte TCP header). *)
Theorem packet_from_reader_equiv (r : R) p rest :
  (∃ r', packet_from_reader r = (Ok p, r') ∧ reader_data r' = rest) ↔
  packet_from_slice (reader_data r) = (Ok p, rest) ∧
  (∀ h, tcp_hdr p = Some h → options h = []).
Proof. apply reader_iff_slice. Qed.

Lemma header_from_reader_no_abort (r : R) :
  (header_from_reader r).1 ≠ Ub ∧ (header_from_reader r).1 ≠ Panic.
Proof.
  assert (G : ∀ n (r : R), (read_exact_io n r).1 ≠ Ub ∧ (read_exact_io n r).1 ≠ Panic).
  { intros n r0. destruct (read_exact_io_cases n r0) as [(? & ? & ->)|(? & ? & ->)]; done. }
  unfold header_from_reader. split; intros H.
  - apply st_bind_ub in H as [H|(b & r1 & _ & H)]; [by apply G in H|].
    apply st_bind_ub in H as [H|(p & r2 & _ & H)]; [by apply protocol_new_no_ub in H|].
    destruct p; [done| | |]; apply st_bind_ub in H as [H|(? & ? & _ & H)];
      (done || by apply G in H).
  - apply st_bind_panic in H as [H|(b & r1 & _ & H)]; [by apply G in H|].
    apply st_bind_panic in H as [H|(p & r2 & _ & H)]; [by apply protocol_new_no_ub in H|].
    destruct p; [done| | |]; apply st_bind_panic in H as [H|(? & ? & _ & H)];
      (done || by apply G in H).
Qed.

Lemma reader_tcp_step_no_abort p (r : R) :
  (reader_tcp_step p r).1 ≠ Ub ∧ (reader_tcp_step p r).1 ≠ Panic.
Proof.
  unfold reader_tcp_step. destruct (is_tcp p); [|done].
  unfold st_bind, st_lift, st_ret.
  destruct (read_exact_io_cases TCP_MIN_LEN r) as [(b & ? & ->)|(? & ? & ->)]; [|done].
  destruct (tcp_from_slice_total b) as [(h & k & ->) | (e & ->)]; done.
Qed.

Lemma reader_payload_step_panic h p t (r : R) :
  (reader_payload_step h p t r).1 = Panic ↔
  (slice_payload_step 0 h p t (reader_data r)).1 = Panic.
Proof.
  rewrite (proj2 (slice_payload_step_abort _ _ _ _ _)).
  unfold reader_payload_step. case_decide; [naive_solver lia|].
  set (n := Z.to_nat (get_length h) - _) in *.
  destruct (decide (n ≤ length (reader_data r))) as [Hn|Hn].
  - destruct (read_exact_io_enough n r Hn) as (r' & E & _).
    rewrite (st_bind_eq _ _ _ _ _ E). unfold st_bind, st_lift, st_ret.
    assert (length (take n (reader_data r)) = n) as Hl by (rewrite length_take; lia).
    destruct (payload_decode_cases (take n (reader_data r)) p) as [[pl Ed] | (Ed & -> & Hne)];
      rewrite Ed; simpl.
    + split; [done|]. intros (_ & _ & -> & Hne).
      unfold payload_decode, packet_version_decode in Ed.
      rewrite Hl, decide_False in Ed by done. done.
    + rewrite Hl in Hne. naive_solver lia.
  - destruct (read_exact_io_short n r) as (e & r' & E); [lia|].
    unfold st_bind. rewrite E. naive_solver lia.
Qed.

(** When the stream parser panics: exactly on a version packet that arrives in full
    and whose length field is at least 8 but not 20.  A device (or anything that
    answers like one) can therefore stop the reading task with one short packet. *)
Theorem packet_from_reader_panic (r : R) :
  (packet_from_reader r).1 = Panic ↔
  ∃ h r1, header_from_reader r = (Ok (V1 h), r1) ∧
    (8 ≤ v1_length h)%Z ∧ v1_length h ≠ 20%Z ∧
    (v1_length h - 8 ≤ Z.of_nat (length (reader_data r1)))%Z.
Proof.
  destruct (header_from_reader r) as [o r1] eqn:Eh.
  destruct o as [h|e| |].
  2:{ unfold packet_from_reader, st_bind at 1. rewrite Eh. naive_solver. }
  2:{ by pose proof (header_from_reader_no_abort r) as [_ G]; rewrite Eh in G. }
  2:{ by pose proof (header_from_reader_no_abort r) as [G _]; rewrite Eh in G. }
  apply header_from_reader_ok in Eh as Hs. apply header_from_slice_ok in Hs as (Hok & _).
  destruct (header_ok_protocol h Hok) as (p & Hp & _ & Hv).
  rewrite (packet_from_reader_unfold _ _ _ _ Eh Hp), st_bind_panic.
  destruct (reader_tcp_step_no_abort p r1) as [_ Hnp].
  destruct h as [h|h].
  - subst p. unfold reader_tcp_step in *. cbn [is_tcp] in *.
    destruct Hok as [_ [Hl0 Hl1]]. split.
    + intros [?|(t & r2 & [= <- <-] & H)]; [done|].
      rewrite reader_payload_step_panic in H. apply slice_payload_step_abort in H.
      cbn in H. unfold HEADER_V1_SIZE, PACKET_VERSION_SIZE in H.
      exists h, r1. split_and!; [done|lia|lia|lia].
    + intros (h' & r1' & [= <- <-] & H8 & H20 & Hl). right. exists None, r1. split; [done|].
      rewrite reader_payload_step_panic. apply slice_payload_step_abort.
      cbn. unfold HEADER_V1_SIZE, PACKET_VERSION_SIZE. split_and!; try done; lia.
  - split; [|naive_solver]. intros [?|(t & r2 & _ & H)]; [done|].
    rewrite reader_payload_step_panic in H. apply slice_payload_step_abort in H. naive_solver.
Qed.

(** What reading keeps, parsing keeps: parsing only ever reads. *)
Lemma packet_from_reader_keeps (P : R → Prop) (r : R) :
  (∀ n r, P r → P (read_exact n r).2) → P r → P (packet_from_reader r).2.
Proof.
  intros Hk Hr.
  assert (Hio : ∀ n r, P r → P (read_exact_io n r).2).
  { intros n r0 H0. unfold read_exact_io, st_map_err. specialize (Hk n r0 H0).
    by destruct (read_exact n r0). }
  assert (Hb : ∀ A B (m : stateful R ParseError.t A) (f : A → stateful R ParseError.t B) r,
    P (m r).2 → (∀ a r, P r → P (f a r).2) → P (st_bind m f r).2).
  { intros A B m f r0 Hm Hf. unfold st_bind. destruct (m r0) as [[] ?]; auto. }
  unfold packet_from_reader, header_from_reader.
  apply Hb; [apply Hb; [by apply Hio|]|].
  - intros b1 r1 H1. apply Hb; [done|]. intros pr r2 H2.
    destruct pr; [done|..]; apply Hb; auto.
  - intros h r1 H1. apply Hb; [done|]. intros pr r2 H2. apply Hb.
    + destruct (is_tcp pr); [|done]. apply Hb; [by apply Hio|]. intros b r3 H3.
      apply Hb; [done|]. by intros [].
    + intros t r3 H3. case_decide; [done|]. apply Hb; [by apply Hio|]. intros pl r4 H4.
      apply Hb; [done|]. done.
Qed.

End reader_theorems.
