(* ===== verification/Plist.v ===== *)
(** * Property lists

    [plist::Value] and the dictionary operations the program uses.  The XML
    writer and the parser are third-party code ([plist], [plist-macro]): they are
    the class [PlistCodec], and what the program relies on is [PlistCodecLaws].
    [TestPlist] is a concrete codec that satisfies them, for the witnesses.

    A [plist!] literal is the dictionary of its entries in the order written:
    [k: v] inserts, [k:? o] inserts when [o] is [Some], [:< d] inserts the
    entries of the dictionary [d]. *)

From S2P Require Import Prelude.

(** [plist::Value].  A [Data] is its bytes; [Real], [Date] and [Uid] are kept as
    the bits of their content, the program neither makes nor inspects them. *)
Inductive Value : Type :=
| Array (l : list Value)
| Dictionary (d : list (string * Value))
| Boolean (b : bool)
| Data (bs : list byte)
| Date (bits : Z)
| Real (bits : Z)
| Integer (z : Z)
| String (s : string)
| Uid (bits : Z).

(** [plist::Dictionary] keeps the order of insertion. *)
Definition dict : Type := list (string * Value).

Fixpoint dict_get (k : string) (d : dict) : option Value :=
  match d with
  | [] => None
  | (k', v) :: d => if String.eqb k k' then Some v else dict_get k d
  end.

Fixpoint dict_insert (k : string) (v : Value) (d : dict) : dict :=
  match d with
  | [] => [(k, v)]
  | (k', v') :: d => if String.eqb k k' then (k, v) :: d else (k', v') :: dict_insert k v d
  end.

(** [k:? o] of a [plist!] literal *)
Definition dict_insert_opt (k : string) (o : option Value) (d : dict) : dict :=
  match o with Some v => dict_insert k v d | None => d end.

(** [:< d'] of a [plist!] literal *)
Definition dict_merge (d d' : dict) : dict :=
  fold_left (λ acc kv, dict_insert kv.1 kv.2 acc) d' d.

Definition as_dictionary (v : Value) : option dict :=
  match v with Dictionary d => Some d | _ => None end.

Definition as_string (v : Value) : option string :=
  match v with String s => Some s | _ => None end.

(** A plist integer is an [i64] or a [u64]. *)
Definition as_unsigned_integer (v : Value) : option Z :=
  match v with Integer z => if decide (0 ≤ z)%Z then Some z else None | _ => None end.

Definition as_signed_integer (v : Value) : option Z :=
  match v with Integer z => if decide (z < 2 ^ 63)%Z then Some z else None | _ => None end.

Definition int_range (z : Z) : bool := bool_decide (- 2 ^ 63 ≤ z < 2 ^ 64)%Z.

(** Characters XML 1.0 can carry without loss. *)
Definition xml_safe (s : string) : bool :=
  forallb (λ c, 32 <=? Ascii.nat_of_ascii c) (String.list_ascii_of_string s).

(** The values a write/parse round trip is relied on for. *)
Fixpoint plist_wf (v : Value) : bool :=
  match v with
  | Array l => forallb plist_wf l
  | Dictionary d => bool_decide (NoDup (map fst d)) && forallb (λ kv, xml_safe kv.1 && plist_wf kv.2) d
  | Boolean _ | Data _ => true
  | Integer z => int_range z
  | String s => xml_safe s
  | Date _ | Real _ | Uid _ => false
  end.

Class PlistCodec : Type := {
  (** [plist_value_to_xml_bytes] and [Value::to_writer_xml] *)
  to_xml : Value → list byte;
  (** [plist::from_bytes::<Value>]; the error is its [Display] *)
  from_bytes : list byte → outcome string Value;
}.

Class PlistCodecLaws `{PlistCodec} : Prop := {
  from_to_xml : ∀ v, plist_wf v = true → from_bytes (to_xml v) = Ok v;
  from_bytes_total : ∀ bs, (∃ v, from_bytes bs = Ok v) ∨ (∃ e, from_bytes bs = Err e);
}.

(** ** A concrete codec *)

(** Bytes behind an escape, so that a terminator can be told apart. *)
Fixpoint esc (bs : list byte) : list byte :=
  match bs with
  | [] => [Byte.x00]
  | b :: bs => Byte.x01 :: b :: esc bs
  end.

Fixpoint unesc (bs : list byte) : option (list byte * list byte) :=
  match bs with
  | Byte.x00 :: r => Some ([], r)
  | Byte.x01 :: b :: r => '(bs, r) ← unesc r; Some (b :: bs, r)
  | _ => None
  end.

Definition bytes_of_string (s : string) : list byte := String.list_byte_of_string s.
Definition string_of_bytes (bs : list byte) : string := String.string_of_list_byte bs.

Fixpoint test_enc (v : Value) : list byte :=
  match v with
  | Array l => Byte.x02 :: foldr (λ v r, Byte.x01 :: test_enc v ++ r) [Byte.x00] l
  | Dictionary d =>
      Byte.x03 :: foldr (λ kv r, Byte.x01 :: esc (bytes_of_string kv.1) ++ test_enc kv.2 ++ r)
                    [Byte.x00] d
  | Boolean b => [Byte.x04; if b then Byte.x01 else Byte.x00]
  | Data bs => Byte.x05 :: esc bs
  | Integer z => Byte.x06 :: le_encode 9 (z + 2 ^ 63)
  | String s => Byte.x07 :: esc (bytes_of_string s)
  | Date _ | Real _ | Uid _ => [Byte.x00]
  end.

(** Both loops take the value parser as an argument: [fuel] bounds them. *)
Fixpoint dec_array (dec : list byte → option (Value * list byte)) (fuel : nat) (bs : list byte)
  : option (list Value * list byte) :=
  match fuel, bs with
  | S fuel, Byte.x01 :: r =>
      '(v, r) ← dec r; '(l, r) ← dec_array dec fuel r; Some (v :: l, r)
  | _, Byte.x00 :: r => Some ([], r)
  | _, _ => None
  end.

Fixpoint dec_dict (dec : list byte → option (Value * list byte)) (fuel : nat) (bs : list byte)
  : option (dict * list byte) :=
  match fuel, bs with
  | S fuel, Byte.x01 :: r =>
      '(k, r) ← unesc r; '(v, r) ← dec r;
      '(l, r) ← dec_dict dec fuel r; Some ((string_of_bytes k, v) :: l, r)
  | _, Byte.x00 :: r => Some ([], r)
  | _, _ => None
  end.

Fixpoint test_dec (fuel : nat) (bs : list byte) : option (Value * list byte) :=
  match fuel with
  | O => None
  | S fuel =>
      match bs with
      | Byte.x02 :: r => '(l, r) ← dec_array (test_dec fuel) fuel r; Some (Array l, r)
      | Byte.x03 :: r => '(d, r) ← dec_dict (test_dec fuel) fuel r; Some (Dictionary d, r)
      | Byte.x04 :: b :: r => Some (Boolean (bool_decide (b = Byte.x01)), r)
      | Byte.x05 :: r => '(bs, r) ← unesc r; Some (Data bs, r)
      | Byte.x06 :: r =>
          if decide (9 ≤ length r) then Some (Integer (le_decode (take 9 r) - 2 ^ 63), drop 9 r)
          else None
      | Byte.x07 :: r => '(bs, r) ← unesc r; Some (String (string_of_bytes bs), r)
      | _ => None
      end
  end.

Definition TestPlist : PlistCodec := {|
  to_xml := test_enc;
  from_bytes bs :=
    match test_dec (length bs) bs with
    | Some (v, []) => Ok v
    | _ => Err "not a property list"
    end;
|}.

(** ** Lemmas *)

(** Induction over values, with the hypothesis for the elements. *)
Lemma Value_ind' (P : Value → Prop) :
  (∀ l, Forall P l → P (Array l)) →
  (∀ d, Forall (λ kv, P kv.2) d → P (Dictionary d)) →
  (∀ b, P (Boolean b)) → (∀ bs, P (Data bs)) → (∀ z, P (Date z)) → (∀ z, P (Real z)) →
  (∀ z, P (Integer z)) → (∀ s, P (String s)) → (∀ z, P (Uid z)) →
  ∀ v, P v.
Proof.
  intros HA HD ? ? ? ? ? ? ?. fix IH 1. intros [l|d|b|bs|z|z|z|s|z];
    [apply HA|apply HD|clear IH; auto..].
  - induction l as [|v l IHl]; constructor; [apply IH | apply IHl].
  - induction d as [|[k v] d IHd]; constructor; [apply IH | apply IHd].
Qed.

Lemma dict_get_insert k v d : dict_get k (dict_insert k v d) = Some v.
Proof.
  induction d as [|[k' v'] d IH]; simpl; [by rewrite String.eqb_refl|].
  destruct (String.eqb_spec k k') as [->|Hk]; simpl; [by rewrite String.eqb_refl|].
  apply String.eqb_neq in Hk. by rewrite Hk.
Qed.

Lemma dict_get_insert_ne k k' v d : k ≠ k' → dict_get k (dict_insert k' v d) = dict_get k d.
Proof.
  intros Hk. apply String.eqb_neq in Hk as He. induction d as [|[k2 v2] d IH]; simpl.
  - by rewrite He.
  - destruct (String.eqb_spec k' k2) as [<-|]; simpl; [by rewrite He|].
    destruct (String.eqb k k2); auto.
Qed.

Lemma dict_insert_keys k v d :
  map fst (dict_insert k v d) = if decide (k ∈ map fst d) then map fst d else map fst d ++ [k].
Proof.
  induction d as [|[k' v'] d IH]; simpl; [done|].
  destruct (String.eqb_spec k k') as [<-|]; simpl.
  - rewrite decide_True by set_solver. done.
  - rewrite IH. repeat case_decide; set_solver.
Qed.

Lemma dict_insert_NoDup k v d : NoDup (map fst d) → NoDup (map fst (dict_insert k v d)).
Proof.
  intros. rewrite dict_insert_keys. case_decide; [done|].
  apply list.NoDup_app. split_and!; [done|set_solver|apply NoDup_singleton].
Qed.

Lemma dict_insert_fresh k v d : k ∉ map fst d → dict_insert k v d = d ++ [(k, v)].
Proof.
  induction d as [|[k' v'] d IH]; simpl; [done|]. intros Hk.
  destruct (String.eqb_spec k k') as [<-|]; [set_solver|]. f_equal. apply IH. set_solver.
Qed.

Lemma dict_insert_wf k v d :
  plist_wf (Dictionary d) = true → xml_safe k = true → plist_wf v = true →
  plist_wf (Dictionary (dict_insert k v d)) = true.
Proof.
  cbn [plist_wf]. rewrite !andb_true_iff, !bool_decide_eq_true. intros [Hd Ha] Hk Hv.
  split; [by apply dict_insert_NoDup|]. clear Hd.
  induction d as [|[k' v'] d IH]; simpl in *; [by rewrite Hk, Hv|].
  rewrite !andb_true_iff in Ha. destruct Ha as [[Hk' Hv'] Ha].
  destruct (String.eqb k k'); simpl; rewrite ?Hk, ?Hv, ?Hk', ?Hv'; simpl; auto.
Qed.

Lemma dict_insert_opt_wf k o d :
  plist_wf (Dictionary d) = true → xml_safe k = true →
  (∀ v, o = Some v → plist_wf v = true) →
  plist_wf (Dictionary (dict_insert_opt k o d)) = true.
Proof. intros. destruct o; [|done]. by apply dict_insert_wf; auto. Qed.

Lemma dict_get_insert_opt k o d :
  dict_get k d = None → dict_get k (dict_insert_opt k o d) = o.
Proof. intros. destruct o; [apply dict_get_insert|done]. Qed.

Lemma dict_get_insert_opt_ne k k' o d :
  k ≠ k' → dict_get k (dict_insert_opt k' o d) = dict_get k d.
Proof. intros. destruct o; [by apply dict_get_insert_ne|done]. Qed.

Lemma dict_insert_opt_NoDup k o d : NoDup (map fst d) → NoDup (map fst (dict_insert_opt k o d)).
Proof. intros. destruct o; [by apply dict_insert_NoDup|done]. Qed.

Lemma dict_get_None k d : dict_get k d = None ↔ k ∉ map fst d.
Proof.
  induction d as [|[k' v] d IH]; simpl; [by split; [set_solver|]|].
  destruct (String.eqb_spec k k') as [->|]; [set_solver|]. rewrite IH. set_solver.
Qed.

Lemma dict_get_merge k d d' : NoDup (map fst d') →
  dict_get k (dict_merge d d') =
  match dict_get k d' with Some v => Some v | None => dict_get k d end.
Proof.
  unfold dict_merge. revert d. induction d' as [|[k' v'] d' IH]; intros d Hd; simpl; [done|].
  inversion Hd as [|? ? Hk Hd']; subst. rewrite IH by done.
  destruct (String.eqb_spec k k') as [->|].
  - rewrite (proj2 (dict_get_None k' d')), dict_get_insert by done. done.
  - by rewrite dict_get_insert_ne.
Qed.

(** ** [TestPlist] satisfies the laws *)

Lemma unesc_esc bs r : unesc (esc bs ++ r) = Some (bs, r).
Proof. induction bs as [|b bs IH]; simpl; [done|]. by rewrite IH. Qed.

Lemma length_test_enc_pos v : 0 < length (test_enc v).
Proof. destruct v; simpl; lia. Qed.

Lemma string_of_bytes_of_string s : string_of_bytes (bytes_of_string s) = s.
Proof. apply String.string_of_list_byte_of_string. Qed.

Lemma dec_array_enc dec fuel l r :
  Forall (λ v, ∀ r, dec (test_enc v ++ r) = Some (v, r)) l → length l ≤ fuel →
  dec_array dec fuel (foldr (λ v r, Byte.x01 :: test_enc v ++ r) [Byte.x00] l ++ r) = Some (l, r).
Proof.
  intros Hl. revert fuel. induction Hl as [|v l Hv _ IH]; intros fuel Hf; simpl in *.
  - by destruct fuel.
  - destruct fuel as [|fuel]; [lia|]. simpl. rewrite <- app_assoc, Hv. simpl.
    rewrite IH by lia. done.
Qed.

Lemma dec_dict_enc dec fuel (d : dict) r :
  Forall (λ kv, ∀ r, dec (test_enc kv.2 ++ r) = Some (kv.2, r)) d → length d ≤ fuel →
  dec_dict dec fuel (foldr (λ kv r, Byte.x01 :: esc (bytes_of_string kv.1) ++ test_enc kv.2 ++ r)
                       [Byte.x00] d ++ r) = Some (d, r).
Proof.
  intros Hl. revert fuel. induction Hl as [|[k v] d Hv _ IH]; intros fuel Hf; simpl in *.
  - by destruct fuel.
  - destruct fuel as [|fuel]; [lia|]. simpl. rewrite <- !app_assoc, unesc_esc. simpl.
    rewrite Hv. simpl. rewrite IH by lia. simpl. by rewrite string_of_bytes_of_string.
Qed.

Lemma test_dec_enc v : plist_wf v = true → ∀ fuel r,
  length (test_enc v) ≤ fuel → test_dec fuel (test_enc v ++ r) = Some (v, r).
Proof.
  induction v as [l IH|d IH|b|bs|z|z|z|s|z] using Value_ind'; intros Hwf [|fuel] r Hf;
    try (simpl in Hf; lia); try done; cbn [test_enc app test_dec] in *.
  - rewrite dec_array_enc; [done| |].
    + cbn [plist_wf] in Hwf. induction IH as [|v l Hv _ IH']; constructor.
      * simpl in *. rewrite length_app in Hf. apply andb_true_iff in Hwf as [? ?].
        intros r'. apply Hv; [done|lia].
      * simpl in *. rewrite length_app in Hf. apply andb_true_iff in Hwf as [? ?].
        apply IH'; [done|lia].
    + clear -Hf. revert fuel Hf. induction l as [|v l IHl]; intros fuel Hf; simpl in *; [lia|].
      rewrite length_app in Hf. destruct fuel; [lia|].
      pose proof (length_test_enc_pos v). specialize (IHl fuel). simpl in IHl. lia.
  - rewrite dec_dict_enc; [done| |].
    + cbn [plist_wf] in Hwf. apply andb_true_iff in Hwf as [_ Hwf].
      induction IH as [|[k v] l Hv _ IH']; constructor.
      * simpl in *. rewrite !length_app in Hf. rewrite !andb_true_iff in Hwf.
        intros r'. apply Hv; [naive_solver|lia].
      * simpl in *. rewrite !length_app in Hf. rewrite !andb_true_iff in Hwf.
        apply IH'; [naive_solver|lia].
    + clear -Hf. revert fuel Hf. induction d as [|[k v] d IHd]; intros fuel Hf; simpl in *; [lia|].
      rewrite !length_app in Hf. destruct fuel; [lia|].
      pose proof (length_test_enc_pos v). specialize (IHd fuel). simpl in IHd. lia.
  - by destruct b.
  - by rewrite unesc_esc.
  - cbn [plist_wf] in Hwf. apply bool_decide_eq_true in Hwf.
    rewrite decide_True by (rewrite length_app, length_le_encode; lia).
    rewrite take_app_exact, drop_app_exact by apply length_le_encode.
    rewrite le_decode_encode; [do 3 f_equal; lia|]. split; lia.
  - rewrite unesc_esc. simpl. by rewrite string_of_bytes_of_string.
Qed.

#[export] Instance TestPlist_laws : @PlistCodecLaws TestPlist.
Proof.
  split; cbn [to_xml from_bytes TestPlist].
  - intros v Hv. pose proof (test_dec_enc v Hv (length (test_enc v)) [] ltac:(lia)) as E.
    rewrite app_nil_r in E. by rewrite E.
  - intros bs. repeat case_match; eauto.
Qed.
