(* ===== verification/Builder.v ===== *)
(** * The packet builder ([src/parser/device_mux/builder.rs])

    [UsbDevicePacketBuilder] is generic in what has been supplied so far; an
    absent part has the type [Empty].  Its five [build] methods, one per
    combination of parts, are the instances of [Build].  [BuildOk] states which
    builders give a well-formed packet. *)

From S2P Require Import Prelude Io Tcp Utf8 DeviceMux Plist.

(** [TcpFlags]: a [u8] of flag bits. *)
Definition TcpFlags : Type := Z.
Definition ACK : TcpFlags := Z.shiftl 1 0.
Definition SYN : TcpFlags := Z.shiftl 1 1.
Definition RST : TcpFlags := Z.shiftl 1 2.

(** [bitflags]' [contains]: all bits of [other] are set in [self]. *)
Definition flags_contains (self other : TcpFlags) : bool :=
  bool_decide (Z.land self other = other).

(** [UsbDeviceConn::WINDOW_SIZE]: [((128u32 * 1024) >> 8) as u16] *)
Definition WINDOW_SIZE : Z := wrap 16 (Z.shiftr (128 * 1024) 8).

(** [u16::MAX] *)
Definition U16_MAX : Z := 2 ^ 16 - 1.

Inductive Empty : Type := MkEmpty.

Record UsbDevicePacketBuilder (P H TH : Type) : Type := Builder {
  b_payload : P;
  b_header : H;
  b_tcp_hdr : TH;
}.
Arguments Builder {P H TH} _ _ _.
Arguments b_payload {P H TH} _.
Arguments b_header {P H TH} _.
Arguments b_tcp_hdr {P H TH} _.

Definition builder_new : UsbDevicePacketBuilder Empty Empty Empty :=
  Builder MkEmpty MkEmpty MkEmpty.

Definition payload_version {H TH} (major minor : Z) (self : UsbDevicePacketBuilder Empty H TH)
  : UsbDevicePacketBuilder UsbDevicePacketVersion H TH :=
  Builder (packet_version_new major minor 0) (b_header self) (b_tcp_hdr self).

Definition payload_plist {H TH} (value : Value) (self : UsbDevicePacketBuilder Empty H TH)
  : UsbDevicePacketBuilder Value H TH :=
  Builder value (b_header self) (b_tcp_hdr self).

Definition payload_bytes {H TH} (value : list byte) (self : UsbDevicePacketBuilder Empty H TH)
  : UsbDevicePacketBuilder (list byte) H TH :=
  Builder value (b_header self) (b_tcp_hdr self).

Definition header_tcp {P TH} (send_seq recv_seq : Z) (self : UsbDevicePacketBuilder P Empty TH)
  : UsbDevicePacketBuilder P (Z * Z) TH :=
  Builder (b_payload self) (send_seq, recv_seq) (b_tcp_hdr self).

Definition header_version {P TH} (self : UsbDevicePacketBuilder P Empty TH)
  : UsbDevicePacketBuilder P Empty TH :=
  Builder (b_payload self) MkEmpty (b_tcp_hdr self).

Definition header_setup {P TH} (self : UsbDevicePacketBuilder P Empty TH)
  : UsbDevicePacketBuilder P (Z * Z) TH :=
  Builder (b_payload self) (0, U16_MAX)%Z (b_tcp_hdr self).

Definition tcp_header {P MH} (source_port destination_port sequence_number acknowledgment_number : Z)
    (flags : TcpFlags) (self : UsbDevicePacketBuilder P MH Empty)
  : UsbDevicePacketBuilder P MH TcpHeader :=
  let hdr := TcpHeader_new source_port destination_port sequence_number WINDOW_SIZE in
  Builder (b_payload self) (b_header self) {|
    Tcp.source_port := Tcp.source_port hdr;
    Tcp.destination_port := Tcp.destination_port hdr;
    Tcp.sequence_number := Tcp.sequence_number hdr;
    Tcp.acknowledgment_number := acknowledgment_number;
    ns := ns hdr; fin := fin hdr;
    syn := flags_contains flags SYN;
    rst := flags_contains flags RST;
    psh := psh hdr;
    ack := flags_contains flags ACK;
    urg := urg hdr; ece := ece hdr; cwr := cwr hdr;
    window_size := window_size hdr; checksum := checksum hdr;
    urgent_pointer := urgent_pointer hdr; options := options hdr;
  |}.

(** The five [build] methods. *)
Class Build (B : Type) : Type := build : B → UsbDevicePacket.

(** ack *)
#[export] Instance build_ack : Build (UsbDevicePacketBuilder Empty (Z * Z) TcpHeader) := λ self,
  let '(send_seq, recv_seq) := b_header self in
  let header := V2 (header_v2_new Tcp (HEADER_V2_SIZE + TCP_MIN_LEN) send_seq recv_seq) in
  Packet header (Some (b_tcp_hdr self)) (PayloadBytes []).

(** The XML between its length prefix and a final newline: four zero bytes are
    written first and then overwritten by the length. *)
Definition plist_payload `{PlistCodec} (v : Value) : list byte :=
  let payload := be_encode 4 0 ++ to_xml v ++ [Byte.x0a] in
  let payload_len := wrap 32 (Z.of_nat (length payload - 4)) in
  be_encode 4 payload_len ++ drop 4 payload.

(** full tcp packet with a plist *)
#[export] Instance build_plist `{PlistCodec}
  : Build (UsbDevicePacketBuilder Value (Z * Z) TcpHeader) := λ self,
  let payload := plist_payload (b_payload self) in
  let '(send_seq, recv_seq) := b_header self in
  let header := V2 (header_v2_new Tcp (HEADER_V2_SIZE + TCP_MIN_LEN + length payload)
                      send_seq recv_seq) in
  Packet header (Some (b_tcp_hdr self)) (PayloadBytes payload).

(** full tcp packet *)
#[export] Instance build_bytes : Build (UsbDevicePacketBuilder (list byte) (Z * Z) TcpHeader) := λ self,
  let payload := b_payload self in
  let '(send_seq, recv_seq) := b_header self in
  let header := V2 (header_v2_new Tcp (HEADER_V2_SIZE + TCP_MIN_LEN + length payload)
                      send_seq recv_seq) in
  Packet header (Some (b_tcp_hdr self)) (PayloadBytes payload).

(** version packet *)
#[export] Instance build_version
  : Build (UsbDevicePacketBuilder UsbDevicePacketVersion Empty Empty) := λ self,
  let payload := b_payload self in
  let header := V1 (header_v1_new Version
                      (wrap 32 (Z.of_nat (HEADER_V1_SIZE + PACKET_VERSION_SIZE)))) in
  Packet header None (PayloadVersion payload).

(** setup packet *)
#[export] Instance build_setup : Build (UsbDevicePacketBuilder (list byte) (Z * Z) Empty) := λ self,
  let payload := b_payload self in
  let '(send_seq, recv_seq) := b_header self in
  let header := V2 (header_v2_new Setup (HEADER_V2_SIZE + length payload) send_seq recv_seq) in
  Packet header None (PayloadBytes payload).

(** ** Which builders give a well-formed packet *)

(** A payload fits when the length field (a [u32]) can count it. *)
Definition payload_fits (headers : nat) (n : nat) : Prop :=
  (Z.of_nat (headers + n) < 2 ^ 32)%Z.

Definition seqs_ok (s : Z * Z) : Prop := in_width 16 s.1 ∧ in_width 16 s.2.

(** What the program's own TCP headers satisfy: no options. *)
Definition plain_tcp (h : TcpHeader) : Prop := tcp_wf h ∧ options h = [].

Class BuildOk (B : Type) `{Build B} : Type := {
  builder_ok : B → Prop;
  build_ok : ∀ b, builder_ok b → packet_ok (build b) ∧
    ∀ h, tcp_hdr (build b) = Some h → options h = [];
}.

(** ** Lemmas *)

Lemma header_v2_new_ok p n a b :
  p ≠ Version → payload_fits 0 n → seqs_ok (a, b) →
  header_ok (V2 (header_v2_new p n a b)) ∧
  get_protocol (V2 (header_v2_new p n a b)) = Ok p ∧
  get_length (V2 (header_v2_new p n a b)) = Z.of_nat n.
Proof.
  intros Hp Hn [Ha Hb]. unfold payload_fits in Hn. unfold header_v2_new, get_protocol. cbn.
  rewrite wrap_small by (split; lia). split_and!; try done.
  - destruct p; [done|auto..].
  - split; lia.
  - by destruct p.
Qed.

Lemma length_plist_payload `{PlistCodec} v :
  length (plist_payload v) = 4 + length (to_xml v) + 1.
Proof.
  unfold plist_payload. rewrite length_app, length_be_encode, drop_app_exact by apply length_be_encode.
  rewrite length_app. simpl. lia.
Qed.

Lemma tcp_packet_ok h a b payload :
  plain_tcp h → seqs_ok (a, b) → payload_fits (HEADER_V2_SIZE + TCP_MIN_LEN) (length payload) →
  packet_ok (Packet (V2 (header_v2_new Tcp (HEADER_V2_SIZE + TCP_MIN_LEN + length payload) a b))
               (Some h) (PayloadBytes payload)).
Proof.
  intros [Hwf Ho] Hs Hn.
  destruct (header_v2_new_ok Tcp (HEADER_V2_SIZE + TCP_MIN_LEN + length payload) a b)
    as (Hh & Hp & Hl); [done|unfold payload_fits in *; lia|done|].
  split; [exact Hh|]. exists Tcp. split_and!; try done.
  cbn [header tcp_hdr DeviceMux.payload]. rewrite Hl. cbn. unfold tcp_header_len. rewrite Ho. simpl. lia.
Qed.

#[export] Program Instance build_ack_ok : BuildOk (UsbDevicePacketBuilder Empty (Z * Z) TcpHeader) := {|
  builder_ok b := plain_tcp (b_tcp_hdr b) ∧ seqs_ok (b_header b);
|}.
Next Obligation.
  intros [[] [a b] h] [Ht Hs]. simpl in *. split; [|by intros ? [= <-]; destruct Ht].
  apply (tcp_packet_ok h a b [] Ht Hs). done.
Qed.

#[export] Program Instance build_bytes_ok
  : BuildOk (UsbDevicePacketBuilder (list byte) (Z * Z) TcpHeader) := {|
  builder_ok b := plain_tcp (b_tcp_hdr b) ∧ seqs_ok (b_header b)
    ∧ payload_fits (HEADER_V2_SIZE + TCP_MIN_LEN) (length (b_payload b));
|}.
Next Obligation.
  intros [p [a b] h] (Ht & Hs & Hn). simpl in *. split; [|by intros ? [= <-]; destruct Ht].
  by apply tcp_packet_ok.
Qed.

#[export] Program Instance build_plist_ok `{PlistCodec}
  : BuildOk (UsbDevicePacketBuilder Value (Z * Z) TcpHeader) := {|
  builder_ok b := plain_tcp (b_tcp_hdr b) ∧ seqs_ok (b_header b)
    ∧ payload_fits (HEADER_V2_SIZE + TCP_MIN_LEN + 5) (length (to_xml (b_payload b)));
|}.
Next Obligation.
  intros ? [p [a b] h] (Ht & Hs & Hn). cbn [b_tcp_hdr b_header b_payload] in *.
  split; [|by intros ? [= <-]; destruct Ht].
  apply tcp_packet_ok; [done..|]. unfold payload_fits in *. rewrite length_plist_payload. cbn [b_payload]. lia.
Qed.

#[export] Program Instance build_version_ok
  : BuildOk (UsbDevicePacketBuilder UsbDevicePacketVersion Empty Empty) := {|
  builder_ok b := payload_ok Version (PayloadVersion (b_payload b));
|}.
Next Obligation.
  intros [p [] []] Hv. split; [|done]. split; [done|]. by exists Version.
Qed.

#[export] Program Instance build_setup_ok
  : BuildOk (UsbDevicePacketBuilder (list byte) (Z * Z) Empty) := {|
  builder_ok b := seqs_ok (b_header b) ∧ payload_fits HEADER_V2_SIZE (length (b_payload b));
|}.
Next Obligation.
  intros [p [a b] []] (Hs & Hn). simpl in *. split; [|done].
  destruct (header_v2_new_ok Setup (HEADER_V2_SIZE + length p) a b)
    as (Hh & Hp & Hl); [done|unfold payload_fits in *; lia|done|].
  split; [exact Hh|]. by exists Setup.
Qed.

Lemma WINDOW_SIZE_width : in_width 16 WINDOW_SIZE.
Proof. done. Qed.

(** The TCP headers the builder makes need only ports and sequence numbers of
    their width. *)
Lemma tcp_header_plain {P MH} (b : UsbDevicePacketBuilder P MH Empty) s d seq a fl :
  in_width 16 s → in_width 16 d → in_width 32 seq → in_width 32 a →
  plain_tcp (b_tcp_hdr (tcp_header s d seq a fl b)).
Proof. intros. split; [|done]. split_and!; simpl; done || lia. Qed.

(** ** The builder's contract *)

Section theorems.
Context {codec : TcpCodec} {laws : TcpCodecLaws}.

(** Every packet the builder makes from parts that fit
    their fields is read back from a stream as itself, and the stream is left
    exactly behind it: the builder fills the protocol, length and magic fields
    consistently in all five [build] methods. *)
Theorem build_roundtrip {B} `{BuildOk B} {R} `{ByteReaderLaws R ErrorKind} (b : B) (r : R) rest :
  builder_ok b → reader_data r = packet_encode (build b) ++ rest →
  ∃ r', packet_from_reader r = (Ok (build b), r') ∧ reader_data r' = rest.
Proof.
  intros [Hok Ho]%build_ok Hr. apply reader_iff_slice. split; [|done].
  rewrite Hr. by apply slice_parses_encode.
Qed.

(** A TCP packet carries the flags it was asked for and no
    others, the ports, sequence and acknowledgment numbers it was given, and
    always the fixed window of 512 (128 KiB shifted right by 8). *)
Theorem build_tcp_fields s d seq a fl sseq rseq payload :
  let p := build (payload_bytes payload (tcp_header s d seq a fl
             (header_tcp sseq rseq builder_new))) in
  get_protocol (header p) = Ok DeviceMux.Tcp ∧
  payload_encode (DeviceMux.payload p) = payload ∧
  ∃ h, tcp_hdr p = Some h ∧
    source_port h = s ∧ destination_port h = d ∧ sequence_number h = seq ∧
    acknowledgment_number h = a ∧ window_size h = 512%Z ∧ options h = [] ∧
    ack h = Z.testbit fl 0 ∧ syn h = Z.testbit fl 1 ∧ rst h = Z.testbit fl 2 ∧
    fin h = false ∧ psh h = false ∧ urg h = false.
Proof.
  split; [done|]. split; [done|]. eexists. split; [done|].
  assert (G : ∀ n, (0 ≤ n)%Z → flags_contains fl (Z.shiftl 1 n) = Z.testbit fl n).
  { intros n Hn. unfold flags_contains. rewrite Z.shiftl_1_l.
    destruct (Z.testbit fl n) eqn:E.
    - apply bool_decide_eq_true. apply Z.bits_inj'. intros k Hk.
      rewrite Z.land_spec, Z.pow2_bits_eqb by done.
      destruct (Z.eqb_spec n k) as [<-|]; [by rewrite E|by rewrite andb_false_r].
    - apply bool_decide_eq_false. intros F. apply (f_equal (λ z, Z.testbit z n)) in F.
      rewrite Z.land_spec, Z.pow2_bits_true, E in F by done. done. }
  split_and!; try done; [apply (G 0%Z)|apply (G 1%Z)|apply (G 2%Z)]; lia.
Qed.

End theorems.
