(* ===== verification/UsbMux.v ===== *)
(** * The client protocol's packets ([src/parser/usbmux.rs], first half)

    Packets between the daemon and its clients: a little-endian header of four
    [u32] (the struct is cast to bytes as it lies in memory, on the little-endian
    hosts the daemon runs on), then the payload, a property list or raw bytes by
    the header's version.  [UsbMuxRequest] is in [Request]. *)

From S2P Require Import Prelude Io Plist.

(** ** Data *)

Inductive UsbMuxVersion : Type := Binary | PlistVersion.

Module UsbMuxMsgType.
Inductive t : Type :=
| Result
| Connect
| Listen
| DeviceAdd
| DeviceRemove
| DevicePaired
| MessagePlist.
End UsbMuxMsgType.

Module UsbMuxResult.
Inductive t : Type :=
| OK
| BadCommand
| BadDeviceOrNoSuchFile
| ConnectionRefused
| BadVersion
| InvalidInput.
End UsbMuxResult.

(** [as u32], [as u16] *)
Definition version_as_u32 (v : UsbMuxVersion) : Z :=
  match v with Binary => 0 | PlistVersion => 1 end.

Definition msg_type_as_u32 (t : UsbMuxMsgType.t) : Z :=
  match t with
  | UsbMuxMsgType.Result => 1
  | UsbMuxMsgType.Connect => 2
  | UsbMuxMsgType.Listen => 3
  | UsbMuxMsgType.DeviceAdd => 4
  | UsbMuxMsgType.DeviceRemove => 5
  | UsbMuxMsgType.DevicePaired => 6
  | UsbMuxMsgType.MessagePlist => 8
  end.

Definition result_as_u32 (r : UsbMuxResult.t) : Z :=
  match r with
  | UsbMuxResult.OK => 0
  | UsbMuxResult.BadCommand => 1
  | UsbMuxResult.BadDeviceOrNoSuchFile => 2
  | UsbMuxResult.ConnectionRefused => 3
  | UsbMuxResult.BadVersion => 6
  | UsbMuxResult.InvalidInput => 22
  end.

Definition not_valid (value : Z) (what : string) : ParseError.t :=
  ParseError.InvalidData ("`" +:+ pretty value +:+ "` is not a valid usbmux " +:+ what).

Definition version_try_from (value : Z) : outcome ParseError.t UsbMuxVersion :=
  match value with
  | 0 => Ok Binary
  | 1 => Ok PlistVersion
  | _ => Err (not_valid value "packet version")
  end%Z.

Definition msg_type_try_from (value : Z) : outcome ParseError.t UsbMuxMsgType.t :=
  match value with
  | 1 => Ok UsbMuxMsgType.Result
  | 2 => Ok UsbMuxMsgType.Connect
  | 3 => Ok UsbMuxMsgType.Listen
  | 4 => Ok UsbMuxMsgType.DeviceAdd
  | 5 => Ok UsbMuxMsgType.DeviceRemove
  | 6 => Ok UsbMuxMsgType.DevicePaired
  | 8 => Ok UsbMuxMsgType.MessagePlist
  | _ => Err (not_valid value "message type")
  end%Z.

Definition result_try_from (value : Z) : outcome ParseError.t UsbMuxResult.t :=
  match value with
  | 0 => Ok UsbMuxResult.OK
  | 1 => Ok UsbMuxResult.BadCommand
  | 2 => Ok UsbMuxResult.BadDeviceOrNoSuchFile
  | 3 => Ok UsbMuxResult.ConnectionRefused
  | 6 => Ok UsbMuxResult.BadVersion
  | 22 => Ok UsbMuxResult.InvalidInput
  | _ => Err (not_valid value "result")
  end%Z.

Record UsbMuxHeader : Type := Header {
  len : Z;
  version : UsbMuxVersion;
  msg_type : UsbMuxMsgType.t;
  tag : Z;
}.

Inductive UsbMuxPayload : Type :=
| PlistPayload (p : Value)
| Raw (b : list byte).

Record UsbMuxPacket : Type := MuxPacket {
  mux_header : UsbMuxHeader;
  mux_payload : UsbMuxPayload;
}.

Definition USBMUX_HEADER_SIZE : nat := 16.

Definition as_plist (p : UsbMuxPayload) : option Value :=
  match p with PlistPayload p => Some p | Raw _ => None end.

Definition as_binary (p : UsbMuxPayload) : option (list byte) :=
  match p with Raw b => Some b | PlistPayload _ => None end.

(** ** Operations *)

Definition header_encode (h : UsbMuxHeader) : list byte :=
  le_encode 4 (len h) ++ le_encode 4 (version_as_u32 (version h))
  ++ le_encode 4 (msg_type_as_u32 (msg_type h)) ++ le_encode 4 (tag h).

(** [bytemuck::pod_read_unaligned] of the raw header, then the two [try_into]. *)
Definition header_of_bytes (buf : list byte) : outcome ParseError.t UsbMuxHeader :=
  let? version := version_try_from (le_decode (slice_at 4 4 buf)) in
  let? msg_type := msg_type_try_from (le_decode (slice_at 8 4 buf)) in
  Ok (Header (le_decode (slice_at 0 4 buf)) version msg_type (le_decode (slice_at 12 4 buf))).

Section codec.
Context {plist : PlistCodec}.

Definition payload_encode (p : UsbMuxPayload) : list byte :=
  match p with PlistPayload p => to_xml p | Raw b => b end.

Definition payload_decode (header_version : UsbMuxVersion) (payload : list byte)
  : outcome ParseError.t UsbMuxPayload :=
  match header_version with
  | PlistVersion =>
      let? plist_payload := map_err ParseError.Plist (from_bytes payload) in
      Ok (PlistPayload plist_payload)
  | Binary => Ok (Raw payload)
  end.

Definition packet_encode (p : UsbMuxPacket) : list byte :=
  header_encode (mux_header p) ++ payload_encode (mux_payload p).

Definition encode_from (payload : list byte) (version : UsbMuxVersion)
    (msg_type : UsbMuxMsgType.t) (tag : Z) : list byte :=
  packet_encode (MuxPacket
    (Header (wrap 32 (Z.of_nat (length payload + USBMUX_HEADER_SIZE))) version msg_type tag)
    (Raw payload)).

Section reader.
Context {R : Type} {reader : ByteReader R ErrorKind}.

Definition header_from_reader : stateful R ParseError.t UsbMuxHeader :=
  let! buf := st_map_err ParseError.IO (read_exact USBMUX_HEADER_SIZE) in
  st_lift (header_of_bytes buf).

(** [u32::checked_sub] *)
Definition checked_sub (a b : Z) : option Z := if decide (b ≤ a)%Z then Some (a - b)%Z else None.

Definition short_payload (l : Z) : ParseError.t :=
  ParseError.InvalidData ("payload is shorter than the header, header length: "
    +:+ pretty USBMUX_HEADER_SIZE +:+ ", payload length: " +:+ pretty l).

Definition from_reader : stateful R ParseError.t UsbMuxPacket :=
  let! header := header_from_reader in
  let! payload_len := st_lift (ok_or (short_payload (len header))
    (checked_sub (len header) (Z.of_nat USBMUX_HEADER_SIZE))) in
  let! payload := st_map_err ParseError.IO (read_exact (Z.to_nat payload_len)) in
  let! usbmux_payload := st_lift (payload_decode (version header) payload) in
  st_ret (MuxPacket header usbmux_payload).

End reader.
End codec.

(** ** The framing contract

    What reading a packet from [data] gives, and how many bytes it uses up
    ([None]: the stream ended early, what is left is unspecified). *)
Inductive frame `{PlistCodec} (data : list byte)
  : outcome ParseError.t UsbMuxPacket → option nat → Prop :=
| frame_no_header k :
    length data < USBMUX_HEADER_SIZE → frame data (Err (ParseError.IO k)) None
| frame_bad_header m :
    USBMUX_HEADER_SIZE ≤ length data →
    header_of_bytes (take USBMUX_HEADER_SIZE data) = Err (ParseError.InvalidData m) →
    frame data (Err (ParseError.InvalidData m)) (Some USBMUX_HEADER_SIZE)
| frame_bad_length h :
    USBMUX_HEADER_SIZE ≤ length data →
    header_of_bytes (take USBMUX_HEADER_SIZE data) = Ok h → (len h < 16)%Z →
    frame data (Err (short_payload (len h))) (Some USBMUX_HEADER_SIZE)
| frame_cut h k :
    USBMUX_HEADER_SIZE ≤ length data →
    header_of_bytes (take USBMUX_HEADER_SIZE data) = Ok h →
    (16 ≤ len h)%Z → length data < Z.to_nat (len h) → frame data (Err (ParseError.IO k)) None
| frame_bad_plist h e :
    header_of_bytes (take USBMUX_HEADER_SIZE data) = Ok h →
    (16 ≤ len h)%Z → Z.to_nat (len h) ≤ length data → version h = PlistVersion →
    from_bytes (drop USBMUX_HEADER_SIZE (take (Z.to_nat (len h)) data)) = Err e →
    frame data (Err (ParseError.Plist e)) (Some (Z.to_nat (len h)))
| frame_plist h v :
    header_of_bytes (take USBMUX_HEADER_SIZE data) = Ok h →
    (16 ≤ len h)%Z → Z.to_nat (len h) ≤ length data → version h = PlistVersion →
    from_bytes (drop USBMUX_HEADER_SIZE (take (Z.to_nat (len h)) data)) = Ok v →
    frame data (Ok (MuxPacket h (PlistPayload v))) (Some (Z.to_nat (len h)))
| frame_binary h :
    header_of_bytes (take USBMUX_HEADER_SIZE data) = Ok h →
    (16 ≤ len h)%Z → Z.to_nat (len h) ≤ length data → version h = Binary →
    frame data (Ok (MuxPacket h (Raw (drop USBMUX_HEADER_SIZE (take (Z.to_nat (len h)) data)))))
      (Some (Z.to_nat (len h))).

(** ** Lemmas *)

Lemma length_usbmux_header h : length (header_encode h) = USBMUX_HEADER_SIZE.
Proof. unfold header_encode. rewrite !length_app. by autorewrite with rusbmux_rw. Qed.

Lemma version_try_from_as v : version_try_from (version_as_u32 v) = Ok v.
Proof. by destruct v. Qed.

Lemma msg_type_try_from_as t : msg_type_try_from (msg_type_as_u32 t) = Ok t.
Proof. by destruct t. Qed.

Lemma header_of_bytes_encode h :
  in_width 32 (len h) → in_width 32 (tag h) → header_of_bytes (header_encode h) = Ok h.
Proof.
  intros Hl Ht. unfold header_of_bytes, header_encode.
  solve_slices.
  rewrite !le_decode_encode
    by first [done | by destruct (msg_type h) | by destruct (version h)].
  rewrite version_try_from_as, msg_type_try_from_as. by destruct h.
Qed.

Lemma header_of_bytes_ok buf h :
  header_of_bytes buf = Ok h → in_width 32 (len h) ∧ in_width 32 (tag h).
Proof.
  assert (Hw : ∀ i, in_width 32 (le_decode (slice_at i 4 buf))).
  { intros i. pose proof (le_decode_range (slice_at i 4 buf)) as [H0 H1]. split; [done|].
    eapply Z.lt_le_trans; [exact H1|]. pose proof (length_slice_at_le i 4 buf).
    apply Z.pow_le_mono_r; lia. }
  unfold header_of_bytes. intros H. invert_binds. simplify_eq. split; apply Hw.
Qed.

Lemma header_of_bytes_err buf :
  (∃ h, header_of_bytes buf = Ok h) ∨ (∃ m, header_of_bytes buf = Err (ParseError.InvalidData m)).
Proof.
  unfold header_of_bytes, version_try_from, msg_type_try_from, not_valid.
  repeat case_match; simpl; eauto.
Qed.

Lemma checked_sub_cases l n :
  ((n ≤ l)%Z ∧ checked_sub l n = Some (l - n)%Z) ∨ ((l < n)%Z ∧ checked_sub l n = None).
Proof. unfold checked_sub. case_decide; [left|right]; split; by try lia. Qed.

Section reader_theorems.
Context {plist : PlistCodec} {plaws : PlistCodecLaws}.
Context {R : Type} {reader : ByteReader R ErrorKind} {rlaws : ByteReaderLaws R ErrorKind}.

Lemma header_from_reader_cases (r : R) :
  (length (reader_data r) < USBMUX_HEADER_SIZE ∧
    ∃ k r', header_from_reader r = (Err (ParseError.IO k), r'))
  ∨ (USBMUX_HEADER_SIZE ≤ length (reader_data r) ∧ ∃ r',
    header_from_reader r = (header_of_bytes (take USBMUX_HEADER_SIZE (reader_data r)), r')
    ∧ reader_data r' = drop USBMUX_HEADER_SIZE (reader_data r)).
Proof.
  unfold header_from_reader, st_bind, st_map_err, st_lift.
  destruct (decide (USBMUX_HEADER_SIZE ≤ length (reader_data r))) as [Hn|Hn]; [right|left].
  - split; [done|]. destruct (read_exact_enough _ r Hn) as (r' & -> & Hd). simpl. eauto.
  - split; [lia|]. destruct (read_exact_short USBMUX_HEADER_SIZE r) as (e & r' & ->); [lia|].
    simpl. eauto.
Qed.

Lemma payload_step_frame h (r1 : R) data :
  header_of_bytes (take USBMUX_HEADER_SIZE data) = Ok h →
  USBMUX_HEADER_SIZE ≤ length data → (16 ≤ len h)%Z →
  reader_data r1 = drop USBMUX_HEADER_SIZE data →
  ∃ o c r', frame data o c ∧
    (let! payload := st_map_err ParseError.IO
       (read_exact (Z.to_nat (len h - Z.of_nat USBMUX_HEADER_SIZE))) in
     let! usbmux_payload := st_lift (payload_decode (version h) payload) in
     st_ret (MuxPacket h usbmux_payload)) r1 = (o, r') ∧
    (∀ n, c = Some n → reader_data r' = drop n data).
Proof.
  intros Hh H16 Hlen Hd. unfold USBMUX_HEADER_SIZE in *.
  replace (Z.to_nat (len h - Z.of_nat 16)) with (Z.to_nat (len h) - 16) by lia.
  unfold st_bind, st_map_err, st_lift, st_ret.
  destruct (decide (Z.to_nat (len h) ≤ length data)) as [Hfit|Hcut].
  - destruct (read_exact_enough (Z.to_nat (len h) - 16) r1) as (r' & -> & Hd');
      [rewrite Hd, length_drop; lia|].
    rewrite Hd in Hd'. rewrite drop_drop in Hd'.
    replace (16 + (Z.to_nat (len h) - 16)) with (Z.to_nat (len h)) in Hd' by lia.
    rewrite Hd. rewrite take_drop_commute.
    replace (16 + (Z.to_nat (len h) - 16)) with (Z.to_nat (len h)) by lia.
    cbn [map_err]. unfold payload_decode. destruct (version h) eqn:Ev.
    + eexists _, _, _. split; [by apply frame_binary|]. split; [done|]. by intros ? [= <-].
    + destruct (from_bytes_total (drop 16 (take (Z.to_nat (len h)) data))) as [(v & E)|(e & E)];
        rewrite E; cbn.
      * eexists _, _, _. split; [by eapply frame_plist|]. split; [done|]. by intros ? [= <-].
      * eexists _, _, _. split; [by eapply frame_bad_plist|]. split; [done|]. by intros ? [= <-].
  - destruct (read_exact_short (Z.to_nat (len h) - 16) r1) as (e & r' & ->);
      [rewrite Hd, length_drop; lia|].
    eexists _, _, _. split; [eapply (frame_cut _ h e); (done || lia)|]. by split.
Qed.

(** C25.  Reading a client packet implements the framing contract on every
    input: it never panics, a packet uses up exactly the bytes its length field
    announces, also when its property list is malformed, and a header with an
    unknown version or type, or a length below 16, uses up the 16 header bytes
    only, so that the payload behind it is taken for the next header. *)
Theorem from_reader_implements_frame (r : R) :
  ∃ o c r', frame (reader_data r) o c ∧ from_reader r = (o, r') ∧
    ∀ n, c = Some n → reader_data r' = drop n (reader_data r).
Proof.
  unfold from_reader.
  destruct (header_from_reader_cases r) as [(Hs & k & r' & E)|(Hs & r' & E & Hd)].
  - unfold st_bind at 1. rewrite E. eexists _, _, _. split; [by apply (frame_no_header _ k)|]. done.
  - destruct (header_of_bytes_err (take USBMUX_HEADER_SIZE (reader_data r))) as [(h & Eh)|(m & Eh)].
    2:{ unfold st_bind at 1. rewrite E, Eh. eexists _, _, _.
        split; [by apply (frame_bad_header _ m)|]. split; [done|]. by intros ? [= <-]. }
    rewrite Eh in E. rewrite (st_bind_eq _ _ _ _ _ E).
    destruct (checked_sub_cases (len h) (Z.of_nat USBMUX_HEADER_SIZE)) as [[Hl Ec]|[Hl Ec]].
    + erewrite (st_bind_eq (st_lift _)) by (unfold st_lift; by rewrite Ec).
      by apply payload_step_frame.
    + unfold st_bind at 1, st_lift. rewrite Ec. eexists _, _, _.
      split; [by apply (frame_bad_length _ h)|]. split; [done|]. by intros ? [= <-].
Qed.

(** Reading back what [encode_from] wrote. *)
Lemma from_reader_encode_from (r : R) payload v mt t rest p :
  (Z.of_nat (length payload + USBMUX_HEADER_SIZE) < 2 ^ 32)%Z → in_width 32 t →
  reader_data r = encode_from payload v mt t ++ rest →
  payload_decode v payload = Ok p →
  ∃ r', from_reader r =
      (Ok (MuxPacket (Header (Z.of_nat (length payload + USBMUX_HEADER_SIZE)) v mt t) p), r')
    ∧ reader_data r' = rest.
Proof.
  intros Hn Ht Hr Hp. unfold from_reader. unfold encode_from, packet_encode in Hr.
  cbn [mux_header mux_payload payload_encode] in Hr.
  rewrite wrap_small in Hr by (split; lia). rewrite <- app_assoc in Hr.
  set (h := Header _ _ _ _) in *.
  destruct (header_from_reader_cases r) as [(Hs & _)|(Hs & r1 & E & Hd)].
  { rewrite Hr, length_app, length_usbmux_header in Hs. lia. }
  rewrite Hr, take_app_exact, header_of_bytes_encode in E;
    [|subst h; cbn; split; lia|done|apply length_usbmux_header].
  rewrite Hr, drop_app_exact in Hd by apply length_usbmux_header.
  rewrite (st_bind_eq _ _ _ _ _ E).
  erewrite (st_bind_eq (st_lift _)).
  2:{ unfold st_lift, checked_sub. rewrite decide_True by (subst h; cbn [len]; lia). done. }
  subst h. cbn [len version].
  replace (Z.to_nat _) with (length payload) by lia.
  destruct (read_exact_enough (length payload) r1) as (r2 & E2 & Hd2);
    [rewrite Hd, length_app; lia|].
  rewrite Hd, take_app_length in E2. rewrite Hd, drop_app_length in Hd2.
  exists r2. split; [|done]. unfold st_bind, st_map_err, st_lift. rewrite E2. cbn [map_err].
  by rewrite Hp.
Qed.

(** A property list sent with [encode_from] is read back by
    [from_reader] as that property list, with its type and tag, and the stream is
    left behind it. *)
Theorem encode_from_roundtrip (r : R) v mt t rest :
  plist_wf v = true → (Z.of_nat (length (to_xml v) + USBMUX_HEADER_SIZE) < 2 ^ 32)%Z →
  in_width 32 t → reader_data r = encode_from (to_xml v) PlistVersion mt t ++ rest →
  ∃ n r', from_reader r = (Ok (MuxPacket (Header n PlistVersion mt t) (PlistPayload v)), r')
    ∧ reader_data r' = rest.
Proof.
  intros Hv Hn Ht Hr. eexists. eapply from_reader_encode_from; [done..|].
  unfold payload_decode. by rewrite from_to_xml.
Qed.

End reader_theorems.

(** The three [TryFrom<u32>] conversions accept exactly the
    discriminants of their enums and give the variant with that discriminant;
    every other number is an [InvalidData] error. *)
Theorem try_from_exact (value : Z) :
  (∀ v, version_try_from value = Ok v ↔ version_as_u32 v = value) ∧
  (∀ t, msg_type_try_from value = Ok t ↔ msg_type_as_u32 t = value) ∧
  (∀ r, result_try_from value = Ok r ↔ result_as_u32 r = value) ∧
  ((∀ t, msg_type_as_u32 t ≠ value) → ∃ m, msg_type_try_from value = Err (ParseError.InvalidData m)).
Proof.
  split_and!.
  - intros v. split; [|intros <-; by destruct v].
    unfold version_try_from. intros. repeat case_match; by simplify_eq.
  - intros v. split; [|intros <-; by destruct v].
    unfold msg_type_try_from. intros. repeat case_match; by simplify_eq.
  - intros v. split; [|intros <-; by destruct v].
    unfold result_try_from. intros. repeat case_match; by simplify_eq.
  - intros Hno. unfold msg_type_try_from, not_valid.
    repeat case_match; eauto; exfalso; subst.
    all: first [by apply (Hno UsbMuxMsgType.Result) | by apply (Hno UsbMuxMsgType.Connect)
      | by apply (Hno UsbMuxMsgType.Listen) | by apply (Hno UsbMuxMsgType.DeviceAdd)
      | by apply (Hno UsbMuxMsgType.DeviceRemove) | by apply (Hno UsbMuxMsgType.DevicePaired)
      | by apply (Hno UsbMuxMsgType.MessagePlist)].
Qed.
