(* ===== verification/Request.v ===== *)
(** * Client requests ([src/parser/usbmux.rs], second half)

    [UsbMuxRequest]: its printing as a property list ([into_plist]) and its
    reading from one.  Reading is [serde]'s: the attributes of the two types give
    the names of the fields ([rename], [rename_all], [alias]), what is optional
    and how the tag selects the variant; [from_value] spells out what the derived
    code does with them.  The text form of an IP address
    comes from the parameter [IpText]; the text of an error, which the session
    looks at, is a parameter of [Session]. *)

From S2P Require Import Prelude Utf8 Plist UsbMux.

(** [std::net::IpAddr], by its octets. *)
Inductive IpAddr : Type :=
| IpV4 (octets : list byte)
| IpV6 (octets : list byte).

Class IpText : Type := {
  ip_to_string : IpAddr → string;
  ip_from_str : string → option IpAddr;
}.

Class IpTextLaws `{IpText} : Prop := {
  ip_from_to_string : ∀ ip, ip_from_str (ip_to_string ip) = Some ip;
}.

(** What can be wrong with a request: a required field is missing, its tag is
    unknown, or it is something else (a value of the wrong type or out of range, a
    field given twice, not a dictionary). *)
Inductive DeError : Type :=
| MissingField (field : string)
| UnknownVariant (v : string)
| Malformed.

(** ** Data *)

Record UsbMuxCommon : Type := Common {
  bundle_id : option string;
  client_version_string : option string;
  conn_type : option Z;
  process_id : option Z;
  prog_name : option string;
  libusbmux_version : option Z;
}.

Module UsbMuxRequest.
Inductive t : Type :=
| Listen (common : UsbMuxCommon)
| ListDevices (common : UsbMuxCommon)
| ListListeners (common : UsbMuxCommon)
| ReadBUID (common : UsbMuxCommon)
| ReadPairRecord (common : UsbMuxCommon) (pair_record_id : string)
| SavePairRecord (common : UsbMuxCommon) (pair_record_id : string) (pair_record_data : list byte)
    (device_id : option Z)
| DeletePairRecord (common : UsbMuxCommon) (pair_record_id : string)
| Connect (common : UsbMuxCommon) (device_id : Z) (port : Z)
| AddDevice (common : UsbMuxCommon) (ip : IpAddr) (udid : string) (force : bool).
End UsbMuxRequest.

(** ** Building the common part *)

Definition common_default : UsbMuxCommon := Common None None None None None None.

Definition common_builder : UsbMuxCommon := common_default.

Definition with_libusbmux_version (v : Z) (c : UsbMuxCommon) : UsbMuxCommon :=
  Common (bundle_id c) (client_version_string c) (conn_type c) (process_id c) (prog_name c) (Some v).

Definition with_process_id (v : Z) (c : UsbMuxCommon) : UsbMuxCommon :=
  Common (bundle_id c) (client_version_string c) (conn_type c) (Some v) (prog_name c)
    (libusbmux_version c).

Definition with_connection_type (v : Z) (c : UsbMuxCommon) : UsbMuxCommon :=
  Common (bundle_id c) (client_version_string c) (Some v) (process_id c) (prog_name c)
    (libusbmux_version c).

Definition with_client_version_string (v : string) (c : UsbMuxCommon) : UsbMuxCommon :=
  Common (bundle_id c) (Some v) (conn_type c) (process_id c) (prog_name c) (libusbmux_version c).

Definition with_bundle_id (v : string) (c : UsbMuxCommon) : UsbMuxCommon :=
  Common (Some v) (client_version_string c) (conn_type c) (process_id c) (prog_name c)
    (libusbmux_version c).

Definition with_program_name (v : string) (c : UsbMuxCommon) : UsbMuxCommon :=
  Common (bundle_id c) (client_version_string c) (conn_type c) (process_id c) (Some v)
    (libusbmux_version c).

(** ** Printing *)

Definition encode_common (common : UsbMuxCommon) : dict :=
  dict_insert_opt "kLibUSBMuxVersion" (Integer <$> libusbmux_version common)
  (dict_insert_opt "ProgramName" (String <$> prog_name common)
  (dict_insert_opt "ProcessID" (Integer <$> process_id common)
  (dict_insert_opt "ConnType" (Integer <$> conn_type common)
  (dict_insert_opt "ClientVersionString" (String <$> client_version_string common)
  (dict_insert_opt "BundleID" (String <$> bundle_id common) []))))).

Definition message_type (r : UsbMuxRequest.t) : string :=
  match r with
  | UsbMuxRequest.Listen _ => "Listen"
  | UsbMuxRequest.ListDevices _ => "ListDevices"
  | UsbMuxRequest.ListListeners _ => "ListListeners"
  | UsbMuxRequest.ReadBUID _ => "ReadBUID"
  | UsbMuxRequest.ReadPairRecord _ _ => "ReadPairRecord"
  | UsbMuxRequest.SavePairRecord _ _ _ _ => "SavePairRecord"
  | UsbMuxRequest.DeletePairRecord _ _ => "DeletePairRecord"
  | UsbMuxRequest.Connect _ _ _ => "Connect"
  | UsbMuxRequest.AddDevice _ _ _ _ => "AddDevice"
  end.

Definition into_plist `{IpText} (r : UsbMuxRequest.t) : Value :=
  let message_type := ("MessageType", String (message_type r)) in
  match r with
  | UsbMuxRequest.Listen common | UsbMuxRequest.ListListeners common
  | UsbMuxRequest.ListDevices common | UsbMuxRequest.ReadBUID common =>
      Dictionary (dict_merge [message_type] (encode_common common))
  | UsbMuxRequest.ReadPairRecord common pair_record_id
  | UsbMuxRequest.DeletePairRecord common pair_record_id =>
      Dictionary (dict_merge [message_type; ("PairRecordID", String pair_record_id)]
                    (encode_common common))
  | UsbMuxRequest.SavePairRecord common pair_record_id pair_record_data device_id =>
      Dictionary (dict_merge
        (dict_insert_opt "DeviceID" (Integer <$> device_id)
           [message_type; ("PairRecordID", String pair_record_id);
            ("PairRecordData", Data pair_record_data)])
        (encode_common common))
  | UsbMuxRequest.Connect common device_id port =>
      Dictionary (dict_merge [message_type; ("DeviceID", Integer device_id);
                              ("PortNumber", Integer port)] (encode_common common))
  | UsbMuxRequest.AddDevice common ip udid force =>
      Dictionary (dict_merge [message_type; ("IP", String (ip_to_string ip));
                              ("UDID", String udid); ("Force", Boolean force)]
                    (encode_common common))
  end.

(** ** Reading *)

(** [u16::to_be] on a little-endian host: the two bytes are swapped. *)
Definition to_be16 (z : Z) : Z := le_decode (be_encode 2 z).

(** [deserialize_port_number] *)
Definition deserialize_port_number (value : Value) : option Z :=
  match as_unsigned_integer value with
  | Some ui => Some (to_be16 (wrap 16 ui))
  | None =>
      match as_signed_integer value with
      | Some si => Some (to_be16 (wrap 16 si))
      | None => None
      end
  end.

(** [serde]'s [String], [u8]/[u32]/[u64], [bool], [plist::Data] and [IpAddr]. *)
Definition de_string (v : Value) : option string :=
  match v with
  | String s => Some s
  | Data bs => if valid_utf8 bs then Some (string_of_bytes bs) else None
  | _ => None
  end.

Definition de_uint (w : Z) (v : Value) : option Z :=
  match v with Integer z => if decide (0 ≤ z < 2 ^ w)%Z then Some z else None | _ => None end.

Definition de_bool (v : Value) : option bool :=
  match v with Boolean b => Some b | _ => None end.

Definition de_data (v : Value) : option (list byte) :=
  match v with Data bs => Some bs | _ => None end.

Definition de_ip `{IpText} (v : Value) : option IpAddr :=
  match v with String s => ip_from_str s | _ => None end.

(** A field under any of [names]: absent, given once, or given more than once. *)
Definition field {A} (names : list string) (de : Value → option A) (d : dict)
  : outcome DeError (option A) :=
  match omap (λ k, dict_get k d) names with
  | [] => Ok None
  | [v] => match de v with Some a => Ok (Some a) | None => Err Malformed end
  | _ => Err Malformed
  end.

Definition required {A} (name : string) (o : option A) : outcome DeError A :=
  ok_or (MissingField name) o.

(** The flattened part is read last, from the fields that are left. *)
Definition common_from_dict (d : dict) : outcome DeError UsbMuxCommon :=
  let? bundle_id := field ["BundleID"] de_string d in
  let? client_version_string := field ["ClientVersionString"] de_string d in
  let? conn_type := field ["ConnType"] (de_uint 8) d in
  let? process_id := field ["ProcessID"] (de_uint 32) d in
  let? prog_name := field ["ProgName"] de_string d in
  let? libusbmux_version := field ["kLibUSBMuxVersion"] (de_uint 8) d in
  Ok (Common bundle_id client_version_string conn_type process_id prog_name libusbmux_version).

(** One variant: its own fields are parsed as they are met, then the missing ones
    are reported in the order of their declaration, then the common part is read. *)
Definition variant_from_dict `{IpText} (tag : string) (d : dict)
  : outcome DeError UsbMuxRequest.t :=
  if String.eqb tag "Listen" then
    let? common := common_from_dict d in Ok (UsbMuxRequest.Listen common)
  else if String.eqb tag "ListDevices" then
    let? common := common_from_dict d in Ok (UsbMuxRequest.ListDevices common)
  else if String.eqb tag "ListListeners" then
    let? common := common_from_dict d in Ok (UsbMuxRequest.ListListeners common)
  else if String.eqb tag "ReadBUID" then
    let? common := common_from_dict d in Ok (UsbMuxRequest.ReadBUID common)
  else if String.eqb tag "ReadPairRecord" then
    let? id := field ["PairRecordID"] de_string d in
    let? id := required "PairRecordID" id in
    let? common := common_from_dict d in Ok (UsbMuxRequest.ReadPairRecord common id)
  else if String.eqb tag "SavePairRecord" then
    let? id := field ["PairRecordID"] de_string d in
    let? data := field ["PairRecordData"] de_data d in
    let? device_id := field ["DeviceID"] (de_uint 64) d in
    let? id := required "PairRecordID" id in
    let? data := required "PairRecordData" data in
    let? common := common_from_dict d in
    Ok (UsbMuxRequest.SavePairRecord common id data device_id)
  else if String.eqb tag "DeletePairRecord" then
    let? id := field ["PairRecordID"] de_string d in
    let? id := required "PairRecordID" id in
    let? common := common_from_dict d in Ok (UsbMuxRequest.DeletePairRecord common id)
  else if String.eqb tag "Connect" then
    let? device_id := field ["DeviceID"] (de_uint 64) d in
    let? port := field ["PortNumber"] deserialize_port_number d in
    let? device_id := required "DeviceID" device_id in
    let? port := required "PortNumber" port in
    let? common := common_from_dict d in Ok (UsbMuxRequest.Connect common device_id port)
  else if String.eqb tag "AddDevice" then
    let? ip := field ["ip"; "IP"; "IPAddress"] de_ip d in
    let? udid := field ["udid"; "UDID"; "SerialNumber"] de_string d in
    let? force := field ["force"; "Force"] de_bool d in
    let? ip := required "ip" ip in
    let? udid := required "udid" udid in
    let? force := required "force" force in
    let? common := common_from_dict d in Ok (UsbMuxRequest.AddDevice common ip udid force)
  else Err (UnknownVariant tag).

(** The variants of [UsbMuxRequest], in order *)
Definition variant_names : list string :=
  [ "Listen"; "ListDevices"; "ListListeners"; "ReadBUID"; "ReadPairRecord";
    "SavePairRecord"; "DeletePairRecord"; "Connect"; "AddDevice" ].

(** An array instead of a dictionary: its first element is taken for the tag, and then no
    variant can be read from the rest. *)
Definition variant_from_array (tag : string) : outcome DeError UsbMuxRequest.t :=
  if existsb (String.eqb tag) variant_names then Err Malformed else Err (UnknownVariant tag).

(** [plist::from_value::<UsbMuxRequest>].  The tag may also be given as the
    variant's name in bytes or as its index. *)
Definition from_value `{IpText} (v : Value) : outcome DeError UsbMuxRequest.t :=
  match v with
  | Dictionary d =>
      match dict_get "MessageType" d with
      | None => Err (MissingField "MessageType")
      | Some (String tag) => variant_from_dict tag d
      | Some (Data bs) => variant_from_dict (string_of_bytes bs) d
      | Some (Integer i) =>
          match variant_names !! Z.to_nat i with
          | Some tag => if decide (0 ≤ i)%Z then variant_from_dict tag d else Err Malformed
          | None => Err Malformed
          end
      | Some _ => Err Malformed
      end
  | Array [] => Err (MissingField "MessageType")
  | Array (String tag :: _) => variant_from_array tag
  | Array (Data bs :: _) => variant_from_array (string_of_bytes bs)
  | _ => Err Malformed
  end.

(** ** What survives printing and reading back *)

Definition request_common (r : UsbMuxRequest.t) : UsbMuxCommon :=
  match r with
  | UsbMuxRequest.Listen c | UsbMuxRequest.ListDevices c | UsbMuxRequest.ListListeners c
  | UsbMuxRequest.ReadBUID c | UsbMuxRequest.ReadPairRecord c _
  | UsbMuxRequest.SavePairRecord c _ _ _ | UsbMuxRequest.DeletePairRecord c _
  | UsbMuxRequest.Connect c _ _ | UsbMuxRequest.AddDevice c _ _ _ => c
  end.

(** The types' ranges. *)
Definition common_wf (c : UsbMuxCommon) : Prop :=
  from_option (in_width 8) True (conn_type c) ∧ from_option (in_width 32) True (process_id c) ∧
  from_option (in_width 8) True (libusbmux_version c).

Definition request_wf (r : UsbMuxRequest.t) : Prop :=
  common_wf (request_common r) ∧
  match r with
  | UsbMuxRequest.SavePairRecord _ _ _ device_id => from_option (in_width 64) True device_id
  | UsbMuxRequest.Connect _ device_id port => in_width 64 device_id ∧ in_width 16 port
  | _ => True
  end.

(** The program name is printed under another key than it is read from, and a
    port is read back with its bytes swapped. *)
Definition common_read_back (c : UsbMuxCommon) : UsbMuxCommon :=
  Common (bundle_id c) (client_version_string c) (conn_type c) (process_id c) None
    (libusbmux_version c).

Definition read_back (r : UsbMuxRequest.t) : UsbMuxRequest.t :=
  match r with
  | UsbMuxRequest.Listen c => UsbMuxRequest.Listen (common_read_back c)
  | UsbMuxRequest.ListDevices c => UsbMuxRequest.ListDevices (common_read_back c)
  | UsbMuxRequest.ListListeners c => UsbMuxRequest.ListListeners (common_read_back c)
  | UsbMuxRequest.ReadBUID c => UsbMuxRequest.ReadBUID (common_read_back c)
  | UsbMuxRequest.ReadPairRecord c id => UsbMuxRequest.ReadPairRecord (common_read_back c) id
  | UsbMuxRequest.SavePairRecord c id data dev =>
      UsbMuxRequest.SavePairRecord (common_read_back c) id data dev
  | UsbMuxRequest.DeletePairRecord c id => UsbMuxRequest.DeletePairRecord (common_read_back c) id
  | UsbMuxRequest.Connect c dev port =>
      UsbMuxRequest.Connect (common_read_back c) dev (to_be16 port)
  | UsbMuxRequest.AddDevice c ip udid force =>
      UsbMuxRequest.AddDevice (common_read_back c) ip udid force
  end.

(** ** Lemmas *)

Lemma to_be16_bytes a b : to_be16 (byte_to_Z a + 256 * byte_to_Z b) = (byte_to_Z b + 256 * byte_to_Z a)%Z.
Proof.
  unfold to_be16. change (byte_to_Z a + 256 * byte_to_Z b)%Z with
    (byte_to_Z a + 256 * byte_to_Z b)%Z.
  replace (byte_to_Z a + 256 * byte_to_Z b)%Z with (le_decode [a; b])
    by (unfold le_decode; lia).
  unfold be_encode. change 2 with (length [a; b]). rewrite le_encode_decode.
  change (reverse [a; b]) with [b; a]. unfold le_decode. lia.
Qed.

(** A 16-bit number is two bytes. *)
Lemma u16_bytes z : in_width 16 z → ∃ a b, z = (byte_to_Z a + 256 * byte_to_Z b)%Z.
Proof.
  intros H. destruct (le_encode 2 z) as [|a [|b [|]]] eqn:E;
    apply (f_equal length) in E as L; rewrite length_le_encode in L; try discriminate L.
  exists a, b. rewrite <- (le_decode_encode 2 z H), E. unfold le_decode. lia.
Qed.

Lemma to_be16_involutive z : in_width 16 z → to_be16 (to_be16 z) = z.
Proof. intros (a & b & ->)%u16_bytes. by rewrite !to_be16_bytes. Qed.

Lemma to_be16_width z : in_width 16 z → in_width 16 (to_be16 z).
Proof.
  intros (a & b & ->)%u16_bytes. rewrite to_be16_bytes.
  pose proof (byte_to_Z_range a). pose proof (byte_to_Z_range b). split; lia.
Qed.

Lemma de_uint_ok w z : in_width w z → de_uint w (Integer z) = Some z.
Proof. intros H. unfold de_uint. by rewrite decide_True. Qed.

Lemma field_uint_ok k w z d :
  in_width w z → dict_get k d = Some (Integer z) → field [k] (de_uint w) d = Ok (Some z).
Proof. intros Hz Hk. unfold field. cbn [omap list_omap]. rewrite Hk. by rewrite de_uint_ok. Qed.

Lemma deserialize_port_integer z :
  int_range z = true → deserialize_port_number (Integer z) = Some (to_be16 (wrap 16 z)).
Proof.
  intros [H0 H1]%bool_decide_eq_true. unfold deserialize_port_number. cbn.
  destruct (decide (0 ≤ z)%Z); [done|]. rewrite decide_True by lia. done.
Qed.

Lemma encode_common_NoDup c : NoDup (map fst (encode_common c)).
Proof. unfold encode_common. repeat apply dict_insert_opt_NoDup. constructor. Qed.

Lemma dict_get_encode_common k c : dict_get k (encode_common c) =
  if String.eqb k "BundleID" then String <$> bundle_id c
  else if String.eqb k "ClientVersionString" then String <$> client_version_string c
  else if String.eqb k "ConnType" then Integer <$> conn_type c
  else if String.eqb k "ProcessID" then Integer <$> process_id c
  else if String.eqb k "ProgramName" then String <$> prog_name c
  else if String.eqb k "kLibUSBMuxVersion" then Integer <$> libusbmux_version c
  else None.
Proof.
  unfold encode_common.
  repeat match goal with |- context [String.eqb k ?l] => destruct (String.eqb_spec k l) end; subst;
    repeat first [ rewrite dict_get_insert_opt_ne by (discriminate || congruence) | rewrite dict_get_insert_opt ];
    done.
Qed.

Lemma dict_get_printed k own c : dict_get k (dict_merge own (encode_common c)) =
  match dict_get k (encode_common c) with Some v => Some v | None => dict_get k own end.
Proof. apply dict_get_merge, encode_common_NoDup. Qed.

Lemma field_one {A} k (de : Value → option A) d :
  field [k] de d = match dict_get k d with
                   | None => Ok None
                   | Some v => match de v with Some a => Ok (Some a) | None => Err Malformed end
                   end.
Proof. unfold field. cbn. by destruct (dict_get k d). Qed.

#[local] Arguments de_uint : simpl never.
#[local] Arguments deserialize_port_number : simpl never.

(** The common part of a printed request is read back, less the program name. *)
Lemma common_from_printed own c :
  common_wf c →
  (∀ k, k ∈ ["BundleID"; "ClientVersionString"; "ConnType"; "ProcessID"; "ProgName";
             "kLibUSBMuxVersion"] → dict_get k own = None) →
  common_from_dict (dict_merge own (encode_common c)) = Ok (common_read_back c).
Proof.
  intros (Hc & Hp & Hl) Hown. unfold common_from_dict.
  rewrite !field_one, !dict_get_printed, !dict_get_encode_common, !Hown by set_solver.
  cbn. unfold common_read_back. destruct c as [[b|] [v|] [ct|] [pid|] [pn|] [lv|]]; cbn in *;
    repeat (rewrite de_uint_ok by assumption; cbn); done.
Qed.

Section theorems.
Context {ip : IpText} {ip_laws : IpTextLaws}.

Lemma own_field_printed {A} names (de : Value → option A) own c :
  Forall (λ k, dict_get k (encode_common c) = None) names →
  field names de (dict_merge own (encode_common c)) = field names de own.
Proof.
  intros Hk. unfold field.
  assert (omap (λ k, dict_get k (dict_merge own (encode_common c))) names
          = omap (λ k, dict_get k own) names) as ->; [|done].
  induction Hk as [|k names Hk _ IH]; [done|]. cbn. rewrite IH.
  by rewrite dict_get_printed, Hk.
Qed.

Ltac own_absent :=
  let k := fresh in let Hk := fresh in
  intros k Hk; rewrite !elem_of_cons, elem_of_nil in Hk;
  destruct_or! Hk; try done; subst; reflexivity.

(** What a request that was printed is read as. *)
Lemma into_plist_read r :
  request_wf r → from_value (into_plist r) = Ok (read_back r).
Proof.
  destruct r as [c|c|c|c|c id|c id data [dev|]|c id|c dev port|c i udid force];
    intros [Hc Hr]; cbn [request_common] in Hc; cbn in Hr; unfold into_plist, from_value;
    rewrite dict_get_printed, dict_get_encode_common; cbn;
    match goal with |- context [dict_merge ?own _] => set (o := own) end;
    unfold variant_from_dict; cbn;
    rewrite ?own_field_printed by (repeat constructor; by rewrite dict_get_encode_common);
    rewrite ?common_from_printed by (done || (subst o; own_absent));
    subst o; unfold field; cbn; rewrite ?ip_from_to_string, ?de_uint_ok by apply Hr; try done.
  destruct Hr as [_ Hp]. cbn. rewrite deserialize_port_integer.
  - cbn. by rewrite wrap_small.
  - destruct Hp. apply bool_decide_eq_true. lia.
Qed.

(** C26.  A request printed with [into_plist] is read back by [from_value]
    with the same variant and fields, except that the program name is lost (it is
    printed as [ProgramName] and read as [ProgName]) and the port comes back with
    its two bytes swapped. *)
Theorem from_value_into_plist r :
  request_wf r → from_value (into_plist r) = Ok (read_back r).
Proof. apply into_plist_read. Qed.

(** [PortNumber] is in network byte order: whatever width and sign the
    client's plist library gave the number, the port the daemon connects to is its
    low 16 bits swapped, so a client that sends [htons(p)] reaches port [p]. *)
Theorem deserialize_port_network_order z p :
  int_range z = true → in_width 16 p →
  (deserialize_port_number (Integer z) = Some p ↔ wrap 16 z = to_be16 p) ∧
  deserialize_port_number (Integer (to_be16 p)) = Some p.
Proof.
  intros Hz Hp.
  assert (G : ∀ z, int_range z = true → deserialize_port_number (Integer z) = Some p ↔ wrap 16 z = to_be16 p).
  { intros z' Hz'. rewrite deserialize_port_integer by done.
    pose proof (wrap_range 16 z' ltac:(lia)) as Hw. split.
    - intros [= <-]. by rewrite to_be16_involutive.
    - intros ->. by rewrite to_be16_involutive. }
  split; [by apply G|]. pose proof (to_be16_width p Hp) as Hw. apply G; [|by apply wrap_small].
  destruct Hw. apply bool_decide_eq_true. lia.
Qed.

Lemma field_cases {A} names (de : Value → option A) d :
  (Forall (λ k, dict_get k d = None) names ∧ field names de d = Ok None)
  ∨ (∃ a, field names de d = Ok (Some a)) ∨ field names de d = Err Malformed.
Proof.
  unfold field. destruct (omap (λ k, dict_get k d) names) as [|v [|? ?]] eqn:E; [left| |auto].
  - split; [|done]. apply list.Forall_forall. intros k Hk.
    destruct (dict_get k d) as [v|] eqn:Ev; [|done].
    assert (v ∈ omap (λ k, dict_get k d) names) as Hv by (apply list_elem_of_omap; by exists k).
    rewrite E in Hv. by apply elem_of_nil in Hv.
  - destruct (de v); eauto.
Qed.

Lemma field_missing {A} names (de : Value → option A) d f :
  field names de d ≠ Err (MissingField f).
Proof. destruct (field_cases names de d) as [[_ ->]|[[? ->]| ->]]; done. Qed.

Lemma common_from_dict_missing d f : common_from_dict d ≠ Err (MissingField f).
Proof.
  unfold common_from_dict. intros H.
  repeat (apply outcome_bind_err in H as [H|(? & _ & H)]; [by apply field_missing in H|]).
  done.
Qed.

(** The names a field of a variant is looked for under. *)
Definition field_names (f : string) : list string :=
  if String.eqb f "ip" then ["ip"; "IP"; "IPAddress"]
  else if String.eqb f "udid" then ["udid"; "UDID"; "SerialNumber"]
  else if String.eqb f "force" then ["force"; "Force"]
  else [f].

Lemma required_missing {A} f names (de : Value → option A) d o g :
  field names de d = Ok o → names ≠ [] → required f o = Err (MissingField g) →
  f = g ∧ Forall (λ k, dict_get k d = None) names.
Proof.
  intros Ho Hn. destruct (field_cases names de d) as [[Hf E]|[[a E]|E]]; rewrite E in Ho;
    simplify_eq; cbn; intros; by simplify_eq.
Qed.

(** Follows a missing-field error to the field it is about. *)
Ltac step_missing H :=
  repeat first
    [ discriminate H
    | apply outcome_bind_err in H as [H|(? & ? & H)];
      [ first [ by apply field_missing in H | by apply common_from_dict_missing in H
              | eapply required_missing in H as [<- ?]; [|eassumption|done];
                split; [set_solver|done] ] | ] ].

Lemma variant_missing tag d f :
  variant_from_dict tag d = Err (MissingField f) →
  f ∈ ["PairRecordID"; "PairRecordData"; "DeviceID"; "PortNumber"; "ip"; "udid"; "force"] ∧
  Forall (λ k, dict_get k d = None) (field_names f).
Proof.
  unfold variant_from_dict. intros H.
  repeat (case_match; [step_missing H|]). done.
Qed.

Lemma from_value_variant d r :
  from_value (Dictionary d) = r → r = Err Malformed ∨
  (r = Err (MissingField "MessageType") ∧ dict_get "MessageType" d = None) ∨
  ∃ tag, r = variant_from_dict tag d ∧
    ∀ s, dict_get "MessageType" d = Some (String s) → tag = s.
Proof.
  intros <-. unfold from_value. destruct (dict_get "MessageType" d) as [v|]; [|by right; left].
  destruct v; auto; try (right; right; eexists; split; [done|]; intros; by simplify_eq).
  destruct (_ !! _) as [tag|]; [|auto]. case_decide; [|auto]. right. right. by exists tag.
Qed.

(** Reading a request neither panics nor runs into undefined behaviour. *)
Definition settles {E A} (o : outcome E A) : Prop := (∃ a, o = Ok a) ∨ (∃ e, o = Err e).

Lemma settles_bind {E A B} (m : outcome E A) (f : A → outcome E B) :
  settles m → (∀ a, settles (f a)) → settles (outcome_bind f m).
Proof. intros [[a ->]|[e ->]] Hf; [apply Hf|right; by exists e]. Qed.

Lemma settles_ok {E A} (a : A) : settles (Ok (E := E) a).
Proof. left. by exists a. Qed.

Lemma settles_err {E A} (e : E) : settles (Err (A := A) e).
Proof. right. by exists e. Qed.

Lemma settles_field {A} names (de : Value → option A) d : settles (field names de d).
Proof. unfold field. repeat case_match; auto using settles_ok, settles_err. Qed.

Lemma settles_required {A} name (o : option A) : settles (required name o).
Proof. destruct o; cbn; auto using settles_ok, settles_err. Qed.

Lemma settles_common d : settles (common_from_dict d).
Proof.
  unfold common_from_dict.
  repeat (apply settles_bind; [apply settles_field|intros ?]). apply settles_ok.
Qed.

Lemma from_value_array vs : ∃ e, from_value (Array vs) = Err e.
Proof. destruct vs as [|[] vs]; cbn; unfold variant_from_array; try case_match; eauto. Qed.

Lemma from_value_total v : settles (from_value v).
Proof.
  assert (Hvar : ∀ tag d, settles (variant_from_dict tag d)).
  { intros tag d. unfold variant_from_dict.
    repeat first [ apply settles_ok | apply settles_err | apply settles_common
      | apply settles_bind; [first [apply settles_field | apply settles_required | apply settles_common]|intros ?]
      | case_match ]. }
  destruct v as [vs|d| | | | | | |]; try apply settles_err.
  { destruct (from_value_array vs) as [e ->]. apply settles_err. }
  destruct (from_value_variant d _ eq_refl) as [->|[[-> _]|(tag & -> & _)]];
    auto using settles_err.
Qed.

Lemma field_ok_some {A} names (de : Value → option A) d a :
  field names de d = Ok (Some a) → ∃ v, de v = Some a.
Proof. unfold field. intros. repeat case_match; simplify_eq. eauto. Qed.

Lemma field_uint_range names w d o :
  field names (de_uint w) d = Ok o → from_option (in_width w) True o.
Proof.
  destruct o as [z|]; [|done]. intros [v Hv]%field_ok_some. cbn.
  unfold de_uint in Hv. repeat case_match; by simplify_eq.
Qed.

Lemma field_port_range names d z :
  field names deserialize_port_number d = Ok (Some z) → in_width 16 z.
Proof.
  intros [v Hv]%field_ok_some. unfold deserialize_port_number in Hv.
  repeat case_match; simplify_eq; apply to_be16_width, wrap_range; lia.
Qed.

Lemma common_from_dict_wf d c : common_from_dict d = Ok c → common_wf c.
Proof.
  unfold common_from_dict. intros H. invert_binds. simplify_eq. unfold common_wf. cbn.
  split_and!; by eapply field_uint_range.
Qed.

Lemma required_ok {A} f (o : option A) a : required f o = Ok a → o = Some a.
Proof. unfold required, ok_or. intros. case_match; by simplify_eq. Qed.

Lemma variant_from_dict_ok tag d r :
  variant_from_dict tag d = Ok r → request_wf r ∧ message_type r = tag.
Proof.
  unfold variant_from_dict. intros H.
  repeat match type of H with (if String.eqb ?a ?b then _ else _) = _ =>
    destruct (String.eqb_spec a b) as [->|_];
      [invert_binds; simplify_eq; unfold request_wf; cbn;
       repeat match goal with
       | E : required _ _ = Ok _ |- _ => apply required_ok in E; subst
       | E : common_from_dict _ = Ok _ |- _ => apply common_from_dict_wf in E
       end;
       split_and!; try done;
       solve [ by eapply field_uint_range
             | by match goal with E : field _ (de_uint 64) _ = Ok (Some _) |- _ =>
                    apply field_uint_range in E end
             | by eapply field_port_range ] |] end.
  done.
Qed.

(** C40.  Whatever property list a client sends, a request that is accepted is a
    dictionary, has all its numbers within the width of their fields, and, when
    the tag is a string, is the variant with that name. *)
Theorem from_value_wf v r :
  from_value v = Ok r →
  request_wf r ∧ ∃ d, v = Dictionary d ∧
    ∀ s, dict_get "MessageType" d = Some (String s) → s = message_type r.
Proof.
  intros H. destruct v as [vs|d| | | | | | |]; try discriminate H.
  { destruct (from_value_array vs) as [e E]. congruence. }
  apply from_value_variant in H as Hc. destruct Hc as [E|[[E _]|(tag & E & Ht)]]; try done.
  symmetry in E. apply variant_from_dict_ok in E as [Hwf <-].
  split; [done|]. exists d. split; [done|]. intros s Hs. by rewrite (Ht s Hs).
Qed.

(** A missing-field error is about a field that really is absent,
    under all the names it may have, and is one of the required ones; a [Connect]
    without a device and a pair-record request without an id are reported as such. *)
Theorem from_value_missing_field d :
  (∀ f, from_value (Dictionary d) = Err (MissingField f) →
    f ∈ ["MessageType"; "PairRecordID"; "PairRecordData"; "DeviceID"; "PortNumber"; "ip"; "udid";
         "force"] ∧
    Forall (λ k, dict_get k d = None) (field_names f)) ∧
  (dict_get "MessageType" d = Some (String "Connect") → dict_get "DeviceID" d = None →
   dict_get "PortNumber" d = None → from_value (Dictionary d) = Err (MissingField "DeviceID")) ∧
  (∀ tag, tag ∈ ["ReadPairRecord"; "DeletePairRecord"] →
   dict_get "MessageType" d = Some (String tag) → dict_get "PairRecordID" d = None →
   from_value (Dictionary d) = Err (MissingField "PairRecordID")).
Proof.
  split_and!.
  - intros f H. apply from_value_variant in H as Hc.
    destruct Hc as [E|[[E Hn]|(tag & E & _)]]; [done| |].
    + simplify_eq. split; [set_solver|]. by repeat constructor.
    + symmetry in E. apply variant_missing in E as [? ?]. split; [set_solver|done].
  - intros Ht Hd Hp. unfold from_value. rewrite Ht. unfold variant_from_dict. cbn.
    by rewrite !field_one, Hd, Hp.
  - intros tag Htag Ht Hp. unfold from_value. rewrite Ht. unfold variant_from_dict.
    rewrite !elem_of_cons, elem_of_nil in Htag. destruct_or! Htag; try done; subst; cbn;
      by rewrite field_one, Hp.
Qed.

End theorems.
