(* ===== verification/Errors.v ===== *)
(** * Errors ([src/error/mod.rs])

    [RusbmuxError] with the constructors the modelled code makes or inspects; an
    error of a library is kept as its [Display] text.  [is_disconnect] is the
    daemon's test of whether the peer is gone ([src/bin/rusbmux/utils.rs]). *)

From S2P Require Import Prelude Io DeviceMux UsbMux.

Module MissingFields.
Inductive t : Type := PairRecordID | PairRecordData | DeviceID | PortNumber | SystemBUID.
End MissingFields.

(** [format!("{field:?}")], the derived [Debug] *)
Definition missing_field_debug (f : MissingFields.t) : string :=
  match f with
  | MissingFields.PairRecordID => "PairRecordID"
  | MissingFields.PairRecordData => "PairRecordData"
  | MissingFields.DeviceID => "DeviceID"
  | MissingFields.PortNumber => "PortNumber"
  | MissingFields.SystemBUID => "SystemBUID"
  end.

Definition result_code (f : MissingFields.t) : UsbMuxResult.t :=
  match f with
  | MissingFields.PairRecordID | MissingFields.PairRecordData | MissingFields.SystemBUID =>
      UsbMuxResult.InvalidInput
  | MissingFields.DeviceID => UsbMuxResult.BadDeviceOrNoSuchFile
  | MissingFields.PortNumber => UsbMuxResult.BadCommand
  end.

Inductive ChannelError : Type :=
| UsbRecv
| UsbSend (packet : UsbDevicePacket).

Module RusbmuxError.
Inductive t : Type :=
| USB (display : string)
| IO (kind : ErrorKind)
| UsbmuxInterfaceNotFound
| BulkInEndpointNotFound
| BulkOutEndpointNotFound
| Parse (e : ParseError.t)
| Channel (e : ChannelError)
| UnexpectedPacket (msg : string)
| InvalidData (msg : string)
| ValueNotFound (field : MissingFields.t)
| DeviceNotFound (id : Z)
| HotPlugNotSupported
| Plist (display : string)
| RanOutOfSourcePort
| PowerAssertion (msg : string)
| Idevice (display : string)
| RusbError (display : string)
| Mdns (display : string).
End RusbmuxError.

(** [From<crossfire::SendError<_>>], [From<TrySendError<_>>] and [From<RecvError>] *)
Definition from_send_error (p : UsbDevicePacket) : RusbmuxError.t :=
  RusbmuxError.Channel (UsbSend p).
Definition from_recv_error : RusbmuxError.t := RusbmuxError.Channel UsbRecv.

(** [utils::is_disconnect] of the daemon *)
Definition is_disconnect (err : RusbmuxError.t) : bool :=
  match err with
  | RusbmuxError.IO io_err => is_disconnect_io io_err
  | _ => false
  end.

(** ** The texts of errors

    The [#[error("...")]] attributes; the texts of I/O errors and of a closed
    channel are the standard library's and [crossfire]'s. *)

Class ErrorText : Type := {
  io_display : ErrorKind → string;
  recv_error_display : string;
}.

Section display.
Context {text : ErrorText}.

Definition parse_error_display (e : ParseError.t) : string :=
  match e with
  | ParseError.IO k => "IO Error: " +:+ io_display k
  | ParseError.Plist d => "Plist parse error: " +:+ d
  | ParseError.TcpHeaderSlice d => "Unable to parse tcp header: " +:+ d
  | ParseError.InvalidData m => "Invalid data: " +:+ m
  end.

Definition channel_error_display (e : ChannelError) : string :=
  match e with
  | UsbRecv => "Couldn't receive on a channel, error: " +:+ recv_error_display
  | UsbSend _ => "Couldn't send a usb packet on the channel"
  end.

Definition error_display (e : RusbmuxError.t) : string :=
  match e with
  | RusbmuxError.USB d => "USB error: " +:+ d
  | RusbmuxError.IO k => "IO Error: " +:+ io_display k
  | RusbmuxError.UsbmuxInterfaceNotFound => "There is no usbmux interface found in the usb"
  | RusbmuxError.BulkInEndpointNotFound =>
      "There is no bulk (in) endpoint found in the interface"
  | RusbmuxError.BulkOutEndpointNotFound =>
      "There is no bulk (out) endpoint found in the interface"
  | RusbmuxError.Parse e => "Parsing error: " +:+ parse_error_display e
  | RusbmuxError.Channel e => "Channel error: " +:+ channel_error_display e
  | RusbmuxError.UnexpectedPacket m => "Received an unexpected packet: " +:+ m
  | RusbmuxError.InvalidData m => "Invalid data: " +:+ m
  | RusbmuxError.ValueNotFound f => "Value not found: " +:+ missing_field_debug f
  | RusbmuxError.DeviceNotFound id => "A device with the id `" +:+ pretty id +:+ "` was not found"
  | RusbmuxError.HotPlugNotSupported => "The system probably doesn't support usb hotplug"
  | RusbmuxError.Plist d => "Plist parse error: " +:+ d
  | RusbmuxError.RanOutOfSourcePort => "Ran out of source port for connections"
  | RusbmuxError.PowerAssertion m => "The device rejected the power assertion: " +:+ m
  | RusbmuxError.Idevice d => "Idevice error: " +:+ d
  | RusbmuxError.RusbError d => "Rusb error: " +:+ d
  | RusbmuxError.Mdns d => "mdns error: " +:+ d
  end.

End display.
