(* ===== verification/Conn.v ===== *)
(** * Connections over USB ([src/conn/usb.rs])

    A [UsbDeviceConn] is the daemon's end of a TCP connection inside the
    device-mux stream: it numbers the bytes it sends, acknowledges the bytes it
    receives and tracks how much the device's window still admits.  It talks to
    the rest of the device through two channels, the packets the router delivers
    to it and the queue of the writer loop; they are the class [Link], so that the
    connection's theorems do not depend on how the channels are implemented.
    [ScriptLink] is the implementation the witnesses run. *)

From S2P Require Import Prelude Io Tcp DeviceMux Plist Builder Errors.

(** ** The channels *)

Class Link (L : Type) : Type := {
  (** [tx.send(p).await], [tx.try_send(p)] *)
  tx_send : UsbDevicePacket → stateful L RusbmuxError.t ();
  tx_try_send : UsbDevicePacket → stateful L RusbmuxError.t ();
  (** [rx.recv().await] *)
  rx_recv : stateful L RusbmuxError.t UsbDevicePacket;
  (** every packet queued so far, oldest first *)
  link_sent : L → list UsbDevicePacket;
}.

(** What a queueing operation does: it appends the packet, or fails and queues
    nothing. *)
Definition queues `{Link L} (send : UsbDevicePacket → stateful L RusbmuxError.t ()) : Prop :=
  ∀ p l, ∃ l', (send p l = (Ok (), l') ∧ link_sent l' = link_sent l ++ [p])
             ∨ ((∃ e, send p l = (Err e, l')) ∧ link_sent l' = link_sent l).

Class LinkLaws (L : Type) `{Link L} : Prop := {
  tx_send_spec : queues tx_send;
  tx_try_send_spec : queues tx_try_send;
  rx_recv_spec : ∀ l, ∃ l', link_sent l' = link_sent l ∧
    ((∃ p, rx_recv l = (Ok p, l')) ∨ (∃ e, rx_recv l = (Err e, l')));
}.

(** A script: the packets to be delivered, then a closed channel; how many more
    packets the writer's queue takes before it is closed. *)
Record script : Type := Script {
  to_deliver : list UsbDevicePacket;
  queue_room : nat;
  queued : list UsbDevicePacket;
}.

Definition script_send (p : UsbDevicePacket) : stateful script RusbmuxError.t () := λ l,
  match queue_room l with
  | O => (Err (from_send_error p), l)
  | S n => (Ok (), Script (to_deliver l) n (queued l ++ [p]))
  end.

#[export] Instance ScriptLink : Link script := {
  tx_send := script_send;
  tx_try_send := script_send;
  rx_recv l :=
    match to_deliver l with
    | [] => (Err from_recv_error, l)
    | p :: ps => (Ok p, Script ps (queue_room l) (queued l))
    end;
  link_sent := queued;
}.

(** ** Data *)

(** [usb_backend::MAX_PACKET_SIZE], [MAX_PACKET_PAYLOAD_SIZE] *)
Definition MAX_PACKET_SIZE : Z := 48 * 1024.
Definition MAX_PACKET_PAYLOAD_SIZE : Z := MAX_PACKET_SIZE - Z.of_nat HEADERS_LEN_V2.

(** A place holder: the writer loop overwrites it. *)
Definition AUTO_SEQ : Z := 0.

Record TcpHandshake : Type := Handshake {
  hs_sent_bytes : Z;
  hs_received_bytes : Z;
  hs_device_window_size : Z;
  hs_device_received_bytes : Z;
}.

Record UsbDeviceConn : Type := Conn {
  device_id : Z;
  sent_bytes : Z;
  received_bytes : Z;
  conn_source_port : Z;
  conn_destination_port : Z;
  sendable_bytes : Z;
  device_last_window_size : Z;
  device_last_received_bytes : Z;
  dropped : bool;
}.

(** ** Operations *)

Definition tcp_flag_packet (source_port destination_port seq ackn : Z) (fl : TcpFlags)
  : UsbDevicePacket :=
  build (tcp_header source_port destination_port seq ackn fl
           (header_tcp AUTO_SEQ AUTO_SEQ builder_new)).

Section link.
Context {L : Type} {link : Link L}.

(** [TcpHandshake::perform] *)
Definition perform (source_port destination_port : Z)
  : stateful L RusbmuxError.t TcpHandshake :=
  let sent_bytes := 0%Z in
  let received_bytes := 0%Z in
  let tcp_syn := tcp_flag_packet source_port destination_port sent_bytes received_bytes SYN in
  let! _ := tx_send tcp_syn in
  let! tcp_syn_ack := rx_recv in
  let! tcp_syn_ack_tcp_hdr := st_lift (ok_or
    (RusbmuxError.UnexpectedPacket "Expected a packet with a tcp header")
    (tcp_hdr tcp_syn_ack)) in
  if negb (syn tcp_syn_ack_tcp_hdr && ack tcp_syn_ack_tcp_hdr)
  then st_lift (Err (RusbmuxError.IO ConnectionRefused))
  else
    let sent_bytes := (sent_bytes + acknowledgment_number tcp_syn_ack_tcp_hdr)%Z in
    let received_bytes := (received_bytes + 1)%Z in
    let tcp_ack := tcp_flag_packet source_port destination_port sent_bytes received_bytes ACK in
    let! _ := tx_send tcp_ack in
    st_ret (Handshake sent_bytes received_bytes (window_size tcp_syn_ack_tcp_hdr)
              (acknowledgment_number tcp_syn_ack_tcp_hdr)).

(** [calc_sendable_bytes], with [u32] arithmetic *)
Definition calc_sendable_bytes (sent_bytes device_window_size device_received_bytes : Z) : Z :=
  let device_window_size := wrap 32 (Z.shiftl device_window_size 8) in
  let unacked_bytes := wrap 32 (sent_bytes - device_received_bytes) in
  if decide (unacked_bytes < device_window_size)%Z
  then Z.min (device_window_size - unacked_bytes) MAX_PACKET_PAYLOAD_SIZE
  else 0.

(** [UsbDeviceConn::new_from] *)
Definition new_from (id destination_port source_port sent_bytes received_bytes
    device_last_window_size device_last_received_bytes : Z) : UsbDeviceConn :=
  Conn id sent_bytes received_bytes source_port destination_port
    (calc_sendable_bytes sent_bytes device_last_window_size device_last_received_bytes)
    device_last_window_size device_last_received_bytes false.

(** [UsbDeviceConn::new] *)
Definition conn_new (id source_port destination_port : Z)
  : stateful L RusbmuxError.t UsbDeviceConn :=
  let! handshake := perform source_port destination_port in
  let sendable_bytes := calc_sendable_bytes (hs_sent_bytes handshake)
    (hs_device_window_size handshake) (hs_device_received_bytes handshake) in
  st_ret (Conn id (hs_sent_bytes handshake) (hs_received_bytes handshake)
            source_port destination_port sendable_bytes (hs_device_window_size handshake)
            (hs_device_received_bytes handshake) false).

(** The methods of a connection run on it and on its channels. *)
Definition conn_op (A : Type) : Type := stateful (UsbDeviceConn * L) RusbmuxError.t A.

Definition on_link {A} (m : stateful L RusbmuxError.t A) : conn_op A := λ '(c, l),
  let '(r, l') := m l in (r, (c, l')).

Definition self : conn_op UsbDeviceConn := λ '(c, l), (Ok c, (c, l)).

Definition modify_self (f : UsbDeviceConn → UsbDeviceConn) : conn_op () := λ '(c, l),
  (Ok (), (f c, l)).

(** The atomic setters. *)
Definition set_sendable_bytes (v : Z) (c : UsbDeviceConn) : UsbDeviceConn :=
  Conn (device_id c) (sent_bytes c) (received_bytes c) (conn_source_port c)
    (conn_destination_port c) v (device_last_window_size c) (device_last_received_bytes c)
    (dropped c).

Definition set_device_last_window_size (v : Z) (c : UsbDeviceConn) : UsbDeviceConn :=
  Conn (device_id c) (sent_bytes c) (received_bytes c) (conn_source_port c)
    (conn_destination_port c) (sendable_bytes c) v (device_last_received_bytes c) (dropped c).

Definition set_device_last_received_bytes (v : Z) (c : UsbDeviceConn) : UsbDeviceConn :=
  Conn (device_id c) (sent_bytes c) (received_bytes c) (conn_source_port c)
    (conn_destination_port c) (sendable_bytes c) (device_last_window_size c) v (dropped c).

Definition set_received_bytes (v : Z) (c : UsbDeviceConn) : UsbDeviceConn :=
  Conn (device_id c) (sent_bytes c) v (conn_source_port c) (conn_destination_port c)
    (sendable_bytes c) (device_last_window_size c) (device_last_received_bytes c) (dropped c).

(** [AtomicU32::fetch_add] wraps. *)
Definition add_sent_bytes (v : Z) (c : UsbDeviceConn) : UsbDeviceConn :=
  Conn (device_id c) (wrap 32 (sent_bytes c + v)) (received_bytes c) (conn_source_port c)
    (conn_destination_port c) (sendable_bytes c) (device_last_window_size c)
    (device_last_received_bytes c) (dropped c).

Definition set_dropped (c : UsbDeviceConn) : UsbDeviceConn :=
  Conn (device_id c) (sent_bytes c) (received_bytes c) (conn_source_port c)
    (conn_destination_port c) (sendable_bytes c) (device_last_window_size c)
    (device_last_received_bytes c) true.

Definition build_flag (fl : TcpFlags) (c : UsbDeviceConn) : UsbDevicePacket :=
  tcp_flag_packet (conn_source_port c) (conn_destination_port c) (sent_bytes c)
    (received_bytes c) fl.

Definition build_data (value : list byte) (c : UsbDeviceConn) : UsbDevicePacket :=
  build (payload_bytes value (tcp_header (conn_source_port c) (conn_destination_port c)
    (sent_bytes c) (received_bytes c) ACK (header_tcp AUTO_SEQ AUTO_SEQ builder_new))).

Definition build_plist_packet `{PlistCodec} (value : Value) (c : UsbDeviceConn) : UsbDevicePacket :=
  build (payload_plist value (tcp_header (conn_source_port c) (conn_destination_port c)
    (sent_bytes c) (received_bytes c) ACK (header_tcp AUTO_SEQ AUTO_SEQ builder_new))).

Definition update_sendable_bytes (c : UsbDeviceConn) : UsbDeviceConn :=
  set_sendable_bytes (calc_sendable_bytes (sent_bytes c) (device_last_window_size c)
    (device_last_received_bytes c)) c.

Definition update_states (packet : UsbDevicePacket) (c : UsbDeviceConn) : UsbDeviceConn :=
  let recv_bytes := wrap 32 (Z.of_nat (payload_len (DeviceMux.payload packet))) in
  match tcp_hdr packet with
  | Some h =>
      set_device_last_window_size (window_size h)
        (set_device_last_received_bytes (acknowledgment_number h)
          (set_received_bytes (wrap 32 (sequence_number h + recv_bytes)) c))
  | None => c
  end.

Definition send_packet (packet : UsbDevicePacket) : conn_op () :=
  let payload_len := wrap 32 (Z.of_nat (payload_len (DeviceMux.payload packet))) in
  let! _ := on_link (tx_send packet) in
  let! _ := modify_self (add_sent_bytes payload_len) in
  modify_self update_sendable_bytes.

Definition send_bytes (value : list byte) : conn_op () :=
  let! c := self in
  send_packet (build_data value c).

Definition send_plist `{PlistCodec} (value : Value) : conn_op () :=
  let! c := self in
  send_packet (build_plist_packet value c).

Definition send_rst : conn_op () :=
  let! c := self in
  on_link (tx_send (build_flag RST c)).

Definition send_rst_blocking : conn_op () :=
  let! c := self in
  on_link (tx_try_send (build_flag RST c)).

Definition close : conn_op () :=
  let! _ := send_rst in
  modify_self set_dropped.

Definition close_blocking : conn_op () :=
  let! _ := send_rst_blocking in
  modify_self set_dropped.

Definition conn_ack : conn_op () :=
  let! c := self in
  let! _ := on_link (tx_send (build_flag ACK c)) in
  modify_self update_sendable_bytes.

Definition recv : conn_op UsbDevicePacket :=
  let! response := on_link rx_recv in
  let! _ := modify_self (update_states response) in
  let! _ := conn_ack in
  st_ret response.

(** [Drop for UsbDeviceConn]: [let _ = self.close_blocking()] *)
Definition conn_drop : UsbDeviceConn * L → UsbDeviceConn * L := λ s,
  if negb (dropped s.1) then (close_blocking s).2 else s.

End link.

(** ** Specification *)

(** A call of one of the methods. *)
Inductive conn_call : Type :=
| CallSendBytes (value : list byte)
| CallSendPlist (value : Value)
| CallRecv
| CallClose
| CallCloseBlocking.

Definition run_call `{Link L} `{PlistCodec} (call : conn_call) (s : UsbDeviceConn * L)
  : UsbDeviceConn * L :=
  match call with
  | CallSendBytes v => (send_bytes v s).2
  | CallSendPlist v => (send_plist v s).2
  | CallRecv => (recv s).2
  | CallClose => (close s).2
  | CallCloseBlocking => (close_blocking s).2
  end.

(** Calls in any order, each going on whether or not the one before failed. *)
Definition run_calls `{Link L} `{PlistCodec} (calls : list conn_call) (s : UsbDeviceConn * L)
  : UsbDeviceConn * L :=
  fold_left (λ s call, run_call call s) calls s.

(** The number of payload bytes of a packet. *)
Definition data_len (p : UsbDevicePacket) : Z := Z.of_nat (payload_len (DeviceMux.payload p)).

(** [ps] are packets of [c]'s connection, and their sequence numbers count the
    payload bytes (modulo [2^32]) from [s] on without gap or overlap, up to [s']. *)
Fixpoint contiguous (c : UsbDeviceConn) (s : Z) (ps : list UsbDevicePacket) (s' : Z) : Prop :=
  match ps with
  | [] => s = s'
  | p :: ps =>
      (∃ h, tcp_hdr p = Some h ∧ sequence_number h = s ∧ source_port h = conn_source_port c ∧
            destination_port h = conn_destination_port c) ∧
      contiguous c (wrap 32 (s + data_len p)) ps s'
  end.

(** The cached number of sendable bytes is the one the other fields determine. *)
Definition coherent (c : UsbDeviceConn) : Prop :=
  sendable_bytes c =
  calc_sendable_bytes (sent_bytes c) (device_last_window_size c) (device_last_received_bytes c).

(** Bytes sent and not yet acknowledged by the device. *)
Definition unacked (c : UsbDeviceConn) : Z :=
  wrap 32 (sent_bytes c - device_last_received_bytes c).

(** The device's window in bytes. *)
Definition window_bytes (c : UsbDeviceConn) : Z := (device_last_window_size c * 256)%Z.

(** ** Lemmas *)

Lemma contiguous_app c s ps t qs u :
  contiguous c s ps t → contiguous c t qs u → contiguous c s (ps ++ qs) u.
Proof. revert s. induction ps as [|p ps IH]; simpl; [by intros ? ->|naive_solver]. Qed.

Lemma contiguous_ports c c' s ps t :
  conn_source_port c = conn_source_port c' → conn_destination_port c = conn_destination_port c' →
  contiguous c s ps t → contiguous c' s ps t.
Proof. intros Hs Hd. revert s. induction ps; simpl; [done|]. rewrite Hs, Hd. naive_solver. Qed.

Lemma wrap_data_len s p : wrap 32 (s + wrap 32 (data_len p)) = wrap 32 (s + data_len p).
Proof. apply wrap_add_r. Qed.

Section lemmas.
Context {L : Type} {link : Link L} {laws : LinkLaws L}.

Lemma on_link_queues {send} (p : UsbDevicePacket) c (l : L) :
  queues send → ∃ l',
    (on_link (send p) (c, l) = (Ok (), (c, l')) ∧ link_sent l' = link_sent l ++ [p])
    ∨ ((∃ e, on_link (send p) (c, l) = (Err e, (c, l'))) ∧ link_sent l' = link_sent l).
Proof.
  intros Hq. destruct (Hq p l) as (l' & [[E Hs]|[[e E] Hs]]); exists l'; unfold on_link;
    rewrite E; eauto.
Qed.

Lemma send_packet_cases p c (l : L) : ∃ l',
  (send_packet p (c, l)
     = (Ok (), (update_sendable_bytes (add_sent_bytes (wrap 32 (data_len p)) c), l'))
   ∧ link_sent l' = link_sent l ++ [p])
  ∨ ((∃ e, send_packet p (c, l) = (Err e, (c, l'))) ∧ link_sent l' = link_sent l).
Proof.
  destruct (on_link_queues p c l tx_send_spec) as (l' & [[E Hs]|[[e E] Hs]]); exists l';
    unfold send_packet, st_bind; rewrite E; cbn; eauto.
Qed.

Lemma rst_cases {send} c (l : L) : queues send → ∃ l',
  ((let! c := self in on_link (send (build_flag RST c))) (c, l) = (Ok (), (c, l'))
     ∧ link_sent l' = link_sent l ++ [build_flag RST c])
  ∨ ((∃ e, (let! c := self in on_link (send (build_flag RST c))) (c, l) = (Err e, (c, l')))
     ∧ link_sent l' = link_sent l).
Proof.
  intros Hq. destruct (on_link_queues (build_flag RST c) c l Hq) as (l' & [[E Hs]|[[e E] Hs]]);
    exists l'; unfold st_bind at 1, self; rewrite E; eauto.
Qed.

Lemma close_cases c (l : L) : ∃ l',
  (close (c, l) = (Ok (), (set_dropped c, l'))
     ∧ link_sent l' = link_sent l ++ [build_flag RST c])
  ∨ ((∃ e, close (c, l) = (Err e, (c, l'))) ∧ link_sent l' = link_sent l).
Proof.
  destruct (rst_cases c l tx_send_spec) as (l' & [[E Hs]|[[e E] Hs]]); exists l'; [left|right].
  - split; [|done]. unfold close. by rewrite (st_bind_eq send_rst _ _ _ _ E).
  - split; [|done]. exists e. unfold close. by rewrite (st_bind_fail send_rst _ _ _ _ E).
Qed.

Lemma close_blocking_cases c (l : L) : ∃ l',
  (close_blocking (c, l) = (Ok (), (set_dropped c, l'))
     ∧ link_sent l' = link_sent l ++ [build_flag RST c])
  ∨ ((∃ e, close_blocking (c, l) = (Err e, (c, l'))) ∧ link_sent l' = link_sent l).
Proof.
  destruct (rst_cases c l tx_try_send_spec) as (l' & [[E Hs]|[[e E] Hs]]); exists l'; [left|right].
  - split; [|done]. unfold close_blocking. by rewrite (st_bind_eq send_rst_blocking _ _ _ _ E).
  - split; [|done]. exists e. unfold close_blocking. by rewrite (st_bind_fail send_rst_blocking _ _ _ _ E).
Qed.

Lemma conn_ack_cases c (l : L) : ∃ l',
  (conn_ack (c, l) = (Ok (), (update_sendable_bytes c, l'))
     ∧ link_sent l' = link_sent l ++ [build_flag ACK c])
  ∨ ((∃ e, conn_ack (c, l) = (Err e, (c, l'))) ∧ link_sent l' = link_sent l).
Proof.
  destruct (on_link_queues (build_flag ACK c) c l tx_send_spec) as (l' & [[E Hs]|[[e E] Hs]]);
    exists l'; [left|right]; (split; [|done]); [|exists e]; unfold conn_ack;
    rewrite (st_bind_eq self _ (c, l) c (c, l)) by done.
  - by rewrite (st_bind_eq _ _ _ _ _ E).
  - by rewrite (st_bind_fail _ _ _ _ _ E).
Qed.

(** The three ways a [recv] ends: nothing came, a packet came but could not be
    acknowledged, a packet came and was acknowledged. *)
Lemma recv_cases c (l : L) :
  (∃ e l', recv (c, l) = (Err e, (c, l')) ∧ link_sent l' = link_sent l)
  ∨ (∃ p l1, rx_recv l = (Ok p, l1) ∧ let c1 := update_states p c in
      (∃ e l', recv (c, l) = (Err e, (c1, l')) ∧ link_sent l' = link_sent l)
      ∨ (∃ l', recv (c, l) = (Ok p, (update_sendable_bytes c1, l'))
          ∧ link_sent l' = link_sent l ++ [build_flag ACK c1])).
Proof.
  destruct (rx_recv_spec l) as (l1 & Hs & [[p E]|[e E]]).
  - right. exists p, l1. split; [done|]. cbn zeta.
    assert (G : recv (c, l) = (let! _ := conn_ack in st_ret p) (update_states p c, l1)).
    { unfold recv. rewrite (st_bind_eq _ _ _ p (c, l1)) by (unfold on_link; by rewrite E). done. }
    rewrite G. unfold st_bind at 1 2.
    destruct (conn_ack_cases (update_states p c) l1) as (l' & [[E' Hs']|[[e E'] Hs']]);
      rewrite E'; [right|left]; rewrite <- Hs; unfold st_ret; eauto.
  - left. exists e, l1. split; [|done]. unfold recv, st_bind at 1, on_link. by rewrite E.
Qed.

Lemma update_states_fixed p c :
  sent_bytes (update_states p c) = sent_bytes c ∧
  conn_source_port (update_states p c) = conn_source_port c ∧
  conn_destination_port (update_states p c) = conn_destination_port c ∧
  dropped (update_states p c) = dropped c.
Proof. unfold update_states. by destruct (tcp_hdr p). Qed.

(** One call keeps the numbering contiguous. *)
Lemma run_call_contiguous `{PlistCodec} call c (l : L) c' l' :
  in_width 32 (sent_bytes c) → run_call call (c, l) = (c', l') →
  in_width 32 (sent_bytes c') ∧
  conn_source_port c' = conn_source_port c ∧ conn_destination_port c' = conn_destination_port c ∧
  ∃ ps, link_sent l' = link_sent l ++ ps ∧ contiguous c (sent_bytes c) ps (sent_bytes c').
Proof.
  intros Hw.
  assert (Hflag : ∀ fl c2, sent_bytes c2 = sent_bytes c → conn_source_port c2 = conn_source_port c →
    conn_destination_port c2 = conn_destination_port c →
    contiguous c (sent_bytes c) [build_flag fl c2] (sent_bytes c)).
  { intros fl c2 E1 E2 E3. split; [eexists; split; [done|]; by rewrite <- E1, <- E2, <- E3|].
    simpl. rewrite wrap_small; [unfold data_len; simpl; lia|unfold data_len; simpl; by rewrite Z.add_0_r]. }
  assert (Hdata : ∀ p, (∃ h, tcp_hdr p = Some h ∧ sequence_number h = sent_bytes c ∧
      source_port h = conn_source_port c ∧ destination_port h = conn_destination_port c) →
    (send_packet p (c, l)).2 = (c', l') → in_width 32 (sent_bytes c') ∧
    conn_source_port c' = conn_source_port c ∧ conn_destination_port c' = conn_destination_port c ∧
    ∃ ps, link_sent l' = link_sent l ++ ps ∧ contiguous c (sent_bytes c) ps (sent_bytes c')).
  { intros p Hp. destruct (send_packet_cases p c l) as (l2 & [[E Hs]|[[e E] Hs]]); rewrite E;
      cbn [snd]; intros [= <- <-].
    - cbn [sent_bytes update_sendable_bytes set_sendable_bytes add_sent_bytes
           conn_source_port conn_destination_port].
      rewrite wrap_data_len. split_and!; [by apply wrap_range|done|done|].
      exists [p]. split; [done|]. by split.
    - split_and!; try done. exists []. by rewrite app_nil_r. }
  destruct call; cbn [run_call].
  - apply Hdata. by eexists.
  - apply Hdata. by eexists.
  - destruct (recv_cases c l) as [(e & l2 & E & Hs)|(p & l1 & _ & [(e & l2 & E & Hs)|(l2 & E & Hs)])];
      rewrite E; cbn [snd]; intros [= <- <-];
      try destruct (update_states_fixed p c) as (E1 & E2 & E3 & _);
      cbn [sent_bytes update_sendable_bytes set_sendable_bytes conn_source_port
           conn_destination_port]; rewrite ?E1; split_and!; try done.
    + exists []. by rewrite app_nil_r.
    + exists []. by rewrite app_nil_r.
    + eexists. split; [done|]. by apply Hflag.
  - destruct (close_cases c l) as (l2 & [[E Hs]|[[e E] Hs]]); rewrite E; cbn [snd];
      intros [= <- <-]; split_and!; try done.
    + eexists. split; [done|]. by apply Hflag.
    + exists []. by rewrite app_nil_r.
  - destruct (close_blocking_cases c l) as (l2 & [[E Hs]|[[e E] Hs]]); rewrite E; cbn [snd];
      intros [= <- <-]; split_and!; try done.
    + eexists. split; [done|]. by apply Hflag.
    + exists []. by rewrite app_nil_r.
Qed.

End lemmas.

(** ** Windows *)

Lemma calc_sendable_spec s w r :
  in_width 16 w →
  let un := wrap 32 (s - r) in let n := calc_sendable_bytes s w r in
  (0 ≤ n ≤ MAX_PACKET_PAYLOAD_SIZE)%Z ∧ (0 < n → un + n ≤ w * 256)%Z ∧
  (n = 0 ↔ w * 256 ≤ un)%Z.
Proof.
  intros [Hw0 Hw1] un n. subst n. unfold calc_sendable_bytes. fold un.
  rewrite Z.shiftl_mul_pow2 by lia. change (2 ^ 8)%Z with 256%Z.
  rewrite (wrap_small 32 (w * 256)) by (split; lia).
  pose proof (wrap_range 32 (s - r) ltac:(lia)) as [Hu0 Hu1]. fold un in Hu0, Hu1.
  change MAX_PACKET_PAYLOAD_SIZE with 49116%Z. case_decide; lia.
Qed.

Lemma wrap_sub_add s r n :
  (0 ≤ n)%Z → (wrap 32 (s - r) + n < 2 ^ 32)%Z →
  wrap 32 (wrap 32 (s + n) - r) = (wrap 32 (s - r) + n)%Z.
Proof.
  intros Hn Hb. autorewrite with wrap.
  replace (s + n - r)%Z with ((s - r) + n)%Z by lia. rewrite <- wrap_add_l.
  apply wrap_small. pose proof (wrap_range 32 (s - r) ltac:(lia)) as [H0 _]. split; lia.
Qed.

(** ** Properties *)

Section theorems.
Context {L : Type} {link : Link L} {laws : LinkLaws L}.

(** A send within the cached number of sendable bytes. *)
Lemma send_bytes_window value c (l : L) c' l' :
  in_width 16 (device_last_window_size c) → coherent c →
  value ≠ [] → (Z.of_nat (length value) ≤ sendable_bytes c)%Z →
  send_bytes value (c, l) = (Ok (), (c', l')) →
  unacked c' = (unacked c + Z.of_nat (length value))%Z ∧ (unacked c' ≤ window_bytes c')%Z ∧
  coherent c' ∧
  (get_length (header (build_data value c)) ≤ MAX_PACKET_SIZE)%Z.
Proof.
  intros Hw Hco Hne Hlen Hs.
  assert (Hpos : (0 < Z.of_nat (length value))%Z) by (destruct value; [done|simpl; lia]).
  destruct (calc_sendable_spec (sent_bytes c) _ (device_last_received_bytes c) Hw)
    as (Hmax & Hwin & _). rewrite <- Hco in Hmax, Hwin.
  assert (Hwb : (device_last_window_size c * 256 < 2 ^ 24)%Z) by (destruct Hw; lia).
  destruct (send_packet_cases (build_data value c) c l) as (l2 & [[E _]|[[e E] _]]);
    change (send_bytes value (c, l)) with (send_packet (build_data value c) (c, l)) in Hs;
    rewrite E in Hs; simplify_eq.
  assert (Hd : data_len (build_data value c) = Z.of_nat (length value)) by done.
  change (2 ^ 24)%Z with 16777216%Z in Hwb. change (2 ^ 32)%Z with 4294967296%Z.
  unfold unacked, window_bytes.
  cbn [sent_bytes update_sendable_bytes set_sendable_bytes add_sent_bytes
       device_last_received_bytes device_last_window_size].
  assert (Hun : wrap 32 (wrap 32 (sent_bytes c + wrap 32 (data_len (build_data value c)))
                  - device_last_received_bytes c)
          = (wrap 32 (sent_bytes c - device_last_received_bytes c) + Z.of_nat (length value))%Z).
  { rewrite wrap_data_len, Hd. apply wrap_sub_add; lia. }
  split_and!; [done|rewrite Hun; lia|done|].
  change (get_length _) with
    (wrap 32 (Z.of_nat (HEADER_V2_SIZE + TCP_MIN_LEN + length value))).
  change MAX_PACKET_PAYLOAD_SIZE with 49116%Z in Hmax.
  change MAX_PACKET_SIZE with 49152%Z. unfold HEADER_V2_SIZE, TCP_MIN_LEN.
  rewrite wrap_small by (split; lia). lia.
Qed.

(** What the handshake does with each answer; [tcp_syn] and [tcp_ack] are its two packets. *)
Lemma handshake_outcomes id s d (l : L) :
  let tcp_syn := tcp_flag_packet s d 0 0 SYN in
  (∃ e l', conn_new id s d l = (Err e, l') ∧
     (link_sent l' = link_sent l ∨ link_sent l' = link_sent l ++ [tcp_syn]) ∧
     ∀ l1 l2 p h l3, tx_send tcp_syn l = (Ok (), l1) → rx_recv l1 = (Ok p, l2) → tcp_hdr p = Some h →
       syn h = true → ack h = true →
       tx_send (tcp_flag_packet s d (acknowledgment_number h) 1 ACK) l2 ≠ (Ok (), l3)) ∨
  (∃ l1 l2 p h l', tx_send tcp_syn l = (Ok (), l1) ∧ rx_recv l1 = (Ok p, l2) ∧ tcp_hdr p = Some h ∧
     syn h = true ∧ ack h = true ∧
     tx_send (tcp_flag_packet s d (acknowledgment_number h) 1 ACK) l2 = (Ok (), l') ∧
     link_sent l' = link_sent l ++ [tcp_syn; tcp_flag_packet s d (acknowledgment_number h) 1 ACK] ∧
     conn_new id s d l =
       (Ok (Conn id (acknowledgment_number h) 1 s d
              (calc_sendable_bytes (acknowledgment_number h) (window_size h) (acknowledgment_number h))
              (window_size h) (acknowledgment_number h) false), l')).
Proof.
  intros tcp_syn. unfold conn_new, perform. fold tcp_syn. unfold st_bind, st_lift, st_ret.
  destruct (tx_send_spec tcp_syn l) as (l1 & [[E1 Hs1]|[[e E1] Hs1]]); rewrite E1;
    [|left; eexists _, _; split; [done|]; split; [by left|congruence]].
  destruct (rx_recv_spec l1) as (l2 & Hs2 & [[p E2]|[e E2]]); rewrite E2;
    [|left; eexists _, _; split; [done|]; split; [right; by rewrite Hs2|congruence]].
  destruct (tcp_hdr p) as [h|] eqn:Eh; cbn [ok_or];
    [|left; eexists _, _; split; [done|]; split; [right; by rewrite Hs2|congruence]].
  destruct (syn h) eqn:Esyn, (ack h) eqn:Eack; cbn [negb andb];
    try (left; eexists _, _; split; [done|]; split; [right; by rewrite Hs2|congruence]).
  change (0 + acknowledgment_number h)%Z with (acknowledgment_number h). change (0 + 1)%Z with 1%Z.
  destruct (tx_send_spec (tcp_flag_packet s d (acknowledgment_number h) 1 ACK) l2)
    as (l3 & [[E3 Hs3]|[[e E3] Hs3]]); rewrite E3;
    [|left; eexists _, _; split; [done|]; split; [right; by rewrite Hs3, Hs2|congruence]].
  right. exists l1, l2, p, h, l3. split_and!; try done. by rewrite Hs3, Hs2, Hs1, <- app_assoc.
Qed.

(** C27.  The handshake queues a SYN for port numbers [s] and [d] and nothing else
    until an answer comes.  It succeeds exactly when the SYN can be queued, the answer is a
    SYN-ACK and the final ACK can be queued, and then the connection starts at the sequence
    number the device acknowledged, with one byte received and the device's window, its
    cache of sendable bytes coherent.  On failure nothing but the SYN has been queued. *)
Theorem conn_new_handshake id s d (l : L) :
  let tcp_syn := tcp_flag_packet s d 0 0 SYN in
  ∃ o l', conn_new id s d l = (o, l') ∧
  match o with
  | Ok c =>
      ∃ l1 l2 p h, tx_send tcp_syn l = (Ok (), l1) ∧ rx_recv l1 = (Ok p, l2) ∧
        tcp_hdr p = Some h ∧ syn h = true ∧ ack h = true ∧
        link_sent l' = link_sent l ++ [tcp_syn; tcp_flag_packet s d (acknowledgment_number h) 1 ACK] ∧
        c = Conn id (acknowledgment_number h) 1 s d
              (calc_sendable_bytes (acknowledgment_number h) (window_size h) (acknowledgment_number h))
              (window_size h) (acknowledgment_number h) false ∧ coherent c
  | Err _ =>
      (link_sent l' = link_sent l ∨ link_sent l' = link_sent l ++ [tcp_syn]) ∧
      ∀ l1 l2 p h l3, tx_send tcp_syn l = (Ok (), l1) → rx_recv l1 = (Ok p, l2) → tcp_hdr p = Some h →
        syn h = true → ack h = true →
        tx_send (tcp_flag_packet s d (acknowledgment_number h) 1 ACK) l2 ≠ (Ok (), l3)
  | Panic | Ub => False
  end.
Proof.
  intros tcp_syn. destruct (handshake_outcomes id s d l)
    as [(e & l' & E & H)|(l1 & l2 & p & h & l' & E1 & E2 & Hh & Hs & Ha & _ & Hl & E)].
  - by eexists _, _.
  - eexists _, _. split; [exact E|]. by exists l1, l2, p, h.
Qed.

(** C12.  Whatever methods are called on a connection, in whatever order and
    whichever of them fail, the packets it queues carry its two port numbers and
    their sequence numbers count the payload bytes (modulo [2^32]) without gap or
    overlap, ending at the connection's byte counter: a failed send is not
    counted. *)
Theorem run_calls_contiguous `{PlistCodec} calls c (l : L) c' l' :
  in_width 32 (sent_bytes c) → run_calls calls (c, l) = (c', l') →
  ∃ ps, link_sent l' = link_sent l ++ ps ∧ contiguous c (sent_bytes c) ps (sent_bytes c').
Proof.
  unfold run_calls. revert c l. induction calls as [|call calls IH]; intros c l Hw Hr; simpl in Hr.
  - simplify_eq. exists []. by rewrite app_nil_r.
  - destruct (run_call call (c, l)) as [c1 l1] eqn:E.
    apply run_call_contiguous in E as (Hw1 & Hp & Hd & ps & Hs & Hc); [|done].
    destruct (IH c1 l1 Hw1 Hr) as (qs & Hs' & Hc'). exists (ps ++ qs). split.
    + by rewrite Hs', Hs, app_assoc.
    + eapply contiguous_app; [done|]. by eapply contiguous_ports; [..|done].
Qed.

(** A client that sends no more than [get_sendable_bytes] never has more
    bytes unacknowledged than the device's window, the packet made for it fits
    into [MAX_PACKET_SIZE], and the number of sendable bytes is up to date again
    after the send. *)
Theorem send_bytes_within_window value c (l : L) c' l' :
  in_width 16 (device_last_window_size c) → coherent c →
  value ≠ [] → (Z.of_nat (length value) ≤ sendable_bytes c)%Z →
  send_bytes value (c, l) = (Ok (), (c', l')) →
  unacked c' = (unacked c + Z.of_nat (length value))%Z ∧ (unacked c' ≤ window_bytes c')%Z ∧
  coherent c' ∧
  (get_length (header (build_data value c)) ≤ MAX_PACKET_SIZE)%Z.
Proof. apply send_bytes_window. Qed.

(** A received packet is acknowledged exactly: after [recv] returns it, the
    last packet queued is a bare ACK whose acknowledgment number is the packet's
    sequence number plus its payload length, the connection has taken over the
    device's acknowledgment and window, and the sendable bytes are up to date.
    Receiving sends no payload: the sequence number stays. *)
Theorem recv_acknowledges c (l : L) p h c' l' :
  recv (c, l) = (Ok p, (c', l')) → tcp_hdr p = Some h →
  ∃ q g, link_sent l' = link_sent l ++ [q] ∧ tcp_hdr q = Some g ∧
    payload_encode (DeviceMux.payload q) = [] ∧ ack g = true ∧ syn g = false ∧ rst g = false ∧
    sequence_number g = sent_bytes c ∧
    acknowledgment_number g = wrap 32 (sequence_number h + data_len p) ∧
    received_bytes c' = wrap 32 (sequence_number h + data_len p) ∧
    device_last_received_bytes c' = acknowledgment_number h ∧
    device_last_window_size c' = window_size h ∧ sent_bytes c' = sent_bytes c ∧
    coherent c'.
Proof.
  intros H Hh.
  destruct (recv_cases c l) as [(e & l2 & E & _)|(p' & l1 & _ & [(e & l2 & E & _)|(l2 & E & Hs)])];
    rewrite E in H; simplify_eq.
  unfold update_states in *. rewrite Hh in *.
  eexists _, _. split; [exact Hs|]. split; [done|].
  split_and!; try done; apply wrap_data_len.
Qed.

(** Closing a connection queues one RST and marks it, and dropping a marked
    connection queues nothing more; dropping one that was not closed queues one
    RST.  So at most one RST is queued by [close] followed by the drop, and none is
    missed unless the queue refuses it. *)
Theorem close_then_drop_rst c (l : L) c' l' :
  dropped c = false →
  (close (c, l) = (Ok (), (c', l')) →
     link_sent l' = link_sent l ++ [build_flag RST c] ∧ conn_drop (c', l') = (c', l')) ∧
  (conn_drop (c, l) = (c', l') →
     (dropped c' = true ∧ link_sent l' = link_sent l ++ [build_flag RST c]) ∨
     (dropped c' = false ∧ link_sent l' = link_sent l)).
Proof.
  intros Hd. split; intros H.
  - destruct (close_cases c l) as (l2 & [[E Hs]|[[e E] _]]); rewrite E in H; by simplify_eq.
  - unfold conn_drop in H. cbn [fst] in H. rewrite Hd in H. cbn [negb] in H.
    destruct (close_blocking_cases c l) as (l2 & [[E Hs]|[[e E] Hs]]); rewrite E in H;
      simplify_eq/=; [left|right]; auto.
Qed.

End theorems.

(** The number of sendable bytes is between zero and the largest
    payload of a packet, never lets the unacknowledged bytes pass the device's
    window, and is zero exactly when the window is used up. *)
Theorem calc_sendable_bytes_bounds s w r :
  in_width 16 w →
  (0 ≤ calc_sendable_bytes s w r ≤ MAX_PACKET_PAYLOAD_SIZE)%Z ∧
  (0 < calc_sendable_bytes s w r → wrap 32 (s - r) + calc_sendable_bytes s w r ≤ w * 256)%Z ∧
  (calc_sendable_bytes s w r = 0 ↔ w * 256 ≤ wrap 32 (s - r))%Z.
Proof. apply calc_sendable_spec. Qed.

(** ** [ScriptLink] satisfies the laws *)

#[export] Instance ScriptLink_laws : LinkLaws script.
Proof.
  assert (Hq : ∀ p l, ∃ l',
    (script_send p l = (Ok (), l') ∧ queued l' = queued l ++ [p])
    ∨ ((∃ e, script_send p l = (Err e, l')) ∧ queued l' = queued l)).
  { intros p l. unfold script_send. destruct (queue_room l); eauto. }
  split; [exact Hq|exact Hq|]. intros l. unfold rx_recv, link_sent, ScriptLink.
  destruct (to_deliver l) as [|p ps]; eexists; (split; [|eauto]); done.
Qed.
