(* ===== verification/Bridge.v ===== *)
(** * A client connected to a device ([src/bin/rusbmux/handler/connect.rs])

    [handle_usb_device_connect] carries bytes between a client's socket and a
    [UsbDeviceConn] until one of the two ends.  Each round of its [select!] loop
    takes one ready branch; which one is the argument of [bridge_turn], and a list
    of them that of [bridge_run].  A branch that loses is dropped: the [recv] that
    loses may have taken a packet already and be waiting to queue its ACK
    ([interrupted_recv]). *)

From S2P Require Import Prelude Io Tcp DeviceMux Plist Builder Errors Conn.

(** ** Operations *)

Section bridge.
Context {L : Type} {link : Link L}.

Record Bridge : Type := MkBridge {
  br_conn : UsbDeviceConn;
  br_link : L;
  br_client : stream;
  (** [read_buf] *)
  br_buf : list byte;
}.

Definition bridge (A : Type) : Type := stateful Bridge RusbmuxError.t A.

Definition on_conn {A} (m : conn_op A) : bridge A := λ b,
  let '(r, (c, l)) := m (br_conn b, br_link b) in (r, MkBridge c l (br_client b) (br_buf b)).

Definition on_socket {A} (m : stateful stream ErrorKind A) : bridge A := λ b,
  let '(r, s) := m (br_client b) in
  (map_err RusbmuxError.IO r, MkBridge (br_conn b) (br_link b) s (br_buf b)).

(** [buf.split_to(n)] *)
Definition split_to (n : nat) : bridge (list byte) := λ b,
  (Ok (take n (br_buf b)), MkBridge (br_conn b) (br_link b) (br_client b) (drop n (br_buf b))).

Definition extend_buf (bs : list byte) : bridge () := λ b,
  (Ok (), MkBridge (br_conn b) (br_link b) (br_client b) (br_buf b ++ bs)).

(** [AsyncReadExt::read_buf]: at least one byte and at most [S n], nothing when the
    peer has closed. *)
Definition read_buf (n : nat) : stateful stream ErrorKind (list byte) := λ s,
  match s_in s with
  | [] => match s_end s with UnexpectedEof => (Ok [], s) | k => (Err k, s) end
  | bs => (Ok (take (S n) bs), set_in (drop (S n) bs) s)
  end.

Definition client_read (n : nat) (sendable_bytes : Z) : bridge (list byte) := λ b,
  match br_buf b with
  | [] =>
      (let! bs := on_socket (read_buf n) in
       let! _ := extend_buf bs in
       let! b := st_get in
       split_to (Z.to_nat sendable_bytes `min` length (br_buf b))) b
  | _ => split_to (Z.to_nat sendable_bytes `min` length (br_buf b)) b
  end.

Definition client_send (payload : list byte) : bridge () := on_socket (write_all payload).

(** What [select!] chose.  [ClientRead n i]: the client's branch completed, reading
    at most [S n] new bytes; with [i] the losing [recv] had taken a packet. *)
Inductive bridge_event : Type :=
| DeviceShutdown
| DevicePacket
| ClientRead (n : nat) (interrupted : bool).

(** [recv] up to the point where it waits for room in the writer's queue *)
Definition interrupted_recv : conn_op () :=
  let! response := on_link rx_recv in
  modify_self (update_states response).

(** One round of the loop; whether there is another one. *)
Definition bridge_turn (e : bridge_event) : bridge bool :=
  match e with
  | DeviceShutdown => st_ret false
  | DevicePacket =>
      let! packet := on_conn recv in
      let! _ := client_send (payload_encode (DeviceMux.payload packet)) in
      st_ret true
  | ClientRead n interrupted =>
      let! conn := on_conn self in
      let sendable_bytes := sendable_bytes conn in
      if negb (0 <? sendable_bytes)%Z then st_ret true
      else
        let! _ := if interrupted then on_conn interrupted_recv else st_ret () in
        let! client_packet := client_read n sendable_bytes in
        match client_packet with
        | [] =>
            let! _ := on_conn close in
            st_ret false
        | _ =>
            let! _ := on_conn (send_bytes client_packet) in
            st_ret true
        end
  end.

Fixpoint bridge_run (es : list bridge_event) : bridge bool :=
  match es with
  | [] => st_ret true
  | e :: es =>
      let! go := bridge_turn e in
      if go : bool then bridge_run es else st_ret false
  end.

Definition handle_usb_device_connect (es : list bridge_event) (conn : UsbDeviceConn) (l : L)
    (client : stream) : outcome RusbmuxError.t bool * Bridge :=
  bridge_run es (MkBridge conn l client []).

(** ** Specification *)

(** The payload bytes of packets, in order. *)
Definition payloads (ps : list UsbDevicePacket) : list byte :=
  ps ≫= λ p, payload_encode (DeviceMux.payload p).

(** What the client wrote and has not gone out yet. *)
Definition unsent (b : Bridge) : list byte := br_buf b ++ s_in (br_client b).

(** Packets the writer has been given. *)
Definition queued_for_device (b : Bridge) : list UsbDevicePacket := link_sent (br_link b).

(** The cached window is up to date, and a 16-bit number. *)
Definition window_current (c : UsbDeviceConn) : Prop :=
  in_width 16 (device_last_window_size c) ∧ coherent c.

Definition uninterrupted (e : bridge_event) : Prop :=
  match e with ClientRead _ i => i = false | _ => True end.

(** [o] is an error. *)
Definition failed {E A} (o : outcome E A) : Prop := ∃ e, o = Err e.

(** A link that keeps a log of the packets it has delivered. *)
#[export] Instance LogLink : Link (L * list UsbDevicePacket) := {
  tx_send p l := let '(r, l') := tx_send p l.1 in (r, (l', l.2));
  tx_try_send p l := let '(r, l') := tx_try_send p l.1 in (r, (l', l.2));
  rx_recv l :=
    let '(r, l') := rx_recv l.1 in (r, (l', l.2 ++ match r with Ok p => [p] | _ => [] end));
  link_sent l := link_sent l.1;
}.

End bridge.
Arguments Bridge : clear implicits.

(** ** Lemmas *)

#[export] Instance LogLink_laws {L} `{LinkLaws L} : LinkLaws (L * list UsbDevicePacket).
Proof.
  split.
  - intros p [l log]. destruct (tx_send_spec p l) as (l' & [[E Hs]|[[e E] Hs]]);
      exists (l', log); cbn; rewrite E; eauto.
  - intros p [l log]. destruct (tx_try_send_spec p l) as (l' & [[E Hs]|[[e E] Hs]]);
      exists (l', log); cbn; rewrite E; eauto.
  - intros [l log]. destruct (rx_recv_spec l) as (l' & Hs & [[p E]|[e E]]);
      eexists (l', _); cbn; rewrite E; eauto.
Qed.

Section lemmas.
Context {L : Type} {link : Link L} {laws : LinkLaws L}.
Implicit Types (b : Bridge L).

Lemma payloads_app ps qs : payloads (ps ++ qs) = payloads ps ++ payloads qs.
Proof. apply bind_app. Qed.

(** Reading from the client takes bytes off the front of what is unsent, no more
    than asked for, and some if there are any. *)
Lemma client_read_spec n k b o b' :
  client_read n k b = (o, b') →
  br_conn b' = br_conn b ∧ br_link b' = br_link b ∧
  s_out (br_client b') = s_out (br_client b) ∧ s_faults (br_client b') = s_faults (br_client b) ∧
  ((∃ bs, o = Ok bs ∧ unsent b = bs ++ unsent b' ∧ length bs ≤ Z.to_nat k ∧
      ((0 < k)%Z → bs = [] → unsent b = [])) ∨
   (failed o ∧ unsent b' = unsent b)).
Proof.
  unfold client_read. destruct b as [c l s buf]. cbn [br_buf]. destruct buf as [|x buf].
  - unfold st_bind, on_socket, read_buf, extend_buf, st_get, split_to, unsent. cbn [br_client].
    destruct (s_in s) as [|y rest] eqn:Ein.
    + destruct (s_end s) eqn:Eend; cbn; intros [= <- <-]; cbn; rewrite ?Ein;
        split_and!; try done; try (right; split; [by eexists|done]).
      left.
      exists []. rewrite Nat.min_0_r. cbn. split_and!; try done; lia.
    + cbn [map_err]. intros [= <- <-]. cbn [br_conn br_link br_client br_buf set_in s_out s_faults s_in].
      split_and!; try done. left. eexists. split; [done|]. rewrite app_nil_l.
      set (bs := take (S n) (y :: rest)). set (m := _ `min` _). split_and!.
      * by rewrite app_assoc, take_drop, <- (take_drop (S n) (y :: rest)) at 1.
      * rewrite length_take. lia.
      * intros Hk Hnil. exfalso. apply (f_equal length) in Hnil. subst m bs.
        rewrite length_take in Hnil. cbn in Hnil. lia.
  - unfold split_to, unsent. intros [= <- <-]. cbn [br_conn br_link br_client br_buf].
    split_and!; try done. left. eexists. split; [done|]. set (m := _ `min` _). split_and!.
    + by rewrite app_assoc, take_drop.
    + rewrite length_take. lia.
    + intros Hk Hnil. exfalso. apply (f_equal length) in Hnil. subst m.
      rewrite length_take in Hnil. cbn in Hnil. lia.
Qed.

(** What the device is given and what stays unsent make up what the client wrote;
    bytes are lost only with an error. *)
Definition moves {A} b (o : outcome RusbmuxError.t A) b' : Prop :=
  ∃ ps lost, queued_for_device b' = queued_for_device b ++ ps ∧
    payloads ps ++ lost ++ unsent b' = unsent b ∧ (lost = [] ∨ failed o).

(** Operations that queue packets without payload and leave the client alone. *)
Definition silent {A} (m : conn_op (L := L) A) : Prop := ∀ c l o c' l',
  m (c, l) = (o, (c', l')) → ∃ ps, link_sent l' = link_sent l ++ ps ∧ payloads ps = [].

Lemma moves_same {A} (o : outcome RusbmuxError.t A) b b' :
  br_link b' = br_link b → unsent b' = unsent b → moves b o b'.
Proof.
  intros Hl Hu. exists [], []. unfold queued_for_device. rewrite Hl, app_nil_r. auto.
Qed.

Lemma moves_bind {A B} (m : bridge A) (f : A → bridge B) b o b' :
  (∀ o1 b1, m b = (o1, b1) → moves b o1 b1) →
  (∀ a b1, m b = (Ok a, b1) → f a b1 = (o, b') → moves b1 o b') →
  st_bind m f b = (o, b') → moves b o b'.
Proof.
  intros Hm Hf H. unfold st_bind in H. destruct (m b) as [[a|e| |] b1] eqn:E.
  - destruct (Hm _ _ eq_refl) as (ps & lost & Hq & Hu & Hl).
    destruct (Hf a b1 eq_refl H) as (qs & lost' & Hq' & Hu' & Hl').
    destruct Hl as [->|[e He]]; [|discriminate He]. exists (ps ++ qs), lost'. split_and!.
    + by rewrite Hq', Hq, app_assoc.
    + by rewrite payloads_app, <- app_assoc, Hu'.
    + done.
  - simplify_eq. destruct (Hm _ _ eq_refl) as (ps & lost & Hq & Hu & Hl).
    exists ps, lost. split_and!; [done..|]. destruct Hl as [?|_]; [by left|right; by eexists].
  - simplify_eq. destruct (Hm _ _ eq_refl) as (ps & lost & Hq & Hu & [?|[e He]]); [|done].
    exists ps, lost. auto.
  - simplify_eq. destruct (Hm _ _ eq_refl) as (ps & lost & Hq & Hu & [?|[e He]]); [|done].
    exists ps, lost. auto.
Qed.

Lemma on_conn_moves {A} (m : conn_op A) b o b' :
  silent m → on_conn m b = (o, b') → moves b o b'.
Proof.
  intros Hm H. unfold on_conn in H. destruct (m (br_conn b, br_link b)) as [r [c l]] eqn:E.
  simplify_eq. apply Hm in E as (ps & Hq & Hp). exists ps, []. rewrite Hp. auto.
Qed.

Lemma recv_silent : silent recv.
Proof.
  intros c l o c' l' H.
  destruct (recv_cases c l) as [(e & l2 & E & Hs)|(p & l1 & _ & [(e & l2 & E & Hs)|(l2 & E & Hs)])];
    rewrite E in H; simplify_eq; [exists []..|by eexists]; by rewrite app_nil_r.
Qed.

Lemma close_silent : silent close.
Proof.
  intros c l o c' l' H. destruct (close_cases c l) as (l2 & [[E Hs]|[[e E] Hs]]);
    rewrite E in H; simplify_eq; [by eexists|exists []; by rewrite app_nil_r].
Qed.

Lemma self_silent : silent self.
Proof. intros c l o c' l' [= <- <- <-]. exists []. by rewrite app_nil_r. Qed.

Lemma interrupted_recv_silent : silent interrupted_recv.
Proof.
  intros c l o c' l' H. unfold interrupted_recv, st_bind, on_link in H.
  destruct (rx_recv_spec l) as (l1 & Hs & [[p E]|[e E]]); rewrite E in H; cbn in H; simplify_eq;
    exists []; by rewrite app_nil_r.
Qed.

Lemma client_send_moves bs b o b' : client_send bs b = (o, b') → moves b o b'.
Proof.
  unfold client_send, on_socket. intros H. destruct (write_all bs (br_client b)) as [r s] eqn:E.
  simplify_eq. apply write_all_prefix in E as (Hin & _). apply moves_same; [done|].
  unfold unsent. cbn. by rewrite Hin.
Qed.

(** A chunk that has been taken from the client is queued, or lost with an error. *)
Lemma send_chunk_moves bs (f : () → bridge bool) b o b' :
  (∀ b2, f () b2 = (Ok true, b2)) →
  st_bind (on_conn (send_bytes bs)) f b = (o, b') →
  ∃ ps lost, queued_for_device b' = queued_for_device b ++ ps ∧
    payloads ps ++ lost = bs ∧ unsent b' = unsent b ∧ (lost = [] ∨ failed o).
Proof.
  intros Hf H. unfold st_bind, on_conn in H.
  change (send_bytes bs (br_conn b, br_link b))
    with (send_packet (build_data bs (br_conn b)) (br_conn b, br_link b)) in H.
  destruct (send_packet_cases (build_data bs (br_conn b)) (br_conn b) (br_link b))
    as (l' & [[E Hs]|[[e E] Hs]]); rewrite E in H.
  - rewrite Hf in H. simplify_eq. exists [build_data bs (br_conn b)], []. split_and!; try done.
    + unfold payloads. cbn. by rewrite !app_nil_r.
    + by left.
  - simplify_eq. exists [], bs. unfold queued_for_device. cbn. rewrite Hs, app_nil_r.
    split_and!; try done. right. by eexists.
Qed.

Lemma client_turn_moves n i b o b' : bridge_turn (ClientRead n i) b = (o, b') → moves b o b'.
Proof.
  cbn [bridge_turn]. apply moves_bind; [intros o1 b1; apply on_conn_moves, self_silent|].
  intros c b0 [= <- <-]. destruct (negb _); [intros [= <- <-]; by apply moves_same|].
  apply moves_bind.
  - intros o1 b1 H. destruct i; [|injection H as <- <-; by apply moves_same].
    by apply (on_conn_moves _ _ _ _ interrupted_recv_silent) in H.
  - intros _ b1 _ H. unfold st_bind at 1 in H.
    destruct (client_read n _ b1) as [r b2] eqn:E.
    apply client_read_spec in E as (Hc & Hl & _ & _ & [(bs & -> & Hu & _)|[[e ->] Hu]]).
    + destruct bs as [|x bs].
      * revert H. intros H. destruct (moves_bind (on_conn close) (λ _, st_ret false) b2 o b') as
          (ps & lost & Hq & Hu2 & Hlost); [|by intros ??? [= <- <-]; apply moves_same|done|].
        { intros o1 b3. apply on_conn_moves, close_silent. }
        exists ps, lost. unfold queued_for_device in *. by rewrite Hu, <- Hl.
      * apply send_chunk_moves in H as (ps & lost & Hq & Hp & Hu2 & Hlost); [|done].
        exists ps, lost. unfold queued_for_device in *. rewrite Hu, Hu2, <- Hl, app_assoc, Hp. done.
    + simplify_eq. by apply moves_same.
Qed.

Lemma bridge_turn_moves e b o b' : bridge_turn e b = (o, b') → moves b o b'.
Proof.
  destruct e as [| |n i]; [..|apply client_turn_moves]; cbn [bridge_turn].
  - intros [= <- <-]. by apply moves_same.
  - apply moves_bind; [intros o1 b1; apply on_conn_moves, recv_silent|].
    intros p b1 _. apply moves_bind; [intros o1 b2; apply client_send_moves|].
    intros [] b2 _ [= <- <-]. by apply moves_same.
Qed.

(** ** Keeping within the window *)

(** The windows the router delivers are the 16-bit fields of TCP headers. *)
Definition windows_fit : Prop := ∀ (l : L) p l' h,
  rx_recv l = (Ok p, l') → tcp_hdr p = Some h → in_width 16 (window_size h).

Lemma recv_window_current c l o c' l' :
  windows_fit → window_current c → recv (c, l) = (Ok o, (c', l')) → window_current c'.
Proof.
  intros Hfit [Hw Hco] H.
  destruct (recv_cases c l) as [(e & l2 & E & _)|(p & l1 & Hrx & [(e & l2 & E & _)|(l2 & E & _)])];
    rewrite E in H; simplify_eq. split; [|done]. unfold update_states.
  destruct (tcp_hdr _) as [h|] eqn:Eh; cbn; [by eapply Hfit|done].
Qed.

(** What one undisturbed round does to the connection. *)
Lemma bridge_turn_window e b b' :
  windows_fit → uninterrupted e → window_current (br_conn b) →
  bridge_turn e b = (Ok true, b') →
  window_current (br_conn b') ∧
  match e with
  | ClientRead _ _ => queued_for_device b' = queued_for_device b ∨
      (unacked (br_conn b') ≤ window_bytes (br_conn b'))%Z ∧
      ∃ v, queued_for_device b' = queued_for_device b ++ [build_data v (br_conn b)] ∧
        (get_length (header (build_data v (br_conn b))) ≤ MAX_PACKET_SIZE)%Z
  | _ => True
  end.
Proof.
  intros Hfit Hun Hcur H. destruct e as [| |n i]; cbn [bridge_turn] in H; [done|..].
  - invert_binds. split; [|done]. unfold on_conn in *.
    destruct (recv (br_conn b, br_link b)) as [r [c l]] eqn:E. simplify_eq.
    unfold client_send, on_socket in *. destruct (write_all _ _). simplify_eq/=.
    by eapply recv_window_current.
  - cbn in Hun. subst i. apply st_bind_ok in H as (c & b0 & [= <- <-] & H).
    destruct (negb _) eqn:Epos; [injection H as <-; by split; [|left]|].
    apply st_bind_ok in H as ([] & b1 & [= <-] & H).
    apply st_bind_ok in H as (bs & b2 & Hr & H).
    apply client_read_spec in Hr as (Hc & Hl & _ & _ & [(bs' & [= <-] & _ & Hlen & _)|[[? ?] _]]);
      [|done]. cbn [br_conn br_link] in Hc, Hl.
    destruct bs as [|x bs]; [by invert_binds|].
    apply st_bind_ok in H as ([] & b3 & Hsend & [= <-]). unfold on_conn in Hsend.
    destruct (send_bytes _ _) as [r [c3 l3]] eqn:E. simplify_eq. rewrite Hc, Hl in E.
    destruct Hcur as [Hw Hco]. apply negb_false_iff, Z.ltb_lt in Epos.
    destruct (send_bytes_window (x :: bs) _ _ _ _ Hw Hco ltac:(done) ltac:(lia) E)
      as (Hua & Hle & Hco' & Hsize). cbn [br_conn].
    change (send_packet (build_data (x :: bs) (br_conn b)) (br_conn b, br_link b)
      = (Ok (), (c3, l3))) in E.
    destruct (send_packet_cases (build_data (x :: bs) (br_conn b)) (br_conn b) (br_link b))
      as (l' & [[E' Hs]|[[e E'] Hs]]); rewrite E' in E; simplify_eq.
    split; [by split|]. right. split; [done|]. by exists (x :: bs).
Qed.

Lemma bridge_run_window es b b' :
  windows_fit → Forall uninterrupted es → window_current (br_conn b) →
  bridge_run es b = (Ok true, b') → window_current (br_conn b').
Proof.
  intros Hfit Hes. revert b. induction Hes as [|e es He _ IH]; intros b Hcur H; [by injection H as <-|].
  cbn [bridge_run] in H. apply st_bind_ok in H as (go & b1 & Ht & H).
  destruct go; [|done]. eapply IH; [|done]. by eapply bridge_turn_window.
Qed.

End lemmas.

(** ** What reaches the client *)

Section delivery.
Context {L : Type} {link : Link L} {laws : LinkLaws L}.
Implicit Types (b : Bridge (L * list UsbDevicePacket)).

(** The packets the router has delivered to the connection. *)
Definition delivered b : list UsbDevicePacket := (br_link b).2.

(** The client is written what the device sent; bytes are missing only with an
    error. *)
Definition delivers {A} b (o : outcome RusbmuxError.t A) b' : Prop :=
  ∃ ps rest, delivered b' = delivered b ++ ps ∧
    s_out (br_client b') ++ rest = s_out (br_client b) ++ payloads ps ∧ (rest = [] ∨ failed o).

Lemma delivers_same {A} (o : outcome RusbmuxError.t A) b b' :
  delivered b' = delivered b → s_out (br_client b') = s_out (br_client b) → delivers b o b'.
Proof. intros Hd Ho. exists [], []. rewrite Hd, Ho, !app_nil_r. auto. Qed.

Lemma send_keeps_log v c (l : L * list UsbDevicePacket) : (send_bytes v (c, l)).2.2.2 = l.2.
Proof.
  unfold send_bytes, send_packet, st_bind, self, on_link. cbn.
  by destruct (tx_send _ _) as [[] ?].
Qed.

Lemma close_keeps_log c (l : L * list UsbDevicePacket) : (close (c, l)).2.2.2 = l.2.
Proof.
  unfold close, send_rst, st_bind, self, on_link. cbn. by destruct (tx_send _ _) as [[] ?].
Qed.

Lemma recv_logs c (l : L * list UsbDevicePacket) o c' l' :
  recv (c, l) = (o, (c', l')) →
  (∃ p, l'.2 = l.2 ++ [p] ∧ (o = Ok p ∨ failed o)) ∨ (l'.2 = l.2 ∧ failed o).
Proof.
  intros H. destruct l as [l log]. unfold recv, conn_ack, st_bind, self, on_link in H. cbn in H.
  destruct (rx_recv_spec l) as (l1 & _ & [[p E]|[e E]]); rewrite E in H; cbn in H.
  - left. exists p. match type of H with context [tx_send ?q l1] =>
      destruct (tx_send_spec q l1) as (l2 & [[E2 _]|[[e E2] _]]) end; rewrite E2 in H; injection H as <- <- <-; (split; [done|]);
      [by left|right; by eexists].
  - right. simplify_eq. cbn. rewrite app_nil_r. split; [done|by eexists].
Qed.

(** The client's branch once it has been chosen *)
Lemma client_branch_keeps n v b o b' :
  (let! client_packet := client_read n v in
   match client_packet with
   | [] => let! _ := on_conn close in st_ret false
   | _ => let! _ := on_conn (send_bytes client_packet) in st_ret true
   end) b = (o, b') →
  delivered b' = delivered b ∧ s_out (br_client b') = s_out (br_client b).
Proof.
  unfold st_bind at 1. destruct (client_read _ _ _) as [r b2] eqn:E.
  apply client_read_spec in E as (Hc & Hl & Ho & _ & [(bs & -> & _)|[[e ->] _]]); intros H.
  - assert (Hd : delivered b2 = delivered b) by (unfold delivered; by rewrite Hl).
    destruct bs as [|x bs]; unfold st_bind, on_conn in H.
    + pose proof (close_keeps_log (br_conn b2) (br_link b2)) as Hk.
      destruct (close _) as [r [c l]]. cbn in Hk.
      destruct r; injection H as <- <-; unfold delivered in *; cbn; split; congruence.
    + pose proof (send_keeps_log (x :: bs) (br_conn b2) (br_link b2)) as Hk.
      destruct (send_bytes _ _) as [r [c l]]. cbn in Hk.
      destruct r; injection H as <- <-; unfold delivered in *; cbn; split; congruence.
  - simplify_eq. split; [|done]. unfold delivered. by rewrite Hl.
Qed.

Lemma bridge_turn_delivers e b o b' :
  uninterrupted e → bridge_turn e b = (o, b') → delivers b o b'.
Proof.
  intros Hun H. destruct e as [| |n i]; cbn [bridge_turn] in H.
  - injection H as <- <-. by apply delivers_same.
  - unfold st_bind at 1, on_conn in H.
    destruct (recv (br_conn b, br_link b)) as [r [c l]] eqn:E.
    apply recv_logs in E as [(p & Hlog & [->|[e ->]])|[Hlog [e ->]]].
    + unfold st_bind, client_send, on_socket in H. cbn [br_client] in H.
      destruct (write_all _ (br_client b)) as [r s] eqn:Ew.
      exists [p]. unfold payloads. cbn [mbind list_bind]. rewrite app_nil_r.
      apply write_all_prefix in Ew as Hp. destruct Hp as (_ & _ & w & Hw & rest & Hrest).
      rewrite Hrest. destruct (write_all_total (payload_encode (DeviceMux.payload p)) (br_client b))
        as [[s' Et]|(k & s' & Et)]; rewrite Et in Ew; injection Ew as <- <-; injection H as <- <-.
      * exists []. apply write_all_ok in Et as [Et _]. rewrite <- Hrest. cbn. rewrite app_nil_r. auto.
      * exists rest. cbn. rewrite Hw, app_assoc. split_and!; [done..|]. right. by eexists.
    + simplify_eq. exists [p], (payloads [p]). split_and!; [done..|]. right. by eexists.
    + simplify_eq. by apply delivers_same.
  - cbn in Hun. subst i. unfold st_bind at 1 in H. cbn [on_conn self] in H.
    destruct (negb _); [injection H as <- <-; by apply delivers_same|].
    unfold st_bind at 1 in H. cbn [st_ret] in H.
    apply client_branch_keeps in H as [Hd Ho]. by apply delivers_same.
Qed.

(** A round in which the [recv] that lost had taken a packet: that one is not written. *)
Lemma bridge_turn_interrupted n b o b' :
  bridge_turn (ClientRead n true) b = (o, b') →
  s_out (br_client b') = s_out (br_client b) ∧
  ∃ ps, delivered b' = delivered b ++ ps ∧ length ps ≤ 1.
Proof.
  intros H. cbn [bridge_turn] in H. unfold st_bind at 1 in H. cbn [on_conn self] in H.
  destruct (negb _); [injection H as <- <-; split; [done|]; exists []; rewrite app_nil_r; auto|].
  destruct b as [c [l log] s bf]. cbn [br_conn br_link br_client br_buf] in *.
  destruct (rx_recv_spec l) as (l1 & _ & [[p Erx]|[e Erx]]).
  - assert (E : on_conn interrupted_recv (MkBridge c (l, log) s bf)
      = (Ok (), MkBridge (update_states p c) (l1, log ++ [p]) s bf))
      by (unfold on_conn, interrupted_recv, st_bind, on_link; cbn; by rewrite Erx).
    rewrite (st_bind_eq _ _ _ _ _ E) in H.
    apply client_branch_keeps in H as [Hd Ho]. split; [exact Ho|]. exists [p]. by rewrite Hd.
  - assert (E : on_conn interrupted_recv (MkBridge c (l, log) s bf) = (Err e, MkBridge c (l1, log) s bf))
      by (unfold on_conn, interrupted_recv, st_bind, on_link; cbn; rewrite Erx; cbn; by rewrite app_nil_r).
    unfold st_bind at 1 in H. rewrite E in H. injection H as <- <-. split; [done|]. exists [].
    unfold delivered. cbn. rewrite app_nil_r. auto.
Qed.

(** A round that goes on, whatever its branch: what is delivered is written, in order, but
    for a packet that an interrupted [recv] had taken. *)
Lemma bridge_turn_writes e b b' :
  bridge_turn e b = (Ok true, b') →
  ∃ ps kept, delivered b' = delivered b ++ ps ∧ kept `sublist_of` ps ∧
    length ps ≤ length kept + (match e with ClientRead _ true => 1 | _ => 0 end) ∧
    s_out (br_client b') = s_out (br_client b) ++ payloads kept.
Proof.
  intros H. destruct (match e with ClientRead _ true => true | _ => false end) eqn:Ei.
  - destruct e as [| |n []]; try done. apply bridge_turn_interrupted in H as (Ho & ps & Hd & Hl).
    exists ps, []. rewrite app_nil_r. split_and!; [done|apply sublist_nil_l|cbn; lia|done].
  - apply bridge_turn_delivers in H as (ps & rest & Hd & Ho & [->|[? [=]]]); [|by destruct e as [| |n []]].
    rewrite app_nil_r in Ho. exists ps, ps. split_and!; [done|done|lia|done].
Qed.

(** ** Properties *)

(** C7.  The device is sent what the client wrote: whatever branches the loop
    takes, in whatever order and for how long, the payloads queued for the device
    followed by what is still unsent are exactly the bytes the client wrote, in
    order; only a chunk whose send failed is missing, and then the loop has ended
    with that error. *)
Theorem bridge_sends_stream es b o b' :
  bridge_run es b = (o, b') →
  ∃ ps lost, queued_for_device b' = queued_for_device b ++ ps ∧
    payloads ps ++ lost ++ unsent b' = unsent b ∧ (lost = [] ∨ failed o).
Proof.
  change (bridge_run es b = (o, b') → moves b o b'). revert b.
  induction es as [|e es IH]; intros b H; [injection H as <- <-; by apply moves_same|].
  revert H. cbn [bridge_run]. apply moves_bind; [intros o1 b1; apply bridge_turn_moves|].
  intros [|] b1 _ H; [by apply IH|]. injection H as <- <-. by apply moves_same.
Qed.

(** C8.  The client is sent what the device sent: as long as no [recv] is
    interrupted, the payloads of the packets delivered to the connection are
    written to the client completely and in order, or the loop has ended with an
    error. *)
Theorem bridge_delivers_stream es b o b' :
  Forall uninterrupted es → bridge_run es b = (o, b') →
  ∃ ps rest, delivered b' = delivered b ++ ps ∧
    s_out (br_client b') ++ rest = s_out (br_client b) ++ payloads ps ∧ (rest = [] ∨ failed o).
Proof.
  change (Forall uninterrupted es → bridge_run es b = (o, b') → delivers b o b').
  intros Hes. revert b. induction Hes as [|e es He _ IH]; intros b H;
    [injection H as <- <-; by apply delivers_same|].
  cbn [bridge_run] in H. unfold st_bind in H. destruct (bridge_turn e b) as [r b1] eqn:E.
  apply bridge_turn_delivers in E as (ps & rest & Hd & Ho & Hr); [|done].
  destruct r as [[|]|e'| |]; [|injection H as <- <-; exists ps, rest; split_and!; [done..|];
    first [by destruct Hr as [?|[? [=]]]; left | right; by exists e']..].
  destruct Hr as [->|[? [=]]]. rewrite app_nil_r in Ho.
  destruct (IH b1 H) as (qs & rest' & Hd' & Ho' & Hr'). exists (ps ++ qs), rest'.
  split_and!; [by rewrite Hd', Hd, app_assoc|by rewrite Ho', Ho, payloads_app, app_assoc|done].
Qed.

(** A [recv] that loses the [select!] loses data: when it has taken a
    packet and waits to queue the ACK while the client's branch completes, the
    packet has been delivered and counted as received, its payload is not written
    to the client and no later round will write it, and nothing but the client's
    chunk is queued, no acknowledgment of the packet. *)
Theorem interrupted_recv_loses b p l1 x buf n o b' :
  (0 < sendable_bytes (br_conn b))%Z → br_buf b = x :: buf →
  rx_recv (br_link b).1 = (Ok p, l1) →
  bridge_turn (ClientRead n true) b = (o, b') →
  delivered b' = delivered b ++ [p] ∧ br_client b' = br_client b ∧
  received_bytes (br_conn b') = received_bytes (update_states p (br_conn b)) ∧
  (queued_for_device b' = queued_for_device b ∨
   ∃ v, v ≠ [] ∧ queued_for_device b' =
     queued_for_device b ++ [build_data v (update_states p (br_conn b))]).
Proof.
  intros Hpos Hbuf Hrx H. cbn [bridge_turn] in H. unfold st_bind at 1 in H. cbn [on_conn self] in H.
  apply Z.ltb_lt in Hpos as Hlt. rewrite Hlt in H. cbn [negb] in H. unfold st_bind at 1 in H.
  assert (E : on_conn interrupted_recv b = (Ok (),
    MkBridge (update_states p (br_conn b)) (l1, delivered b ++ [p]) (br_client b) (br_buf b))).
  { unfold on_conn, interrupted_recv, st_bind, on_link. cbn [rx_recv LogLink]. by rewrite Hrx. }
  destruct b as [c l s bf]. cbn [br_conn br_link br_client br_buf] in *. subst bf. rewrite E in H.
  unfold st_bind at 1, client_read in H. cbn [br_buf] in H.
  unfold split_to in H. cbn [br_conn br_link br_client br_buf] in H.
  destruct (Z.to_nat (sendable_bytes c)) as [|k] eqn:Ek; [lia|]. cbn [length Nat.min take] in H.
  set (v := x :: take _ buf) in H. set (c1 := update_states p c) in *.
  assert (Hs : link_sent l1 = link_sent l.1).
  { destruct (rx_recv_spec l.1) as (l' & Hs & [[q Eq]|[e Eq]]); rewrite Hrx in Eq;
    [by injection Eq as <- <-|done]. }
  pose proof (send_keeps_log v c1 (l1, delivered (MkBridge c l s (x :: buf)) ++ [p])) as Hlog.
  unfold st_bind, on_conn in H. cbn [br_conn br_link br_client br_buf] in H.
  change (send_bytes v ?cl) with (send_packet (build_data v c1) cl) in H, Hlog.
  destruct (send_packet_cases (build_data v c1) c1 (l1, delivered (MkBridge c l s (x :: buf)) ++ [p]))
    as (l' & [[E' Hq]|[[e E'] Hq]]); rewrite E' in H, Hlog; injection H as <- <-;
    cbn [snd] in Hlog; unfold delivered, queued_for_device in *; cbn [br_link br_client br_conn] in *;
    (split; [done|]); (split; [done|]); (split; [done|]).
  - right. exists v. split; [done|]. rewrite Hq. cbn [link_sent LogLink fst]. by rewrite Hs.
  - left. rewrite Hq. cbn [link_sent LogLink fst]. by rewrite Hs.
Qed.

(** C9.  The loop never sends beyond the device's window: started with an
    up-to-date window, after any number of rounds in which no [recv] is
    interrupted, a round that sends a chunk of the client leaves no more bytes
    unacknowledged than the device's window, in one packet that fits into
    [MAX_PACKET_SIZE]. *)
Theorem bridge_within_window es n b b1 b2 :
  windows_fit (L := L * list UsbDevicePacket) → Forall uninterrupted es →
  window_current (br_conn b) →
  bridge_run es b = (Ok true, b1) → bridge_turn (ClientRead n false) b1 = (Ok true, b2) →
  queued_for_device b2 = queued_for_device b1 ∨
  (unacked (br_conn b2) ≤ window_bytes (br_conn b2))%Z ∧
  ∃ v, queued_for_device b2 = queued_for_device b1 ++ [build_data v (br_conn b1)] ∧
    (get_length (header (build_data v (br_conn b1))) ≤ MAX_PACKET_SIZE)%Z.
Proof.
  intros Hfit Hes Hcur H1 H2. eapply bridge_run_window in Hcur; [|done..].
  by apply bridge_turn_window in H2 as [_ ?].
Qed.

End delivery.
