(* ===== verification/Poll.v ===== *)
(** * Polling ([std::task::Poll], [tokio::io::ReadBuf])

    What the hand-written [AsyncRead] and [AsyncWrite] implementations of the
    library return and fill: the provider's stream ([src/provider.rs]) and the
    [libusb] endpoints ([src/usb_backend/rusb/mod.rs]). *)

From S2P Require Import Prelude Io.

Inductive poll (A : Type) : Type := Ready (a : A) | Pending.
Arguments Ready {A} a.
Arguments Pending {A}.

(** [Poll<std::io::Result<A>>] *)
Definition io_poll (A : Type) : Type := poll (ErrorKind + A).

(** A poll function of an object with state [S]. *)
Definition polled (S A : Type) : Type := S → io_poll A * S.

Definition is_ready {A} (p : poll A) : bool := match p with Ready _ => true | Pending => false end.

(** [ReadBuf]: what has been put into it, and how many bytes still fit. *)
Record ReadBuf : Type := MkReadBuf { filled : list byte; remaining : nat }.

(** A buffer of [n] bytes, empty *)
Definition read_buf_of (n : nat) : ReadBuf := MkReadBuf [] n.

(** [ReadBuf::put_slice], of no more than [remaining] bytes *)
Definition put_slice (bs : list byte) (buf : ReadBuf) : ReadBuf :=
  MkReadBuf (filled buf ++ bs) (remaining buf - length bs).

(** How many bytes a call of [poll_write] reports as written. *)
Definition reported (r : io_poll nat) : nat := match r with Ready (inr n) => n | _ => 0 end.

Lemma put_slice_min (bs : list byte) buf :
  remaining (put_slice (take (length bs `min` remaining buf) bs) buf) = 0 ∨
  drop (length bs `min` remaining buf) bs = [].
Proof.
  simpl. rewrite length_take. destruct (decide (length bs ≤ remaining buf)).
  - right. apply drop_ge. lia.
  - left. lia.
Qed.
