(* ===== verification/ProviderStream.v ===== *)
(** * The provider's byte stream ([src/provider.rs], [RusbmuxStream])

    The library hands the [idevice] crate a connection as an [AsyncRead] +
    [AsyncWrite] object.  It plays the part the daemon's bridge plays for a client:
    packets from the device are buffered and acknowledged, writes are cut to the
    device's window.  All of it is written as poll functions, which may be given up
    at any point and called again: what is half done is kept in the object
    ([need_ack], [write_packet], [last_write_len]).

    The two channels are the interface [PollLink]; [Mailbox] implements it.  Both
    loops are given fuel; [read_fuel] and [write_fuel] are enough. *)

From S2P Require Import Prelude Io Tcp DeviceMux Plist Builder Errors Conn Bridge Poll.

(** ** The channels, polled *)

(** [poll_send]: the packet is queued, or given back. *)
Inductive SendPoll : Type := Sent | Full | Disconnected.

#[export] Instance SendPoll_eq_dec : EqDecision SendPoll.
Proof. solve_decision. Defined.

Class PollLink (L : Type) `{Link L} : Type := {
  poll_send : UsbDevicePacket → L → SendPoll * L;
  (** [None]: the channel is closed and empty *)
  poll_item : L → poll (option UsbDevicePacket) * L;
  (** the packets that have arrived and have not been taken *)
  link_inbox : L → list UsbDevicePacket;
  (** how many packets the queue takes at once *)
  link_room : L → nat;
}.

Class PollLinkLaws (L : Type) `{PollLink L} : Prop := {
  poll_send_spec : ∀ p l r l', poll_send p l = (r, l') →
    link_inbox l' = link_inbox l ∧
    link_sent l' = link_sent l ++ (if decide (r = Sent) then [p] else []);
  poll_item_spec : ∀ l r l', poll_item l = (r, l') →
    link_sent l' = link_sent l ∧
    match r with
    | Ready (Some p) => link_inbox l = p :: link_inbox l'
    | _ => link_inbox l = [] ∧ link_inbox l' = []
    end;
  poll_send_room : ∀ p l n, link_room l = S n →
    ∃ l', poll_send p l = (Sent, l') ∧ link_room l' = n;
  poll_item_room : ∀ l, link_room (poll_item l).2 = link_room l;
}.

(** A queue that has room for a number of packets, and an inbox. *)
Record mailbox : Type := Mailbox {
  mb_inbox : list UsbDevicePacket;
  mb_open : bool;
  mb_room : nat;
  mb_tx_open : bool;
  mb_sent : list UsbDevicePacket;
}.

Definition mailbox_poll_send (p : UsbDevicePacket) (l : mailbox) : SendPoll * mailbox :=
  if negb (mb_tx_open l) then (Disconnected, l)
  else match mb_room l with
       | O => (Full, l)
       | S n => (Sent, Mailbox (mb_inbox l) (mb_open l) n true (mb_sent l ++ [p]))
       end.

Definition mailbox_send (p : UsbDevicePacket) : stateful mailbox RusbmuxError.t () := λ l,
  match mailbox_poll_send p l with
  | (Sent, l) => (Ok (), l)
  | (_, l) => (Err (from_send_error p), l)
  end.

Definition mailbox_poll_item (l : mailbox) : poll (option UsbDevicePacket) * mailbox :=
  match mb_inbox l with
  | p :: ps => (Ready (Some p), Mailbox ps (mb_open l) (mb_room l) (mb_tx_open l) (mb_sent l))
  | [] => (if mb_open l then Pending else Ready None, l)
  end.

#[export] Instance MailboxLink : Link mailbox := {
  tx_send := mailbox_send;
  tx_try_send := mailbox_send;
  rx_recv l :=
    match mailbox_poll_item l with
    | (Ready (Some p), l) => (Ok p, l)
    | (_, l) => (Err from_recv_error, l)
    end;
  link_sent := mb_sent;
}.

#[export] Instance MailboxPollLink : PollLink mailbox := {
  poll_send := mailbox_poll_send;
  poll_item := mailbox_poll_item;
  link_inbox := mb_inbox;
  link_room l := if mb_tx_open l then mb_room l else 0;
}.

(** ** The stream *)

Section stream.
Context {L : Type} {link : Link L} {plink : PollLink L}.

Record RusbmuxStream : Type := MkRusbmuxStream {
  rs_conn : UsbDeviceConn;
  (** [read_stream] and [write_sink] *)
  rs_link : L;
  rs_read_buf : list byte;
  need_ack : bool;
  last_write_len : nat;
  write_packet : option UsbDevicePacket;
}.

Definition poll_send_flag (tcp_flag : TcpFlags) : polled RusbmuxStream () := λ s,
  let put c l ack :=
    MkRusbmuxStream c l (rs_read_buf s) ack (last_write_len s) (write_packet s) in
  match poll_send (build_flag tcp_flag (rs_conn s)) (rs_link s) with
  | (Sent, l) => (Ready (inr ()), put (update_sendable_bytes (rs_conn s)) l false)
  | (Full, l) => (Pending, put (rs_conn s) l (need_ack s))
  | (Disconnected, l) => (Ready (inl NotConnected), put (rs_conn s) l (need_ack s))
  end.

Definition poll_recv : polled RusbmuxStream () := λ s,
  let put c l buf ack :=
    MkRusbmuxStream c l buf ack (last_write_len s) (write_packet s) in
  match poll_item (rs_link s) with
  | (Ready (Some packet), l) =>
      let payload := payload_encode (DeviceMux.payload packet) in
      let buf := match rs_read_buf s with [] => payload | buf => buf ++ payload end in
      (Ready (inr ()), put (update_states packet (rs_conn s)) l buf true)
  | (Ready None, l) => (Ready (inl NotConnected), put (rs_conn s) l (rs_read_buf s) (need_ack s))
  | (Pending, l) => (Pending, put (rs_conn s) l (rs_read_buf s) (need_ack s))
  end.

Definition poll_send_pending (packet : UsbDevicePacket) : polled RusbmuxStream nat := λ s,
  let payload_len := wrap 32 (Z.of_nat (payload_len (DeviceMux.payload packet))) in
  let put c l n p := MkRusbmuxStream c l (rs_read_buf s) (need_ack s) n p in
  match poll_send packet (rs_link s) with
  | (Sent, l) =>
      (Ready (inr (last_write_len s)),
       put (update_sendable_bytes (add_sent_bytes payload_len (rs_conn s))) l 0 (write_packet s))
  | (Full, l) => (Pending, put (rs_conn s) l (last_write_len s) (Some packet))
  | (Disconnected, l) =>
      (Ready (inl NotConnected), put (rs_conn s) l (last_write_len s) (write_packet s))
  end.

Definition set_read_buf (buf : list byte) (s : RusbmuxStream) : RusbmuxStream :=
  MkRusbmuxStream (rs_conn s) (rs_link s) buf (need_ack s) (last_write_len s) (write_packet s).

Definition set_write (n : nat) (p : option UsbDevicePacket) (s : RusbmuxStream) : RusbmuxStream :=
  MkRusbmuxStream (rs_conn s) (rs_link s) (rs_read_buf s) (need_ack s) n p.

(** The loops; [None] when the fuel runs out. *)
Fixpoint poll_read_loop (fuel : nat) (s : RusbmuxStream) (buf : ReadBuf)
  : option (io_poll () * (RusbmuxStream * ReadBuf)) :=
  match fuel with
  | O => None
  | S fuel =>
      if need_ack s then
        match poll_send_flag ACK s with
        | (Ready (inr _), s) => poll_read_loop fuel s buf
        | (r, s) => Some (r, (s, buf))
        end
      else
        match rs_read_buf s with
        | _ :: _ =>
            let n := length (rs_read_buf s) `min` remaining buf in
            let buf := put_slice (take n (rs_read_buf s)) buf in
            let s := set_read_buf (drop n (rs_read_buf s)) s in
            if negb (remaining buf =? 0) && negb (length (rs_read_buf s) =? 0)
            then poll_read_loop fuel s buf
            else Some (Ready (inr ()), (s, buf))
        | [] =>
            match poll_recv s with
            | (Ready (inr _), s) => poll_read_loop fuel s buf
            | (r, s) => Some (r, (s, buf))
            end
        end
  end.

Fixpoint poll_write_loop (fuel : nat) (buf : list byte) (s : RusbmuxStream)
  : option (io_poll nat * RusbmuxStream) :=
  match fuel with
  | O => None
  | S fuel =>
      match (if need_ack s then poll_send_flag ACK s else (Ready (inr ()), s)) with
      | (Pending, s) => Some (Pending, s)
      | (Ready (inl e), s) => Some (Ready (inl e), s)
      | (Ready (inr _), s) =>
          match write_packet s with
          | Some packet => Some (poll_send_pending packet (set_write (last_write_len s) None s))
          | None =>
              let sendable := sendable_bytes (rs_conn s) in
              if (sendable =? 0)%Z then
                match poll_recv s with
                | (Pending, s) => Some (Pending, s)
                | (Ready (inl e), s) => Some (Ready (inl e), s)
                | (Ready (inr _), s) => poll_write_loop fuel buf s
                end
              else
                let n := length buf `min` Z.to_nat sendable in
                poll_write_loop fuel buf
                  (set_write n (Some (build_data (take n buf) (rs_conn s))) s)
          end
      end
  end.

Definition read_fuel (s : RusbmuxStream) : nat := 2 * length (link_inbox (rs_link s)) + 3.
Definition write_fuel (s : RusbmuxStream) : nat := length (link_inbox (rs_link s)) + 3.

Definition poll_read (buf : ReadBuf) (s : RusbmuxStream)
  : option (io_poll () * (RusbmuxStream * ReadBuf)) :=
  poll_read_loop (read_fuel s) s buf.

Definition poll_write (buf : list byte) (s : RusbmuxStream)
  : option (io_poll nat * RusbmuxStream) :=
  match buf with
  | [] => Some (Ready (inr 0), s)
  | _ => poll_write_loop (write_fuel s) buf s
  end.

Definition poll_flush : polled RusbmuxStream () := λ s, (Ready (inr ()), s).

Definition mark_dropped (s : RusbmuxStream) : RusbmuxStream :=
  MkRusbmuxStream (set_dropped (rs_conn s)) (rs_link s) (rs_read_buf s) (need_ack s)
    (last_write_len s) (write_packet s).

Definition poll_shutdown : polled RusbmuxStream () := λ s,
  if negb (dropped (rs_conn s)) then
    match poll_send_flag RST s with
    | (Ready (inr _), s) => (Ready (inr ()), mark_dropped s)
    | r => r
    end
  else (Ready (inr ()), s).

End stream.
Arguments RusbmuxStream : clear implicits.

(** ** Specification *)

Section spec.
Context {L : Type} {link : Link L} {plink : PollLink L}.
Implicit Types (s : RusbmuxStream L).

(** What has arrived and has not been read. *)
Definition unread s : list byte := rs_read_buf s ++ payloads (link_inbox (rs_link s)).

Definition with_link (l : L) s : RusbmuxStream L :=
  MkRusbmuxStream (rs_conn s) l (rs_read_buf s) (need_ack s) (last_write_len s) (write_packet s).

(** The user of the stream, who has [data] to write: [user_run data s k out arr s' k']
    polls from [s] to [s'], is given the bytes [out] by its reads while the packets
    [arr] arrive, and is told that the bytes of [data] up to [k'] have been written.
    It polls in any order, gives up any poll, and goes on after errors; a write
    always offers what has not been written. *)
Inductive user_run (data : list byte) (s0 : RusbmuxStream L)
  : list byte → list UsbDevicePacket → RusbmuxStream L → nat → Prop :=
| user_start : user_run data s0 [] [] s0 0
| user_arrive out arr s k ps l :
    user_run data s0 out arr s k →
    link_sent l = link_sent (rs_link s) → link_inbox l = link_inbox (rs_link s) ++ ps →
    user_run data s0 out (arr ++ ps) (with_link l s) k
| user_read out arr s k n r s' buf :
    user_run data s0 out arr s k →
    poll_read (read_buf_of n) s = Some (r, (s', buf)) →
    user_run data s0 (out ++ filled buf) arr s' k
| user_write out arr s k r s' :
    user_run data s0 out arr s k →
    poll_write (drop k data) s = Some (r, s') →
    user_run data s0 out arr s' (k + reported r)
| user_flush out arr s k r s' :
    user_run data s0 out arr s k → poll_flush s = (r, s') → user_run data s0 out arr s' k
| user_shutdown out arr s k r s' :
    user_run data s0 out arr s k → poll_shutdown s = (r, s') → user_run data s0 out arr s' k.

(** A packet that only acknowledges. *)
Definition bare_ack (p : UsbDevicePacket) : bool :=
  match tcp_hdr p with
  | Some h => ack h && negb (rst h) && (payload_len (DeviceMux.payload p) =? 0)
  | None => false
  end.

Definition bare_acks (ps : list UsbDevicePacket) : nat := length (filter (λ p, bare_ack p = true) ps).

(** The packet that waits for room in the queue is the next part of the data. *)
Definition pending_ok (data : list byte) (k : nat) s : Prop :=
  ∀ p, write_packet s = Some p →
    (∃ h, tcp_hdr p = Some h ∧ sequence_number h = sent_bytes (rs_conn s) ∧
      source_port h = conn_source_port (rs_conn s) ∧
      destination_port h = conn_destination_port (rs_conn s)) ∧
    DeviceMux.payload p = PayloadBytes (take (last_write_len s) (drop k data)) ∧
    0 < last_write_len s ≤ length (drop k data).

(** What holds after a run. *)
Record run_inv (data : list byte) (s0 : RusbmuxStream L) (out : list byte)
    (arr : list UsbDevicePacket) s (k : nat) : Prop := {
  inv_read : unread s0 ++ payloads arr = out ++ unread s;
  inv_write : ∃ ps, link_sent (rs_link s) = link_sent (rs_link s0) ++ ps ∧
    payloads ps = take k data ∧
    contiguous (rs_conn s0) (sent_bytes (rs_conn s0)) ps (sent_bytes (rs_conn s)) ∧
    (dropped (rs_conn s) = false →
     bare_acks ps + Nat.b2n (need_ack s) + length (link_inbox (rs_link s))
     = Nat.b2n (need_ack s0) + length (link_inbox (rs_link s0)) + length arr);
  inv_bound : k ≤ length data;
  inv_pending : pending_ok data k s;
  inv_width : in_width 32 (sent_bytes (rs_conn s));
  inv_sendable : (0 ≤ sendable_bytes (rs_conn s))%Z;
  inv_source : conn_source_port (rs_conn s) = conn_source_port (rs_conn s0);
  inv_destination : conn_destination_port (rs_conn s) = conn_destination_port (rs_conn s0);
}.

End spec.

(** ** Lemmas *)

#[export] Instance Mailbox_laws : LinkLaws mailbox.
Proof.
  assert (Hq : queues mailbox_send).
  { intros p l. unfold mailbox_send, mailbox_poll_send. destruct (mb_tx_open l); cbn; [|eauto].
    destruct (mb_room l); cbn; eauto. }
  split; [done|done|]. intros l. unfold rx_recv, MailboxLink, mailbox_poll_item.
  destruct l as [[|p ps] o n t q]; cbn.
  - exists (Mailbox [] o n t q). destruct o; eauto.
  - exists (Mailbox ps o n t q). eauto.
Qed.

#[export] Instance Mailbox_poll_laws : PollLinkLaws mailbox.
Proof.
  split.
  - intros p l r l'. cbn. unfold mailbox_poll_send.
    destruct (mb_tx_open l); [destruct (mb_room l)|]; cbn; intros [= <- <-]; cbn;
      by rewrite ?app_nil_r.
  - intros l r l'. cbn. unfold mailbox_poll_item.
    destruct (mb_inbox l) eqn:E; [destruct (mb_open l)|]; intros [= <- <-]; by rewrite ?E.
  - intros p l n. cbn. unfold mailbox_poll_send. destruct (mb_tx_open l) eqn:E; [|done].
    intros ->. cbn. by eexists.
  - intros l. cbn. unfold mailbox_poll_item. by destruct (mb_inbox l); [destruct (mb_open l)|].
Qed.

Section lemmas.
Context {L : Type} {link : Link L} {plink : PollLink L} {laws : PollLinkLaws L}.
Implicit Types (s : RusbmuxStream L).

Lemma poll_send_flag_cases fl s r s' :
  poll_send_flag fl s = (r, s') →
  rs_read_buf s' = rs_read_buf s ∧ last_write_len s' = last_write_len s ∧
  write_packet s' = write_packet s ∧ link_inbox (rs_link s') = link_inbox (rs_link s) ∧
  ((r = Ready (inr ()) ∧ need_ack s' = false ∧ rs_conn s' = update_sendable_bytes (rs_conn s) ∧
    link_sent (rs_link s') = link_sent (rs_link s) ++ [build_flag fl (rs_conn s)])
   ∨ ((r = Pending ∨ r = Ready (inl NotConnected)) ∧ need_ack s' = need_ack s ∧
      rs_conn s' = rs_conn s ∧ link_sent (rs_link s') = link_sent (rs_link s))).
Proof.
  unfold poll_send_flag. destruct (poll_send _ _) as [q l] eqn:E.
  apply poll_send_spec in E as [Hi Hs]. destruct q; intros [= <- <-]; cbn in *;
    rewrite ?app_nil_r in Hs; eauto 15.
Qed.

Lemma poll_recv_cases s r s' :
  poll_recv s = (r, s') →
  last_write_len s' = last_write_len s ∧ write_packet s' = write_packet s ∧
  link_sent (rs_link s') = link_sent (rs_link s) ∧ unread s' = unread s ∧
  ((r = Ready (inr ()) ∧ need_ack s' = true ∧
    ∃ p, link_inbox (rs_link s) = p :: link_inbox (rs_link s') ∧
      rs_conn s' = update_states p (rs_conn s))
   ∨ ((r = Pending ∨ r = Ready (inl NotConnected)) ∧ need_ack s' = need_ack s ∧
      rs_conn s' = rs_conn s ∧ rs_read_buf s' = rs_read_buf s ∧
      link_inbox (rs_link s) = [] ∧ link_inbox (rs_link s') = [])).
Proof.
  unfold poll_recv, unread. destruct (poll_item _) as [q l] eqn:E.
  apply poll_item_spec in E as [Hs Hi].
  destruct q as [[p|]|]; intros [= <- <-]; cbn in *; split_and!; try done.
  - rewrite Hi. unfold payloads. cbn [mbind list_bind]. rewrite app_assoc.
    by destruct (rs_read_buf s).
  - left. eauto.
  - by destruct Hi as [-> ->].
  - right. naive_solver.
  - by destruct Hi as [-> ->].
  - right. naive_solver.
Qed.

Lemma poll_send_pending_cases p s r s' :
  poll_send_pending p s = (r, s') →
  rs_read_buf s' = rs_read_buf s ∧ need_ack s' = need_ack s ∧
  link_inbox (rs_link s') = link_inbox (rs_link s) ∧
  ((r = Ready (inr (last_write_len s)) ∧ write_packet s' = write_packet s ∧
    rs_conn s' = update_sendable_bytes (add_sent_bytes (wrap 32 (data_len p)) (rs_conn s)) ∧
    link_sent (rs_link s') = link_sent (rs_link s) ++ [p])
   ∨ (link_sent (rs_link s') = link_sent (rs_link s) ∧ rs_conn s' = rs_conn s ∧
      last_write_len s' = last_write_len s ∧
      ((r = Pending ∧ write_packet s' = Some p)
       ∨ (r = Ready (inl NotConnected) ∧ write_packet s' = write_packet s)))).
Proof.
  unfold poll_send_pending. destruct (poll_send _ _) as [q l] eqn:E.
  apply poll_send_spec in E as [Hi Hs]. destruct q; intros [= <- <-]; cbn in *;
    rewrite ?app_nil_r in Hs; split_and!; try done; [left|right|right]; eauto 10.
Qed.

(** Rules for the loops: what the pieces of a round preserve, a poll preserves. *)
Lemma write_loop_rule (P : RusbmuxStream L → Prop) (Q : io_poll nat → RusbmuxStream L → Prop)
    buf fuel s r s' :
  (∀ s r s', P s → need_ack s = true → poll_send_flag ACK s = (r, s') → P s') →
  (∀ s r s', P s → need_ack s = false → poll_recv s = (r, s') → P s') →
  (∀ s, P s → need_ack s = false → write_packet s = None → sendable_bytes (rs_conn s) ≠ 0%Z →
     let n := length buf `min` Z.to_nat (sendable_bytes (rs_conn s)) in
     P (set_write n (Some (build_data (take n buf) (rs_conn s))) s)) →
  (∀ s p r s', P s → need_ack s = false → write_packet s = Some p →
     poll_send_pending p (set_write (last_write_len s) None s) = (r, s') → Q r s') →
  (∀ s r, P s → reported r = 0 → Q r s) →
  P s → poll_write_loop fuel buf s = Some (r, s') → Q r s'.
Proof.
  intros Hack Hrecv Hbuild Hsend Hexit. revert s. induction fuel as [|fuel IH]; [done|].
  intros s HP. cbn [poll_write_loop].
  destruct (if need_ack s then poll_send_flag ACK s else (Ready (inr ()), s)) as [r1 s1] eqn:E1.
  assert (P s1 ∧ (r1 = Ready (inr ()) → need_ack s1 = false)) as [HP1 Hn1].
  { destruct (need_ack s) eqn:En; [|by simplify_eq]. split; [by eapply Hack|]. intros ->.
    apply poll_send_flag_cases in E1 as (_ & _ & _ & _ & [(_ & H & _)|([?|?] & _)]); naive_solver. }
  destruct r1 as [[e|[]]|]; [intros [= <- <-]; by apply Hexit| |intros [= <- <-]; by apply Hexit].
  specialize (Hn1 eq_refl).
  destruct (write_packet s1) as [p|] eqn:Ep.
  { intros [= H]. by eapply (Hsend s1 p). }
  destruct (sendable_bytes (rs_conn s1) =? 0)%Z eqn:Es.
  - destruct (poll_recv s1) as [r2 s2] eqn:E2. pose proof (Hrecv _ _ _ HP1 Hn1 E2) as HP2.
    destruct r2 as [[e|[]]|]; [intros [= <- <-]; by apply Hexit|by apply IH
                              |intros [= <- <-]; by apply Hexit].
  - apply IH. apply Hbuild; [done..|]. by apply Z.eqb_neq.
Qed.

Lemma read_loop_rule (P : RusbmuxStream L → ReadBuf → Prop) fuel s buf r s' buf' :
  (∀ s r s' b, P s b → need_ack s = true → poll_send_flag ACK s = (r, s') → P s' b) →
  (∀ s r s' b, P s b → need_ack s = false → rs_read_buf s = [] → poll_recv s = (r, s') → P s' b) →
  (∀ s b, P s b → need_ack s = false → rs_read_buf s ≠ [] →
     let n := length (rs_read_buf s) `min` remaining b in
     P (set_read_buf (drop n (rs_read_buf s)) s) (put_slice (take n (rs_read_buf s)) b)) →
  P s buf → poll_read_loop fuel s buf = Some (r, (s', buf')) → P s' buf'.
Proof.
  intros Hack Hrecv Htake. revert s buf. induction fuel as [|fuel IH]; [done|].
  intros s buf HP. cbn [poll_read_loop]. destruct (need_ack s) eqn:En.
  - destruct (poll_send_flag ACK s) as [r1 s1] eqn:E1. pose proof (Hack _ _ _ _ HP En E1).
    destruct r1 as [[e|[]]|]; [by intros [= <- <- <-]|by apply IH|by intros [= <- <- <-]].
  - destruct (rs_read_buf s) as [|x bs] eqn:Eb.
    + destruct (poll_recv s) as [r2 s2] eqn:E2. pose proof (Hrecv _ _ _ _ HP En Eb E2).
      destruct r2 as [[e|[]]|]; [by intros [= <- <- <-]|by apply IH|by intros [= <- <- <-]].
    + pose proof (Htake s buf HP En ltac:(by rewrite Eb)) as H. rewrite Eb in H.
      cbn zeta in *. destruct (_ && _); [by apply IH|]. by intros [= <- <- <-].
Qed.

End lemmas.

(** ** One run of the stream keeps its invariant *)

Section inv.
Context {L : Type} {link : Link L} {plink : PollLink L} {laws : PollLinkLaws L}.
Context (data : list byte) (s0 : RusbmuxStream L).
Implicit Types (s : RusbmuxStream L).

Lemma bare_acks_snoc ps p :
  bare_acks (ps ++ [p]) = bare_acks ps + (if bare_ack p then 1 else 0).
Proof.
  unfold bare_acks. rewrite list.filter_app, length_app. f_equal. by destruct (bare_ack p) eqn:E;
    [rewrite list.filter_cons_True by done|rewrite list.filter_cons_False by by rewrite E].
Qed.

Lemma contiguous_snoc c u ps t p h :
  contiguous c u ps t → tcp_hdr p = Some h → sequence_number h = t →
  source_port h = conn_source_port c → destination_port h = conn_destination_port c →
  contiguous c u (ps ++ [p]) (wrap 32 (t + data_len p)).
Proof.
  intros Hc Hh Hs H1 H2. eapply contiguous_app; [exact Hc|]. split; [|done]. by exists h.
Qed.

(** A flag packet is numbered like data and carries none. *)
Lemma contiguous_flag fl c c1 u ps :
  in_width 32 (sent_bytes c1) →
  conn_source_port c1 = conn_source_port c → conn_destination_port c1 = conn_destination_port c →
  contiguous c u ps (sent_bytes c1) → contiguous c u (ps ++ [build_flag fl c1]) (sent_bytes c1).
Proof.
  intros Hw H1 H2 Hc. pose proof (contiguous_snoc c u ps _ (build_flag fl c1) _ Hc eq_refl eq_refl) as H.
  replace (wrap 32 (sent_bytes c1 + data_len (build_flag fl c1))) with (sent_bytes c1) in H.
  - by apply H.
  - unfold data_len. cbn. by rewrite Z.add_0_r, wrap_small.
Qed.

Lemma calc_sendable_nonneg a w r : (0 ≤ calc_sendable_bytes a w r)%Z.
Proof.
  unfold calc_sendable_bytes. case_decide; [|lia].
  apply Z.min_glb; [lia|]. unfold MAX_PACKET_PAYLOAD_SIZE. by vm_compute.
Qed.

Lemma sendable_nonneg c : (0 ≤ sendable_bytes (update_sendable_bytes c))%Z.
Proof. apply calc_sendable_nonneg. Qed.

Lemma update_states_sendable p c : sendable_bytes (update_states p c) = sendable_bytes c.
Proof. unfold update_states. by destruct (tcp_hdr p). Qed.

Lemma inv_arrive out arr s k ps l :
  run_inv data s0 out arr s k →
  link_sent l = link_sent (rs_link s) → link_inbox l = link_inbox (rs_link s) ++ ps →
  run_inv data s0 out (arr ++ ps) (with_link l s) k.
Proof.
  intros [Hr (qs & Hq & Hp & Hc & Ha) ? ? ? ? ? ?] Hs Hi. constructor; try done.
  - unfold unread. cbn. rewrite Hi, !payloads_app. unfold unread in Hr.
    rewrite !app_assoc, Hr. by rewrite !app_assoc.
  - exists qs. cbn. rewrite Hs, Hi, !length_app. split_and!; try done.
    intros Hd. specialize (Ha Hd). lia.
Qed.

Lemma inv_ack out arr s k r s' :
  run_inv data s0 out arr s k → need_ack s = true → poll_send_flag ACK s = (r, s') →
  run_inv data s0 out arr s' k.
Proof.
  intros [Hr (qs & Hq & Hp & Hc & Ha) Hk Hpend Hw Hse H1 H2] Hn E.
  apply poll_send_flag_cases in E as (Hb & Hl & Hpk & Hi & [(-> & Hn' & Hcn & Hs)|(_ & Hn' & Hcn & Hs)]).
  - constructor; rewrite ?Hcn; try done; try apply sendable_nonneg.
    + unfold unread. by rewrite Hb, Hi.
    + exists (qs ++ [build_flag ACK (rs_conn s)]). rewrite Hs, Hq, Hi, Hn', payloads_app, Hp, app_assoc.
      split_and!; [done|by rewrite app_nil_r|by apply (contiguous_flag _ _ (rs_conn s))|].
      intros Hd. specialize (Ha Hd). rewrite Hn in Ha. rewrite bare_acks_snoc.
      change (bare_ack (build_flag ACK (rs_conn s))) with true. cbn [Nat.b2n] in *. lia.
    + unfold pending_ok. rewrite Hpk, Hl, Hcn. apply Hpend.
  - constructor; rewrite ?Hcn; try done; try apply sendable_nonneg.
    + unfold unread. by rewrite Hb, Hi.
    + exists qs. by rewrite Hs, Hi, Hn'.
    + unfold pending_ok. rewrite Hpk, Hl, Hcn. apply Hpend.
Qed.

Lemma inv_recv out arr s k r s' :
  run_inv data s0 out arr s k → need_ack s = false → poll_recv s = (r, s') →
  run_inv data s0 out arr s' k.
Proof.
  intros [Hr (qs & Hq & Hp & Hc & Ha) Hk Hpend Hw Hse H1 H2] Hn E.
  apply poll_recv_cases in E as (Hl & Hpk & Hs & Hu & [(-> & Hn' & p & Hi & Hcn)|(_ & Hn' & Hcn & _ & Hi & Hi')]).
  - pose proof (update_states_fixed p (rs_conn s)) as (E1 & E2 & E3 & E4).
    constructor; rewrite ?Hcn, ?E1, ?E2, ?E3; try done.
    + by rewrite Hu.
    + exists qs. rewrite Hs, Hn', E4. split_and!; try done.
      intros Hd. specialize (Ha Hd). rewrite Hn, Hi in Ha. cbn [Nat.b2n length] in *. lia.
    + unfold pending_ok. rewrite Hpk, Hl, Hcn, E1, E2, E3. apply Hpend.
    + by rewrite update_states_sendable.
  - constructor; rewrite ?Hcn; try done; try apply sendable_nonneg.
    + by rewrite Hu.
    + exists qs. by rewrite Hs, Hn', Hi', <- Hi.
    + unfold pending_ok. rewrite Hpk, Hl, Hcn. apply Hpend.
Qed.

Lemma inv_build out arr s k :
  run_inv data s0 out arr s k → write_packet s = None → drop k data ≠ [] →
  (0 < sendable_bytes (rs_conn s))%Z →
  let n := length (drop k data) `min` Z.to_nat (sendable_bytes (rs_conn s)) in
  run_inv data s0 out arr (set_write n (Some (build_data (take n (drop k data)) (rs_conn s))) s) k.
Proof.
  intros [Hr Hw Hk _ ? ? ? ?] Hpk Hne Hpos n. constructor; try done.
  intros p [= <-]. cbn. split_and!; [by eexists|done| |subst n; lia].
  assert (length (drop k data) ≠ 0) by (by destruct (drop k data)). subst n. lia.
Qed.

Lemma inv_send out arr s k p r s' :
  run_inv data s0 out arr s k → need_ack s = false → write_packet s = Some p →
  poll_send_pending p (set_write (last_write_len s) None s) = (r, s') →
  run_inv data s0 out arr s' (k + reported r).
Proof.
  intros [Hr (qs & Hq & Hp & Hc & Ha) Hk Hpend Hw Hse H1 H2] Hn Hpk E.
  destruct (Hpend p Hpk) as ((h & Hh & Hsq & Hsp & Hdp) & Hpay & Hlen).
  apply poll_send_pending_cases in E as (Hb & Hn' & Hi & [(-> & Hpk' & Hcn & Hs)|(Hs & Hcn & Hl & Hx)]).
  - cbn in *. constructor; rewrite ?Hcn; try done; try apply sendable_nonneg.
    + unfold unread. by rewrite Hb, Hi.
    + exists (qs ++ [p]). rewrite Hs, Hq, Hi, Hn', payloads_app, Hp, app_assoc. split_and!.
      * done.
      * unfold payloads. cbn. rewrite Hpay. cbn. by rewrite app_nil_r, take_take_drop.
      * cbn. rewrite wrap_data_len. rewrite length_drop in Hlen.
        eapply contiguous_snoc; [exact Hc|exact Hh|done|congruence|congruence].
      * intros Hd. specialize (Ha Hd). rewrite bare_acks_snoc.
        assert (bare_ack p = false) as ->; [|lia].
        unfold bare_ack. rewrite Hh, Hpay. cbn. rewrite length_take.
        destruct (_ `min` _) eqn:Em; [lia|]. by rewrite andb_false_r.
    + rewrite length_drop in Hlen. lia.
    + intros q Hq'. rewrite Hpk' in Hq'. done.
    + cbn. by apply wrap_range.
  - cbn in Hs, Hcn, Hl. assert (reported r = 0) as -> by (by destruct Hx as [[-> _]|[-> _]]).
    rewrite Nat.add_0_r. constructor; rewrite ?Hcn; try done; try apply sendable_nonneg.
    + unfold unread. by rewrite Hb, Hi.
    + exists qs. by rewrite Hs, Hi, Hn'.
    + intros q Hq'. destruct Hx as [[_ Hx]|[_ Hx]]; rewrite Hx in Hq'; [|done].
      simplify_eq. rewrite Hl, Hcn. split_and!; [by exists h|done|lia|lia].
Qed.

Lemma inv_take out arr s k (b : ReadBuf) :
  let n := length (rs_read_buf s) `min` remaining b in
  run_inv data s0 (out ++ filled b) arr s k →
  run_inv data s0 (out ++ filled (put_slice (take n (rs_read_buf s)) b)) arr
    (set_read_buf (drop n (rs_read_buf s)) s) k.
Proof.
  intros n [Hr ? ? ? ? ? ? ?]. constructor; try done.
  rewrite Hr. unfold unread. cbn. rewrite <- !app_assoc. do 2 f_equal.
  by rewrite (app_assoc (take n _)), take_drop.
Qed.

Lemma inv_shutdown out arr s k r s' :
  run_inv data s0 out arr s k → poll_shutdown s = (r, s') → run_inv data s0 out arr s' k.
Proof.
  intros I. unfold poll_shutdown. destruct (dropped (rs_conn s)) eqn:Hd; cbn [negb];
    [by intros [= <- <-]|].
  destruct (poll_send_flag RST s) as [r1 s1] eqn:E.
  destruct I as [Hr (qs & Hq & Hp & Hc & Ha) Hk Hpend Hw Hse H1 H2].
  apply poll_send_flag_cases in E as (Hb & Hl & Hpk & Hi & [(-> & Hn' & Hcn & Hs)|(Hx & Hn' & Hcn & Hs)]).
  - intros [= <- <-]. constructor; cbn; rewrite ?Hcn; try done; try apply sendable_nonneg.
    + unfold unread. cbn. by rewrite Hb, Hi.
    + exists (qs ++ [build_flag RST (rs_conn s)]). rewrite Hs, Hq, payloads_app, Hp, app_assoc.
      split_and!; [done|by rewrite app_nil_r|by apply (contiguous_flag _ _ (rs_conn s))|done].
    + unfold pending_ok. cbn. rewrite Hpk, Hl, Hcn. apply Hpend.
  - assert (run_inv data s0 out arr s1 k).
    { constructor; rewrite ?Hcn; try done; try apply sendable_nonneg.
      - unfold unread. by rewrite Hb, Hi.
      - exists qs. by rewrite Hs, Hi, Hn'.
      - unfold pending_ok. rewrite Hpk, Hl, Hcn. apply Hpend. }
    destruct Hx as [->| ->]; by intros [= <- <-].
Qed.

Lemma inv_poll_write out arr s k r s' :
  run_inv data s0 out arr s k → poll_write (drop k data) s = Some (r, s') →
  run_inv data s0 out arr s' (k + reported r).
Proof.
  intros I. unfold poll_write. destruct (drop k data) as [|x bs] eqn:Ed.
  { intros [= <- <-]. by rewrite Nat.add_0_r. }
  rewrite <- Ed. apply (write_loop_rule (λ s, run_inv data s0 out arr s k)
    (λ r s, run_inv data s0 out arr s (k + reported r))); try done.
  - intros. by eapply inv_ack.
  - intros. by eapply inv_recv.
  - intros s1 I1 _ Hp Hs. apply inv_build; [done..|by rewrite Ed|].
    pose proof (inv_sendable _ _ _ _ _ _ I1). lia.
  - intros. by eapply inv_send.
  - intros s1 r1 I1 ->. by rewrite Nat.add_0_r.
Qed.

Lemma inv_poll_read out arr s k n r s' buf :
  run_inv data s0 out arr s k → poll_read (read_buf_of n) s = Some (r, (s', buf)) →
  run_inv data s0 (out ++ filled buf) arr s' k.
Proof.
  intros I. apply (read_loop_rule (λ s b, run_inv data s0 (out ++ filled b) arr s k)).
  - intros. by eapply inv_ack.
  - intros. by eapply inv_recv.
  - intros. by apply inv_take.
  - cbn. by rewrite app_nil_r.
Qed.

(** The state a run starts in: nothing is half written. *)
Definition fresh_stream s : Prop :=
  write_packet s = None ∧ in_width 32 (sent_bytes (rs_conn s)) ∧
  (0 ≤ sendable_bytes (rs_conn s))%Z.

Lemma user_run_inv out arr s k :
  fresh_stream s0 → user_run data s0 out arr s k → run_inv data s0 out arr s k.
Proof.
  intros (Hp & Hw & Hs). induction 1.
  - constructor; try done.
    + by rewrite app_nil_r.
    + exists []. rewrite app_nil_r, take_0. cbn. split_and!; done || lia.
    + lia.
    + intros p Hp'. congruence.
  - by apply inv_arrive.
  - by eapply inv_poll_read.
  - by eapply inv_poll_write.
  - match goal with H : poll_flush _ = _ |- _ => by injection H as <- <- end.
  - by eapply inv_shutdown.
Qed.

End inv.

(** ** The loops end *)

Section termination.
Context {L : Type} {link : Link L} {plink : PollLink L} {laws : PollLinkLaws L}.
Implicit Types (s : RusbmuxStream L).

(** How many more rounds a read can take: one for each packet that has arrived and
    one for each ACK. *)
Definition read_rounds s : nat := 2 * length (link_inbox (rs_link s)) + Nat.b2n (need_ack s) + 1.

Lemma poll_read_loop_ends fuel s buf :
  read_rounds s ≤ fuel → ∃ r, poll_read_loop fuel s buf = Some r.
Proof.
  revert s buf. induction fuel as [|fuel IH]; intros s buf Hf; [unfold read_rounds in Hf; lia|].
  cbn [poll_read_loop]. unfold read_rounds in *. destruct (need_ack s) eqn:En.
  - destruct (poll_send_flag ACK s) as [[[e|[]]|] s1] eqn:E1; [by eexists| |by eexists].
    apply poll_send_flag_cases in E1 as (_ & _ & _ & Hi & [(_ & Hn & _)|([?|?] & _)]); [|done..].
    apply IH. rewrite Hi, Hn. cbn in *. lia.
  - destruct (rs_read_buf s) as [|x bs] eqn:Eb.
    + destruct (poll_recv s) as [[[e|[]]|] s1] eqn:E1; [by eexists| |by eexists].
      apply poll_recv_cases in E1 as (_ & _ & _ & _ & [(_ & Hn & p & Hi & _)|([?|?] & _)]); [|done..].
      apply IH. rewrite Hi in Hf. rewrite Hn. cbn in *. lia.
    + cbn zeta. destruct (put_slice_min (x :: bs) buf) as [H|H]; rewrite H; cbn [Nat.eqb negb andb];
        [by eexists|]. rewrite andb_false_r. by eexists.
Qed.

Definition write_rounds s : nat :=
  length (link_inbox (rs_link s)) + match write_packet s with Some _ => 1 | None => 2 end.

Lemma poll_write_loop_ends fuel buf s :
  write_rounds s ≤ fuel → ∃ r, poll_write_loop fuel buf s = Some r.
Proof.
  revert s. induction fuel as [|fuel IH]; intros s Hf;
    [unfold write_rounds in Hf; destruct (write_packet s); lia|].
  cbn [poll_write_loop]. unfold write_rounds in *.
  destruct (if need_ack s then poll_send_flag ACK s else (Ready (inr ()), s)) as [r1 s1] eqn:E1.
  assert (link_inbox (rs_link s1) = link_inbox (rs_link s) ∧ write_packet s1 = write_packet s) as [Hi Hp].
  { destruct (need_ack s); [|by simplify_eq].
    by apply poll_send_flag_cases in E1 as (_ & _ & ? & ? & _). }
  destruct r1 as [[e|[]]|]; [by eexists| |by eexists]. rewrite Hp.
  destruct (write_packet s) as [p|] eqn:Ep; [by eexists|].
  destruct (sendable_bytes (rs_conn s1) =? 0)%Z.
  - destruct (poll_recv s1) as [[[e|[]]|] s2] eqn:E2; [by eexists| |by eexists].
    apply poll_recv_cases in E2 as (_ & Hp2 & _ & _ & [(_ & _ & p & Hi2 & _)|([?|?] & _)]); [|done..].
    apply IH. rewrite Hp2, Hp. rewrite <- Hi, Hi2 in Hf. cbn in *. lia.
  - apply IH. cbn. rewrite Hi. lia.
Qed.

(** More fuel changes nothing. *)
Lemma poll_read_loop_mono fuel fuel' s buf r :
  fuel ≤ fuel' → poll_read_loop fuel s buf = Some r → poll_read_loop fuel' s buf = Some r.
Proof.
  revert fuel' s buf. induction fuel as [|fuel IH]; [done|].
  intros [|fuel'] s buf Hl; [lia|]. assert (fuel ≤ fuel') as Hl' by lia. cbn [poll_read_loop].
  destruct (need_ack s); [destruct (poll_send_flag ACK s) as [[[e|[]]|] s1]; by eauto|].
  destruct (rs_read_buf s); [destruct (poll_recv s) as [[[e|[]]|] s1]; by eauto|].
  cbn zeta. destruct (_ && _); by eauto.
Qed.

Lemma poll_write_loop_mono fuel fuel' buf s r :
  fuel ≤ fuel' → poll_write_loop fuel buf s = Some r → poll_write_loop fuel' buf s = Some r.
Proof.
  revert fuel' s. induction fuel as [|fuel IH]; [done|].
  intros [|fuel'] s Hl; [lia|]. assert (fuel ≤ fuel') as Hl' by lia. cbn [poll_write_loop].
  destruct (if need_ack s then _ else _) as [[[e|[]]|] s1]; [done| |done].
  destruct (write_packet s1); [done|]. destruct (_ =? 0)%Z; [|by eauto].
  destruct (poll_recv s1) as [[[e|[]]|] s2]; by eauto.
Qed.

(** C19.  A poll always returns: however many packets have arrived, empty ones
    included, the fuel of [poll_read] and [poll_write] is enough, and any larger
    amount gives the same result. *)
Theorem polls_terminate s buf bs fuel :
  (∃ r, poll_read buf s = Some r ∧ (read_fuel s ≤ fuel → poll_read_loop fuel s buf = Some r)) ∧
  (∃ r, poll_write bs s = Some r ∧
    (bs ≠ [] → write_fuel s ≤ fuel → poll_write_loop fuel bs s = Some r)).
Proof.
  split.
  - destruct (poll_read_loop_ends (read_fuel s) s buf) as [r Hr].
    { unfold read_rounds, read_fuel. destruct (need_ack s); cbn; lia. }
    exists r. split; [done|]. intros. by eapply poll_read_loop_mono.
  - unfold poll_write. destruct bs as [|b bs]; [by eexists|].
    destruct (poll_write_loop_ends (write_fuel s) (b :: bs) s) as [r Hr].
    { unfold write_rounds, write_fuel. destruct (write_packet s); lia. }
    exists r. split; [done|]. intros. by eapply poll_write_loop_mono.
Qed.

(** ** Progress *)

(** A read with room in its buffer that returns has put bytes there: the stream
    never reports an end of file. *)
Lemma read_loop_fills fuel s buf s' buf' :
  0 < remaining buf → poll_read_loop fuel s buf = Some (Ready (inr ()), (s', buf')) →
  length (filled buf) < length (filled buf').
Proof.
  intros Hb. revert s. induction fuel as [|fuel IH]; [done|]. intros s. cbn [poll_read_loop].
  destruct (need_ack s).
  - destruct (poll_send_flag ACK s) as [[[e|[]]|] s1]; [done|apply IH|done].
  - destruct (rs_read_buf s) as [|x bs].
    + destruct (poll_recv s) as [[[e|[]]|] s1]; [done|apply IH|done].
    + cbn zeta. destruct (put_slice_min (x :: bs) buf) as [H|H]; rewrite H; cbn [Nat.eqb negb andb];
        rewrite ?andb_false_r; injection 1 as _ <-;
        cbn [filled put_slice]; rewrite length_app, length_take; cbn [length]; destruct (remaining buf); lia.
Qed.

(** With room for the ACKs, a read returns as soon as there is a byte to return. *)
Lemma read_loop_ready fuel s buf :
  read_rounds s ≤ fuel →
  Nat.b2n (need_ack s) + length (link_inbox (rs_link s)) ≤ link_room (rs_link s) →
  unread s ≠ [] → ∃ s' buf', poll_read_loop fuel s buf = Some (Ready (inr ()), (s', buf')).
Proof.
  unfold read_rounds. revert s. induction fuel as [|fuel IH]; intros s Hf Hr Hu; [lia|].
  cbn [poll_read_loop]. destruct (need_ack s) eqn:En.
  - unfold poll_send_flag. destruct (link_room (rs_link s)) as [|n] eqn:Er; [cbn in Hr; lia|].
    destruct (poll_send_room (build_flag ACK (rs_conn s)) (rs_link s) n Er) as (l & E & Hn).
    pose proof (poll_send_spec _ _ _ _ E) as [Hi _]. rewrite E.
    apply IH; cbn in *; rewrite ?Hi, ?Hn; [lia|lia|].
    exact Hu.
  - destruct (rs_read_buf s) as [|x bs] eqn:Eb.
    + destruct (poll_recv s) as [r s1] eqn:E1.
      assert (link_room (rs_link s1) = link_room (rs_link s)) as Hroom.
      { unfold poll_recv in E1. pose proof (poll_item_room (rs_link s)).
        destruct (poll_item (rs_link s)) as [[[?|]|] ?]; by simplify_eq. }
      apply poll_recv_cases in E1 as (_ & _ & _ & Hu1 & [(-> & Hn & p & Hi & _)|(_ & _ & _ & _ & Hi & _)]).
      * apply IH; rewrite ?Hroom, ?Hn, ?Hu1; [rewrite Hi in Hf|rewrite Hi in Hr|done]; cbn in *; lia.
      * exfalso. apply Hu. unfold unread. by rewrite Eb, Hi.
    + cbn zeta. destruct (put_slice_min (x :: bs) buf) as [H|H]; rewrite H; cbn [Nat.eqb negb andb];
        rewrite ?andb_false_r; eauto.
Qed.

End termination.

(** ** The theorems about runs *)

Section theorems.
Context {L : Type} {link : Link L} {plink : PollLink L} {laws : PollLinkLaws L}.
Implicit Types (s : RusbmuxStream L).

(** C10.  However the stream is polled, given up and polled again, what its reads
    have returned, what it has buffered and what waits in the channel are together
    the payloads that were buffered or arrived, in order: reading loses nothing,
    errors included, and never reports an end of file. *)
Theorem stream_reads_exactly data s0 out arr s k :
  fresh_stream s0 → user_run data s0 out arr s k →
  unread s0 ++ payloads arr = out ++ unread s ∧
  ∀ n s' buf, 0 < n → poll_read (read_buf_of n) s = Some (Ready (inr ()), (s', buf)) → filled buf ≠ [].
Proof.
  intros Hf Hr. split; [by eapply inv_read, user_run_inv|].
  intros n s' buf Hn E Hnil. apply read_loop_fills in E; [|done]. rewrite Hnil in E. cbn in E. lia.
Qed.

(** C11.  When each write is offered the bytes that follow those reported as written, a
    pending one therefore the same bytes again, the packets queued for the device carry
    exactly the bytes the writes have reported, in order, and their sequence numbers count
    them without gap or overlap; a packet half sent holds the bytes that come next.  (A
    pending write that is given up for other bytes is sent all the same:
    [abandoned_write_sent].) *)
Theorem stream_writes_exactly data s0 out arr s k :
  fresh_stream s0 → user_run data s0 out arr s k →
  k ≤ length data ∧ pending_ok data k s ∧
  ∃ ps, link_sent (rs_link s) = link_sent (rs_link s0) ++ ps ∧ payloads ps = take k data ∧
    contiguous (rs_conn s0) (sent_bytes (rs_conn s0)) ps (sent_bytes (rs_conn s)).
Proof.
  intros Hf Hr. destruct (user_run_inv data s0 out arr s k Hf Hr) as [_ (ps & ? & ? & ? & _) ? ? ? ? ? ?].
  split_and!; [done|done|]. by exists ps.
Qed.

(** As long as the stream is not shut down every packet taken from the
    channel is acknowledged by one ACK of its own, the latest one possibly still to
    come: polling again neither repeats an ACK nor skips one. *)
Theorem stream_acks_each data s0 out arr s k :
  fresh_stream s0 → user_run data s0 out arr s k → dropped (rs_conn s) = false →
  ∃ ps, link_sent (rs_link s) = link_sent (rs_link s0) ++ ps ∧
    bare_acks ps + Nat.b2n (need_ack s) + length (link_inbox (rs_link s))
    = Nat.b2n (need_ack s0) + length (link_inbox (rs_link s0)) + length arr.
Proof.
  intros Hf Hr Hd. destruct (user_run_inv data s0 out arr s k Hf Hr) as [_ (ps & ? & _ & _ & H) ? ? ? ? ? ?].
  exists ps. auto.
Qed.

(** What a write sends next: the window as the ACK that is due leaves it. *)
Definition next_sendable s : Z :=
  sendable_bytes (if need_ack s then update_sendable_bytes (rs_conn s) else rs_conn s).

Lemma write_loop_sends fuel buf s l p :
  need_ack s = false → write_packet s = Some p → poll_send p (rs_link s) = (Sent, l) →
  ∃ s', poll_write_loop (S fuel) buf s = Some (Ready (inr (last_write_len s)), s').
Proof.
  intros Hn Hp E. cbn [poll_write_loop]. rewrite Hn, Hp. unfold poll_send_pending. cbn.
  rewrite E. by eexists.
Qed.

(** C20.  The polls do not wait without need.  When a byte has arrived and the queue has
    room for the ACKs, a read returns at least one byte at once; when the window is
    open and the queue has room, a write with nothing half sent sends as much as
    the window admits. *)
Theorem polls_make_progress s n buf :
  (0 < n → unread s ≠ [] →
   Nat.b2n (need_ack s) + length (link_inbox (rs_link s)) ≤ link_room (rs_link s) →
   ∃ s' b, poll_read (read_buf_of n) s = Some (Ready (inr ()), (s', b)) ∧ filled b ≠ []) ∧
  (buf ≠ [] → write_packet s = None → (0 < next_sendable s)%Z →
   Nat.b2n (need_ack s) + 1 ≤ link_room (rs_link s) →
   ∃ s', poll_write buf s
     = Some (Ready (inr (length buf `min` Z.to_nat (next_sendable s))), s')).
Proof.
  split.
  - intros Hn Hu Hr.
    destruct (read_loop_ready (read_fuel s) s (read_buf_of n)) as (s' & b & E); [|done..|].
    { unfold read_rounds, read_fuel. destruct (need_ack s); cbn; lia. }
    exists s', b. split; [done|]. intros Hnil. apply read_loop_fills in E; [|done].
    rewrite Hnil in E. cbn in E. lia.
  - intros Hb Hp Hs Hr. unfold poll_write, write_fuel. destruct buf as [|x bs]; [done|].
    rewrite (Nat.add_comm _ 3). cbn [Nat.add]. set (buf := x :: bs) in *.
    set (c := if need_ack s then update_sendable_bytes (rs_conn s) else rs_conn s).
    assert (∃ s1, (if need_ack s then poll_send_flag ACK s else (Ready (inr ()), s)) = (Ready (inr ()), s1)
      ∧ need_ack s1 = false ∧ write_packet s1 = None ∧ rs_conn s1 = c ∧ 1 ≤ link_room (rs_link s1))
      as (s1 & E1 & Hn1 & Hp1 & Hc1 & Hr1).
    { subst c. destruct (need_ack s) eqn:En; [|exists s; cbn in Hr; split_and!; try done; lia].
      unfold poll_send_flag. destruct (link_room (rs_link s)) as [|m] eqn:Em; [cbn in Hr; lia|].
      destruct (poll_send_room (build_flag ACK (rs_conn s)) (rs_link s) m Em) as (l & -> & Hl).
      eexists. split; [done|]. cbn in *. split_and!; try done. lia. }
    remember (S (S (length (link_inbox (rs_link s))))) as f eqn:Ef. cbn [poll_write_loop]. rewrite E1, Hp1, Hc1. unfold next_sendable in *.
    fold c in Hs |- *. destruct (sendable_bytes c =? 0)%Z eqn:Ez; [apply Z.eqb_eq in Ez; lia|]. subst f.
    destruct (link_room (rs_link s1)) as [|m] eqn:Em; [lia|].
    set (w := build_data _ c). destruct (poll_send_room w (rs_link s1) m Em) as (l & E & _).
    destruct (write_loop_sends (S (length (link_inbox (rs_link s)))) buf
      (set_write (length buf `min` Z.to_nat (sendable_bytes c)) (Some w) s1) l w) as [s' Hs']; try done.
    by exists s'.
Qed.

(** A write that was given up while its packet waited is not undone: the next
    write, whatever it offers, sends that packet and reports its length, also when
    that is more than was offered. *)
Theorem abandoned_write_sent s p buf l :
  write_packet s = Some p → need_ack s = false → buf ≠ [] →
  poll_send p (rs_link s) = (Sent, l) →
  ∃ s', poll_write buf s = Some (Ready (inr (last_write_len s)), s') ∧
    link_sent (rs_link s') = link_sent (rs_link s) ++ [p].
Proof.
  intros Hp Hn Hb E. destruct buf as [|b buf]; [done|]. unfold poll_write, write_fuel.
  rewrite Nat.add_comm. cbn [poll_write_loop Nat.add]. rewrite Hn, Hp.
  unfold poll_send_pending. cbn. rewrite E. eexists. split; [done|]. cbn.
  apply poll_send_spec in E as [_ ->]. done.
Qed.

End theorems.
