(* ===== verification/Backend.v ===== *)
(** * USB devices as the backends see them ([src/usb_backend/mod.rs],
    [src/usb_backend/nusb.rs], [src/usb_backend/rusb/mod.rs], [src/utils.rs])

    What is read off a device before it is opened (its udid, speed and place on the
    bus), and how each backend finds the usbmux interface in the device's
    descriptors and claims it.  The [nusb] and [rusb] crates give descriptors and
    take commands; a handle logs the commands and scripts which are refused. *)

From Stdlib Require Import Strings.Ascii.
From S2P Require Import Prelude Text Io Errors Conn.

(** ** Identity and speed *)

Definition APPLE_VID : Z := 0x5ac.
Definition APPLE_USBMUX_CLASS : Z := 255.
Definition APPLE_USBMUX_SUBCLASS : Z := 254.
Definition APPLE_USBMUX_PROTOCOL : Z := 2.

(** [nusb::Speed] and [rusb::Speed] *)
Inductive Speed : Type := Low | Full | High | Super | SuperPlus | UnknownSpeed.

Definition nusb_speed_to_number (speed : Speed) : Z :=
  match speed with
  | Low => 1500000
  | Full => 12000000
  | High => 480000000
  | Super => 5000000000
  | SuperPlus => 10000000000
  | UnknownSpeed => 0
  end.

Definition rusb_speed_to_number (speed : Speed) : Z :=
  match speed with
  | Low => 1500000
  | Full => 12000000
  | High => 480000000
  | Super => 5000000000
  | SuperPlus => 10000000000
  | UnknownSpeed => 0
  end.

(** A 24-character serial number gets a dash after its eighth byte. *)
Definition to_udid (serial_number : string) : outcome Empty_set string :=
  if String.length serial_number =? 24 then
    let? parts := str_split_at 8 serial_number in
    Ok (parts.1 +:+ "-" +:+ parts.2)
  else Ok serial_number.

Definition to_udid_owned (serial_number : string) : outcome Empty_set string :=
  if String.length serial_number =? 24 then
    let? parts := str_split_at 8 serial_number in
    Ok (parts.1 +:+ "-" +:+ parts.2)
  else Ok serial_number.

(** [nusb::DeviceInfo]; [ni_id_hash] is the [DefaultHasher] hash of its id. *)
Record NusbInfo : Type := MkNusbInfo {
  ni_vendor_id : Z;
  ni_product_id : Z;
  ni_serial_number : option string;
  ni_speed : option Speed;
  ni_busnum : Z;
  ni_device_address : Z;
  ni_id_hash : Z;
}.

(** [rusb::Device]: the vendor and product of its descriptor, if that can be read,
    and what opening it and reading its strings gives. *)
Record RusbDevice : Type := MkRusbDevice {
  rd_descriptor : option (Z * Z);
  rd_opens : bool;
  rd_languages : option (list Z);
  rd_serial_string : Z → option string;
  rd_speed : Speed;
  rd_bus_number : Z;
  rd_address : Z;
}.

Inductive AnyDeviceInfo : Type := Nusb (info : NusbInfo) | Rusb (dev : RusbDevice).

(** [s.trim_matches('\0')] *)
Definition trim_nul (s : string) : string :=
  let ws := [[ascii_of_code 0]] in
  let l := String.list_ascii_of_string s in
  let l := strip_all (length l) ws l in
  String.string_of_list_ascii (reverse (strip_all (length l) ws (reverse l))).

Definition get_serial_number (device : RusbDevice) : option string :=
  if rd_opens device then
    languages ← rd_languages device;
    lang ← head languages;
    trim_nul <$> rd_serial_string device lang
  else None.

(** [rusb::opaque_id] *)
Definition rusb_opaque_id (device : RusbDevice) : Z :=
  Z.lor (Z.shiftl (rd_bus_number device) 8) (rd_address device).

(** [dev.device_descriptor().expect("shouldn't fail")] *)
Definition expect_descriptor (dev : RusbDevice) : outcome Empty_set (Z * Z) :=
  match rd_descriptor dev with Some desc => Ok desc | None => Panic end.

Definition vendor_id (info : AnyDeviceInfo) : outcome Empty_set Z :=
  match info with
  | Nusb i => Ok (ni_vendor_id i)
  | Rusb d => let? desc := expect_descriptor d in Ok desc.1
  end.

Definition product_id (info : AnyDeviceInfo) : outcome Empty_set Z :=
  match info with
  | Nusb i => Ok (ni_product_id i)
  | Rusb d => let? desc := expect_descriptor d in Ok desc.2
  end.

Definition udid (info : AnyDeviceInfo) : outcome Empty_set (option string) :=
  match info with
  | Nusb i =>
      match ni_serial_number i with
      | Some s => let? u := to_udid s in Ok (Some u)
      | None => Ok None
      end
  | Rusb d =>
      let? _ := expect_descriptor d in
      match get_serial_number d with
      | Some s => let? u := to_udid_owned s in Ok (Some u)
      | None => Ok None
      end
  end.

Definition speed (info : AnyDeviceInfo) : option Z :=
  match info with
  | Nusb i => nusb_speed_to_number <$> ni_speed i
  | Rusb d =>
      match rd_speed d with
      | UnknownSpeed => None
      | s => Some (rusb_speed_to_number s)
      end
  end.

(** On Linux *)
Definition location_id (info : AnyDeviceInfo) : Z :=
  match info with
  | Nusb i => Z.lor (Z.shiftl (ni_busnum i) 16) (ni_device_address i)
  | Rusb d => Z.lor (Z.shiftl (rd_bus_number d) 16) (rd_address d)
  end.

Definition bus_number (info : AnyDeviceInfo) : Z :=
  match info with Nusb i => ni_busnum i | Rusb d => rd_bus_number d end.

Definition device_address (info : AnyDeviceInfo) : Z :=
  match info with Nusb i => ni_device_address i | Rusb d => rd_address d end.

Definition opaque_id (info : AnyDeviceInfo) : Z :=
  match info with Nusb i => ni_id_hash i | Rusb d => rusb_opaque_id d end.

(** ** Descriptors and commands *)

Inductive Direction : Type := In | Out.
Inductive TransferType : Type := Bulk | OtherTransfer.

Record Endpoint : Type := MkEndpoint {
  ep_address : Z;
  ep_direction : Direction;
  ep_transfer_type : TransferType;
  ep_max_packet_size : Z;
}.

Record AltSetting : Type := MkAltSetting {
  interface_number : Z;
  alternate_setting : Z;
  alt_class : Z;
  alt_subclass : Z;
  alt_protocol : Z;
  endpoints : list Endpoint;
}.

(** A configuration's interfaces, each with its alternate settings *)
Record Configuration : Type := MkConfiguration {
  configuration_value : Z;
  interfaces : list (list AltSetting);
}.

Inductive UsbCommand : Type :=
| DetachKernelDriver (interface : Z)
| SetConfiguration (configuration : Z)
| ClaimInterface (interface : Z)
| OpenEndpoint (address : Z).

(** An open device: the active configuration, if it can be read; which commands it
    refuses, with the error's text; the commands given so far. *)
Record UsbHandle : Type := MkUsbHandle {
  active_configuration : option Z;
  refuses : UsbCommand → option string;
  commands : list UsbCommand;
}.

Definition usb_do (c : UsbCommand) : stateful UsbHandle string () := λ h,
  (match refuses h c with Some e => Err e | None => Ok () end,
   MkUsbHandle (active_configuration h) (refuses h) (commands h ++ [c])).

(** A command whose failure is only logged *)
Definition usb_try (c : UsbCommand) : stateful UsbHandle RusbmuxError.t () := λ h,
  (Ok (), (usb_do c h).2).

Definition is_usbmux (alt : AltSetting) : bool :=
  (alt_class alt =? APPLE_USBMUX_CLASS)%Z && (alt_subclass alt =? APPLE_USBMUX_SUBCLASS)%Z
  && (alt_protocol alt =? APPLE_USBMUX_PROTOCOL)%Z.

Definition is_direction (d : Direction) (ep : Endpoint) : bool :=
  match ep_direction ep, d with In, In | Out, Out => true | _, _ => false end.

Definition is_bulk (ep : Endpoint) : bool :=
  match ep_transfer_type ep with Bulk => true | OtherTransfer => false end.

Definition interface_alt_settings (cfg : Configuration) : list AltSetting :=
  concat (interfaces cfg).

(** ** [nusb::device_endpoints] *)

(** An endpoint opened for reading or writing: the size of its buffers and how many
    transfers it keeps in flight. *)
Record EndpointIo : Type := MkEndpointIo {
  io_address : Z;
  io_buffer_size : Z;
  io_num_transfers : nat;
}.

(** The [find_map] over the configurations, last one first *)
Fixpoint find_interface (cfgs : list Configuration) : option (Configuration * AltSetting * Z) :=
  match cfgs with
  | [] => None
  | cfg :: cfgs =>
      match find is_usbmux (interface_alt_settings cfg) with
      | Some intf => Some (cfg, intf, configuration_value cfg)
      | None => find_interface cfgs
      end
  end.

Fixpoint detach_all (alts : list AltSetting) : stateful UsbHandle RusbmuxError.t () :=
  match alts with
  | [] => st_ret ()
  | intf :: alts =>
      if negb (alternate_setting intf =? 0)%Z then detach_all alts
      else
        let! _ := usb_try (DetachKernelDriver (interface_number intf)) in
        detach_all alts
  end.

Definition nusb_do (c : UsbCommand) : stateful UsbHandle RusbmuxError.t () :=
  st_map_err RusbmuxError.USB (usb_do c).

Definition nusb_device_endpoints (configurations : list Configuration)
  : stateful UsbHandle RusbmuxError.t (EndpointIo * EndpointIo) :=
  let! dev := st_get in
  let current_cfg := default 0%Z (active_configuration dev) in
  let! found := st_lift
    (ok_or RusbmuxError.UsbmuxInterfaceNotFound (find_interface (reverse configurations))) in
  let '(cfg, interface_descriptor, intf_cfg_num) := found in
  let! _ :=
    if negb (intf_cfg_num =? current_cfg)%Z || (current_cfg =? 0)%Z then
      let! _ := detach_all (interface_alt_settings cfg) in
      nusb_do (SetConfiguration intf_cfg_num)
    else st_ret () in
  let! _ := nusb_do (ClaimInterface (interface_number interface_descriptor)) in
  let! end_out := st_lift (ok_or RusbmuxError.BulkOutEndpointNotFound
    (find (λ ep, is_direction Out ep && is_bulk ep) (endpoints interface_descriptor))) in
  let! end_in := st_lift (ok_or RusbmuxError.BulkInEndpointNotFound
    (find (λ ep, is_direction In ep && is_bulk ep) (endpoints interface_descriptor))) in
  let! _ := nusb_do (OpenEndpoint (ep_address end_in)) in
  let! _ := nusb_do (OpenEndpoint (ep_address end_out)) in
  st_ret (MkEndpointIo (ep_address end_in) (MAX_PACKET_SIZE * 2) 3,
          MkEndpointIo (ep_address end_out) MAX_PACKET_SIZE 3).

(** ** [rusb::device_endpoints] *)

(** The variables of the search *)
Record Found : Type := MkFound {
  found_intf : option Z;
  found_cfg_num : option Z;
  in_addr : option Z;
  out_addr : option Z;
  out_max_packet_size : option Z;
}.

Definition nothing_found : Found := MkFound None None None None None.

Definition note_endpoint (f : Found) (ep : Endpoint) : Found :=
  match ep_direction ep with
  | In => MkFound (found_intf f) (found_cfg_num f) (Some (ep_address ep)) (out_addr f)
            (out_max_packet_size f)
  | Out => MkFound (found_intf f) (found_cfg_num f) (in_addr f) (Some (ep_address ep))
             (Some (ep_max_packet_size ep))
  end.

(** The loop over an interface's alternate settings, left at the first match *)
Fixpoint search_alts (cfg_num : Z) (alts : list AltSetting) (f : Found) : Found :=
  match alts with
  | [] => f
  | alt :: alts =>
      if is_usbmux alt then
        fold_left note_endpoint (endpoints alt)
          (MkFound (Some (interface_number alt)) (Some cfg_num) (in_addr f) (out_addr f)
             (out_max_packet_size f))
      else search_alts cfg_num alts f
  end.

Definition search_config (f : Found) (cfg : Configuration) : Found :=
  fold_left (λ f alts, search_alts (configuration_value cfg) alts f) (interfaces cfg) f.

(** The descriptors are read one by one; the first that cannot be read ends the
    search. *)
Fixpoint search_configs (cfgs : list (string + Configuration)) (f : Found)
  : outcome RusbmuxError.t Found :=
  match cfgs with
  | [] => Ok f
  | inl e :: _ => Err (RusbmuxError.RusbError e)
  | inr cfg :: cfgs => search_configs cfgs (search_config f cfg)
  end.

Definition rusb_do (c : UsbCommand) : stateful UsbHandle RusbmuxError.t () :=
  st_map_err RusbmuxError.RusbError (usb_do c).

(** The addresses in and out, and the packet size out *)
Definition rusb_device_endpoints (cfgs : list (string + Configuration))
  : stateful UsbHandle RusbmuxError.t (Z * Z * Z) :=
  let! f := st_lift (search_configs cfgs nothing_found) in
  let! intf_num := st_lift (ok_or RusbmuxError.UsbmuxInterfaceNotFound (found_intf f)) in
  let cfg_num := default 1%Z (found_cfg_num f) in
  let! end_in := st_lift (ok_or RusbmuxError.BulkInEndpointNotFound (in_addr f)) in
  let! end_out := st_lift (ok_or RusbmuxError.BulkOutEndpointNotFound (out_addr f)) in
  let max_packet_size := default 512%Z (out_max_packet_size f) in
  let! handle := st_get in
  let active_cfg := default 0%Z (active_configuration handle) in
  let! _ :=
    if negb (cfg_num =? active_cfg)%Z || (active_cfg =? 0)%Z then
      let! _ := usb_try (DetachKernelDriver intf_num) in
      rusb_do (SetConfiguration cfg_num)
    else st_ret () in
  let! _ := rusb_do (ClaimInterface intf_num) in
  st_ret (end_in, end_out, max_packet_size).

(** ** Specification *)

(** The places where a device offers the usbmux interface. *)
Definition usbmux_alts (cfgs : list Configuration) : list (Z * AltSetting) :=
  cfgs ≫= λ cfg, interface_alt_settings cfg ≫= λ alt,
    if is_usbmux alt then [(configuration_value cfg, alt)] else [].

Definition endpoints_of (d : Direction) (alt : AltSetting) : list Endpoint :=
  filter (λ ep, is_direction d ep = true) (endpoints alt).

(** A device with one usbmux interface that has one endpoint each way, both bulk. *)
Definition plain_device (cfgs : list Configuration) (cfg_num : Z) (alt : AltSetting)
    (ep_in ep_out : Endpoint) : Prop :=
  usbmux_alts cfgs = [(cfg_num, alt)] ∧
  endpoints_of In alt = [ep_in] ∧ endpoints_of Out alt = [ep_out] ∧
  is_bulk ep_in = true ∧ is_bulk ep_out = true.

(** The commands that detach the kernel from every interface, in its first setting. *)
Definition detaches (alts : list AltSetting) : list UsbCommand :=
  (λ alt, DetachKernelDriver (interface_number alt)) <$> filter (λ alt, alternate_setting alt = 0%Z) alts.

(** The handle after the commands [cs]. *)
Definition after_commands (cs : list UsbCommand) (h : UsbHandle) : UsbHandle :=
  MkUsbHandle (active_configuration h) (refuses h) (commands h ++ cs).

(** Whether the configuration is changed *)
Definition switches (cfg_num : Z) (h : UsbHandle) : bool :=
  let active := default 0%Z (active_configuration h) in
  negb (cfg_num =? active)%Z || (active =? 0)%Z.

(** ** Lemmas *)

Lemma usb_do_eq c h :
  usb_do c h = (match refuses h c with Some e => Err e | None => Ok () end, after_commands [c] h).
Proof. done. Qed.

Lemma after_commands_app cs cs' h :
  after_commands cs' (after_commands cs h) = after_commands (cs ++ cs') h.
Proof. unfold after_commands. cbn. by rewrite app_assoc. Qed.

Lemma detach_all_eq alts h : detach_all alts h = (Ok (), after_commands (detaches alts) h).
Proof.
  unfold detaches. revert h. induction alts as [|alt alts IH]; intros h; cbn [detach_all].
  - unfold after_commands, st_ret. cbn. rewrite app_nil_r. by destruct h.
  - rewrite filter_cons. case_decide as H.
    + rewrite (proj2 (Z.eqb_eq _ _) H). cbn [negb]. unfold st_bind, usb_try. rewrite usb_do_eq. cbn [snd].
      by rewrite IH, after_commands_app.
    + rewrite (proj2 (Z.eqb_neq _ _) H). cbn [negb]. apply IH.
Qed.

(** The first match of each configuration is the only one. *)
Lemma usbmux_alts_find cfg :
  find is_usbmux (interface_alt_settings cfg)
  = snd <$> head (usbmux_alts [cfg]).
Proof.
  unfold usbmux_alts. cbn [mbind list_bind]. rewrite app_nil_r.
  induction (interface_alt_settings cfg) as [|alt alts IH]; [done|]. cbn.
  destruct (is_usbmux alt); [done|]. exact IH.
Qed.

Lemma usbmux_alts_cons cfg cfgs : usbmux_alts (cfg :: cfgs) = usbmux_alts [cfg] ++ usbmux_alts cfgs.
Proof. apply (bind_app _ [cfg] cfgs). Qed.

Lemma usbmux_alts_app cfgs cfgs' : usbmux_alts (cfgs ++ cfgs') = usbmux_alts cfgs ++ usbmux_alts cfgs'.
Proof. apply bind_app. Qed.

Lemma usbmux_alts_value cfg n alt : (n, alt) ∈ usbmux_alts [cfg] → n = configuration_value cfg.
Proof.
  unfold usbmux_alts. intros H. apply list_elem_of_bind in H as (c & H & ->%list_elem_of_singleton).
  apply list_elem_of_bind in H as (a & H & _). destruct (is_usbmux a); [|by inversion H].
  apply list_elem_of_singleton in H. by simplify_eq.
Qed.

Lemma find_interface_unique cfgs n alt :
  usbmux_alts cfgs = [(n, alt)] → ∃ cfg, find_interface cfgs = Some (cfg, alt, n) ∧ cfg ∈ cfgs ∧
    configuration_value cfg = n ∧ alt ∈ interface_alt_settings cfg.
Proof.
  induction cfgs as [|cfg cfgs IH]; [done|]. rewrite usbmux_alts_cons. intros H. cbn [find_interface].
  pose proof (usbmux_alts_value cfg) as Hv.
  destruct (find is_usbmux (interface_alt_settings cfg)) as [a|] eqn:Ef; pose proof Ef as Ea;
    rewrite usbmux_alts_find in Ef; destruct (usbmux_alts [cfg]) as [|[m a'] l]; try done; cbn in *; simplify_eq.
  - specialize (Hv n alt ltac:(left)) as ->. exists cfg. split_and!; [done|by left|done|].
    by apply find_some in Ea as [?%list_elem_of_In _].
  - destruct (IH H) as (cfg' & Hf & Hin & Hc). exists cfg'. split_and!; [done|by right|apply Hc..].
Qed.

Lemma usbmux_alts_reverse cfgs x : usbmux_alts cfgs = [x] → usbmux_alts (reverse cfgs) = [x].
Proof.
  induction cfgs as [|cfg cfgs IH]; [done|]. rewrite usbmux_alts_cons, reverse_cons, usbmux_alts_app.
  intros H. apply app_eq_unit in H as [[H1 H2]|[H1 H2]].
  - rewrite H1, app_nil_r. by apply IH.
  - rewrite H1. assert (usbmux_alts (reverse cfgs) = []) as ->; [|done].
    clear IH H1. induction cfgs as [|c cfgs IH]; [done|]. rewrite usbmux_alts_cons in H2.
    apply app_eq_nil in H2 as [H1 H2]. rewrite reverse_cons, usbmux_alts_app, IH, H1; done.
Qed.

(** The search of [rusb] skips interfaces without a match. *)
Lemma search_alts_eq n alts f :
  search_alts n alts f =
  match find is_usbmux alts with
  | Some alt => fold_left note_endpoint (endpoints alt)
      (MkFound (Some (interface_number alt)) (Some n) (in_addr f) (out_addr f) (out_max_packet_size f))
  | None => f
  end.
Proof. induction alts as [|alt alts IH]; [done|]. cbn. by destruct (is_usbmux alt). Qed.

Lemma find_app {A} (f : A → bool) l k :
  find f (l ++ k) = match find f l with Some x => Some x | None => find f k end.
Proof. induction l as [|x l IH]; [done|]. cbn. by destruct (f x). Qed.

(** One alternate setting at most: the search over interfaces is the one over all
    alternate settings. *)
Lemma search_interfaces n ifs f :
  length (filter (λ a, is_usbmux a = true) (concat ifs)) ≤ 1 →
  fold_left (λ f alts, search_alts n alts f) ifs f = search_alts n (concat ifs) f.
Proof.
  revert f. induction ifs as [|alts ifs IH]; intros f H; [done|]. cbn in *.
  rewrite list.filter_app, length_app in H. rewrite IH by lia. rewrite !search_alts_eq, find_app.
  destruct (find is_usbmux alts) as [alt|] eqn:E; [|done].
  destruct (find is_usbmux (concat ifs)) as [alt'|] eqn:E'; [|done].
  apply find_some in E as [Hi Hu], E' as [Hi' Hu']. exfalso.
  assert (alt ∈ filter (λ a, is_usbmux a = true) alts) as H1
    by (apply list_elem_of_filter; split; [done|by apply list_elem_of_In]).
  assert (alt' ∈ filter (λ a, is_usbmux a = true) (concat ifs)) as H2
    by (apply list_elem_of_filter; split; [done|by apply list_elem_of_In]).
  destruct (filter _ alts); [by inversion H1|]. destruct (filter _ (concat ifs)); [by inversion H2|].
  cbn in H. lia.
Qed.

Lemma usbmux_alts_one cfg :
  usbmux_alts [cfg]
  = (λ a, (configuration_value cfg, a)) <$> filter (λ a, is_usbmux a = true) (interface_alt_settings cfg).
Proof.
  unfold usbmux_alts. cbn [mbind list_bind]. rewrite app_nil_r.
  induction (interface_alt_settings cfg) as [|alt alts IH]; [done|]. cbn [list_bind mbind].
  destruct (is_usbmux alt) eqn:E; [rewrite list.filter_cons_True by done|
    rewrite list.filter_cons_False by by rewrite E].
  - cbn. f_equal. exact IH.
  - exact IH.
Qed.

Lemma search_config_eq f cfg :
  length (usbmux_alts [cfg]) ≤ 1 →
  search_config f cfg
  = search_alts (configuration_value cfg) (interface_alt_settings cfg) f.
Proof. rewrite usbmux_alts_one, length_fmap. intros H. by apply search_interfaces. Qed.

Lemma search_config_none f cfg : usbmux_alts [cfg] = [] → search_config f cfg = f.
Proof.
  intros H. rewrite search_config_eq by (rewrite H; cbn; lia).
  by rewrite search_alts_eq, usbmux_alts_find, H.
Qed.

Lemma search_configs_none cfgs f : usbmux_alts cfgs = [] → search_configs (inr <$> cfgs) f = Ok f.
Proof.
  revert f. induction cfgs as [|cfg cfgs IH]; [done|]. intros f H. rewrite usbmux_alts_cons in H.
  apply app_eq_nil in H as [H1 H2]. cbn. rewrite search_config_none by done. by apply IH.
Qed.

Lemma search_configs_unique cfgs f n alt :
  usbmux_alts cfgs = [(n, alt)] →
  search_configs (inr <$> cfgs) f
  = Ok (fold_left note_endpoint (endpoints alt)
          (MkFound (Some (interface_number alt)) (Some n) (in_addr f) (out_addr f) (out_max_packet_size f))).
Proof.
  revert f. induction cfgs as [|cfg cfgs IH]; [done|]. intros f H. rewrite usbmux_alts_cons in H.
  apply app_eq_unit in H as [[H1 H2]|[H1 H2]]; cbn [fmap list_fmap search_configs].
  - rewrite search_config_none by done. by apply IH.
  - rewrite search_configs_none by done. rewrite search_config_eq by (rewrite H1; cbn; lia).
    rewrite search_alts_eq, usbmux_alts_find, H1. cbn.
    rewrite <- (usbmux_alts_value cfg n alt) by (rewrite H1; by left). done.
Qed.

(** Of each direction the last endpoint is kept. *)
Lemma note_endpoints eps f :
  fold_left note_endpoint eps f
  = MkFound (found_intf f) (found_cfg_num f)
      (match list.last (filter (λ ep, is_direction In ep = true) eps) with
       | Some ep => Some (ep_address ep) | None => in_addr f end)
      (match list.last (filter (λ ep, is_direction Out ep = true) eps) with
       | Some ep => Some (ep_address ep) | None => out_addr f end)
      (match list.last (filter (λ ep, is_direction Out ep = true) eps) with
       | Some ep => Some (ep_max_packet_size ep) | None => out_max_packet_size f end).
Proof.
  revert f. induction eps as [|ep eps IH]; intros f; [by destruct f|]. cbn [fold_left]. rewrite IH.
  unfold note_endpoint. destruct (ep_direction ep) eqn:E.
  - rewrite (list.filter_cons_True (λ ep, is_direction In ep = true)) by (unfold is_direction; by rewrite E).
    rewrite (list.filter_cons_False (λ ep, is_direction Out ep = true)) by (unfold is_direction; by rewrite E).
    rewrite list.last_cons. cbn. by destruct (list.last (filter (λ ep, is_direction In ep = true) eps)).
  - rewrite (list.filter_cons_False (λ ep, is_direction In ep = true)) by (unfold is_direction; by rewrite E).
    rewrite (list.filter_cons_True (λ ep, is_direction Out ep = true)) by (unfold is_direction; by rewrite E).
    rewrite list.last_cons. cbn. by destruct (list.last (filter (λ ep, is_direction Out ep = true) eps)).
Qed.

(** The only endpoint of a direction is the first bulk one. *)
Lemma find_endpoint d eps ep :
  filter (λ ep, is_direction d ep = true) eps = [ep] → is_bulk ep = true →
  find (λ ep, is_direction d ep && is_bulk ep) eps = Some ep.
Proof.
  intros H Hb. induction eps as [|e eps IH]; [done|]. cbn. destruct (is_direction d e) eqn:E.
  - rewrite list.filter_cons_True in H by done. injection H as -> _. by rewrite Hb.
  - rewrite list.filter_cons_False in H by by rewrite E. by apply IH.
Qed.

(** *** A plain device and a handle that refuses nothing *)

Lemma granted h :
  (∀ c, refuses h c = None) →
  ∀ c cs, nusb_do c (after_commands cs h) = (Ok (), after_commands (cs ++ [c]) h) ∧
          rusb_do c (after_commands cs h) = (Ok (), after_commands (cs ++ [c]) h).
Proof.
  intros Hr c cs. unfold nusb_do, rusb_do, st_map_err.
  rewrite usb_do_eq, after_commands_app. cbn. by rewrite Hr.
Qed.

Lemma after_no_commands h : after_commands [] h = h.
Proof. unfold after_commands. rewrite app_nil_r. by destruct h. Qed.

(** The command that sets the configuration, if it has to be changed. *)
Abbreviation set_cfg n h := (if switches n h then [SetConfiguration n] else []).

Lemma nusb_plain cfgs n alt ep_in ep_out h :
  plain_device cfgs n alt ep_in ep_out → (∀ c, refuses h c = None) →
  ∃ cfg, cfg ∈ cfgs ∧ configuration_value cfg = n ∧ alt ∈ interface_alt_settings cfg ∧
  nusb_device_endpoints cfgs h =
    (Ok (MkEndpointIo (ep_address ep_in) (MAX_PACKET_SIZE * 2) 3, MkEndpointIo (ep_address ep_out) MAX_PACKET_SIZE 3),
     after_commands ((if switches n h then detaches (interface_alt_settings cfg) else []) ++ set_cfg n h ++
       [ClaimInterface (interface_number alt); OpenEndpoint (ep_address ep_in); OpenEndpoint (ep_address ep_out)]) h).
Proof.
  intros (Hu & Hin & Hout & Hbi & Hbo) Hr. pose proof (granted h Hr) as Hdo.
  destruct (find_interface_unique _ _ _ (usbmux_alts_reverse _ _ Hu)) as (cfg & Hf & Hcfg & Hval & Halt).
  exists cfg. split; [by apply elem_of_reverse in Hcfg; rewrite reverse_involutive in Hcfg|]. split; [exact Hval|]. split; [exact Halt|].
  set (ds := detaches (interface_alt_settings cfg)). pose proof (detach_all_eq (interface_alt_settings cfg) h) as Hd. fold ds in Hd.
  unfold nusb_device_endpoints. rewrite (st_bind_eq _ _ h h h) by done.
  rewrite Hf. cbn [ok_or]. rewrite (st_bind_eq _ _ h _ h) by done. cbn match. fold (switches n h).
  rewrite (st_bind_eq _ _ h () (after_commands ((if switches n h then ds else []) ++ set_cfg n h) h)).
  2:{ destruct (switches n h); [|unfold st_ret; by rewrite after_no_commands].
      rewrite (st_bind_eq _ _ _ _ _ Hd). apply Hdo. }
  rewrite (st_bind_eq _ _ _ _ _ (proj1 (Hdo _ _))).
  unfold endpoints_of in *. rewrite (find_endpoint Out _ ep_out), (find_endpoint In _ ep_in) by done.
  cbn [ok_or]. rewrite (st_bind_eq _ _ _ ep_out _) by done. rewrite (st_bind_eq _ _ _ ep_in _) by done.
  rewrite (st_bind_eq _ _ _ _ _ (proj1 (Hdo _ _))), (st_bind_eq _ _ _ _ _ (proj1 (Hdo _ _))).
  unfold st_ret. by rewrite <- !app_assoc.
Qed.

Lemma rusb_plain cfgs n alt ep_in ep_out h :
  plain_device cfgs n alt ep_in ep_out → (∀ c, refuses h c = None) →
  rusb_device_endpoints (inr <$> cfgs) h =
    (Ok (ep_address ep_in, ep_address ep_out, ep_max_packet_size ep_out),
     after_commands ((if switches n h then [DetachKernelDriver (interface_number alt)] else []) ++
       set_cfg n h ++ [ClaimInterface (interface_number alt)]) h).
Proof.
  intros (Hu & Hin & Hout & Hbi & Hbo) Hr. pose proof (granted h Hr) as Hdo.
  unfold rusb_device_endpoints. rewrite (search_configs_unique _ _ _ _ Hu).
  rewrite note_endpoints. unfold endpoints_of in *. rewrite Hin, Hout. cbn [list.last nothing_found].
  rewrite (st_bind_eq _ _ h _ h) by done. cbn [found_intf found_cfg_num in_addr out_addr ok_or out_max_packet_size].
  change (default 1%Z (Some n)) with n.
  do 3 rewrite (st_bind_eq _ _ h _ h) by done. rewrite (st_bind_eq _ _ h h h) by done. fold (switches n h).
  rewrite (st_bind_eq _ _ h () (after_commands
    ((if switches n h then [DetachKernelDriver (interface_number alt)] else []) ++ set_cfg n h) h)).
  2:{ destruct (switches n h); [|unfold st_ret; by rewrite after_no_commands].
      rewrite (st_bind_eq _ _ h () (after_commands [DetachKernelDriver (interface_number alt)] h)) by done.
      apply Hdo. }
  rewrite (st_bind_eq _ _ _ _ _ (proj2 (Hdo _ _))). unfold st_ret. by rewrite <- !app_assoc.
Qed.

(** ** Properties *)

(** C29.  The two backends agree on a plain device.  With a handle that refuses nothing
    both find the same interface and endpoints, set the configuration of the interface in
    the same cases and claim the same interface, in this order.  They differ in what comes
    before and after: before the configuration is changed nusb detaches the kernel from
    every interface of the configuration and rusb from the usbmux interface only, and at the
    end nusb opens the two endpoints. *)
Theorem endpoints_agree cfgs n alt ep_in ep_out h :
  plain_device cfgs n alt ep_in ep_out → (∀ c, refuses h c = None) →
  ∃ r w h1 h2,
    nusb_device_endpoints cfgs h = (Ok (r, w), h1) ∧
    rusb_device_endpoints (inr <$> cfgs) h
      = (Ok (io_address r, io_address w, ep_max_packet_size ep_out), h2) ∧
    io_address r = ep_address ep_in ∧ io_address w = ep_address ep_out ∧
    ∃ cfg, cfg ∈ cfgs ∧ configuration_value cfg = n ∧ alt ∈ interface_alt_settings cfg ∧
      commands h1 = commands h ++ (if switches n h
          then detaches (interface_alt_settings cfg) ++ [SetConfiguration n] else [])
        ++ [ClaimInterface (interface_number alt); OpenEndpoint (ep_address ep_in); OpenEndpoint (ep_address ep_out)] ∧
      commands h2 = commands h ++ (if switches n h
          then [DetachKernelDriver (interface_number alt); SetConfiguration n] else [])
        ++ [ClaimInterface (interface_number alt)].
Proof.
  intros Hp Hr. destruct (nusb_plain _ _ _ _ _ _ Hp Hr) as (cfg & Hcfg & Hval & Halt & E1).
  eexists _, _, _, _. split; [exact E1|]. split; [exact (rusb_plain _ _ _ _ _ _ Hp Hr)|].
  do 2 (split; [done|]). exists cfg. do 3 (split; [done|]). unfold after_commands. cbn [commands].
  destruct (switches n h); cbn [app]; [|done]. by rewrite <- (app_assoc (detaches _)).
Qed.

(** *** Identity *)

Lemma lor_shiftl k b a : (0 ≤ k)%Z → (0 ≤ a < 2 ^ k)%Z → Z.lor (Z.shiftl b k) a = (b * 2 ^ k + a)%Z.
Proof.
  intros Hk Ha. rewrite <- Z.shiftl_mul_pow2 by done.
  assert (Z.land (Z.shiftl b k) a = 0)%Z as H; [|pose proof (Z.add_lor_land (Z.shiftl b k) a); lia].
  apply Z.bits_inj'. intros n Hn. rewrite Z.land_spec, Z.bits_0.
  destruct (decide (n < k)%Z).
  - by rewrite Z.shiftl_spec_low.
  - rewrite <- (Z.mod_small a (2 ^ k)) by done. by rewrite Z.mod_pow2_bits_high, andb_false_r by lia.
Qed.

Lemma pair_unique k b a b' a' :
  (0 ≤ k)%Z → (0 ≤ a < 2 ^ k)%Z → (0 ≤ a' < 2 ^ k)%Z →
  Z.lor (Z.shiftl b k) a = Z.lor (Z.shiftl b' k) a' → b = b' ∧ a = a'.
Proof.
  intros Hk Ha Ha'. rewrite !lor_shiftl by done. intros H.
  assert (b = b') by (apply (f_equal (λ z, z `div` 2 ^ k)%Z) in H;
    rewrite !Z.div_add_l, !Z.div_small in H by lia; lia). split; [done|]. subst. lia.
Qed.

Lemma string_split_at s i :
  i ≤ String.length s →
  s = String.substring 0 i s +:+ String.substring i (String.length s - i) s ∧
  String.length (String.substring 0 i s) = i.
Proof.
  revert i. induction s as [|c s IH]; intros i Hi.
  - destruct i; [done|cbn in Hi; lia].
  - destruct i as [|i].
    + split; [|done]. cbn [String.length Nat.sub].
      change (String.substring 0 (S (String.length s)) (String.String c s))
        with (String.String c (String.substring 0 (String.length s) s)).
      change (String.String c s = String.String c (String.substring 0 (String.length s) s)).
      f_equal. clear. induction s as [|c s IH]; [done|]. cbn. by f_equal.
    + cbn in Hi. destruct (IH i ltac:(lia)) as [H1 H2]. split.
      * change (String.String c s = String.String c (String.substring 0 i s +:+
          String.substring i (String.length s - i) s)). by f_equal.
      * cbn. by rewrite H2.
Qed.

(** What [to_udid] and [to_udid_owned] do, the same: a serial number of 24 bytes
    gets a dash after the eighth, any other is kept; the only panic is on a serial
    number of 24 bytes whose ninth byte continues a character. *)
Theorem to_udid_spec s :
  to_udid s = to_udid_owned s ∧
  (String.length s ≠ 24 → to_udid s = Ok s) ∧
  (String.length s = 24 → is_char_boundary s 8 = true →
   ∃ a b, s = a +:+ b ∧ String.length a = 8 ∧ to_udid s = Ok (a +:+ "-" +:+ b)) ∧
  (to_udid s = Panic ↔ String.length s = 24 ∧ is_char_boundary s 8 = false).
Proof.
  split; [done|]. unfold to_udid, str_split_at. split_and!.
  - intros H. apply Nat.eqb_neq in H. by rewrite H.
  - intros H Hb. rewrite H. cbn [Nat.eqb]. rewrite Hb. cbn [outcome_bind fst snd].
    destruct (string_split_at s 8) as [H1 H2]; [lia|]. rewrite H in H1. eauto.
  - destruct (String.length s =? 24) eqn:E.
    + apply Nat.eqb_eq in E. rewrite E. destruct (is_char_boundary s 8); cbn; naive_solver.
    + apply Nat.eqb_neq in E. naive_solver.
Qed.

(** Two devices on the bus never share an opaque id or a location id. *)
Theorem place_unique d1 d2 :
  in_width 8 (rd_bus_number d1) → in_width 8 (rd_address d1) →
  in_width 8 (rd_bus_number d2) → in_width 8 (rd_address d2) →
  opaque_id (Rusb d1) = opaque_id (Rusb d2) ∨ location_id (Rusb d1) = location_id (Rusb d2) →
  rd_bus_number d1 = rd_bus_number d2 ∧ rd_address d1 = rd_address d2.
Proof.
  unfold in_width. intros H1 H2 H3 H4 [H|H]; cbn in H; unfold rusb_opaque_id in *;
    [apply (pair_unique 8) in H|apply (pair_unique 16) in H]; lia.
Qed.
