(* ===== verification/Ids.v ===== *)
(** * Device ids ([next_device_id] of [src/usb_backend/mod.rs])

    Every watcher gives the devices it finds ids from one counter and keeps a map
    from what identifies a device to its id; it announces a device by the id and
    later takes the id back.  Here are the counter and what is expected of such a
    watcher: no id is given out twice, and only an id that is held is taken back. *)

From S2P Require Import Prelude.

(** [DEVICE_ID_COUNTER.fetch_add(1)]: the id, and the counter after it *)
Definition next_device_id (counter : Z) : Z * Z := (counter, wrap 64 (counter + 1)).

(** ** Specification *)

(** What an event does to the ids. *)
Inductive IdEvent : Type := Given (id : Z) | Taken (id : Z).

(** The ids a consumer holds. *)
Definition live (es : list IdEvent) : gset Z :=
  fold_left (λ (v : gset Z) e, match e with Given id => {[id]} ∪ v | Taken id => v ∖ {[id]} end) es ∅.

(** The ids that have been given out. *)
Definition given (es : list IdEvent) : list Z :=
  omap (λ e, match e with Given id => Some id | Taken _ => None end) es.

Definition bracketed (es : list IdEvent) : Prop :=
  base.NoDup (given es) ∧ ∀ es1 id es2, es = es1 ++ Taken id :: es2 → id ∈ live es1.

(** A watcher that has not run out of ids: its map, the counter, its events. *)
Record ids_inv {K} `{Countable K} (m : gmap K Z) (counter : Z) (es : list IdEvent) : Prop := {
  ii_bracketed : bracketed es;
  ii_counter : (0 ≤ counter)%Z;
  ii_given : ∀ id, id ∈ given es → (id < counter)%Z;
  ii_live : ∀ k id, m !! k = Some id → id ∈ live es;
  ii_distinct : ∀ k1 k2 id, m !! k1 = Some id → m !! k2 = Some id → k1 = k2;
}.

(** The ids that are held are those of the map. *)
Definition ids_exact {K} `{Countable K} (m : gmap K Z) (es : list IdEvent) : Prop :=
  ∀ id, id ∈ live es → ∃ k, m !! k = Some id.

(** ** Lemmas *)

Lemma live_snoc es e :
  live (es ++ [e]) = match e with Given id => {[id]} ∪ live es | Taken id => live es ∖ {[id]} end.
Proof. unfold live. by rewrite fold_left_app. Qed.

Lemma given_snoc es e :
  given (es ++ [e]) = given es ++ match e with Given id => [id] | Taken _ => [] end.
Proof. unfold given. rewrite omap_app. by destruct e. Qed.

(** What is before an event of a sequence that was extended by one. *)
Lemma snoc_split {A} (es es1 es2 : list A) e x :
  es ++ [e] = es1 ++ x :: es2 → (es2 = [] ∧ es = es1 ∧ e = x) ∨ ∃ es2', es = es1 ++ x :: es2'.
Proof.
  intros H. destruct es2 as [|y es2 _] using rev_ind.
  - left. apply app_inj_tail in H as [-> ->]. done.
  - right. rewrite app_comm_cons, app_assoc in H. apply app_inj_tail in H as [-> _]. eauto.
Qed.

Lemma bracketed_snoc es e :
  bracketed es →
  (match e with Given id => id ∉ given es | Taken id => id ∈ live es end) →
  bracketed (es ++ [e]).
Proof.
  intros [Hn Hd] He. split.
  - rewrite given_snoc. destruct e; [|by rewrite app_nil_r].
    apply list.NoDup_app. split_and!; [done| |by apply list.NoDup_singleton].
    intros x Hx Hx'. apply list_elem_of_singleton in Hx' as ->. done.
  - intros es1 id es2 H. apply snoc_split in H as [(-> & -> & ->)|[es2' H]]; [done|]. by eapply Hd.
Qed.

Lemma live_given es id : id ∈ live es → id ∈ given es.
Proof.
  induction es as [|e es IH] using rev_ind; [done|]. rewrite live_snoc, given_snoc. destruct e; set_solver.
Qed.

Section ids.
Context {K : Type} `{Countable K}.
Implicit Types (m : gmap K Z) (es : list IdEvent).

Lemma ids_inv_start counter : (0 ≤ counter)%Z → ids_inv (∅ : gmap K Z) counter [].
Proof.
  intros Hc. split; try done.
  - split; [constructor|]. intros es1 id es2 E. by destruct es1.
  - intros id Hid. by apply not_elem_of_nil in Hid.
Qed.

(** An id may go unused, and others may use the counter as well. *)
Lemma ids_inv_later m c c' es : (c ≤ c')%Z → ids_inv m c es → ids_inv m c' es.
Proof. intros Hc [Hb H0 Hg Hl Hd]. split; try done; [lia|]. intros id Hid%Hg. lia. Qed.

Lemma ids_inv_give m c c' es k :
  (c < c')%Z → ids_inv m c es → ids_inv (<[k := c]> m) c' (es ++ [Given c]).
Proof.
  intros Hc [Hb H0 Hg Hl Hd]. split; rewrite ?given_snoc, ?live_snoc.
  - apply bracketed_snoc; [done|]. intros Hx%Hg. lia.
  - lia.
  - intros id [Hx%Hg| ->%list_elem_of_singleton]%elem_of_app; lia.
  - intros k' id [[_ <-]|[_ Hk%Hl]]%lookup_insert_Some; set_solver.
  - intros k1 k2 id [[<- <-]|[_ H1]]%lookup_insert_Some [[<- E]|[_ H2]]%lookup_insert_Some;
      [done| | |by eapply Hd]; exfalso;
      [pose proof (Hg _ (live_given _ _ (Hl _ _ H2)))|pose proof (Hg _ (live_given _ _ (Hl _ _ H1)))]; lia.
Qed.

Lemma ids_inv_take m c es k id :
  m !! k = Some id → ids_inv m c es → ids_inv (delete k m) c (es ++ [Taken id]).
Proof.
  intros E [Hb H0 Hg Hl Hd]. split; rewrite ?given_snoc, ?app_nil_r, ?live_snoc; try done.
  - apply bracketed_snoc; [done|]. by eapply Hl.
  - intros k' id' [Hk Hk']%lookup_delete_Some. apply elem_of_difference. split; [by eapply Hl|].
    intros ->%elem_of_singleton. apply Hk. by eapply Hd.
  - intros k1 k2 id' [_ H1]%lookup_delete_Some [_ H2]%lookup_delete_Some. by eapply Hd.
Qed.

Lemma ids_exact_start : ids_exact (∅ : gmap K Z) [].
Proof. intros id Hid. by apply not_elem_of_empty in Hid. Qed.

(** A device that was there already would keep its old id without an entry. *)
Lemma ids_exact_give m es k c :
  m !! k = None → ids_exact m es → ids_exact (<[k := c]> m) (es ++ [Given c]).
Proof.
  intros Hk He id. rewrite live_snoc. intros [->%elem_of_singleton|[k' Hk']%He]%elem_of_union.
  - exists k. apply lookup_insert_eq.
  - exists k'. rewrite lookup_insert_ne; [done|]. intros <-. by rewrite Hk in Hk'.
Qed.

Lemma ids_exact_take m es k id :
  m !! k = Some id → ids_exact m es → ids_exact (delete k m) (es ++ [Taken id]).
Proof.
  intros Hk He id'. rewrite live_snoc. intros [[k' Hk']%He Hne]%elem_of_difference.
  exists k'. apply lookup_delete_Some. split; [|done]. intros <-. set_solver.
Qed.

(** The ids that are held are those of the map, each at one place. *)
Lemma ids_live_iff m c es id :
  ids_inv m c es → ids_exact m es →
  id ∈ live es ↔ ∃ k, m !! k = Some id ∧ ∀ k', m !! k' = Some id → k' = k.
Proof.
  intros [Hb H0 Hg Hl Hd] He. split.
  - intros [k Hk]%He. exists k. split; [done|]. intros k' Hk'. by eapply Hd.
  - intros (k & Hk & _). by eapply Hl.
Qed.

End ids.
