(* ===== verification/Hotplug.v ===== *)
(** * Hotplug ([UsbBackend::watch_devices] of [src/usb_backend/nusb.rs] and
    [src/usb_backend/rusb/mod.rs]; [src/usb_backend/rusb/hotplug.rs])

    A backend gives each Apple device that appears an id of its own and announces
    its departure by that id.  [rusb] gets its events from libusb's hotplug
    callbacks or, where there are none, from [PollingStream], which compares the
    list of devices with the one before every 300 ms. *)

From S2P Require Import Prelude Ids Text Io Errors Conn Backend.

(** ** Ids for devices *)

Inductive BackendEvent : Type :=
| Connected (info : AnyDeviceInfo) (id : Z)
| Disconnected (id : Z).

Record Watch : Type := MkWatch {
  (** from opaque ids *)
  devices_id_map : gmap Z Z;
  (** [DEVICE_ID_COUNTER] *)
  id_counter : Z;
  (** the events yielded so far *)
  yielded : list BackendEvent;
}.

Definition watch_start (counter : Z) : Watch := MkWatch ∅ counter [].

(** A device appears: the next id is its own. *)
Definition announce (info : AnyDeviceInfo) (w : Watch) : Watch :=
  let '(id, counter) := next_device_id (id_counter w) in
  MkWatch (<[opaque_id info := id]> (devices_id_map w)) counter
    (yielded w ++ [Connected info id]).

(** A device is gone, if it was known. *)
Definition retire (opaque : Z) (w : Watch) : Watch :=
  match devices_id_map w !! opaque with
  | Some id =>
      MkWatch (delete opaque (devices_id_map w)) (id_counter w) (yielded w ++ [Disconnected id])
  | None => w
  end.

(** *** [nusb] *)

Inductive HotplugEvent : Type :=
| HotplugConnected (dev : NusbInfo)
| HotplugDisconnected (device_id_hash : Z).

Definition nusb_list_devices (devices : string + list NusbInfo) : list AnyDeviceInfo :=
  match devices with
  | inr devices => Nusb <$> filter (λ dev, (ni_vendor_id dev =? APPLE_VID)%Z = true) devices
  | inl _ => []
  end.

Definition nusb_watch_turn (w : Watch) (event : HotplugEvent) : Watch :=
  match event with
  | HotplugConnected dev =>
      if negb (ni_vendor_id dev =? APPLE_VID)%Z then w else announce (Nusb dev) w
  | HotplugDisconnected device_id => retire device_id w
  end.

(** The devices that are there, then the events. *)
Definition nusb_watch_devices (devices : string + list NusbInfo) (events : list HotplugEvent)
    (w : Watch) : Watch :=
  let w := fold_left (λ w dev, announce dev w) (nusb_list_devices devices) w in
  fold_left nusb_watch_turn events w.

(** *** [rusb] *)

Inductive UsbEvent : Type := Arrived (dev : RusbDevice) | Left (dev : RusbDevice).

Definition is_apple (dev : RusbDevice) : bool :=
  match rd_descriptor dev with Some desc => (desc.1 =? APPLE_VID)%Z | None => false end.

Definition rusb_list_devices (devices : string + list RusbDevice) : list AnyDeviceInfo :=
  match devices with
  | inr devices => Rusb <$> filter (λ dev, is_apple dev = true) devices
  | inl _ => []
  end.

Definition rusb_watch_turn (w : Watch) (event : UsbEvent) : Watch :=
  match event with
  | Arrived dev => if negb (is_apple dev) then w else announce (Rusb dev) w
  | Left dev => retire (rusb_opaque_id dev) w
  end.

Definition rusb_watch_devices (events : list UsbEvent) (w : Watch) : Watch :=
  fold_left rusb_watch_turn events w.

(** ** Polling *)

(** [HashMap]'s iteration order *)
Class HashOrder : Type := {
  hash_order : gmap Z RusbDevice → list (Z * RusbDevice);
  hash_order_perm : ∀ m, hash_order m ≡ₚ map_to_list m;
}.

Section polling.
Context {ho : HashOrder}.

Record PollingStream : Type := MkPolling {
  known : gmap Z RusbDevice;
  pending : list UsbEvent;
  (** what has been sent to the receiver *)
  sent : list UsbEvent;
}.

Definition polling_new : PollingStream := MkPolling ∅ [] [].

Definition current_devices (devices : list RusbDevice) : gmap Z RusbDevice :=
  fold_left (λ m dev, if negb (is_apple dev) then m else <[rusb_opaque_id dev := dev]> m) devices ∅.

(** One tick: [rusb::devices()] gives [devices], [None] for an error.  [None]: the
    receiver is gone and the task ends. *)
Definition polling_tick (receiver : bool) (devices : option (list RusbDevice)) (s : PollingStream)
  : option PollingStream :=
  match pending s with
  | event :: pending =>
      if receiver then Some (MkPolling (known s) pending (sent s ++ [event])) else None
  | [] =>
      match devices with
      | None => Some s
      | Some devices =>
          let current := current_devices devices in
          let arrived := (λ kv, Arrived kv.2) <$>
            filter (λ kv, negb (bool_decide (is_Some (known s !! kv.1))) = true) (hash_order current) in
          let left := (λ kv, Left kv.2) <$>
            filter (λ kv, negb (bool_decide (is_Some (current !! kv.1))) = true) (hash_order (known s)) in
          Some (MkPolling current (arrived ++ left) (sent s))
      end
  end.

Fixpoint polling_run (ticks : list (option (list RusbDevice))) (s : PollingStream) : PollingStream :=
  match ticks with
  | [] => s
  | t :: ticks =>
      match polling_tick true t s with
      | Some s => polling_run ticks s
      | None => s
      end
  end.

End polling.

(** ** Specification *)

(** What the events do to the ids. *)
Definition id_event (e : BackendEvent) : IdEvent :=
  match e with Connected _ id => Given id | Disconnected id => Taken id end.

Definition id_events (w : Watch) : list IdEvent := map id_event (yielded w).

(** The places on the bus where devices are, as the events tell. *)
Definition places (es : list UsbEvent) : gset Z :=
  fold_left (λ (v : gset Z) e, match e with
                    | Arrived d => {[rusb_opaque_id d]} ∪ v
                    | Left d => v ∖ {[rusb_opaque_id d]}
                    end) es ∅.

(** Apple devices only, arriving where nothing is and leaving from where they are. *)
Definition alternating (es : list UsbEvent) : Prop :=
  (∀ es1 d es2, es = es1 ++ Arrived d :: es2 → (rusb_opaque_id d ∉ places es1) ∧ is_apple d = true) ∧
  (∀ es1 d es2, es = es1 ++ Left d :: es2 → rusb_opaque_id d ∈ places es1).

(** A watch that has not run out of ids. *)
Definition watch_inv (w : Watch) : Prop := ids_inv (devices_id_map w) (id_counter w) (id_events w).

(** Enough ids for [n] more devices. *)
Definition ids_left (w : Watch) (n : nat) : Prop := (id_counter w + Z.of_nat n < 2 ^ 64)%Z.

(** ** Lemmas *)

Lemma places_snoc es e :
  places (es ++ [e]) = match e with
                       | Arrived d => {[rusb_opaque_id d]} ∪ places es
                       | Left d => places es ∖ {[rusb_opaque_id d]}
                       end.
Proof. unfold places. by rewrite fold_left_app. Qed.

Lemma alternating_snoc es e :
  alternating es →
  (match e with
   | Arrived d => (rusb_opaque_id d ∉ places es) ∧ is_apple d = true
   | Left d => rusb_opaque_id d ∈ places es
   end) → alternating (es ++ [e]).
Proof.
  intros [Ha Hl] He. split; intros es1 d es2 H;
    apply snoc_split in H as [(-> & -> & ->)|[es2' H]]; eauto.
Qed.

(** *** The watch *)

Lemma watch_start_inv start : (0 ≤ start)%Z → watch_inv (watch_start start).
Proof. apply ids_inv_start. Qed.

Lemma announce_counter info w :
  watch_inv w → ids_left w 1 → id_counter (announce info w) = (id_counter w + 1)%Z.
Proof.
  intros [_ H0 _ _ _] Hn. unfold ids_left in Hn. cbn. unfold wrap. apply Z.mod_small. lia.
Qed.

Lemma announce_step info w :
  watch_inv w → ids_left w 1 →
  watch_inv (announce info w) ∧ (id_counter (announce info w) ≤ id_counter w + 1)%Z.
Proof.
  intros Hw Hn. pose proof (announce_counter info w Hw Hn) as E. split; [|lia].
  unfold watch_inv, id_events. rewrite E. cbn [announce next_device_id devices_id_map yielded].
  rewrite map_app. apply ids_inv_give; [lia|done].
Qed.

Lemma retire_counter opaque w : id_counter (retire opaque w) = id_counter w.
Proof. unfold retire. by destruct (devices_id_map w !! opaque). Qed.

Lemma retire_step opaque w :
  watch_inv w →
  watch_inv (retire opaque w) ∧ (id_counter (retire opaque w) ≤ id_counter w + 1)%Z.
Proof.
  intros Hw. rewrite retire_counter. split; [|lia]. unfold retire.
  destruct (devices_id_map w !! opaque) as [id|] eqn:E; [|done].
  unfold watch_inv, id_events. cbn. rewrite map_app. by apply ids_inv_take.
Qed.

#[export] Hint Resolve announce_step retire_step : rusbmux.

(** A fold whose steps keep the invariant and use one id at most. *)
Lemma watch_fold_inv {E} (f : Watch → E → Watch) (es : list E) : ∀ w n,
  (∀ w e, watch_inv w → ids_left w 1 →
     watch_inv (f w e) ∧ (id_counter (f w e) ≤ id_counter w + 1)%Z) →
  watch_inv w → ids_left w (length es + n) →
  watch_inv (fold_left f es w) ∧ ids_left (fold_left f es w) n.
Proof.
  induction es as [|e es IH]; intros w n Hf Hw Hn; [done|]. cbn in *. unfold ids_left in Hn.
  destruct (Hf w e Hw) as [Hw' Hc]; [unfold ids_left; lia|].
  apply IH; [done..|]. unfold ids_left. lia.
Qed.

Lemma rusb_watch_inv events w :
  watch_inv w → ids_left w (length events) → watch_inv (rusb_watch_devices events w).
Proof.
  intros Hw Hn. apply (watch_fold_inv rusb_watch_turn events w 0); [|done|by rewrite Nat.add_0_r].
  intros w' [d|d] H1 H2; cbn [rusb_watch_turn]; [destruct (is_apple d); cbn [negb]|]; auto with rusbmux.
  split; [done|lia].
Qed.

Lemma nusb_watch_inv devices events w :
  watch_inv w → ids_left w (length (nusb_list_devices devices) + length events) →
  watch_inv (nusb_watch_devices devices events w).
Proof.
  intros Hw Hn. unfold nusb_watch_devices.
  destruct (watch_fold_inv (λ w dev, announce dev w) (nusb_list_devices devices) w (length events))
    as [Hw' Hn']; [intros; by apply announce_step|done..|].
  apply (watch_fold_inv nusb_watch_turn events _ 0); [|done|by rewrite Nat.add_0_r].
  intros w' [d|d] H1 H2; cbn [nusb_watch_turn]; [destruct (_ =? _)%Z; cbn [negb]|]; auto with rusbmux.
  split; [done|lia].
Qed.

(** A watch that has been told of each arrival and departure: what a consumer
    holds is what is on the bus. *)
Record watch_exact (es : list UsbEvent) (w : Watch) : Prop := {
  we_places : dom (devices_id_map w) = places es;
  we_exact : ids_exact (devices_id_map w) (id_events w);
}.

Lemma alternating_app es1 es2 : alternating (es1 ++ es2) → alternating es1.
Proof.
  intros [Ha Hl]. split; intros es d es' E; [eapply Ha|eapply Hl]; rewrite E; by rewrite <- app_assoc.
Qed.

Lemma rusb_watch_snoc es e w :
  rusb_watch_devices (es ++ [e]) w = rusb_watch_turn (rusb_watch_devices es w) e.
Proof. unfold rusb_watch_devices. by rewrite fold_left_app. Qed.

Lemma rusb_watch_exact start es :
  alternating es → watch_exact es (rusb_watch_devices es (watch_start start)).
Proof.
  induction es as [|e es IH] using rev_ind; intros Ha.
  { split; [apply dom_empty_L|apply ids_exact_start]. }
  destruct (IH (alternating_app _ _ Ha)) as [Hp Hl].
  rewrite rusb_watch_snoc. set (w := rusb_watch_devices es (watch_start start)) in *.
  destruct e as [d|d]; cbn [rusb_watch_turn].
  - destruct Ha as [Ha _]. destruct (Ha es d [] eq_refl) as [Hd ->]. cbn [negb].
    rewrite <- Hp in Hd. apply not_elem_of_dom in Hd.
    split; rewrite ?places_snoc; unfold id_events; cbn [announce next_device_id devices_id_map yielded];
      change (opaque_id (Rusb d)) with (rusb_opaque_id d).
    + by rewrite dom_insert_L, Hp.
    + rewrite map_app. by apply ids_exact_give.
  - destruct Ha as [_ Ha]. specialize (Ha es d [] eq_refl). rewrite <- Hp in Ha.
    apply elem_of_dom in Ha as [id Hid]. unfold retire. rewrite Hid.
    split; rewrite ?places_snoc; unfold id_events; cbn [devices_id_map yielded].
    + by rewrite dom_delete_L, Hp.
    + rewrite map_app. by apply ids_exact_take.
Qed.

(** *** Polling *)

Section polling_lemmas.
Context {ho : HashOrder}.

Definition keyed (m : gmap Z RusbDevice) : Prop :=
  ∀ k d, m !! k = Some d → rusb_opaque_id d = k ∧ is_apple d = true.

Record polling_inv (s : PollingStream) : Prop := {
  pi_places : places (sent s ++ pending s) = dom (known s);
  pi_alternating : alternating (sent s ++ pending s);
  pi_keyed : keyed (known s);
}.

Lemma current_devices_keyed devices : keyed (current_devices devices).
Proof.
  unfold current_devices.
  assert (H : keyed ∅) by (intros k d Hk; by rewrite lookup_empty in Hk).
  revert H. generalize (∅ : gmap Z RusbDevice). induction devices as [|dev devices IH]; intros m Hm; [done|].
  cbn. apply IH. destruct (is_apple dev) eqn:E; [|done].
  intros k d [[<- <-]|[_ Hk]]%lookup_insert_Some; [done|]. by apply Hm.
Qed.

Lemma hash_order_lookup m kv : kv ∈ hash_order m ↔ m !! kv.1 = Some kv.2.
Proof. destruct kv as [k d]. rewrite hash_order_perm. apply elem_of_map_to_list. Qed.

Lemma hash_order_NoDup m : base.NoDup (hash_order m).*1.
Proof. rewrite hash_order_perm. apply NoDup_fst_map_to_list. Qed.

Lemma arrivals_alternate (l : list (Z * RusbDevice)) : ∀ es,
  alternating es → base.NoDup l.*1 →
  (∀ kv, kv ∈ l → rusb_opaque_id kv.2 = kv.1 ∧ is_apple kv.2 = true ∧ (kv.1 ∉ places es)) →
  alternating (es ++ ((λ kv, Arrived kv.2) <$> l)) ∧
  places (es ++ ((λ kv, Arrived kv.2) <$> l)) = list_to_set l.*1 ∪ places es.
Proof.
  induction l as [|[k d] l IH]; intros es Ha Hn Hl; cbn -[places alternating].
  { rewrite app_nil_r. split; [done|set_solver]. }
  cbn in Hn. apply list.NoDup_cons in Hn as [Hk Hn].
  destruct (Hl (k, d)) as (Ek & Hd & Hp); [constructor|]. cbn in Ek, Hd, Hp. subst k.
  rewrite cons_middle, app_assoc. destruct (IH (es ++ [Arrived d])) as [H1 H2].
  - apply alternating_snoc; [done|]. by split.
  - done.
  - intros kv Hkv. destruct (Hl kv) as (E1 & E2 & E3); [by constructor|]. split_and!; [done..|].
    rewrite places_snoc. intros [E%elem_of_singleton|E]%elem_of_union; [|done].
    apply Hk. rewrite <- E. by apply list_elem_of_fmap_2.
  - split; [done|]. rewrite H2, places_snoc. set_solver.
Qed.

Lemma departures_alternate (l : list (Z * RusbDevice)) : ∀ es,
  alternating es → base.NoDup l.*1 →
  (∀ kv, kv ∈ l → rusb_opaque_id kv.2 = kv.1 ∧ kv.1 ∈ places es) →
  alternating (es ++ ((λ kv, Left kv.2) <$> l)) ∧
  places (es ++ ((λ kv, Left kv.2) <$> l)) = places es ∖ list_to_set l.*1.
Proof.
  induction l as [|[k d] l IH]; intros es Ha Hn Hl; cbn -[places alternating].
  { rewrite app_nil_r. split; [done|set_solver]. }
  cbn in Hn. apply list.NoDup_cons in Hn as [Hk Hn].
  destruct (Hl (k, d)) as (Ek & Hp); [constructor|]. cbn in Ek, Hp. subst k.
  rewrite cons_middle, app_assoc. destruct (IH (es ++ [Left d])) as [H1 H2].
  - by apply alternating_snoc.
  - done.
  - intros kv Hkv. destruct (Hl kv) as (E1 & E2); [by constructor|]. split; [done|].
    rewrite places_snoc. apply elem_of_difference. split; [done|].
    intros E%elem_of_singleton. apply Hk. rewrite <- E. by apply list_elem_of_fmap_2.
  - split; [done|]. rewrite H2, places_snoc. set_solver.
Qed.

(** The entries of [m1] at places where [m2] has none. *)
Definition missing (m1 m2 : gmap Z RusbDevice) : list (Z * RusbDevice) :=
  filter (λ kv, negb (bool_decide (is_Some (m2 !! kv.1))) = true) (hash_order m1).

Lemma missing_elem m1 m2 kv : kv ∈ missing m1 m2 ↔ m1 !! kv.1 = Some kv.2 ∧ (kv.1 ∉ dom m2).
Proof.
  unfold missing. rewrite list_elem_of_filter, negb_true_iff, bool_decide_eq_false, hash_order_lookup.
  rewrite elem_of_dom. tauto.
Qed.

Lemma missing_NoDup m1 m2 : base.NoDup (missing m1 m2).*1.
Proof.
  eapply sublist_NoDup; [apply (hash_order_NoDup m1)|]. apply fmap_sublist, sublist_filter.
Qed.

Lemma missing_dom m1 m2 : list_to_set (missing m1 m2).*1 = dom m1 ∖ dom m2.
Proof.
  apply set_eq. intros k. rewrite elem_of_list_to_set, list_elem_of_fmap, elem_of_difference.
  setoid_rewrite missing_elem. split.
  - intros ([k' d] & -> & Hd & Hn). split; [|done]. by apply elem_of_dom_2 in Hd.
  - intros [[d Hd]%elem_of_dom Hn]. by exists (k, d).
Qed.

Lemma missing_same m : missing m m = [].
Proof.
  destruct (missing m m) as [|kv l] eqn:E; [done|]. exfalso.
  assert (kv ∈ missing m m) as [H Hn]%missing_elem by (rewrite E; constructor).
  apply Hn. by apply elem_of_dom_2 in H.
Qed.

(** A tick with nothing pending compares the lists. *)
Lemma polling_compare devices s :
  pending s = [] →
  polling_tick true (Some devices) s =
    Some (MkPolling (current_devices devices)
            (((λ kv, Arrived kv.2) <$> missing (current_devices devices) (known s)) ++
             ((λ kv, Left kv.2) <$> missing (known s) (current_devices devices))) (sent s)).
Proof. intros H. unfold polling_tick. by rewrite H. Qed.

Lemma polling_inv_compare devices s :
  polling_inv s → pending s = [] →
  polling_inv (MkPolling (current_devices devices)
            (((λ kv, Arrived kv.2) <$> missing (current_devices devices) (known s)) ++
             ((λ kv, Left kv.2) <$> missing (known s) (current_devices devices))) (sent s)).
Proof.
  intros [Hp Ha Hk] E. rewrite E, app_nil_r in Hp, Ha.
  set (c := current_devices devices). pose proof (current_devices_keyed devices) as Hc. fold c in Hc.
  destruct (arrivals_alternate (missing c (known s)) (sent s)) as [A1 P1]; [done|apply missing_NoDup| |].
  { intros kv [H Hn]%missing_elem. rewrite Hp. destruct (Hc _ _ H). by split_and!. }
  destruct (departures_alternate (missing (known s) c) _ A1) as [A2 P2]; [apply missing_NoDup| |].
  { intros kv [H Hn]%missing_elem. rewrite P1, Hp. destruct (Hk _ _ H) as [? _]. split; [done|].
    apply elem_of_union_r. by apply elem_of_dom_2 in H. }
  split; cbn [known pending sent]; rewrite ?app_assoc; [|done|done].
  rewrite P2, P1, Hp, !missing_dom. apply set_eq. intros k.
  destruct (decide (k ∈ dom c)), (decide (k ∈ dom (known s))); set_solver.
Qed.

Lemma polling_tick_inv t s s' :
  polling_inv s → polling_tick true t s = Some s' → polling_inv s'.
Proof.
  intros Hs. destruct (pending s) as [|e es] eqn:E.
  - destruct t as [devices|].
    + rewrite polling_compare by done. intros [= <-]. by apply polling_inv_compare.
    + unfold polling_tick. rewrite E. by intros [= <-].
  - unfold polling_tick. rewrite E. intros [= <-]. destruct Hs as [H1 H2 H3]. rewrite E in H1, H2.
    rewrite cons_middle, app_assoc in H1, H2. by split.
Qed.

Lemma polling_run_inv ticks : ∀ s, polling_inv s → polling_inv (polling_run ticks s).
Proof.
  induction ticks as [|t ticks IH]; intros s Hs; [done|]. cbn -[polling_tick].
  destruct (polling_tick true t s) as [s'|] eqn:E; [|done]. apply IH. by eapply polling_tick_inv.
Qed.

Lemma polling_new_inv : polling_inv polling_new.
Proof.
  split; cbn; [done| |by intros k d Hk; rewrite lookup_empty in Hk].
  split; intros es1 d es2 E; by destruct es1.
Qed.

Lemma polling_tick_some t s : is_Some (polling_tick true t s).
Proof. unfold polling_tick. destruct (pending s); [|done]. by destruct t. Qed.

Lemma polling_run_app t1 t2 s : polling_run (t1 ++ t2) s = polling_run t2 (polling_run t1 s).
Proof.
  revert s. induction t1 as [|t t1 IH]; intros s; [done|]. cbn -[polling_tick].
  destruct (polling_tick_some t s) as [s' ->]. apply IH.
Qed.

(** Each tick sends one of the pending events. *)
Lemma polling_drain ticks : ∀ s, length ticks = length (pending s) →
  polling_run ticks s = MkPolling (known s) [] (sent s ++ pending s).
Proof.
  induction ticks as [|t ticks IH]; intros s H; destruct (pending s) as [|e es] eqn:E; try done.
  - rewrite app_nil_r. destruct s; cbn in *. by subst.
  - cbn -[polling_tick]. unfold polling_tick. rewrite E. rewrite IH by (cbn in *; lia). cbn.
    by rewrite <- app_assoc.
Qed.

(** Nothing changes while the devices stay. *)
Lemma polling_settled devices n s :
  pending s = [] → known s = current_devices devices →
  polling_run (replicate n (Some devices)) s = s.
Proof.
  intros Hp Hk. induction n as [|n IH]; [done|]. cbn -[polling_tick].
  rewrite polling_compare by done. rewrite Hk, missing_same. cbn.
  replace (MkPolling _ _ _) with s; [done|]. destruct s; cbn in *. by subst.
Qed.

Lemma missing_length m1 m2 : length (missing m1 m2) ≤ size m1.
Proof.
  unfold missing. etrans; [apply length_filter|]. rewrite hash_order_perm, length_map_to_list. done.
Qed.

(** Enough ticks with the same devices, and the stream has told of each. *)
Lemma polling_settles devices s n :
  length (pending s) + size (known s) + size (current_devices devices) < n →
  let s' := polling_run (replicate n (Some devices)) s in
  known s' = current_devices devices ∧ pending s' = [].
Proof.
  intros Hn. set (m := missing (current_devices devices) (known s)).
  set (m' := missing (known s) (current_devices devices)).
  pose proof (missing_length (current_devices devices) (known s)) as H1. fold m in H1.
  pose proof (missing_length (known s) (current_devices devices)) as H2. fold m' in H2.
  remember (length m + length m') as k eqn:Hm.
  replace n with (length (pending s) + (1 + (k + (n - 1 - length (pending s) - k)))) by lia.
  rewrite !replicate_add, !polling_run_app. cbv zeta.
  rewrite (polling_drain (replicate (length (pending s)) _) s) by apply length_replicate.
  replace (polling_run (replicate 1 (Some devices)) _) with
    (MkPolling (current_devices devices) (((λ kv, Arrived kv.2) <$> m) ++ ((λ kv, Left kv.2) <$> m'))
       (sent s ++ pending s)).
  2: { cbn -[polling_tick]. by rewrite polling_compare. }
  rewrite (polling_drain (replicate k _)).
  2: { rewrite length_replicate. cbn [pending]. by rewrite Hm, length_app, !length_fmap. }
  by rewrite polling_settled.
Qed.

End polling_lemmas.

(** ** Theorems *)

(** Whatever events libusb or nusb report, and in whatever order, a device that
    appears gets an id that no device had before, and [Disconnected] is only
    announced for an id that was given out and not taken back since: while there
    are ids left, on both backends. *)
Theorem watches_bracket start devices nusb_events rusb_events :
  (0 ≤ start)%Z →
  (start + Z.of_nat (length (nusb_list_devices devices) + length nusb_events) < 2 ^ 64)%Z →
  (start + Z.of_nat (length rusb_events) < 2 ^ 64)%Z →
  bracketed (id_events (nusb_watch_devices devices nusb_events (watch_start start))) ∧
  bracketed (id_events (rusb_watch_devices rusb_events (watch_start start))).
Proof.
  intros H0 Hn Hr. split.
  - eapply ii_bracketed, nusb_watch_inv; [by apply watch_start_inv|done].
  - eapply ii_bracketed, rusb_watch_inv; [by apply watch_start_inv|done].
Qed.

(** Where libusb has no hotplug: whatever the device lists were at the ticks
    before, and whichever of them failed, once the list stays [devices] for enough
    ticks (one for each event that may be waiting or be found) the ids that the
    consumer of the watch holds are those of the Apple devices in it, one each. *)
Theorem polling_catches_up {ho : HashOrder} start ticks devices n :
  (0 ≤ start)%Z →
  let before := polling_run ticks polling_new in
  length (pending before) + size (known before) + size (current_devices devices) < n →
  let s := polling_run (replicate n (Some devices)) before in
  (start + Z.of_nat (length (sent s)) < 2 ^ 64)%Z →
  let w := rusb_watch_devices (sent s) (watch_start start) in
  dom (devices_id_map w) = dom (current_devices devices) ∧
  ∀ id, id ∈ live (id_events w) ↔
    ∃ k, devices_id_map w !! k = Some id ∧ ∀ k', devices_id_map w !! k' = Some id → k' = k.
Proof.
  intros H0 before Hn s Hs w.
  assert (Hi : polling_inv s) by apply polling_run_inv, polling_run_inv, polling_new_inv.
  destruct (polling_settles devices before n Hn) as [Hk Hp]. fold s in Hk, Hp.
  destruct Hi as [Hpl Ha _]. rewrite Hp, app_nil_r in Hpl, Ha. rewrite Hk in Hpl.
  destruct (rusb_watch_exact start (sent s) Ha) as [Hd Hl].
  pose proof (rusb_watch_inv (sent s) (watch_start start) (watch_start_inv _ H0) Hs) as Hw.
  split; [by unfold w; rewrite Hd|]. intros id. by eapply ids_live_iff.
Qed.
