(* ===== verification/HotplugStream.v ===== *)
(** * Hotplug streams ([src/usb_backend/rusb/hotplug.rs])

    Where the events of [rusb]'s watch come from: [HotplugStream] registers a callback
    with libusb, [PollingStream] compares device lists, and [DeviceHotplugStream] is
    the one that the platform has.  libusb is a parameter; a run interleaves what
    happens on the bus with what the watch takes. *)

From S2P Require Import Prelude Ids Errors Backend Hotplug.

(** [rusb]'s hotplug interface: what a registration that asks for it is told of the
    devices that are already there, and which devices it is told of. *)
Class LibusbHotplug : Type := {
  has_hotplug : bool;
  register_fails : option string;
  enumerated : Z → list RusbDevice → list RusbDevice;
  hotplug_matches : Z → RusbDevice → bool;
}.

Class LibusbHotplugLaws `{LibusbHotplug} : Prop := {
  enumerated_matching vendor_id devices :
    enumerated vendor_id devices ≡ₚ filter (λ d, hotplug_matches vendor_id d = true) devices;
  hotplug_matches_vendor vendor_id d :
    hotplug_matches vendor_id d = match rd_descriptor d with
                                  | Some desc => (desc.1 =? vendor_id)%Z
                                  | None => false
                                  end;
}.

Section streams.
Context {usb : LibusbHotplug} {ho : HashOrder}.

(** ** The streams *)

(** The registration's vendor id, and the events that wait in the channel. *)
Record HotplugStream : Type := MkHotplugStream {
  registration : Z;
  hs_rx : list UsbEvent;
}.

(** [Callback::device_arrived] and [Callback::device_left] *)
Definition device_arrived (device : RusbDevice) (h : HotplugStream) : HotplugStream :=
  MkHotplugStream (registration h) (hs_rx h ++ [Arrived device]).

Definition device_left (device : RusbDevice) (h : HotplugStream) : HotplugStream :=
  MkHotplugStream (registration h) (hs_rx h ++ [Left device]).

(** [enumerate(true)]: the callback is told of the devices that are there. *)
Definition hotplug_new (devices : list RusbDevice) : outcome string HotplugStream :=
  match register_fails with
  | Some e => Err e
  | None => Ok (fold_left (λ h d, device_arrived d h) (enumerated APPLE_VID devices) (MkHotplugStream APPLE_VID []))
  end.

(** [None]: nothing is there yet. *)
Definition hotplug_poll_next (h : HotplugStream) : option UsbEvent * HotplugStream :=
  match hs_rx h with
  | [] => (None, h)
  | e :: rx => (Some e, MkHotplugStream (registration h) rx)
  end.

(** The polled one: its task, and how many of the events sent have been taken. *)
Record PollingRx : Type := MkPollingRx {
  polling_task : PollingStream;
  polling_taken : nat;
}.

Definition polling_poll_next (p : PollingRx) : option UsbEvent * PollingRx :=
  match sent (polling_task p) !! polling_taken p with
  | None => (None, p)
  | Some e => (Some e, MkPollingRx (polling_task p) (S (polling_taken p)))
  end.

Inductive DeviceHotplugStream : Type :=
| HotplugEvents (hotplug : HotplugStream)
| PolledEvents (polling : PollingRx).

Definition device_hotplug_new (devices : list RusbDevice) : outcome RusbmuxError.t DeviceHotplugStream :=
  if has_hotplug then
    let? h := map_err RusbmuxError.RusbError (hotplug_new devices) in
    Ok (HotplugEvents h)
  else Ok (PolledEvents (MkPollingRx polling_new 0)).

Definition device_poll_next (s : DeviceHotplugStream) : option UsbEvent * DeviceHotplugStream :=
  match s with
  | HotplugEvents h => let '(e, h) := hotplug_poll_next h in (e, HotplugEvents h)
  | PolledEvents p => let '(e, p) := polling_poll_next p in (e, PolledEvents p)
  end.

(** ** A bus that is watched *)

Inductive bus_change : Type := Plug (d : RusbDevice) | Unplug (d : RusbDevice).

Definition bus_turn (devices : list RusbDevice) (c : bus_change) : list RusbDevice :=
  match c with
  | Plug d => devices ++ [d]
  | Unplug d => filter (λ d', rusb_opaque_id d' ≠ rusb_opaque_id d) devices
  end.

(** libusb calls back for the devices that the registration asked for. *)
Definition call_back (c : bus_change) (h : HotplugStream) : HotplugStream :=
  match c with
  | Plug d => if hotplug_matches (registration h) d then device_arrived d h else h
  | Unplug d => if hotplug_matches (registration h) d then device_left d h else h
  end.

(** What happens: something on the bus, a tick of the polling task (which finds the
    devices that are there, or fails), a poll of the watch. *)
Inductive hotplug_event : Type :=
| BusChange (c : bus_change)
| Tick (listed : bool)
| PollNext.

Record watching : Type := Watching {
  wg_bus : list RusbDevice;
  wg_stream : DeviceHotplugStream;
  wg_watch : Watch;
}.

Definition watching_turn (s : watching) (e : hotplug_event) : watching :=
  match e with
  | BusChange c =>
      Watching (bus_turn (wg_bus s) c)
        (match wg_stream s with HotplugEvents h => HotplugEvents (call_back c h) | p => p end) (wg_watch s)
  | Tick listed =>
      Watching (wg_bus s)
        (match wg_stream s with
         | PolledEvents (MkPollingRx task taken) =>
             match polling_tick true (if listed then Some (wg_bus s) else None) task with
             | Some task => PolledEvents (MkPollingRx task taken)
             | None => wg_stream s
             end
         | h => h
         end) (wg_watch s)
  | PollNext =>
      match device_poll_next (wg_stream s) with
      | (Some event, stream) => Watching (wg_bus s) stream (rusb_watch_turn (wg_watch s) event)
      | (None, stream) => Watching (wg_bus s) stream (wg_watch s)
      end
  end.

Definition watching_run (events : list hotplug_event) (s : watching) : watching :=
  fold_left watching_turn events s.

(** [RusbBackend::watch_devices] with the devices that are there when it is called. *)
Definition watching_start (counter : Z) (devices : list RusbDevice) : outcome RusbmuxError.t watching :=
  let? stream := device_hotplug_new devices in
  Ok (Watching devices stream (watch_start counter)).

(** ** Specification *)

(** Devices have places of their own, and those that leave were there. *)
Definition bus_ok (devices : list RusbDevice) : Prop := base.NoDup (rusb_opaque_id <$> devices).

Definition change_ok (devices : list RusbDevice) (c : bus_change) : Prop :=
  match c with
  | Plug d => rusb_opaque_id d ∉ rusb_opaque_id <$> devices
  | Unplug d => d ∈ devices
  end.

Fixpoint events_ok (devices : list RusbDevice) (events : list hotplug_event) : Prop :=
  match events with
  | [] => True
  | BusChange c :: events => change_ok devices c ∧ events_ok (bus_turn devices c) events
  | _ :: events => events_ok devices events
  end.

Definition apple_places (devices : list RusbDevice) : gset Z :=
  list_to_set (rusb_opaque_id <$> filter (λ d, is_apple d = true) devices).

(** The events that the stream has for the watch. *)
Definition untaken (s : DeviceHotplugStream) : list UsbEvent :=
  match s with
  | HotplugEvents h => hs_rx h
  | PolledEvents p => drop (polling_taken p) (sent (polling_task p))
  end.

(** The stream has told of everything: a polled one has found no change either. *)
Definition caught_up (s : watching) : Prop :=
  untaken (wg_stream s) = [] ∧
  match wg_stream s with
  | HotplugEvents _ => True
  | PolledEvents p => pending (polling_task p) = [] ∧ known (polling_task p) = current_devices (wg_bus s)
  end.

(** What a run keeps: the watch has followed the events it took, and a hotplug stream's
    events tell of the bus. *)
Record watching_inv (counter : Z) (s : watching) : Prop := {
  wi_bus : bus_ok (wg_bus s);
  wi_told : ∃ taken,
    wg_watch s = rusb_watch_devices taken (watch_start counter) ∧
    match wg_stream s with
    | HotplugEvents h =>
        registration h = APPLE_VID ∧ alternating (taken ++ hs_rx h) ∧
        places (taken ++ hs_rx h) = apple_places (wg_bus s)
    | PolledEvents p =>
        polling_inv (polling_task p) ∧ taken = take (polling_taken p) (sent (polling_task p)) ∧
        polling_taken p ≤ length (sent (polling_task p))
    end;
}.

(** * Lemmas *)

Lemma current_devices_places devices : dom (current_devices devices) = apple_places devices.
Proof.
  unfold current_devices, apple_places.
  assert (H : ∀ m : gmap Z RusbDevice,
    dom (fold_left (λ m dev, if negb (is_apple dev) then m else <[rusb_opaque_id dev:=dev]> m) devices m)
    = dom m ∪ list_to_set (rusb_opaque_id <$> filter (λ d, is_apple d = true) devices)).
  { induction devices as [|d devices IH]; intros m; [set_solver|]. cbn [fold_left]. rewrite IH.
    rewrite list.filter_cons. destruct (is_apple d); cbn [negb]; case_decide; try done.
    rewrite dom_insert_L. cbn. set_solver. }
  rewrite H, dom_empty_L. set_solver.
Qed.

Lemma apple_places_elem k devices :
  k ∈ apple_places devices ↔ ∃ d, d ∈ devices ∧ is_apple d = true ∧ rusb_opaque_id d = k.
Proof.
  unfold apple_places. rewrite elem_of_list_to_set, list_elem_of_fmap. setoid_rewrite list_elem_of_filter. naive_solver.
Qed.

Lemma bus_ok_inj devices d1 d2 :
  bus_ok devices → d1 ∈ devices → d2 ∈ devices → rusb_opaque_id d1 = rusb_opaque_id d2 → d1 = d2.
Proof.
  unfold bus_ok. induction devices as [|d devices IH]; intros Hn H1 H2 E; [by apply not_elem_of_nil in H1|].
  cbn in Hn. apply list.NoDup_cons in Hn as [Hd Hn].
  apply elem_of_cons in H1 as [->|H1], H2 as [->|H2]; [done| | |by apply IH].
  - exfalso. apply Hd. rewrite E. by apply list_elem_of_fmap_2.
  - exfalso. apply Hd. rewrite <- E. by apply list_elem_of_fmap_2.
Qed.

Lemma bus_turn_ok devices c : bus_ok devices → change_ok devices c → bus_ok (bus_turn devices c).
Proof.
  unfold bus_ok. destruct c as [d|d]; cbn [bus_turn change_ok]; intros Hb Hc.
  - rewrite fmap_app. apply list.NoDup_app. split_and!; [done| |apply NoDup_singleton].
    intros k Hk ->%list_elem_of_singleton. done.
  - eapply sublist_NoDup; [exact Hb|]. apply fmap_sublist, sublist_filter.
Qed.

(** What a change does to the places of the Apple devices. *)
Lemma bus_turn_places devices c :
  bus_ok devices → change_ok devices c →
  match c with
  | Plug d => apple_places (bus_turn devices c) = (if is_apple d then {[rusb_opaque_id d]} else ∅) ∪ apple_places devices ∧
              (rusb_opaque_id d ∉ apple_places devices)
  | Unplug d => apple_places (bus_turn devices c) =
                  (if is_apple d then apple_places devices ∖ {[rusb_opaque_id d]} else apple_places devices) ∧
                (is_apple d = true → rusb_opaque_id d ∈ apple_places devices)
  end.
Proof.
  intros Hb Hc. destruct c as [d|d]; cbn [bus_turn change_ok] in *.
  - split.
    + unfold apple_places. rewrite list.filter_app, fmap_app, list_to_set_app_L.
      destruct (is_apple d) eqn:E; [rewrite (list.filter_cons_True _ d) by done|rewrite (list.filter_cons_False _ d) by congruence];
        cbn; set_solver.
    + intros (d' & H1 & _ & E)%apple_places_elem. apply Hc. rewrite <- E. by apply list_elem_of_fmap_2.
  - split; [|intros Ha; by apply apple_places_elem; exists d].
    apply set_eq. intros k. rewrite apple_places_elem. setoid_rewrite list_elem_of_filter.
    destruct (is_apple d) eqn:Ea; rewrite ?elem_of_difference, ?elem_of_singleton, apple_places_elem.
    + naive_solver.
    + split; [naive_solver|]. intros (d' & H1 & H2 & H3). exists d'. split_and!; try done.
      intros E. pose proof (bus_ok_inj devices d' d Hb H1 Hc E) as ->. congruence.
Qed.

Context {laws : LibusbHotplugLaws}.

Lemma matches_apple d : hotplug_matches APPLE_VID d = is_apple d.
Proof. by rewrite hotplug_matches_vendor. Qed.

Lemma arrivals_rx l : ∀ h,
  fold_left (λ h d, device_arrived d h) l h = MkHotplugStream (registration h) (hs_rx h ++ (Arrived <$> l)).
Proof.
  induction l as [|d l IH]; intros [v rx]; cbn [fold_left]; [by rewrite app_nil_r|].
  rewrite IH. cbn. by rewrite <- app_assoc.
Qed.

(** The devices that are enumerated arrive. *)
Lemma enumerated_places devices :
  bus_ok devices →
  alternating (Arrived <$> enumerated APPLE_VID devices) ∧
  places (Arrived <$> enumerated APPLE_VID devices) = apple_places devices.
Proof.
  intros Hb. set (l := enumerated APPLE_VID devices).
  assert (Hp : l ≡ₚ filter (λ d, is_apple d = true) devices).
  { unfold l. rewrite enumerated_matching.
    rewrite (list.list_filter_iff _ (λ d, is_apple d = true)); [done|]. intros d. by rewrite matches_apple. }
  assert (Hl : (λ kv : Z * RusbDevice, Arrived kv.2) <$> ((λ d, (rusb_opaque_id d, d)) <$> l) = Arrived <$> l)
    by (by rewrite <- list_fmap_compose).
  assert (Hk : ((λ d, (rusb_opaque_id d, d)) <$> l).*1 = rusb_opaque_id <$> l) by (by rewrite <- list_fmap_compose).
  destruct (arrivals_alternate ((λ d, (rusb_opaque_id d, d)) <$> l) []) as [H1 H2].
  - split; intros es1 d es2 E; by destruct es1.
  - rewrite Hk, Hp. eapply sublist_NoDup; [exact Hb|]. apply fmap_sublist, sublist_filter.
  - intros kv (d & -> & Hd)%list_elem_of_fmap. rewrite Hp in Hd. apply list_elem_of_filter in Hd as [Hd _].
    cbn. split_and!; [done|done|]. apply not_elem_of_empty.
  - rewrite Hl in H1, H2. cbn [app] in H1, H2. split; [done|]. rewrite H2, Hk. unfold apple_places.
    rewrite Hp. set_solver.
Qed.

Lemma watching_start_inv counter devices s :
  bus_ok devices → watching_start counter devices = Ok s → watching_inv counter s ∧ wg_bus s = devices.
Proof.
  intros Hb. unfold watching_start, device_hotplug_new, hotplug_new.
  destruct has_hotplug; [destruct register_fails; cbn; [done|]|]; intros [= <-]; (split; [split; [done|]|done]).
  - exists []. split; [done|]. cbn [wg_stream wg_bus]. rewrite arrivals_rx. cbn [registration hs_rx app].
    split; [done|]. by apply enumerated_places.
  - exists []. split; [done|]. cbn. split_and!; [apply polling_new_inv|done|lia].
Qed.

Lemma call_back_inv taken devices c h :
  bus_ok devices → change_ok devices c → registration h = APPLE_VID →
  alternating (taken ++ hs_rx h) → places (taken ++ hs_rx h) = apple_places devices →
  registration (call_back c h) = APPLE_VID ∧ alternating (taken ++ hs_rx (call_back c h)) ∧
  places (taken ++ hs_rx (call_back c h)) = apple_places (bus_turn devices c).
Proof.
  intros Hb Hc Hr Ha Hp. pose proof (bus_turn_places devices c Hb Hc) as H. unfold call_back. rewrite Hr.
  destruct c as [d|d]; rewrite matches_apple; destruct H as [H1 H2]; destruct (is_apple d) eqn:Ed;
    unfold device_arrived, device_left; cbn [registration hs_rx]; rewrite ?Hr, H1.
  - split; [done|]. rewrite app_assoc, places_snoc, Hp. split; [|done].
    apply alternating_snoc; [done|]. by rewrite Hp.
  - split_and!; [done|done|]. rewrite Hp. set_solver.
  - split; [done|]. rewrite app_assoc, places_snoc, Hp. split; [|done].
    apply alternating_snoc; [done|]. rewrite Hp. by apply H2.
  - by split_and!.
Qed.

Lemma polling_sent t s s' :
  polling_tick true t s = Some s' → ∃ es, sent s' = sent s ++ es.
Proof.
  unfold polling_tick. destruct (pending s); [destruct t|]; intros [= <-];
    first [by eexists [_]|exists []; by rewrite app_nil_r].
Qed.

(** One turn. *)
Lemma watching_turn_inv counter s e :
  watching_inv counter s →
  (match e with BusChange c => change_ok (wg_bus s) c | _ => True end) →
  watching_inv counter (watching_turn s e) ∧
  wg_bus (watching_turn s e) = match e with BusChange c => bus_turn (wg_bus s) c | _ => wg_bus s end.
Proof.
  intros [Hb (taken & Hw & Hs)] He. destruct e as [c|listed|]; cbn [watching_turn].
  - split; [|done]. split; [by apply bus_turn_ok|]. exists taken. split; [done|].
    cbn [wg_stream wg_bus]. destruct (wg_stream s) as [h|p]; [|done].
    destruct Hs as (H1 & H2 & H3). by apply call_back_inv.
  - split; [|done]. split; [done|]. exists taken. split; [done|]. cbn [wg_stream wg_bus].
    destruct (wg_stream s) as [h|[task k]]; [done|]. cbn [polling_task polling_taken] in Hs.
    destruct (polling_tick true _ task) as [task'|] eqn:E; [|done].
    destruct Hs as (H1 & -> & H3), (polling_sent _ _ _ E) as [es Hes]. cbn.
    split_and!; [by eapply polling_tick_inv| |rewrite Hes, length_app; lia].
    by rewrite Hes, take_app_le.
  - destruct (wg_stream s) as [h|[task k]]; cbn [device_poll_next].
    + unfold hotplug_poll_next. destruct (hs_rx h) as [|e rx] eqn:E.
      * split; [|done]. split; [done|]. exists taken. cbn. by rewrite E.
      * split; [|done]. split; [done|]. exists (taken ++ [e]). cbn [wg_watch wg_stream wg_bus registration hs_rx].
        rewrite <- app_assoc. cbn [app]. rewrite rusb_watch_snoc, Hw. done.
    + unfold polling_poll_next. cbn [polling_task polling_taken] in *.
      destruct (sent task !! k) as [e|] eqn:E.
      * destruct Hs as (H1 & H2 & H3). split; [|done]. split; [done|].
        exists (taken ++ [e]). cbn [wg_watch wg_stream wg_bus polling_task polling_taken].
        rewrite rusb_watch_snoc, Hw. split_and!; [done|done| |by eapply lookup_lt_Some in E].
        by rewrite H2, (take_S_r _ _ _ E).
      * split; [|done]. split; [done|]. by exists taken.
Qed.

Lemma watching_run_inv counter events : ∀ s,
  watching_inv counter s → events_ok (wg_bus s) events → watching_inv counter (watching_run events s).
Proof.
  induction events as [|e events IH]; intros s Hs He; [done|]. unfold watching_run. cbn [fold_left].
  destruct (watching_turn_inv counter s e Hs) as [H1 H2]; [by destruct e; [destruct He|..]|].
  apply IH; [done|]. rewrite H2. destruct e; [by destruct He|done|done].
Qed.

(** ** The watch and the bus *)

(** A run's events go on from a state with what the watch took and has to take. *)
Lemma watching_exact counter s :
  watching_inv counter s → caught_up s →
  ∃ taken, alternating taken ∧ places taken = apple_places (wg_bus s) ∧
    wg_watch s = rusb_watch_devices taken (watch_start counter).
Proof.
  intros [_ (taken & Hw & Hs)] [Hu Hc]. exists taken. split_and!; [..|done];
    destruct (wg_stream s) as [h|p]; cbn [untaken] in Hu.
  - rewrite Hu, app_nil_r in Hs. apply Hs.
  - destruct Hs as ([_ Ha _] & -> & _), Hc as [Hp _]. rewrite Hp, app_nil_r in Ha.
    by rewrite <- (app_nil_r (take _ _)), <- Hu, take_drop.
  - rewrite Hu, app_nil_r in Hs. apply Hs.
  - destruct Hs as ([Hpl _ _] & -> & _), Hc as [Hp Hk]. rewrite Hp, app_nil_r, Hk, current_devices_places in Hpl.
    by rewrite <- (app_nil_r (take _ _)), <- Hu, take_drop.
Qed.

(** Each of the events is passed on. *)
Lemma rusb_watch_yields start es :
  alternating es → length (yielded (rusb_watch_devices es (watch_start start))) = length es.
Proof.
  induction es as [|e es IH] using rev_ind; intros Ha; [done|].
  rewrite rusb_watch_snoc, length_app, <- (IH (alternating_app _ _ Ha)).
  destruct (rusb_watch_exact start es (alternating_app _ _ Ha)) as [Hp _].
  set (w := rusb_watch_devices es (watch_start start)) in *. destruct Ha as [Ha Hl].
  destruct e as [d|d]; cbn [rusb_watch_turn].
  - destruct (Ha es d [] eq_refl) as [_ ->]. cbn. by rewrite length_app.
  - specialize (Hl es d [] eq_refl). rewrite <- Hp in Hl. apply elem_of_dom in Hl as [id Hid].
    unfold retire. rewrite Hid. cbn. by rewrite length_app.
Qed.

(** The ids of a watch that has caught up. *)
Lemma caught_up_ids counter s :
  (0 ≤ counter)%Z → watching_inv counter s → caught_up s →
  let w := wg_watch s in
  (counter + Z.of_nat (length (yielded w)) < 2 ^ 64)%Z →
  dom (devices_id_map w) = apple_places (wg_bus s) ∧
  ∀ id, id ∈ live (id_events w) ↔
    ∃ k, devices_id_map w !! k = Some id ∧ ∀ k', devices_id_map w !! k' = Some id → k' = k.
Proof.
  intros H0 Hi Hc w Hn. destruct (watching_exact counter s Hi Hc) as (taken & Ha & Hp & Hw).
  fold w in Hw. rewrite Hw in Hn. rewrite (rusb_watch_yields _ _ Ha) in Hn.
  destruct (rusb_watch_exact counter taken Ha) as [Hd Hl]. rewrite <- Hw in Hd, Hl.
  pose proof (rusb_watch_inv taken (watch_start counter) (watch_start_inv _ H0) Hn) as Hv. rewrite <- Hw in Hv.
  split; [by rewrite Hd|]. intros id. by eapply ids_live_iff.
Qed.

(** Ticks on a bus that rests. *)
Lemma ticks_run n : ∀ s,
  watching_run (replicate n (Tick true)) s =
  Watching (wg_bus s)
    (match wg_stream s with
     | PolledEvents p => PolledEvents (MkPollingRx (polling_run (replicate n (Some (wg_bus s))) (polling_task p))
                                         (polling_taken p))
     | h => h
     end) (wg_watch s).
Proof.
  induction n as [|n IH]; intros [bus str w]; unfold watching_run; cbn [replicate fold_left].
  - by destruct str as [h|[]].
  - change (fold_left watching_turn ?l ?x) with (watching_run l x). rewrite IH.
    destruct str as [h|[task k]]; cbn [watching_turn wg_bus wg_stream wg_watch polling_task polling_taken]; [done|].
    cbn [polling_run]. destruct (polling_tick_some (Some bus) task) as [task' ->]. done.
Qed.

(** Polls take what is there. *)
Lemma polls_take n : ∀ s,
  length (untaken (wg_stream s)) ≤ n →
  untaken (wg_stream (watching_run (replicate n PollNext) s)) = [] ∧
  wg_bus (watching_run (replicate n PollNext) s) = wg_bus s ∧
  match wg_stream s, wg_stream (watching_run (replicate n PollNext) s) with
  | PolledEvents p, PolledEvents p' => polling_task p' = polling_task p
  | HotplugEvents _, HotplugEvents _ => True
  | _, _ => False
  end.
Proof.
  induction n as [|n IH]; intros s Hn; unfold watching_run; cbn [replicate fold_left].
  { apply Nat.le_0_r, length_zero_iff_nil in Hn. by destruct (wg_stream s). }
  change (fold_left watching_turn ?l ?x) with (watching_run l x). cbn [watching_turn].
  destruct s as [bus [h|[task k]] w]; cbn [wg_stream device_poll_next untaken polling_taken polling_task] in *.
  - unfold hotplug_poll_next. destruct (hs_rx h) as [|e rx] eqn:E; apply IH; cbn; [by rewrite E; cbn; lia|].
    cbn in Hn. lia.
  - unfold polling_poll_next. cbn [polling_task polling_taken].
    destruct (sent task !! k) as [e|] eqn:E; apply IH; cbn; rewrite length_drop in *; [lia|].
    apply lookup_ge_None in E. lia.
Qed.

(** The ticks that a stream needs to find out what is there. *)
Definition ticks_needed (s : watching) : nat :=
  match wg_stream s with
  | HotplugEvents _ => 0
  | PolledEvents p =>
      length (pending (polling_task p)) + size (known (polling_task p)) + size (current_devices (wg_bus s))
  end.

(** C22.  Whichever stream the platform has, and however what happens on the bus, the
    ticks of the polling task (failing ones included) and the polls of the watch
    interleave: once nothing is plugged in or out for enough ticks, and the watch then
    takes what is there, it holds an id for exactly the places where an Apple device is,
    one each; as long as ids are left. *)
Theorem watch_catches_up counter devices events s0 n m :
  (0 ≤ counter)%Z → bus_ok devices → watching_start counter devices = Ok s0 → events_ok devices events →
  let s1 := watching_run events s0 in
  ticks_needed s1 < n →
  let s2 := watching_run (replicate n (Tick true)) s1 in
  length (untaken (wg_stream s2)) ≤ m →
  let s := watching_run (replicate m PollNext) s2 in
  (counter + Z.of_nat (length (yielded (wg_watch s))) < 2 ^ 64)%Z →
  dom (devices_id_map (wg_watch s)) = apple_places (wg_bus s1) ∧
  ∀ id, id ∈ live (id_events (wg_watch s)) ↔
    ∃ k, devices_id_map (wg_watch s) !! k = Some id ∧
      ∀ k', devices_id_map (wg_watch s) !! k' = Some id → k' = k.
Proof.
  intros H0 Hb H1 He s1 Hn s2 Hm s Hids. destruct (watching_start_inv _ _ _ Hb H1) as [I0 B0].
  assert (I1 : watching_inv counter s1) by (apply watching_run_inv; [done|by rewrite B0]).
  assert (Hok : ∀ k e l, (∀ c, e ≠ BusChange c) → events_ok l (replicate k e))
    by (intros k e l H; induction k; [done|]; by destruct e as [c| |]; [destruct (H c)|..]).
  assert (I2 : watching_inv counter s2) by (by apply watching_run_inv, Hok).
  assert (I : watching_inv counter s) by (by apply watching_run_inv, Hok).
  destruct (polls_take m s2 Hm) as (T1 & T2 & T3). fold s in T1, T2, T3.
  pose proof (ticks_run n s1) as E2. fold s2 in E2.
  assert (Bus : wg_bus s = wg_bus s1) by (by rewrite T2, E2).
  rewrite <- Bus. apply caught_up_ids with counter; try done. split; [done|].
  unfold ticks_needed in Hn. rewrite E2 in T3. cbn [wg_stream] in T3.
  destruct (wg_stream s1) as [h1|p1], (wg_stream s) as [h|p]; try done.
  rewrite T3, Bus. cbn [polling_task].
  destruct (polling_settles (wg_bus s1) (polling_task p1) n Hn) as [Hk Hp]. by split.
Qed.

End streams.
