(* ===== verification/Router.v ===== *)
(** * The packet router ([src/device/packet_router.rs])

    Maps the source ports of the daemon's connections to channels.  A channel is
    a bounded queue whose sender the router's entry owns and whose receiver the
    connection owns; the store [chans] holds all of them, so that the queue, the
    router and the connection share one channel by its id.  Each operation is a
    function, what it does when nothing comes in between, put together from the
    steps that [DashMap] and the atomic counter make atomic; [router_step] takes
    those steps, in any order, and [register_runs] and its like show that the
    functions are schedules of them.  A send into a full queue waits, which is the
    result [Blocked] and no change. *)

From S2P Require Import Prelude Io Tcp DeviceMux Errors.

(** ** Data *)

Definition ChanId : Type := nat.
Definition ConnId : Type := nat.

Record PacketEntry : Type := Entry {
  tx : ChanId;
  (** a weak reference to the connection *)
  entry_conn : option ConnId;
}.

Record Channel : Type := Chan {
  chan_queue : list UsbDevicePacket;
  (** the receiver has not been dropped *)
  rx_alive : bool;
}.

Record PacketRouter : Type := Router {
  routes : gmap Z PacketEntry;
  next_source_port : Z;
}.

(** The router and the channels it shares with the connections. *)
Record RouterState : Type := RState {
  router : PacketRouter;
  chans : gmap ChanId Channel;
}.

Definition MAX_SOURCE_PORT_PROBES : nat := 64.

(** [spsc::bounded_async(256)] *)
Definition CHANNEL_CAPACITY : nat := 256.

(** ** Operations *)

Definition router_new : PacketRouter := Router ∅ 1.

(** [tx.is_disconnected()] *)
Definition is_disconnected (cs : gmap ChanId Channel) (c : ChanId) : bool :=
  match cs !! c with Some ch => negb (rx_alive ch) | None => true end.

(** [DashMap]'s iteration visits every key once, in an unspecified order. *)
Class MapOrder : Type := {
  keys_in_order : gmap Z PacketEntry → list Z;
  keys_in_order_perm : ∀ m, keys_in_order m ≡ₚ (map_to_list m).*1;
}.

(** Removes the keys one by one, keeping the entries that were still there. *)
Fixpoint remove_keys (ks : list Z) (m : gmap Z PacketEntry) : list PacketEntry * gmap Z PacketEntry :=
  match ks with
  | [] => ([], m)
  | k :: ks =>
      match m !! k with
      | Some e => let '(es, m') := remove_keys ks (delete k m) in (e :: es, m')
      | None => remove_keys ks m
      end
  end.

Definition unregister (port : Z) (s : RouterState) : option PacketEntry * RouterState :=
  (routes (router s) !! port,
   RState (Router (delete port (routes (router s))) (next_source_port (router s))) (chans s)).

(** [retain]'s visit to one entry *)
Definition retain_live (port : Z) (s : RouterState) : RouterState :=
  match routes (router s) !! port with
  | Some conn => if is_disconnected (chans s) (tx conn) then (unregister port s).2 else s
  | None => s
  end.

Definition cleanup_dead (s : RouterState) : RouterState :=
  RState (Router (filter (λ kv, is_disconnected (chans s) (tx kv.2) = false) (routes (router s)))
            (next_source_port (router s)))
         (chans s).

(** The attached connections, [None] for one that is gone; [alive] says which
    weak references [upgrade]. *)
Definition take_all_conns `{MapOrder} (alive : ConnId → bool) (s : RouterState)
  : list (option ConnId) * RouterState :=
  let keys := keys_in_order (routes (router s)) in
  let '(entries, m) := remove_keys keys (routes (router s)) in
  (omap (λ e, (λ c, if alive c then Some c else None) <$> entry_conn e) entries,
   RState (Router m (next_source_port (router s))) (chans s)).

Definition attach_conn (source_port : Z) (conn : ConnId) (s : RouterState) : RouterState :=
  match routes (router s) !! source_port with
  | Some pe =>
      RState (Router (<[source_port := Entry (tx pe) (Some conn)]> (routes (router s)))
                (next_source_port (router s))) (chans s)
  | None => s
  end.

(** [fetch_add] wraps; port 0 is replaced by 1. *)
Definition fetch_port (s : RouterState) : Z * RouterState :=
  let sp := next_source_port (router s) in
  (if decide (sp = 0)%Z then 1%Z else sp,
   RState (Router (routes (router s)) (wrap 16 (sp + 1))) (chans s)).

(** [entry(sp)]: a vacant one gets a new channel. *)
Definition claim_port (sp : Z) (s : RouterState) : option ChanId * RouterState :=
  match routes (router s) !! sp with
  | None =>
      let c := fresh (dom (chans s)) in
      (Some c, RState (Router (<[sp := Entry c None]> (routes (router s))) (next_source_port (router s)))
                 (<[c := Chan [] true]> (chans s)))
  | Some _ => (None, s)
  end.

(** The loop over the probes *)
Fixpoint probe (n : nat) (s : RouterState) : outcome RusbmuxError.t (Z * ChanId) * RouterState :=
  match n with
  | O => (Err RusbmuxError.RanOutOfSourcePort, s)
  | S n =>
      let '(sp, s) := fetch_port s in
      match claim_port sp s with
      | (Some c, s) => (Ok (sp, c), s)
      | (None, s) => probe n s
      end
  end.

Definition register (s : RouterState) : outcome RusbmuxError.t (Z * ChanId) * RouterState :=
  probe MAX_SOURCE_PORT_PROBES (cleanup_dead s).

Definition clear (s : RouterState) : RouterState :=
  RState (Router ∅ (next_source_port (router s))) (chans s).

Inductive RouteResult : Type := Delivered | Blocked | Unregistered | NoConnection.

Definition route_port (packet : UsbDevicePacket) : Z :=
  match tcp_hdr packet with Some h => destination_port h | None => 0 end.

(** The send, while the entry is held: [Unregistered] if the receiver is gone, and the
    entry is about to be removed. *)
Definition route_send (packet : UsbDevicePacket) (s : RouterState) : RouteResult * RouterState :=
  let port := route_port packet in
  match routes (router s) !! port with
  | Some conn =>
      match chans s !! tx conn with
      | Some ch =>
          if rx_alive ch then
            if decide (length (chan_queue ch) < CHANNEL_CAPACITY)
            then (Delivered, RState (router s)
                    (<[tx conn := Chan (chan_queue ch ++ [packet]) true]> (chans s)))
            else (Blocked, s)
          else (Unregistered, s)
      | None => (Unregistered, s)
      end
  | None => (NoConnection, s)
  end.

Definition route (packet : UsbDevicePacket) (s : RouterState) : RouteResult * RouterState :=
  match route_send packet s with
  | (Unregistered, s) => (Unregistered, (unregister (route_port packet) s).2)
  | sent => sent
  end.

(** The receiver's side: [rx.recv()] and the drop of the receiver.  A receiver
    sees the channel closed when no entry holds its sender any more. *)
Definition sender_alive (c : ChanId) (s : RouterState) : bool :=
  existsb (λ kv, bool_decide (tx kv.2 = c)) (map_to_list (routes (router s))).

Inductive RecvResult : Type := Received (p : UsbDevicePacket) | Waiting | Closed.

Definition rx_recv (c : ChanId) (s : RouterState) : RecvResult * RouterState :=
  match chans s !! c with
  | Some (Chan (p :: q) alive) => (Received p, RState (router s) (<[c := Chan q alive]> (chans s)))
  | Some (Chan [] _) | None => (if sender_alive c s then Waiting else Closed, s)
  end.

Definition rx_drop (c : ChanId) (s : RouterState) : RouterState :=
  match chans s !! c with
  | Some ch => RState (router s) (<[c := Chan [] false]> (chans s))
  | None => s
  end.

(** ** The router as a transition system *)

(** What happens to ports and channels. *)
Inductive event : Type :=
| EvClaim (port : Z) (c : ChanId)
| EvUnregister (port : Z)
| EvRoute (p : UsbDevicePacket)
| EvReceive (c : ChanId) (p : UsbDevicePacket)
| EvDrop (c : ChanId).

(** The router's state, and the ports that calls of [register] have drawn from the counter
    and not looked up yet. *)
Record RouterRun : Type := Run { rr_state : RouterState; rr_drawn : list Z }.

(** The atomic steps of all the calls that are under way.  A call of [route] that waits for
    room has not taken its step; one that has found the receiver gone goes on to
    [step_unregister], as do [clear] and [take_all_conns], entry by entry. *)
Inductive router_step : RouterRun → option event → RouterRun → Prop :=
| step_retain s ds port : router_step (Run s ds) None (Run (retain_live port s) ds)
| step_fetch s ds sp s' : fetch_port s = (sp, s') → router_step (Run s ds) None (Run s' (sp :: ds))
| step_claim s ds1 sp ds2 c s' :
    claim_port sp s = (c, s') →
    router_step (Run s (ds1 ++ sp :: ds2)) (EvClaim sp <$> c) (Run s' (ds1 ++ ds2))
| step_unregister s ds port :
    router_step (Run s ds) (Some (EvUnregister port)) (Run (unregister port s).2 ds)
| step_attach s ds port conn : router_step (Run s ds) None (Run (attach_conn port conn s) ds)
| step_route s ds packet r s' :
    route_send packet s = (r, s') → r ≠ Blocked →
    router_step (Run s ds) (Some (EvRoute packet)) (Run s' ds)
| step_recv s ds c p s' :
    rx_recv c s = (Received p, s') → router_step (Run s ds) (Some (EvReceive c p)) (Run s' ds)
| step_rx_drop s ds c : router_step (Run s ds) (Some (EvDrop c)) (Run (rx_drop c s) ds).

Inductive router_steps : RouterRun → list event → RouterRun → Prop :=
| router_nil s : router_steps s [] s
| router_cons s ev s1 tr s' :
    router_step s ev s1 → router_steps s1 tr s' → router_steps s (option_list ev ++ tr) s'.

(** Nothing has happened yet. *)
Definition router_start : RouterRun := Run (RState router_new ∅) [].

(** The packets a trace takes from a channel, and those that it routes to a port. *)
Definition received (c : ChanId) (tr : list event) : list UsbDevicePacket :=
  omap (λ ev, match ev with EvReceive c' p => if decide (c = c') then Some p else None
              | _ => None end) tr.

Definition sent_to (port : Z) (tr : list event) : list UsbDevicePacket :=
  omap (λ ev, match ev with
              | EvRoute p =>
                  match tcp_hdr p with
                  | Some h => if decide (destination_port h = port) then Some p else None
                  | None => None
                  end
              | _ => None
              end) tr.

(** The part of a trace before the port is unregistered *)
Fixpoint until_unregistered (port : Z) (tr : list event) : list event :=
  match tr with
  | [] => []
  | EvUnregister port' as ev :: tr =>
      if decide (port' = port) then [] else ev :: until_unregistered port tr
  | ev :: tr => ev :: until_unregistered port tr
  end.

(** ** The invariant *)

Record router_wf (s : RouterState) : Prop := {
  (** ports are nonzero [u16]s, and so is what the counter can become *)
  wf_ports : ∀ port e, routes (router s) !! port = Some e → (1 ≤ port < 2 ^ 16)%Z;
  wf_next : in_width 16 (next_source_port (router s));
  (** every sender's channel exists, and no two ports share one *)
  wf_chans : ∀ port e, routes (router s) !! port = Some e → is_Some (chans s !! tx e);
  wf_distinct : ∀ p1 p2 e1 e2, routes (router s) !! p1 = Some e1 →
    routes (router s) !! p2 = Some e2 → tx e1 = tx e2 → p1 = p2;
  wf_capacity : ∀ c ch, chans s !! c = Some ch → length (chan_queue ch) ≤ CHANNEL_CAPACITY;
}.

(** The entries whose receiver is alive. *)
Definition live_routes (s : RouterState) : gmap Z PacketEntry :=
  routes (router (cleanup_dead s)).

(** The ports the [n] probes from [next] look at. *)
Fixpoint probed (n : nat) (next : Z) : list Z :=
  match n with
  | O => []
  | S n => (if decide (next = 0)%Z then 1%Z else next) :: probed n (wrap 16 (next + 1))
  end.

(** ** Lemmas *)

Lemma cleanup_dead_lookup s port e :
  routes (router (cleanup_dead s)) !! port = Some e ↔
  routes (router s) !! port = Some e ∧ is_disconnected (chans s) (tx e) = false.
Proof. apply map_lookup_filter_Some. Qed.

Lemma router_wf_sub s r' :
  router_wf s → routes r' ⊆ routes (router s) → in_width 16 (next_source_port r') →
  router_wf (RState r' (chans s)).
Proof.
  intros [Hp Hn Hc Hd Hq] Hsub Hn'.
  assert (Hl : ∀ k e, routes r' !! k = Some e → routes (router s) !! k = Some e)
    by (intros; by eapply lookup_weaken).
  split; simpl; eauto.
Qed.

Lemma router_wf_cleanup s : router_wf s → router_wf (cleanup_dead s).
Proof.
  intros Hwf. apply router_wf_sub; [done| |apply Hwf]. apply map_filter_subseteq.
Qed.

Lemma router_wf_next s n :
  router_wf s → in_width 16 n → router_wf (RState (Router (routes (router s)) n) (chans s)).
Proof. intros. by apply router_wf_sub. Qed.

(** What a successful probe does. *)
Lemma probe_ok n s sp c s' :
  probe n s = (Ok (sp, c), s') →
  sp ∈ probed n (next_source_port (router s)) ∧
  routes (router s) !! sp = None ∧ chans s !! c = None ∧
  routes (router s') = <[sp := Entry c None]> (routes (router s)) ∧
  chans s' = <[c := Chan [] true]> (chans s).
Proof.
  revert s. induction n as [|n IH]; intros s H; simpl in H; [done|]. unfold claim_port in H. simpl in H.
  set (sp0 := if decide (next_source_port (router s) = 0)%Z then 1%Z else _) in *.
  destruct (routes (router s) !! sp0) as [e|] eqn:E.
  - apply IH in H as (Hin & ? & ? & ? & ?). simpl in *. split_and!; try done. set_solver.
  - simplify_eq. simpl. split_and!; try done; [by left|].
    apply not_elem_of_dom. apply is_fresh.
Qed.

Lemma probe_err n s e s' :
  probe n s = (Err e, s') → e = RusbmuxError.RanOutOfSourcePort ∧
  (∀ p, p ∈ probed n (next_source_port (router s)) → is_Some (routes (router s) !! p)) ∧
  routes (router s') = routes (router s) ∧ chans s' = chans s.
Proof.
  revert s. induction n as [|n IH]; intros s H; simpl in H.
  - simplify_eq. split_and!; try done. intros p Hp. by apply elem_of_nil in Hp.
  - unfold claim_port in H. simpl in H. set (sp0 := if decide (next_source_port (router s) = 0)%Z then 1%Z else _) in *.
    destruct (routes (router s) !! sp0) as [e'|] eqn:E; [|by simplify_eq].
    apply IH in H as (-> & Hall & ? & ?). simpl in *. split_and!; try done.
    intros p [->|Hp]%elem_of_cons; [by eexists|]. by apply Hall.
Qed.

Lemma probe_total n s : (∃ sp c s', probe n s = (Ok (sp, c), s')) ∨ (∃ e s', probe n s = (Err e, s')).
Proof.
  revert s. induction n as [|n IH]; intros s; simpl; [eauto|]. unfold claim_port. simpl.
  destruct (routes (router s) !! _); [apply IH|eauto].
Qed.

Lemma probe_next_width n s r s' :
  probe n s = (r, s') → in_width 16 (next_source_port (router s)) →
  in_width 16 (next_source_port (router s')).
Proof.
  revert s. induction n as [|n IH]; intros s H Hw; simpl in H; [by simplify_eq|].
  unfold claim_port in H. simpl in H. destruct (routes (router s) !! _).
  - apply IH in H; [done|]. apply wrap_range. lia.
  - simplify_eq. apply wrap_range. lia.
Qed.

(** Probing passes through consecutive ports. *)
Lemma probed_lookup n next i :
  in_width 16 next → i < n →
  probed n next !! i = Some (let p := wrap 16 (next + Z.of_nat i) in if decide (p = 0)%Z then 1%Z else p).
Proof.
  revert next i. induction n as [|n IH]; intros next i Hw Hi; [lia|]. destruct i as [|i]; simpl.
  - rewrite Z.add_0_r. by rewrite wrap_small.
  - rewrite IH; [|apply wrap_range; lia|lia]. autorewrite with wrap.
    by replace (next + 1 + Z.of_nat i)%Z with (next + Z.of_nat (S i))%Z by lia.
Qed.

Lemma length_probed n next : length (probed n next) = n.
Proof. revert next. induction n; intros; simpl; auto. Qed.

Lemma probed_range n next p :
  in_width 16 next → p ∈ probed n next → (1 ≤ p < 2 ^ 16)%Z.
Proof.
  revert next. induction n as [|n IH]; intros next Hw Hp; [by apply elem_of_nil in Hp|].
  apply elem_of_cons in Hp as [->|Hp]; [case_decide; destruct Hw; lia|].
  apply IH in Hp; [done|]. apply wrap_range. lia.
Qed.

(** Removing all keys of a map, in any order, takes every entry. *)
Lemma remove_keys_all ks (m : gmap Z PacketEntry) :
  ks ≡ₚ (map_to_list m).*1 →
  ∃ es, remove_keys ks m = (es, ∅) ∧ es ≡ₚ (map_to_list m).*2.
Proof.
  revert m. induction ks as [|k ks IH]; intros m Hp; simpl.
  - apply Permutation_nil, fmap_nil_inv in Hp. apply map_to_list_empty_iff in Hp as ->.
    eexists. split; [done|]. by rewrite map_to_list_empty.
  - assert (is_Some (m !! k)) as [e He].
    { assert (k ∈ (map_to_list m).*1) as Hk by (rewrite <- Hp; by left).
      apply list_elem_of_fmap in Hk as ([k' e] & -> & Hk).
      apply elem_of_map_to_list in Hk. by eexists. }
    rewrite He. pose proof (map_to_list_delete m k e He) as Hd.
    destruct (IH (delete k m)) as (es & -> & Hes).
    + rewrite <- Hd in Hp. simpl in Hp. by apply Permutation.Permutation_cons_inv in Hp.
    + eexists. split; [done|]. rewrite <- Hd. simpl. by constructor.
Qed.

Lemma take_all_conns_spec `{MapOrder} alive s r s' :
  take_all_conns alive s = (r, s') →
  s' = RState (Router ∅ (next_source_port (router s))) (chans s) ∧
  r ≡ₚ omap (λ e, (λ c, if alive c then Some c else None) <$> entry_conn e)
         (map_to_list (routes (router s))).*2.
Proof.
  unfold take_all_conns. intros Ht.
  destruct (remove_keys_all (keys_in_order (routes (router s))) (routes (router s)))
    as (es & E & Hes); [apply keys_in_order_perm|].
  rewrite E in Ht. simplify_eq. split; [done|]. by rewrite Hes.
Qed.

Lemma fresh_chan (cs : gmap ChanId Channel) : cs !! fresh (dom cs) = None.
Proof. apply not_elem_of_dom, is_fresh. Qed.

Lemma router_wf_register s r s' : router_wf s → register s = (r, s') → router_wf s'.
Proof.
  intros Hwf%router_wf_cleanup. unfold register. set (s0 := cleanup_dead s) in *.
  intros H. pose proof (probe_next_width _ _ _ _ H (wf_next _ Hwf)) as Hw.
  destruct (probe_total MAX_SOURCE_PORT_PROBES s0) as [(sp & c & s1 & E)|(e & s1 & E)];
    rewrite E in H; simplify_eq.
  - apply probe_ok in E as (Hin & Hn & Hc & Hr & Hcs).
    apply probed_range in Hin; [|apply Hwf]. destruct Hwf as [Wp Wn Wc Wd Wq].
    assert (Hne : ∀ p e, routes (router s0) !! p = Some e → tx e ≠ c)
      by (intros p e He <-; destruct (Wc _ _ He); congruence).
    split; rewrite ?Hr, ?Hcs; try done.
    + intros p e [[-> _]|[_ He]]%lookup_insert_Some; eauto.
    + intros p e [[-> <-]|[_ He]]%lookup_insert_Some; simpl.
      * by rewrite lookup_insert_eq.
      * rewrite lookup_insert_ne by (symmetry; eauto). eauto.
    + intros p1 p2 e1 e2 [[<- <-]|[? H1]]%lookup_insert_Some [[<- <-]|[? H2]]%lookup_insert_Some
        Ht; simpl in *; try done; [symmetry in Ht; by apply Hne in H2|by apply Hne in H1|eauto].
    + intros c' ch [[-> <-]|[_ Hch]]%lookup_insert_Some; [simpl; lia|eauto].
  - apply probe_err in E as (_ & _ & Hr & Hcs). destruct Hwf as [Wp Wn Wc Wd Wq].
    split; rewrite ?Hr, ?Hcs; done.
Qed.

(** Changing a channel's contents within its capacity. *)
Lemma router_wf_chan s c ch :
  router_wf s → length (chan_queue ch) ≤ CHANNEL_CAPACITY →
  router_wf (RState (router s) (<[c := ch]> (chans s))).
Proof.
  intros [Wp Wn Wc Wd Wq] Hch. split; simpl; eauto.
  - intros p e He. rewrite lookup_insert_is_Some. destruct (decide (c = tx e)); eauto.
  - intros c' ch' [[-> <-]|[_ H']]%lookup_insert_Some; eauto.
Qed.

Lemma router_wf_attach s sp c : router_wf s → router_wf (attach_conn sp c s).
Proof.
  intros Hwf. unfold attach_conn. destruct (routes (router s) !! sp) as [pe|] eqn:E; [|done].
  destruct Hwf as [Wp Wn Wc Wd Wq]. split; simpl; try done.
  - intros p e [[-> <-]|[_ He]]%lookup_insert_Some; eauto.
  - intros p e [[-> <-]|[_ He]]%lookup_insert_Some; simpl; eauto.
  - intros p1 p2 e1 e2 [[<- <-]|[? H1]]%lookup_insert_Some [[<- <-]|[? H2]]%lookup_insert_Some Ht;
      simpl in *; eauto.
Qed.

Lemma router_wf_unregister s port : router_wf s → router_wf (unregister port s).2.
Proof. intros Hwf. apply router_wf_sub; [done|apply delete_subseteq|apply Hwf]. Qed.

(** The five ways a packet goes. *)
Lemma route_cases packet s :
  let port := route_port packet in
  (routes (router s) !! port = None ∧ route packet s = (NoConnection, s)) ∨
  ∃ e, routes (router s) !! port = Some e ∧
    ((is_disconnected (chans s) (tx e) = true ∧
        route packet s = (Unregistered, (unregister port s).2)) ∨
     ∃ ch, chans s !! tx e = Some ch ∧ rx_alive ch = true ∧
       ((length (chan_queue ch) < CHANNEL_CAPACITY ∧
          route packet s = (Delivered, RState (router s)
            (<[tx e := Chan (chan_queue ch ++ [packet]) true]> (chans s))))
        ∨ (CHANNEL_CAPACITY ≤ length (chan_queue ch) ∧ route packet s = (Blocked, s)))).
Proof.
  intros port. unfold route, route_send. fold port.
  destruct (routes (router s) !! port) as [e|] eqn:E; [right|by left].
  exists e. split; [done|]. unfold is_disconnected.
  destruct (chans s !! tx e) as [ch|]; [|by left].
  destruct (rx_alive ch) eqn:Ea; [right|by left]. exists ch. split; [done|]. split; [done|].
  case_decide; [left|right]; split; by try lia.
Qed.

Lemma router_wf_route packet s r s' : router_wf s → route packet s = (r, s') → router_wf s'.
Proof.
  intros Hwf H. destruct (route_cases packet s) as
    [[_ E]|(e & _ & [[_ E]|(ch & _ & _ & [[Hl E]|[_ E]])])]; rewrite E in H; simplify_eq; try done.
  - by apply router_wf_unregister.
  - apply router_wf_chan; [done|]. simpl. rewrite length_app. simpl. lia.
Qed.

Lemma rx_recv_cases c s r s' :
  rx_recv c s = (r, s') →
  (s' = s ∧ ∀ p, r ≠ Received p) ∨
  ∃ p q alive, r = Received p ∧ chans s !! c = Some (Chan (p :: q) alive) ∧
    s' = RState (router s) (<[c := Chan q alive]> (chans s)).
Proof.
  unfold rx_recv. intros H. destruct (chans s !! c) as [[[|p q] alive]|] eqn:E;
    try (case_match; simplify_eq; by left).
  simplify_eq. right. eauto 10.
Qed.

Lemma retain_live_cases port s :
  retain_live port s = s ∨
  (retain_live port s = (unregister port s).2 ∧
   ∃ e, routes (router s) !! port = Some e ∧ is_disconnected (chans s) (tx e) = true).
Proof.
  unfold retain_live. destruct (routes (router s) !! port) as [e|] eqn:E; [|by left].
  destruct (is_disconnected _ _) eqn:Ed; [right|by left]. eauto.
Qed.

Lemma fetch_port_spec s sp s' :
  fetch_port s = (sp, s') → in_width 16 (next_source_port (router s)) →
  (1 ≤ sp < 2 ^ 16)%Z ∧ s' = RState (Router (routes (router s)) (next_source_port (router s'))) (chans s) ∧
  in_width 16 (next_source_port (router s')).
Proof.
  unfold fetch_port. intros H Hw. simplify_eq. cbn. split_and!; [..|done|apply wrap_range; lia];
    destruct Hw; case_decide; lia.
Qed.

Lemma claim_port_cases sp s c s' :
  claim_port sp s = (c, s') →
  (c = None ∧ s' = s) ∨
  ∃ c', c = Some c' ∧ routes (router s) !! sp = None ∧ chans s !! c' = None ∧
    s' = RState (Router (<[sp := Entry c' None]> (routes (router s))) (next_source_port (router s)))
           (<[c' := Chan [] true]> (chans s)).
Proof.
  unfold claim_port. destruct (routes (router s) !! sp) eqn:E; intros H; simplify_eq; [by left|].
  right. eexists. split_and!; try done. apply fresh_chan.
Qed.

(** The outcomes of the send. *)
Lemma route_send_cases packet s r s' :
  route_send packet s = (r, s') →
  (s' = s ∧ (r = NoConnection ∧ routes (router s) !! route_port packet = None ∨ r = Blocked ∨
     r = Unregistered ∧ ∃ e, routes (router s) !! route_port packet = Some e ∧
       is_disconnected (chans s) (tx e) = true)) ∨
  r = Delivered ∧ ∃ e ch, routes (router s) !! route_port packet = Some e ∧
    chans s !! tx e = Some ch ∧ rx_alive ch = true ∧ length (chan_queue ch) < CHANNEL_CAPACITY ∧
    s' = RState (router s) (<[tx e := Chan (chan_queue ch ++ [packet]) true]> (chans s)).
Proof.
  unfold route_send, is_disconnected. intros H.
  destruct (routes (router s) !! route_port packet) as [e|] eqn:E; [|simplify_eq; tauto].
  destruct (chans s !! tx e) as [ch|] eqn:Ec;
    [|simplify_eq; left; split; [done|]; right; right; split; [done|]; exists e; by rewrite Ec].
  destruct (rx_alive ch) eqn:Ea;
    [|simplify_eq; left; split; [done|]; right; right; split; [done|]; exists e; by rewrite Ec, Ea].
  case_decide; simplify_eq; [right|left; tauto]. split; [done|]. eauto 10.
Qed.

(** *** The invariant is preserved *)

Lemma router_wf_claim sp s c s' :
  router_wf s → (1 ≤ sp < 2 ^ 16)%Z → claim_port sp s = (c, s') → router_wf s'.
Proof.
  intros Hwf Hsp [[_ ->]|(c' & _ & _ & Hc & ->)]%claim_port_cases; [done|].
  destruct Hwf as [Wp Wn Wc Wd Wq].
  assert (Hne : ∀ p e, routes (router s) !! p = Some e → tx e ≠ c')
    by (intros p e He <-; destruct (Wc _ _ He); congruence).
  split; cbn; try done.
  - intros p e [[<- _]|[_ He]]%lookup_insert_Some; eauto.
  - intros p e [[<- <-]|[_ He]]%lookup_insert_Some; cbn; [by rewrite lookup_insert_eq|].
    rewrite lookup_insert_ne by (symmetry; eauto). eauto.
  - intros p1 p2 e1 e2 [[<- <-]|[? H1]]%lookup_insert_Some [[<- <-]|[? H2]]%lookup_insert_Some
      Ht; cbn in *; try done; [symmetry in Ht; by apply Hne in H2|by apply Hne in H1|eauto].
  - intros c'' ch [[<- <-]|[_ Hch]]%lookup_insert_Some; [cbn; lia|eauto].
Qed.

(** And the ports that are drawn could be registered. *)
Definition run_wf (r : RouterRun) : Prop :=
  router_wf (rr_state r) ∧ Forall (λ sp, (1 ≤ sp < 2 ^ 16)%Z) (rr_drawn r).

Lemma run_wf_step r ev r' : run_wf r → router_step r ev r' → run_wf r'.
Proof.
  intros [Hwf Hd] H. destruct H; cbn in *; (split; cbn; [|try done]).
  - destruct (retain_live_cases port s) as [->|[-> _]]; [done|by apply router_wf_unregister].
  - apply fetch_port_spec in H as (_ & -> & Hn); [|by apply Hwf]. by apply router_wf_next.
  - apply fetch_port_spec in H as (Hsp & _); [|by apply Hwf]. by constructor.
  - eapply router_wf_claim; [done| |done]. apply list.Forall_app in Hd as [_ Hd]. by inversion Hd.
  - apply list.Forall_app in Hd as [Hd1 Hd2]. apply list.Forall_app. split; [done|]. by inversion Hd2.
  - by apply router_wf_unregister.
  - by apply router_wf_attach.
  - apply route_send_cases in H as [[-> _]|(_ & e & ch & _ & _ & _ & Hl & ->)]; [done|].
    apply router_wf_chan; [done|]. cbn. rewrite length_app. cbn. lia.
  - apply rx_recv_cases in H as [[-> _]|(p' & q & a & _ & Hc & ->)]; [done|].
    apply router_wf_chan; [done|]. pose proof (wf_capacity _ Hwf _ _ Hc). cbn in *. lia.
  - unfold rx_drop. destruct (chans s !! c); [|done]. apply router_wf_chan; [done|]. cbn. lia.
Qed.

Lemma run_wf_steps r tr r' : run_wf r → router_steps r tr r' → run_wf r'.
Proof. intros Hwf H. induction H as [|r ev r1 tr r' H1 _ IH]; [done|]. apply IH. by eapply run_wf_step. Qed.

Lemma run_wf_start : run_wf router_start.
Proof. split; [|constructor]. split; try done; cbn; intros *; by rewrite lookup_empty. Qed.

(** *** The operations are schedules of the steps *)

Lemma router_steps_app r tr r1 tr' r' :
  router_steps r tr r1 → router_steps r1 tr' r' → router_steps r (tr ++ tr') r'.
Proof.
  intros H H'. induction H as [|r ev r1 tr r2 H1 _ IH]; [done|].
  rewrite <- app_assoc. by eapply router_cons, IH.
Qed.

Lemma router_steps_once r ev r' : router_step r ev r' → router_steps r (option_list ev) r'.
Proof. intros H. rewrite <- (app_nil_r (option_list ev)). by eapply router_cons, router_nil. Qed.

(** A packet goes only to the channel registered for its destination
    port, behind what is already queued there: no other channel changes, and a
    route whose receiver is gone is removed without touching any other route.  A
    packet without a TCP header, such as a device's error packet, is looked up
    under port 0, which is never registered, and is dropped. *)
Theorem route_isolation packet s r s' :
  router_wf s → route packet s = (r, s') →
  (∀ port e, port ≠ route_port packet → routes (router s) !! port = Some e →
     routes (router s') !! port = Some e ∧ chans s' !! tx e = chans s !! tx e) ∧
  (r = Delivered → ∃ e ch, routes (router s) !! route_port packet = Some e ∧
     chans s !! tx e = Some ch ∧ length (chan_queue ch) < CHANNEL_CAPACITY ∧
     chans s' !! tx e = Some (Chan (chan_queue ch ++ [packet]) true)) ∧
  (r = Blocked ∨ r = NoConnection → s' = s) ∧
  (r = Unregistered → routes (router s') = delete (route_port packet) (routes (router s))) ∧
  (tcp_hdr packet = None → r = NoConnection).
Proof.
  intros Hwf H.
  assert (H0 : tcp_hdr packet = None → routes (router s) !! route_port packet = None).
  { intros Hn. unfold route_port. rewrite Hn.
    destruct (routes (router s) !! 0%Z) as [e|] eqn:E; [|done].
    apply (wf_ports _ Hwf) in E. lia. }
  destruct (route_cases packet s) as
    [[En E]|(e & Ee & [[Ed E]|(ch & Ec & Ea & [[Hl E]|[_ E]])])]; rewrite E in H; simplify_eq;
    split_and!; try done; try (by intros [?|?]); try (intros Hn; specialize (H0 Hn); congruence).
  - intros port e' Hp He'. simpl. by rewrite lookup_delete_ne.
  - intros port e' Hp He'. simpl. split; [done|]. rewrite lookup_insert_ne; [done|].
    intros Ht. apply Hp. symmetry. by eapply (wf_distinct _ Hwf).
  - intros _. exists e, ch. split_and!; try done. simpl. by rewrite lookup_insert_eq.
Qed.

Lemma register_total s :
  (∃ sp c s', register s = (Ok (sp, c), s')) ∨ (∃ e s', register s = (Err e, s')).
Proof. apply probe_total. Qed.

(** A registration adds a channel and changes no other. *)
Lemma register_keeps_chans s r s' c ch :
  register s = (r, s') → chans s !! c = Some ch → chans s' !! c = Some ch.
Proof.
  unfold register. generalize MAX_SOURCE_PORT_PROBES. intros n H Hc.
  assert (Hc' : chans (cleanup_dead s) !! c = Some ch) by exact Hc.
  generalize dependent (cleanup_dead s). intros s0 H Hc0.
  destruct (probe_total n s0) as [(sp & c' & s1 & E)|(e & s1 & E)]; rewrite E in H; simplify_eq.
  - apply probe_ok in E as (_ & _ & Hn & _ & ->).
    rewrite lookup_insert_ne; [done|]. intros ->. congruence.
  - apply probe_err in E as (_ & _ & _ & ->). done.
Qed.

(** Of [n] probes at least [n - 1] look at different ports. *)
Lemma probed_ports_size n next (m : gmap Z PacketEntry) :
  (Z.of_nat n ≤ 2 ^ 16)%Z → in_width 16 next →
  (∀ p, p ∈ probed n next → is_Some (m !! p)) → n ≤ S (size m).
Proof.
  intros Hn Hw Hall.
  set (raw := (λ i, wrap 16 (next + Z.of_nat i)) <$> seq 0 n).
  assert (Hnd : NoDup raw).
  { apply NoDup_fmap_2_strong; [|apply NoDup_seq]. intros i j Hi%elem_of_seq Hj%elem_of_seq E.
    apply (f_equal (λ z, wrap 16 (z - next))) in E. autorewrite with wrap in E.
    replace (next + Z.of_nat i - next)%Z with (Z.of_nat i) in E by lia.
    replace (next + Z.of_nat j - next)%Z with (Z.of_nat j) in E by lia.
    rewrite !wrap_small in E by (split; lia). lia. }
  assert (HX : size (list_to_set raw : gset Z) = n).
  { rewrite size_list_to_set by done. unfold raw. by rewrite length_fmap, length_seq. }
  assert (Hsub : (list_to_set raw : gset Z) ∖ {[0%Z]} ⊆ dom m).
  { intros p [Hp H0]%elem_of_difference. apply elem_of_dom. apply Hall.
    apply elem_of_list_to_set, list_elem_of_fmap in Hp as (i & -> & Hi%elem_of_seq).
    eapply list_elem_of_lookup_2. rewrite (probed_lookup n next i Hw) by lia.
    cbn zeta. rewrite decide_False; [done|]. set_solver. }
  apply subseteq_size in Hsub. rewrite size_dom in Hsub.
  rewrite size_difference_alt, HX in Hsub.
  assert (size ((list_to_set raw : gset Z) ∩ {[0%Z]}) ≤ 1); [|lia].
  rewrite <- (size_singleton (C := gset Z) 0%Z). apply subseteq_size. set_solver.
Qed.

(** [register] forgets the dead connections and then either gives out a
    nonzero 16-bit port that no live connection has, with a new empty channel, or
    fails with [RanOutOfSourcePort] and registers nothing.  It can fail only when
    at least 63 connections are alive: the counter's wrap-around costs one of the
    64 probes. *)
Theorem register_spec s :
  router_wf s →
  (∃ sp c s', register s = (Ok (sp, c), s') ∧ (1 ≤ sp < 2 ^ 16)%Z ∧
     live_routes s !! sp = None ∧ chans s !! c = None ∧
     routes (router s') = <[sp := Entry c None]> (live_routes s) ∧
     chans s' = <[c := Chan [] true]> (chans s)) ∨
  (∃ s', register s = (Err RusbmuxError.RanOutOfSourcePort, s') ∧
     63 ≤ size (live_routes s) ∧ routes (router s') = live_routes s ∧ chans s' = chans s).
Proof.
  intros Hwf. unfold register, live_routes.
  pose proof (wf_next _ (router_wf_cleanup _ Hwf)) as Hw.
  destruct (probe_total MAX_SOURCE_PORT_PROBES (cleanup_dead s))
    as [(sp & c & s1 & E)|(e & s1 & E)]; [left|right].
  - apply probe_ok in E as E'. destruct E' as (Hin & Hn & Hc & Hr & Hcs).
    apply probed_range in Hin; [|done]. by exists sp, c, s1.
  - apply probe_err in E as E'. destruct E' as (-> & Hall & Hr & Hcs). exists s1.
    split_and!; try done. apply probed_ports_size in Hall; [|done..].
    unfold MAX_SOURCE_PORT_PROBES in Hall. lia.
Qed.

(** [take_all_conns] empties the router and returns, in some order, exactly one
    item for each registered port that has a connection attached: the connection
    if it is still alive, [None] if it is gone. *)
Theorem take_all_conns_exact `{MapOrder} alive s r s' :
  take_all_conns alive s = (r, s') →
  routes (router s') = ∅ ∧ chans s' = chans s ∧
  (∀ c, Some c ∈ r ↔ alive c = true ∧
    ∃ port e, routes (router s) !! port = Some e ∧ entry_conn e = Some c) ∧
  length r = length (filter (λ e, is_Some (entry_conn e)) (map_to_list (routes (router s))).*2).
Proof.
  intros (-> & Hr)%take_all_conns_spec. split_and!; try done.
  - intros c. rewrite Hr, list_elem_of_omap. split.
    + intros (e & ([p e'] & -> & He%elem_of_map_to_list)%list_elem_of_fmap & Hc). simpl in *.
      destruct (entry_conn e') as [c'|] eqn:Ec; simplify_eq/=.
      destruct (alive c') eqn:Ea; simplify_eq. eauto.
    + intros (Ha & p & e & He & Hc). exists e. split.
      * apply list_elem_of_fmap. exists (p, e). split; [done|]. by apply elem_of_map_to_list.
      * by rewrite Hc; simpl; rewrite Ha.
  - rewrite Hr. generalize (map_to_list (routes (router s))).*2 as es.
    intros es. induction es as [|e es IH]; [done|]. rewrite filter_cons.
    destruct (entry_conn e) as [c|] eqn:Ec.
    + rewrite decide_True by done. cbn. rewrite Ec. cbn. by rewrite IH.
    + rewrite decide_False by (by intros [? ?]). cbn. by rewrite Ec.
Qed.

Section schedules.
Context {mo : MapOrder} (ds : list Z).

Lemma retain_runs (ks : list Z) s : ∃ m,
  router_steps (Run s ds) [] (Run (RState (Router m (next_source_port (router s))) (chans s)) ds) ∧
  ∀ p e, m !! p = Some e ↔
    routes (router s) !! p = Some e ∧ (p ∈ ks → is_disconnected (chans s) (tx e) = false).
Proof.
  revert s. induction ks as [|k ks IH]; intros s.
  - exists (routes (router s)). split; [destruct s as [[]]; constructor|]. set_solver.
  - destruct (IH (retain_live k s)) as (m & Hrun & Hm). exists m. split.
    + assert (E : next_source_port (router (retain_live k s)) = next_source_port (router s) ∧
        chans (retain_live k s) = chans s) by (by destruct (retain_live_cases k s) as [->|[-> _]]).
      destruct E as [En Ec]. rewrite En, Ec in Hrun. exact (router_cons _ None _ [] _ (step_retain s ds k) Hrun).
    + intros p e. rewrite Hm, elem_of_cons. destruct (retain_live_cases k s) as [E|[E (ek & Hk & Hd)]].
      * rewrite E. unfold retain_live in E. split; [|tauto]. intros [Hp Hks]. split; [done|].
        intros [->|Hin]; [|by apply Hks]. rewrite Hp in E. destruct (is_disconnected _ _) eqn:Ed; [|done].
        apply (f_equal (λ s, routes (router s) !! k)) in E. cbn in E. rewrite lookup_delete_eq in E. congruence.
      * rewrite E. cbn. rewrite lookup_delete_Some. split.
        -- intros ([Hne Hp] & Hks). split; [done|]. intros [->|Hin]; [done|by apply Hks].
        -- intros (Hp & Hks). split; [|tauto]. split; [|done]. intros ->.
           rewrite Hp in Hk. simplify_eq. rewrite Hks in Hd; [done|by left].
Qed.

Lemma cleanup_dead_runs s : router_steps (Run s ds) [] (Run (cleanup_dead s) ds).
Proof.
  destruct (retain_runs (map_to_list (routes (router s))).*1 s) as (m & Hrun & Hm).
  replace (cleanup_dead s) with (RState (Router m (next_source_port (router s))) (chans s)); [done|].
  unfold cleanup_dead. do 2 f_equal. apply map_eq. intros p. apply option_eq. intros e.
  rewrite Hm, map_lookup_filter_Some. cbn. split; intros [Hp He]; (split; [done|]); [|done].
  apply He, list_elem_of_fmap. exists (p, e). split; [done|]. by apply elem_of_map_to_list.
Qed.

(** [register], [take_all_conns], [clear] and [route] are schedules of the atomic steps. *)
Lemma register_runs s r s' :
  register s = (r, s') →
  router_steps (Run s ds) (match r with Ok (sp, c) => [EvClaim sp c] | _ => [] end) (Run s' ds).
Proof.
  unfold register. intros H. apply (router_steps_app _ [] _ _ _ (cleanup_dead_runs s)).
  revert H. generalize (cleanup_dead s). clear s. induction MAX_SOURCE_PORT_PROBES as [|n IH];
    intros s H; cbn in H; [simplify_eq; constructor|].
  set (sp := if decide _ then _ else _) in *. set (s1 := RState _ _) in *.
  assert (Hf : router_step (Run s ds) None (Run s1 (sp :: ds))) by by constructor.
  destruct (claim_port sp s1) as [[c|] s2] eqn:E;
    apply (router_cons _ None _ _ _ Hf).
  - simplify_eq. exact (router_steps_once _ _ _ (step_claim s1 [] sp ds _ _ E)).
  - exact (router_cons _ None _ _ _ (step_claim s1 [] sp ds _ _ E) (IH _ H)).
Qed.

Lemma unregister_runs ks s :
  router_steps (Run s ds) (EvUnregister <$> ks)
    (Run (RState (Router (remove_keys ks (routes (router s))).2 (next_source_port (router s))) (chans s)) ds).
Proof.
  revert s. induction ks as [|k ks IH]; intros s; [destruct s as [[]]; constructor|].
  apply (router_cons _ _ _ _ _ (step_unregister s ds k)).
  replace (remove_keys (k :: ks) (routes (router s))).2
    with (remove_keys ks (delete k (routes (router s)))).2; [apply (IH (unregister k s).2)|].
  cbn. destruct (_ !! k) eqn:E; [by destruct (remove_keys _ _)|]. by rewrite delete_id.
Qed.

Lemma take_all_conns_runs alive s r s' :
  take_all_conns alive s = (r, s') →
  router_steps (Run s ds) (EvUnregister <$> keys_in_order (routes (router s))) (Run s' ds).
Proof.
  intros H. pose proof (unregister_runs (keys_in_order (routes (router s))) s) as Hrun.
  unfold take_all_conns in H. destruct (remove_keys _ _) as [es m]. by simplify_eq.
Qed.

Lemma clear_runs s :
  router_steps (Run s ds) (EvUnregister <$> keys_in_order (routes (router s))) (Run (clear s) ds).
Proof.
  pose proof (unregister_runs (keys_in_order (routes (router s))) s) as Hrun.
  destruct (remove_keys_all _ _ (keys_in_order_perm (routes (router s)))) as (es & E & _).
  by rewrite E in Hrun.
Qed.

Lemma route_runs packet s r s' :
  route packet s = (r, s') → r ≠ Blocked →
  router_steps (Run s ds)
    (EvRoute packet :: match r with Unregistered => [EvUnregister (route_port packet)] | _ => [] end)
    (Run s' ds).
Proof.
  unfold route. destruct (route_send packet s) as [r1 s1] eqn:E. intros H Hr.
  apply (router_cons _ (Some (EvRoute packet)) (Run s1 ds)).
  - apply step_route with r1; [done|]. intros ->. by simplify_eq.
  - destruct r1; simplify_eq; try constructor.
    exact (router_steps_once _ _ _ (step_unregister s1 ds (route_port packet))).
Qed.

End schedules.

(** *** What becomes of one channel *)

(** The port's packets go to the channel, whose receiver is there; and no port's do. *)
Definition serving (sp : Z) (c : ChanId) (s : RouterState) : Prop :=
  ∃ e, routes (router s) !! sp = Some e ∧ tx e = c.

Definition unserved (c : ChanId) (s : RouterState) : Prop :=
  ∀ port e, routes (router s) !! port = Some e → tx e ≠ c.

(** A step moves packets into and out of the channel. *)
Definition moves (c : ChanId) (s : RouterState) (ps qs : list UsbDevicePacket) (s' : RouterState) : Prop :=
  ∀ ch, chans s !! c = Some ch → rx_alive ch = true → ∃ ch', chans s' !! c = Some ch' ∧ rx_alive ch' = true ∧
    chan_queue ch ++ ps = qs ++ chan_queue ch'.

Lemma moves_nothing c s s' : chans s' = chans s → moves c s [] [] s'.
Proof. intros E ch Hc Ha. exists ch. by rewrite E, app_nil_r. Qed.

Lemma moves_other c c' ch s s' : c ≠ c' → chans s' = <[c' := ch]> (chans s) → moves c s [] [] s'.
Proof. intros Hne E ch0 Hc Ha. exists ch0. by rewrite E, lookup_insert_ne, app_nil_r. Qed.

Lemma moves_recv c c' p s s' :
  rx_recv c' s = (Received p, s') → moves c s [] (if decide (c = c') then [p] else []) s'.
Proof.
  intros [[-> Hn]|(p' & q & a & Hp & Hc & ->)]%rx_recv_cases; [by destruct (Hn p)|]. simplify_eq.
  case_decide as E; [|by eapply moves_other]. subst c'. intros ch Hc' Ha. simplify_eq. cbn in *.
  exists (Chan q a). by rewrite lookup_insert_eq, app_nil_r.
Qed.

Lemma sent_to_route sp p :
  (1 ≤ sp)%Z → sent_to sp [EvRoute p] = if decide (route_port p = sp) then [p] else [].
Proof.
  intros Hsp. unfold sent_to, route_port. cbn. destruct (tcp_hdr p); [by case_decide|].
  rewrite decide_False; [done|lia].
Qed.

(** While a port is served a step keeps it so, unless it unregisters it; what is routed to
    the port goes into the channel. *)
Lemma serving_step r ev r' sp c :
  router_wf (rr_state r) → serving sp c (rr_state r) → (1 ≤ sp)%Z → router_step r ev r' →
  (∃ ch, chans (rr_state r) !! c = Some ch ∧ rx_alive ch = true) → ev ≠ Some (EvDrop c) →
  moves c (rr_state r) (sent_to sp (option_list ev)) (received c (option_list ev)) (rr_state r') ∧
  (ev ≠ Some (EvUnregister sp) → serving sp c (rr_state r')).
Proof.
  intros Hwf (e & He & <-) Hsp H (ch & Hch & Ha) Hev.
  destruct H as [s ds port|s ds sp' s' H|s ds1 sp' ds2 c' s' H|s ds port|s ds port conn|s ds packet r s' H Hr
    |s ds c' p s' H|s ds c']; cbn [rr_state rr_drawn] in *.
  - destruct (retain_live_cases port s) as [->|[-> (e' & He' & Hd)]];
      (split; [by apply moves_nothing|]); intros _; [by exists e|].
    exists e. split; [|done]. cbn. rewrite lookup_delete_ne; [done|]. intros ->. simplify_eq.
    unfold is_disconnected in Hd. rewrite Hch, Ha in Hd. done.
  - unfold fetch_port in H. simplify_eq. split; [by apply moves_nothing|]. intros _. by exists e.
  - apply claim_port_cases in H as [[-> ->]|(c'' & -> & Hn & Hc & ->)].
    + split; [by apply moves_nothing|]. intros _. by exists e.
    + split; [eapply moves_other; [|done]; congruence|]. intros _. exists e. cbn.
      by rewrite lookup_insert_ne by congruence.
  - split; [by apply moves_nothing|]. intros Hne. exists e. cbn. split; [|done].
    rewrite lookup_delete_ne; [done|]. congruence.
  - unfold attach_conn. destruct (routes (router s) !! port) as [pe|] eqn:E;
      (split; [by apply moves_nothing|]); intros _; [|by exists e]. cbn.
    destruct (decide (port = sp)) as [->|Hne].
    + simplify_eq. eexists. cbn. by rewrite lookup_insert_eq.
    + exists e. cbn. by rewrite lookup_insert_ne.
  - change (option_list (Some (EvRoute packet))) with [EvRoute packet]. rewrite sent_to_route by done.
    apply route_send_cases in H as [[-> Hcase]|(-> & e' & ch' & He' & Hc' & Ha' & Hl & ->)].
    + split; [|intros _; by exists e]. rewrite decide_False; [by apply moves_nothing|]. intros Hp.
      rewrite Hp in Hcase. destruct Hcase as [[_ Hn]|[?|[_ (e' & He' & Hd)]]]; [congruence|done|].
      simplify_eq. unfold is_disconnected in Hd. rewrite Hch, Ha in Hd. done.
    + split; [|intros _; by exists e]. case_decide as Hp.
      * rewrite Hp in He'. simplify_eq. intros ch0 Hch0 _. simplify_eq.
        eexists. cbn. by rewrite lookup_insert_eq.
      * eapply moves_other; [|done]. intros Ht. apply Hp. symmetry.
        by eapply (wf_distinct _ Hwf).
  - split; [|intros _; exists e; by apply rx_recv_cases in H as [[-> _]|(? & ? & ? & _ & _ & ->)]].
    apply moves_recv with (c := tx e) in H. cbn. unfold received. cbn. by case_decide.
  - assert (tx e ≠ c') by congruence. unfold rx_drop.
    destruct (chans s !! c'); (split; [|intros _; by exists e]); [by eapply moves_other|by apply moves_nothing].
Qed.

Lemma unserved_unregister c port s : unserved c s → unserved c (unregister port s).2.
Proof. intros Hu p e He. cbn in He. apply lookup_delete_Some in He as [_ He]. by eapply Hu. Qed.

Lemma unserved_insert c port e s s' :
  unserved c s → tx e ≠ c → routes (router s') = <[port := e]> (routes (router s)) → unserved c s'.
Proof.
  intros Hu Hne E p e' He. rewrite E in He. apply lookup_insert_Some in He as [[_ <-]|[_ He]]; [done|].
  by eapply Hu.
Qed.

(** Once it is not served nothing is added to the channel. *)
Lemma unserved_step r ev r' c :
  unserved c (rr_state r) → router_step r ev r' → is_Some (chans (rr_state r) !! c) →
  ev ≠ Some (EvDrop c) →
  moves c (rr_state r) [] (received c (option_list ev)) (rr_state r') ∧ unserved c (rr_state r').
Proof.
  intros Hu H [ch Hch] Hev.
  destruct H as [s ds port|s ds sp' s' H|s ds1 sp' ds2 c' s' H|s ds port|s ds port conn|s ds packet r s' H Hr
    |s ds c' p s' H|s ds c']; cbn [rr_state rr_drawn] in *.
  - destruct (retain_live_cases port s) as [->|[-> _]]; (split; [by apply moves_nothing|]); [done|].
    by apply unserved_unregister.
  - unfold fetch_port in H. simplify_eq. by split; [apply moves_nothing|].
  - apply claim_port_cases in H as [[-> ->]|(c'' & -> & Hn & Hc & ->)]; [by split; [apply moves_nothing|]|].
    split; [eapply moves_other; [|done]; congruence|]. eapply unserved_insert; [done| |done].
    cbn. congruence.
  - split; [by apply moves_nothing|]. by apply unserved_unregister.
  - unfold attach_conn. destruct (routes (router s) !! port) as [pe|] eqn:E;
      (split; [by apply moves_nothing|]); [|done].
    eapply unserved_insert; [done| |done]. cbn. by apply (Hu _ _ E).
  - apply route_send_cases in H as [[-> _]|(_ & e' & ch' & He' & _ & _ & _ & ->)].
    + by split; [apply moves_nothing|].
    + split; [|exact Hu]. eapply moves_other; [|done]. intros E. by apply (Hu _ _ He').
  - split; [|apply rx_recv_cases in H as [[-> _]|(? & ? & ? & _ & _ & ->)]; exact Hu].
    apply moves_recv with (c := c) in H. cbn. unfold received. cbn. by case_decide.
  - assert (c ≠ c') by congruence. unfold rx_drop.
    destruct (chans s !! c'); (split; [|exact Hu]); [by eapply moves_other|by apply moves_nothing].
Qed.

Lemma unserved_after s sp c : router_wf s → serving sp c s → unserved c (unregister sp s).2.
Proof.
  intros Hwf (e & He & <-) p e' He' Ht. cbn in He'. apply lookup_delete_Some in He' as [Hne He'].
  apply Hne. symmetry. by eapply (wf_distinct _ Hwf).
Qed.

Lemma unregister_step r port r' :
  router_step r (Some (EvUnregister port)) r' → rr_state r' = (unregister port (rr_state r)).2.
Proof.
  intros H. remember (Some (EvUnregister port)) as ev eqn:E. destruct H as [| |s ds1 sp ds2 [c|] s' H| | | | |];
    by simplify_eq.
Qed.

Lemma until_unregistered_app sp ev tr :
  ev ≠ Some (EvUnregister sp) →
  until_unregistered sp (option_list ev ++ tr) = option_list ev ++ until_unregistered sp tr.
Proof. destruct ev as [[]|]; intros H; try done. cbn. rewrite decide_False; [done|congruence]. Qed.

Lemma drop_split c ev tr : EvDrop c ∉ option_list ev ++ tr → ev ≠ Some (EvDrop c) ∧ EvDrop c ∉ tr.
Proof. rewrite elem_of_app. intros H. split; [intros ->; apply H; left; by left|tauto]. Qed.

Lemma received_app c tr tr' : received c (tr ++ tr') = received c tr ++ received c tr'.
Proof. apply omap_app. Qed.

Lemma unserved_steps c r tr r' :
  router_steps r tr r' → EvDrop c ∉ tr → unserved c (rr_state r) →
  moves c (rr_state r) [] (received c tr) (rr_state r').
Proof.
  induction 1 as [r|r ev r1 tr r' H1 _ IH]; intros Hd Hu; [by apply moves_nothing|].
  apply drop_split in Hd as [Hev Hd]. intros ch Hc Ha.
  destruct (unserved_step _ _ _ _ Hu H1 (mk_is_Some _ _ Hc) Hev) as [Hm Hu1].
  destruct (Hm ch Hc Ha) as (ch1 & Hc1 & Ha1 & E1).
  destruct (IH Hd Hu1 ch1 Hc1 Ha1) as (ch' & Hc' & Ha' & E'). exists ch'. split; [done|]. split; [done|].
  rewrite app_nil_r in E', E1 |- *. by rewrite received_app, E1, <- app_assoc, E'.
Qed.

Lemma serving_steps sp c r tr r' :
  router_steps r tr r' → run_wf r → EvDrop c ∉ tr → (1 ≤ sp)%Z → serving sp c (rr_state r) →
  (∃ ch, chans (rr_state r) !! c = Some ch ∧ rx_alive ch = true) →
  moves c (rr_state r) (sent_to sp (until_unregistered sp tr)) (received c tr) (rr_state r') ∧
  (EvUnregister sp ∉ tr → serving sp c (rr_state r')).
Proof.
  induction 1 as [r|r ev r1 tr r' H1 Hs IH]; intros Hwf Hd Hsp Hsv Halive; [by split; [apply moves_nothing|]|].
  apply drop_split in Hd as [Hev Hd].
  destruct (serving_step _ _ _ _ _ (proj1 Hwf) Hsv Hsp H1 Halive Hev) as [Hm Hsv1].
  destruct Halive as (ch & Hc & Ha). destruct (Hm ch Hc Ha) as (ch1 & Hc1 & Ha1 & E1).
  assert (ev = Some (EvUnregister sp) ∨ ev ≠ Some (EvUnregister sp)) as [->|Hne].
  { destruct ev as [[| port | | |]|]; try by right. destruct (decide (port = sp)) as [->|]; [by left|].
    right. congruence. }
  - split; [|intros Hn; destruct Hn; by left]. intros ch0 Hc0 _. simplify_eq.
    apply unserved_steps with (c := c) in Hs as Hm'; [|done|rewrite (unregister_step _ _ _ H1);
      by apply unserved_after; [apply Hwf|]].
    cbn in E1. destruct (Hm' ch1 Hc1 Ha1) as (ch' & Hc' & Ha' & E'). exists ch'.
    split; [done|]. split; [done|]. cbn. rewrite decide_True by done. cbn.
    rewrite app_nil_r in E1, E' |- *. rewrite E1. exact E'.
  - destruct IH as [Hm' Hsv']; [by eapply run_wf_step|done..|by apply Hsv1|by eauto|].
    destruct (Hm' ch1 Hc1 Ha1) as (ch' & Hc' & Ha' & E'). split.
    + intros ch0 Hc0 _. simplify_eq. exists ch'. split; [done|]. split; [done|].
      rewrite until_unregistered_app by done. unfold sent_to at 1. rewrite omap_app, received_app, app_assoc.
      fold (sent_to sp). unfold sent_to in E1 at 1. rewrite E1, <- !app_assoc. by f_equal.
    + intros Hn. apply Hsv'. intros Hin. apply Hn, elem_of_app. by right.
Qed.

Lemma router_steps_split r tr1 tr2 r' :
  router_steps r (tr1 ++ tr2) r' → ∃ r1, router_steps r tr1 r1 ∧ router_steps r1 tr2 r'.
Proof.
  remember (tr1 ++ tr2) as tr eqn:E. intros H. revert tr1 E.
  induction H as [r|r ev r1 tr r' H1 Hs IH]; intros tr1 E.
  - apply eq_sym, app_eq_nil in E as [-> ->]. exists r. by split; constructor.
  - destruct ev as [ev|]; cbn in E.
    + destruct tr1 as [|ev1 tr1]; cbn in E.
      * subst tr2. exists r. split; [constructor|]. exact (router_cons _ (Some ev) _ _ _ H1 Hs).
      * injection E as <- E. destruct (IH tr1 E) as (r2 & H2 & H3). exists r2. split; [|done].
        exact (router_cons _ (Some ev) _ _ _ H1 H2).
    + destruct (IH tr1 E) as (r2 & H2 & H3). exists r2. split; [|done].
      exact (router_cons _ None _ _ _ H1 H2).
Qed.

Lemma router_steps_first r ev tr r' :
  router_steps r (ev :: tr) r' → ∃ r1 r2, router_steps r [] r1 ∧ router_step r1 (Some ev) r2 ∧
    router_steps r2 tr r'.
Proof.
  remember (ev :: tr) as tr' eqn:E. intros H. induction H as [r|r [ev'|] r1 tr'' r' H1 Hs IH]; [done|..]; cbn in E.
  - simplify_eq. exists r, r1. split; [constructor|done].
  - destruct (IH E) as (r2 & r3 & H2 & H3 & H4). exists r2, r3. split; [|done].
    exact (router_cons _ None _ _ _ H1 H2).
Qed.

(** *** Theorems *)

(** C17.  In every state the router can get into, by any interleaving of the atomic steps of
    its operations with the receivers', the registered ports are nonzero 16-bit numbers, every
    registered port has a channel of its own, and no channel holds more packets than its
    capacity. *)
Theorem router_steps_wf tr r : router_steps router_start tr r → router_wf (rr_state r).
Proof. intros H. exact (proj1 (run_wf_steps _ _ _ run_wf_start H)). Qed.

(** C18.  A registered connection gets its packets.  In any interleaving of the atomic
    steps, from the moment a port is registered and for as long as the receiver is there: what
    the receiver has taken followed by what is queued is, in order, each packet routed since
    whose TCP destination port is that port, up to where the port is unregistered; and it is
    not unregistered unless [unregister], [clear] or [take_all_conns] does so. *)
Theorem routed_in_order tr1 sp c tr2 r :
  router_steps router_start (tr1 ++ EvClaim sp c :: tr2) r → EvDrop c ∉ tr2 →
  ∃ ch, chans (rr_state r) !! c = Some ch ∧
    received c tr2 ++ chan_queue ch = sent_to sp (until_unregistered sp tr2) ∧
    (EvUnregister sp ∉ tr2 → ∃ e, routes (router (rr_state r)) !! sp = Some e ∧ tx e = c).
Proof.
  intros (r1 & H1 & H2)%router_steps_split Hd. apply router_steps_first in H2 as (r2 & r3 & H2 & Hc & H3).
  pose proof (run_wf_steps _ _ _ (run_wf_steps _ _ _ run_wf_start H1) H2) as Hwf.
  pose proof (run_wf_step _ _ _ Hwf Hc) as Hwf3. inversion Hc as [| |s ds1 sp' ds2 c' s' E| | | | |]; subst.
  destruct c' as [c'|]; simplify_eq/=.
  apply claim_port_cases in E as [[[=] _]|(c'' & [= <-] & _ & _ & ->)].
  assert (Hsp : (1 ≤ sp)%Z) by (destruct Hwf as [_ [_ Hf]%list.Forall_app]; inversion Hf; subst; lia).
  destruct (serving_steps sp c _ _ _ H3 Hwf3 Hd Hsp) as [Hm Hsv].
  - eexists. cbn. by rewrite lookup_insert_eq.
  - eexists. cbn. by rewrite lookup_insert_eq.
  - destruct (Hm (Chan [] true)) as (ch & Hch & _ & E); [cbn; by rewrite lookup_insert_eq|done|].
    exists ch. split; [done|]. split; [by rewrite <- E|]. exact Hsv.
Qed.
