(* ===== verification/Loops.v ===== *)
(** * The USB device's tasks ([src/device/usb.rs])

    Opening a device negotiates a version over its endpoints ([negotiate]); then
    the reader loop turns the bytes the device sends into packets and hands them
    to the router, and the writer loop takes packets off the connections' queue,
    numbers them and writes their bytes.  One turn of either loop is a function;
    a loop runs it until it stops.  The endpoints are [stream]s or any reader. *)

From S2P Require Import Prelude Io Tcp Utf8 DeviceMux Plist Builder Errors Router.

Section loops.
Context {codec : TcpCodec}.

(** ** Opening a device *)

(** [flush]: it can fail as a write of nothing can. *)
Definition flush : stateful stream ErrorKind () := write_all [].

Definition version_timeout : RusbmuxError.t :=
  RusbmuxError.UnexpectedPacket "Expected to receive a version packet within 3s".

(** The packets other than a version packet are dropped; [in_time] is how many
    packets the device gets through within the three seconds. *)
Fixpoint await_version (in_time : nat)
  : stateful stream RusbmuxError.t UsbDevicePacketVersion :=
  match in_time with
  | O => st_lift (Err version_timeout)
  | S in_time =>
      let! version_response := st_map_err RusbmuxError.Parse packet_from_reader in
      match DeviceMux.payload version_response with
      | PayloadVersion v => st_ret v
      | _ => await_version in_time
      end
  end.

Definition version_packet : UsbDevicePacket :=
  build (payload_version 2 0 (header_version builder_new)).

Definition setup_packet : UsbDevicePacket :=
  build (payload_bytes [Byte.x07] (header_setup builder_new)).

(** The exchange of [UsbDevice::new_with_disconnect_tx], its two endpoints as one
    stream. *)
Definition negotiate (in_time : nat) : stateful stream RusbmuxError.t UsbDevicePacketVersion :=
  let! _ := st_map_err RusbmuxError.IO (write_all (packet_encode version_packet)) in
  let! _ := st_map_err RusbmuxError.IO flush in
  let! version := await_version in_time in
  let! _ := st_map_err RusbmuxError.IO (write_all (packet_encode setup_packet)) in
  let! _ := st_map_err RusbmuxError.IO flush in
  st_ret version.

(** ** The reader loop *)

Record IODisconnectedDevice : Type := IODisconnected {
  disconnected_id : Z;
  opaque_id : Z;
}.

Section reader.
Context {R : Type} {reader : ByteReader R ErrorKind}.

(** What the task has: its endpoint, the router, the counter it shares with the
    writer loop, and the notifications it has sent. *)
Record reader_state : Type := Reading {
  end_in : R;
  rd_router : RouterState;
  recv_seq : Z;
  notified : list IODisconnectedDevice;
}.

(** [Stalled p]: the loop waits for room in [p]'s channel. *)
Inductive turn : Type := Continue | Break | Stalled (p : UsbDevicePacket) | Died.

Definition is_rst (p : UsbDevicePacket) : option TcpHeader :=
  match tcp_hdr p with Some t => if rst t then Some t else None | None => None end.

(** What a packet does to the router, once it has been read: a reset removes the
    route of its destination port, anything else, error packets included, is
    routed. *)
Definition handle_packet (packet : UsbDevicePacket) (r : RouterState) : turn * RouterState :=
  match is_rst packet with
  | Some t => (Continue, (unregister (destination_port t) r).2)
  | None =>
      let '(res, r') := route packet r in
      (match res with Blocked => Stalled packet | _ => Continue end, r')
  end.

Definition reader_turn (notify : bool) (device_id opaque : Z) (s : reader_state)
  : turn * reader_state :=
  match packet_from_reader (end_in s) with
  | (Ok packet, r) =>
      let '(t, router') := handle_packet packet (rd_router s) in
      (t, Reading r router' (wrap 16 (recv_seq s + 1)) (notified s))
  | (Err (ParseError.IO _), r) =>
      (Break, Reading r (clear (rd_router s)) (recv_seq s)
         (if notify then notified s ++ [IODisconnected device_id opaque] else notified s))
  | (Err _, r) => (Continue, Reading r (rd_router s) (recv_seq s) (notified s))
  | (Panic, r) | (Ub, r) => (Died, Reading r (rd_router s) (recv_seq s) (notified s))
  end.

Fixpoint start_reader_loop (fuel : nat) (notify : bool) (device_id opaque : Z) (s : reader_state)
  : turn * reader_state :=
  match fuel with
  | O => (Continue, s)
  | S fuel =>
      match reader_turn notify device_id opaque s with
      | (Continue, s') => start_reader_loop fuel notify device_id opaque s'
      | (t, s') => (t, s')
      end
  end.

End reader.

(** ** The writer loop *)

(** How [write_all] ends: it may also wait for ever. *)
Inductive write_end : Type := Written | WriteFailed | WriteStalls | WritePanics.

(** What the writer loop asks of its endpoint: [submit_end] ends the transfer that the
    bytes written so far belong to. *)
Class EndpointOut (W : Type) : Type := {
  out_write : list byte → W → write_end * W;
  submit_end : W → W;
}.

(** The contract: an endpoint that works takes what is written, up to a size, as one
    transfer, and at its end the device has it. *)
Class EndpointOutLaws (W : Type) `{EndpointOut W} : Type := {
  out_works : W → Prop;
  out_sent : W → list (list byte);
  out_current : W → list byte;
  out_takes : nat → Prop;
  out_takes_le : ∀ m n, m ≤ n → out_takes n → out_takes m;
  out_write_works : ∀ bs w, out_works w → out_takes (length (out_current w ++ bs)) →
    ∃ w', out_write bs w = (Written, w') ∧ out_works w' ∧ out_sent w' = out_sent w ∧
      out_current w' = out_current w ++ bs;
  submit_end_works : ∀ w, out_works w → out_current w ≠ [] →
    out_works (submit_end w) ∧ out_sent (submit_end w) = out_sent w ++ [out_current w] ∧
    out_current (submit_end w) = [];
}.

(** An endpoint made of a stream, which holds the transfer that is being written. *)
Record endpoint_out : Type := EndOut {
  out : stream;
  ended : list (list byte);
}.

#[export] Instance stream_endpoint : EndpointOut endpoint_out := {
  out_write bs e :=
    match write_all bs (out e) with
    | (Ok _, s) => (Written, EndOut s (ended e))
    | (_, s) => (WriteFailed, EndOut s (ended e))
    end;
  submit_end e :=
    EndOut (Stream (s_in (out e)) (s_end (out e)) [] (s_faults (out e))) (ended e ++ [s_out (out e)]);
}.

#[export, refine] Instance stream_endpoint_laws : EndpointOutLaws endpoint_out := {|
  out_works e := s_faults (out e) = [];
  out_sent := ended;
  out_current e := s_out (out e);
  out_takes _ := True;
|}.
Proof.
  - done.
  - intros bs e Hf _. eexists. cbn. rewrite write_all_faultless by done. split_and!; done.
  - intros e Hf _. done.
Defined.

Section writer.
Context {W : Type} {endpoint : EndpointOut W}.

Record writer_state : Type := Writing {
  send_seq : Z;
  end_out : W;
}.

Inductive written : Type := Wrote | HeaderFailed | WriterStalls | WriterDied.

(** The sequence numbers of a version-2 header are filled in here. *)
Definition renumber (send recv : Z) (p : UsbDevicePacket) : UsbDevicePacket :=
  match header p with
  | V2 v2 => Packet (V2 (HeaderV2 (v2_protocol v2) (v2_length v2) (v2_magic v2) send recv))
               (tcp_hdr p) (DeviceMux.payload p)
  | V1 _ => p
  end.

(** The bytes of the headers: [hbuf[16..].copy_from_slice] panics unless the TCP
    header has no options. *)
Definition header_bytes (p : UsbDevicePacket) : option (list byte) :=
  match header p, tcp_hdr p with
  | V1 h, _ => Some (header_v1_encode h)
  | V2 h, None => Some (header_v2_encode h)
  | V2 h, Some t =>
      if decide (length (tcp_to_bytes t) = TCP_MIN_LEN)
      then Some (header_v2_encode h ++ tcp_to_bytes t) else None
  end.

(** [send_seq += 1] on a [u16] *)
Definition incr_u16 (overflow_checks : bool) (z : Z) : option Z :=
  if overflow_checks && bool_decide (z = U16_MAX) then None else Some (wrap 16 (z + 1)).

(** One packet; [recv] is the value of [recv_seq] the loop loads for it. *)
Definition writer_turn (overflow_checks : bool) (packet : UsbDevicePacket) (recv : Z)
    (s : writer_state) : written * writer_state :=
  let packet' := renumber (send_seq s) recv packet in
  match (match header packet with
         | V2 _ => incr_u16 overflow_checks (send_seq s)
         | V1 _ => Some (send_seq s)
         end) with
  | None => (WriterDied, s)
  | Some next =>
      match header_bytes packet' with
      | None => (WriterDied, Writing next (end_out s))
      | Some hbuf =>
          match out_write hbuf (end_out s) with
          | (Written, o) =>
              match out_write (payload_encode (DeviceMux.payload packet')) o with
              | (Written, o) | (WriteFailed, o) => (Wrote, Writing next (submit_end o))
              | (WriteStalls, o) => (WriterStalls, Writing next o)
              | (WritePanics, o) => (WriterDied, Writing next o)
              end
          | (WriteFailed, o) => (HeaderFailed, Writing next o)
          | (WriteStalls, o) => (WriterStalls, Writing next o)
          | (WritePanics, o) => (WriterDied, Writing next o)
          end
      end
  end.

(** The loop over the packets that come off the queue, each with the [recv_seq]
    it met, until the queue is closed; [false] when it ends or waits for ever before. *)
Fixpoint start_writer_loop (overflow_checks : bool) (packets : list (UsbDevicePacket * Z))
    (s : writer_state) : bool * writer_state :=
  match packets with
  | [] => (true, s)
  | (p, recv) :: ps =>
      match writer_turn overflow_checks p recv s with
      | (WriterDied, s') | (WriterStalls, s') => (false, s')
      | (_, s') => start_writer_loop overflow_checks ps s'
      end
  end.

(** The counter starts at 1. *)
Definition writer_init (o : W) : writer_state := Writing 1 o.

End writer.

(** ** Specification *)

(** The packets as they are to be seen on the wire. *)
Fixpoint numbered (seq : Z) (packets : list (UsbDevicePacket * Z)) : list UsbDevicePacket :=
  match packets with
  | [] => []
  | (p, recv) :: ps =>
      renumber seq recv p ::
      numbered (match header p with V2 _ => wrap 16 (seq + 1) | V1 _ => seq end) ps
  end.

(** Handling packets in turn, none of which has to wait. *)
Definition handle_all (ps : list UsbDevicePacket) (r : RouterState) : RouterState :=
  fold_left (λ r p, (handle_packet p r).2) ps r.

Fixpoint never_stalls (ps : list UsbDevicePacket) (r : RouterState) : Prop :=
  match ps with
  | [] => True
  | p :: ps => (handle_packet p r).1 = Continue ∧ never_stalls ps (handle_packet p r).2
  end.

(** The bytes of a sequence of packets. *)
Definition wire (ps : list UsbDevicePacket) : list byte := ps ≫= packet_encode.

(** Packets the loops transport faithfully: well formed, without TCP options. *)
Definition sendable_packet (p : UsbDevicePacket) : Prop :=
  packet_ok p ∧ ∀ h, tcp_hdr p = Some h → options h = [].

(** Reading packets off a byte string, one after the other. *)
Fixpoint read_all (n : nat) (bs : list byte) : option (list UsbDevicePacket * list byte) :=
  match n with
  | O => Some ([], bs)
  | S n =>
      match packet_from_slice bs with
      | (Ok p, bs') => '(ps, r) ← read_all n bs'; Some (p :: ps, r)
      | _ => None
      end
  end.

(** How many of the packets use up a sequence number. *)
Definition count_v2 (packets : list (UsbDevicePacket * Z)) : nat :=
  length (filter (λ p, is_Some (as_v2 (header p.1))) packets).

End loops.
Arguments reader_state : clear implicits.
Arguments turn : clear implicits.
Arguments writer_state : clear implicits.

(** ** Lemmas *)

Section lemmas.
Context {codec : TcpCodec} {laws : TcpCodecLaws}.

Lemma wire_cons p ps : wire (p :: ps) = packet_encode p ++ wire ps.
Proof. done. Qed.

Lemma sendable_read {R} {reader : ByteReader R ErrorKind} {rlaws : ByteReaderLaws R ErrorKind} p (r : R) rest :
  sendable_packet p → reader_data r = packet_encode p ++ rest →
  ∃ r', packet_from_reader r = (Ok p, r') ∧ reader_data r' = rest.
Proof.
  intros [Hok Ho] Hr. apply reader_iff_slice. split; [|done]. rewrite Hr.
  by apply slice_parses_encode.
Qed.

Lemma header_ok_renumber send recv p :
  in_width 16 send → in_width 16 recv → header_ok (header p) →
  header_ok (header (renumber send recv p)).
Proof. intros ? ?. unfold renumber. destruct (header p) as [h|h] eqn:E; simpl; rewrite ?E; naive_solver. Qed.

Lemma renumber_ok send recv p :
  in_width 16 send → in_width 16 recv → sendable_packet p → sendable_packet (renumber send recv p).
Proof.
  intros Hs Hr [(Hok & pr & Hp & Hpl & Ht & Hl) Ho].
  pose proof (header_ok_renumber send recv p Hs Hr Hok) as Hok'.
  unfold renumber in *. destruct (header p) as [h|h] eqn:E; simpl in *.
  - split; [|done]. split; [by rewrite E|]. exists pr. by rewrite E.
  - split; [|done]. split; [done|]. exists pr. done.
Qed.

Lemma header_bytes_sendable p : sendable_packet p →
  ∃ bs, header_bytes p = Some bs ∧ packet_encode p = bs ++ payload_encode (DeviceMux.payload p).
Proof.
  intros [(Hok & pr & Hp & Hpl & Ht & Hl) Ho]. unfold header_bytes, packet_encode.
  destruct (header p) as [h|h] eqn:E; cbn [header_encode].
  - destruct (tcp_hdr p) as [t|]; [|by eexists].
    destruct Ht as [-> _]. destruct (header_ok_protocol (V1 h) Hok) as (pr & Hp' & _ & ->).
    rewrite Hp in Hp'. done.
  - destruct (tcp_hdr p) as [t|]; [|by eexists]. destruct Ht as [_ Hwf].
    rewrite decide_True.
    + eexists. split; [done|]. by rewrite app_assoc.
    + rewrite length_tcp_to_bytes by done. unfold tcp_header_len. rewrite (Ho t) by done.
      done.
Qed.

Lemma header_bytes_nonempty p bs : header_bytes p = Some bs → bs ≠ [].
Proof.
  unfold header_bytes. intros H E. subst bs.
  destruct (header p), (tcp_hdr p); try case_decide; simplify_eq;
    match goal with H : _ = [] |- _ => apply (f_equal length) in H; vm_compute in H; discriminate end.
Qed.

Lemma as_v2_renumber send recv p : is_Some (as_v2 (header (renumber send recv p))) ↔
  is_Some (as_v2 (header p)).
Proof. unfold renumber. destruct (header p) as [h|h] eqn:E; simpl; [by rewrite E|]. done. Qed.

Lemma numbered_sendable seq ps :
  in_width 16 seq → Forall (λ p, sendable_packet p.1 ∧ in_width 16 p.2) ps →
  Forall sendable_packet (numbered seq ps).
Proof.
  intros Hseq H. revert seq Hseq. induction H as [|[p r] ps [Hp Hr] _ IH]; intros seq Hseq; simpl;
    constructor.
  - by apply renumber_ok.
  - apply IH. destruct (header p); [done|]. apply wrap_range. lia.
Qed.

Lemma read_all_wire ps rest :
  Forall sendable_packet ps → read_all (length ps) (wire ps ++ rest) = Some (ps, rest).
Proof.
  induction 1 as [|p ps [Hp _] _ IH]; [done|]. cbn [length read_all].
  rewrite wire_cons, <- app_assoc, slice_parses_encode by done. by rewrite IH.
Qed.

(** One packet on a working endpoint: exactly its bytes, as one transfer. *)
Lemma writer_turn_ok `{ol : EndpointOutLaws W} oc p recv (s : writer_state W) next :
  sendable_packet p → in_width 16 recv → in_width 16 (send_seq s) →
  out_works (end_out s) → out_current (end_out s) = [] →
  match header p with V2 _ => incr_u16 oc (send_seq s) | V1 _ => Some (send_seq s) end = Some next →
  let bytes := packet_encode (renumber (send_seq s) recv p) in
  out_takes (length bytes) →
  ∃ o, writer_turn oc p recv s = (Wrote, Writing next o) ∧ out_works o ∧
    out_sent o = out_sent (end_out s) ++ [bytes] ∧ out_current o = [].
Proof.
  intros Hp Hr Hs Hw Hc Hn bytes Ht. unfold writer_turn. rewrite Hn.
  destruct (header_bytes_sendable _ (renumber_ok _ recv p Hs Hr Hp)) as (hb & Hhb & Henc).
  rewrite Hhb. fold bytes in Henc.
  destruct (out_write_works hb (end_out s) Hw) as (o1 & -> & W1 & S1 & C1).
  { rewrite Hc, app_nil_l. eapply out_takes_le, Ht. rewrite Henc, length_app. lia. }
  rewrite Hc, app_nil_l in C1.
  destruct (out_write_works (payload_encode (DeviceMux.payload (renumber (send_seq s) recv p))) o1 W1)
    as (o2 & -> & W2 & S2 & C2).
  { by rewrite C1, <- Henc. }
  rewrite C1, <- Henc in C2. destruct (submit_end_works o2 W2) as (W3 & S3 & C3).
  { rewrite C2, Henc. intros [E _]%app_eq_nil. subst hb.
    apply header_bytes_nonempty in Hhb. done. }
  eexists. split; [done|]. by rewrite S3, S2, S1, C2.
Qed.

Lemma length_numbered seq packets : length (numbered seq packets) = length packets.
Proof. revert seq. induction packets as [|[] ps IH]; intros; cbn; [done|by f_equal]. Qed.

Lemma incr_u16_ok oc seq n : in_width 16 seq → oc = false ∨ (seq + Z.of_nat (S n) < 2 ^ 16)%Z →
  incr_u16 oc seq = Some (wrap 16 (seq + 1)).
Proof.
  intros Hs Hoc. unfold incr_u16. destruct oc; simpl; [|done].
  destruct Hoc as [|Hoc]; [done|]. rewrite bool_decide_eq_false_2; [done|]. unfold U16_MAX. lia.
Qed.

(** The counter after a packet, and what overflow checks ask of the packets behind it. *)
Definition next_seq (seq : Z) (p : UsbDevicePacket) : Z :=
  match header p with V2 _ => wrap 16 (seq + 1) | V1 _ => seq end.

Lemma next_seq_ok oc seq p recv packets :
  in_width 16 seq → oc = false ∨ (seq + Z.of_nat (count_v2 ((p, recv) :: packets)) < 2 ^ 16)%Z →
  match header p with V2 _ => incr_u16 oc seq | V1 _ => Some seq end = Some (next_seq seq p) ∧
  in_width 16 (next_seq seq p) ∧
  (oc = false ∨ (next_seq seq p + Z.of_nat (count_v2 packets) < 2 ^ 16)%Z).
Proof.
  intros Hs Hoc. unfold next_seq, count_v2 in *. rewrite filter_cons in Hoc. cbn [fst] in Hoc.
  destruct (header p) as [h|h]; cbn [as_v2] in Hoc.
  - rewrite decide_False in Hoc by (by intros [? ?]). done.
  - rewrite decide_True in Hoc by (by eexists). cbn [length] in Hoc.
    split_and!; [apply (incr_u16_ok _ _ 0); [done|]|apply wrap_range; lia|];
      (destruct Hoc as [->|Hoc]; [by left|right]); [lia|].
    rewrite wrap_small by (destruct Hs; split; lia). lia.
Qed.

Lemma writer_loop_sends `{ol : EndpointOutLaws W} oc packets (s : writer_state W) :
  in_width 16 (send_seq s) → out_works (end_out s) → out_current (end_out s) = [] →
  Forall (λ p, sendable_packet p.1 ∧ in_width 16 p.2) packets →
  oc = false ∨ (send_seq s + Z.of_nat (count_v2 packets) < 2 ^ 16)%Z →
  Forall (λ p, out_takes (length (packet_encode p))) (numbered (send_seq s) packets) →
  ∃ s', start_writer_loop oc packets s = (true, s') ∧ out_works (end_out s') ∧
    out_sent (end_out s') = out_sent (end_out s) ++ (packet_encode <$> numbered (send_seq s) packets) ∧
    out_current (end_out s') = [].
Proof.
  intros Hs Hw Hc Hps. revert s Hs Hw Hc.
  induction Hps as [|[p recv] packets [Hp Hr] _ IH]; intros s Hs Hw Hc Hoc Hfit; cbn [fst snd] in *.
  - exists s. cbn. by rewrite app_nil_r.
  - destruct (next_seq_ok oc (send_seq s) p recv packets Hs Hoc) as (Hn & Hnw & Hoc').
    cbn [numbered] in Hfit. apply list.Forall_cons in Hfit as [Hf Hfit].
    destruct (writer_turn_ok oc p recv s _ Hp Hr Hs Hw Hc Hn Hf) as (o & Et & W1 & S1 & C1).
    destruct (IH (Writing (next_seq (send_seq s) p) o) Hnw W1 C1 Hoc' Hfit) as (s' & E & W2 & S2 & C2).
    exists s'. cbn [start_writer_loop numbered fmap list_fmap]. rewrite Et. split_and!; try done.
    rewrite S2. cbn [end_out send_seq]. by rewrite S1, <- app_assoc.
Qed.

Lemma await_version_skips in_time noise v rest (s : stream) :
  Forall (λ p, sendable_packet p ∧ as_version (DeviceMux.payload p) = None) noise →
  sendable_packet v → s_in s = wire noise ++ packet_encode v ++ rest →
  ∀ ver, DeviceMux.payload v = PayloadVersion ver →
  (length noise < in_time →
    ∃ s', await_version in_time s = (Ok ver, s') ∧ s_in s' = rest ∧ s_out s' = s_out s ∧
      s_faults s' = s_faults s) ∧
  (in_time ≤ length noise → ∃ s', await_version in_time s = (Err version_timeout, s') ∧
      s_out s' = s_out s).
Proof.
  intros Hn Hv Hin ver Hver. revert s in_time Hin.
  induction Hn as [|p noise [Hp Hpv] _ IH]; intros s in_time Hin.
  - destruct in_time as [|in_time]; (split; [intros|intros]); simpl in *; try lia; [by eexists|].
    destruct (sendable_read (reader := stream_reader) v s rest Hv Hin) as (s' & E & Hd).
    pose proof (packet_from_reader_keeps _ s (stream_read_keeps (s_out s) (s_faults s)) ltac:(done))
      as [Ho Hf].
    rewrite E in Ho, Hf. exists s'. unfold st_bind, st_map_err. rewrite E. cbn. rewrite Hver. done.
  - destruct in_time as [|in_time]; [split; intros; simpl in *; [lia|by eexists]|].
    rewrite wire_cons, <- app_assoc in Hin.
    destruct (sendable_read (reader := stream_reader) p s _ Hp Hin) as (s1 & E & Hd).
    pose proof (packet_from_reader_keeps _ s (stream_read_keeps (s_out s) (s_faults s)) ltac:(done))
      as [Ho Hf].
    rewrite E in Ho, Hf. cbn [snd] in Ho, Hf.
    assert (Ew : await_version (S in_time) s = await_version in_time s1).
    { simpl. unfold st_bind, st_map_err. rewrite E. cbn.
      destruct (DeviceMux.payload p); by try discriminate Hpv. }
    rewrite Ew. destruct (IH s1 in_time Hd) as [IH1 IH2]. rewrite Ho, Hf in *.
    split; intros Hl; simpl in Hl; [apply IH1|apply IH2]; lia.
Qed.

End lemmas.

(** ** Properties *)

Section theorems.
Context {codec : TcpCodec} {laws : TcpCodecLaws}.

(** Opening a device over working endpoints writes the version packet, skips
    whatever packets of older connections the device still sends, and, if its
    version packet comes in time, writes the setup packet and returns the
    device's version, having read exactly up to it; if it does not come in time,
    the setup packet is not sent. *)
Theorem negotiate_spec in_time noise v ver rest (s : stream) :
  s_faults s = [] →
  Forall (λ p, sendable_packet p ∧ as_version (DeviceMux.payload p) = None) noise →
  sendable_packet v → DeviceMux.payload v = PayloadVersion ver →
  s_in s = wire noise ++ packet_encode v ++ rest →
  (length noise < in_time → ∃ s', negotiate in_time s = (Ok ver, s') ∧ s_in s' = rest ∧
     s_out s' = s_out s ++ packet_encode version_packet ++ packet_encode setup_packet) ∧
  (in_time ≤ length noise → ∃ s', negotiate in_time s = (Err version_timeout, s') ∧
     s_out s' = s_out s ++ packet_encode version_packet).
Proof.
  intros Hf Hn Hv Hver Hin. unfold negotiate, flush.
  set (m := packet_encode version_packet).
  pose (s2 := Stream (s_in s) (s_end s) ((s_out s ++ m) ++ []) []).
  assert (Hw : ∀ bs (s0 : stream), s_faults s0 = [] →
    st_map_err RusbmuxError.IO (write_all bs) s0
    = (Ok (), Stream (s_in s0) (s_end s0) (s_out s0 ++ bs) []))
    by (intros; unfold st_map_err; by rewrite write_all_faultless).
  rewrite (st_bind_eq _ _ _ _ _ (Hw m s Hf)).
  erewrite st_bind_eq by (apply Hw; done). cbn [s_in s_end s_out].
  destruct (await_version_skips in_time noise v rest s2 Hn Hv Hin ver Hver) as [H1 H2].
  fold s2. split; intros Hl.
  - destruct (H1 Hl) as (s3 & E & Hin3 & Hout3 & Hf3). rewrite (st_bind_eq _ _ _ _ _ E).
    erewrite st_bind_eq by (apply Hw; done). erewrite st_bind_eq by (apply Hw; done).
    eexists. split; [done|]. split; [done|]. cbn [s_out]. rewrite Hout3. subst s2. cbn [s_out].
    by rewrite !app_nil_r, <- app_assoc.
  - destruct (H2 Hl) as (s3 & E & Hout3). rewrite (st_bind_fail _ _ _ _ _ E).
    eexists. split; [done|]. rewrite Hout3. subst s2. cbn [s_out]. by rewrite app_nil_r.
Qed.

(** On a working endpoint, of either backend, the device gets exactly the packets
    the writer loop was given, in order, one transfer each, with their version-2 headers
    numbered consecutively (modulo [2^16]) from its counter on and carrying the receive
    counter it loaded for each; and the other side parses those very packets back from
    the bytes.  With overflow checks this holds up to the counter's last value. *)
Theorem writer_loop_wire `{ol : EndpointOutLaws W} oc packets (s : writer_state W) :
  in_width 16 (send_seq s) → out_works (end_out s) → out_current (end_out s) = [] →
  Forall (λ p, sendable_packet p.1 ∧ in_width 16 p.2) packets →
  oc = false ∨ (send_seq s + Z.of_nat (count_v2 packets) < 2 ^ 16)%Z →
  let ps := numbered (send_seq s) packets in
  Forall (λ p, out_takes (length (packet_encode p))) ps →
  ∃ s', start_writer_loop oc packets s = (true, s') ∧ out_works (end_out s') ∧
    out_sent (end_out s') = out_sent (end_out s) ++ (packet_encode <$> ps) ∧
    out_current (end_out s') = [] ∧
    read_all (length packets) (wire ps) = Some (ps, []).
Proof.
  intros Hs Hw Hc Hps Hoc ps Hfit.
  destruct (writer_loop_sends oc packets s Hs Hw Hc Hps Hoc Hfit) as (s' & E & H1 & H2 & H3).
  exists s'. split_and!; [done..|]. subst ps.
  rewrite <- (length_numbered (send_seq s)), <- (app_nil_r (wire _)).
  by apply read_all_wire, numbered_sendable.
Qed.

(** The writer's sequence number is a [u16] that nothing wraps: a build
    with overflow checks stops the writer loop for good on the packet that
    follows number 65534, without writing it, while a build without them goes on
    from 65535 to 0. *)
Theorem writer_seq_overflow `{ol : EndpointOutLaws W} p recv (o : W) :
  is_Some (as_v2 (header p)) → sendable_packet p → in_width 16 recv →
  out_works o → out_current o = [] → out_takes (length (packet_encode (renumber U16_MAX recv p))) →
  writer_turn true p recv (Writing U16_MAX o) = (WriterDied, Writing U16_MAX o) ∧
  ∃ o', writer_turn false p recv (Writing U16_MAX o) = (Wrote, Writing 0 o').
Proof.
  intros [h Hh] Hp Hr Hw Hc Ht. destruct (header p) as [|h'] eqn:E; [done|]. split.
  - unfold writer_turn. cbn [send_seq]. by rewrite E.
  - destruct (writer_turn_ok false p recv (Writing U16_MAX o) 0) as (o' & Hturn & _); try done;
      [by rewrite E|by exists o'].
Qed.

Section reader.
Context {R : Type} {reader : ByteReader R ErrorKind} {rlaws : ByteReaderLaws R ErrorKind}.

Lemma reader_turn_packet notify id op (s : reader_state R) p rest :
  sendable_packet p → reader_data (end_in s) = packet_encode p ++ rest →
  ∃ r', reader_data r' = rest ∧
    reader_turn notify id op s =
      ((handle_packet p (rd_router s)).1,
       Reading r' (handle_packet p (rd_router s)).2 (wrap 16 (recv_seq s + 1)) (notified s)).
Proof.
  intros Hp Hr. destruct (sendable_read p (end_in s) rest Hp Hr) as (r' & E & Hd).
  exists r'. split; [done|]. unfold reader_turn. rewrite E.
  by destruct (handle_packet p (rd_router s)).
Qed.

Lemma reader_loop_handles ps notify id op (s : reader_state R) rest :
  Forall sendable_packet ps → reader_data (end_in s) = wire ps ++ rest →
  never_stalls ps (rd_router s) → in_width 16 (recv_seq s) →
  ∃ s', start_reader_loop (length ps) notify id op s = (Continue, s') ∧
    reader_data (end_in s') = rest ∧ rd_router s' = handle_all ps (rd_router s) ∧
    recv_seq s' = wrap 16 (recv_seq s + Z.of_nat (length ps)) ∧ notified s' = notified s.
Proof.
  intros Hps. revert s. induction Hps as [|p ps Hp _ IH]; intros s Hd Hst Hw.
  - exists s. split_and!; try done. cbn. by rewrite Z.add_0_r, wrap_small.
  - rewrite wire_cons, <- app_assoc in Hd.
    destruct (reader_turn_packet notify id op s p _ Hp Hd) as (r' & Hr' & Et).
    destruct Hst as [Hc Hst]. rewrite Hc in Et. cbn [length start_reader_loop]. rewrite Et.
    destruct (IH (Reading r' (handle_packet p (rd_router s)).2 (wrap 16 (recv_seq s + 1))
                   (notified s)) Hr' Hst) as (s' & E & Hd' & Hr & Hq & Hn);
      [apply wrap_range; lia|].
    exists s'. split_and!; try done. rewrite Hq. cbn [recv_seq]. autorewrite with wrap.
    f_equal. lia.
Qed.

(** Over the bytes of a sequence of packets the reader loop does exactly what
    handling the packets one after the other does to the router: the framing is
    never lost, every packet is counted once in the receive counter (modulo
    [2^16]), nothing is reported as a disconnect, and the bytes behind the last
    packet are left. *)
Theorem reader_loop_refines ps notify id op (s : reader_state R) rest :
  Forall sendable_packet ps → reader_data (end_in s) = wire ps ++ rest →
  never_stalls ps (rd_router s) → in_width 16 (recv_seq s) →
  ∃ s', start_reader_loop (length ps) notify id op s = (Continue, s') ∧
    reader_data (end_in s') = rest ∧ rd_router s' = handle_all ps (rd_router s) ∧
    recv_seq s' = wrap 16 (recv_seq s + Z.of_nat (length ps)) ∧ notified s' = notified s.
Proof. apply reader_loop_handles. Qed.

(** When reading fails the loop stops, reports the device once if
    somebody is to be told, and empties the router, so that every connection of
    the device finds its channel closed as soon as it has drained it. *)
Theorem reader_turn_io_error notify id op (s : reader_state R) k r' :
  packet_from_reader (end_in s) = (Err (ParseError.IO k), r') →
  ∃ s', reader_turn notify id op s = (Break, s') ∧
    notified s' = notified s ++ (if notify then [IODisconnected id op] else []) ∧
    routes (router (rd_router s')) = ∅ ∧
    ∀ c ch, chans (rd_router s') !! c = Some ch → chan_queue ch = [] →
      (Router.rx_recv c (rd_router s')).1 = Closed.
Proof.
  intros E. unfold reader_turn. rewrite E. eexists. split; [done|]. split_and!.
  - cbn. destruct notify; [done|by rewrite app_nil_r].
  - done.
  - intros c [q a] Hc Hq. cbn [rd_router] in *. cbn in Hq. subst q. unfold Router.rx_recv.
    rewrite Hc. unfold sender_alive, clear. cbn [router routes]. by rewrite map_to_list_empty.
Qed.

End reader.

Lemma start_reader_loop_app {R} {reader : ByteReader R ErrorKind} n m notify id op (s s' : reader_state R) :
  start_reader_loop n notify id op s = (Continue, s') →
  start_reader_loop (n + m) notify id op s = start_reader_loop m notify id op s'.
Proof.
  revert s. induction n as [|n IH]; intros s; cbn [start_reader_loop Nat.add]; [by intros [= ->]|].
  destruct (reader_turn notify id op s) as [[] s1]; try done. apply IH.
Qed.

(** A reset from the device removes the route of its destination port and
    nothing else, without delivering the packet: the connection there drains what
    was queued and then finds its channel closed, every other connection is
    untouched. *)
Theorem rst_closes_connection p h r t r' :
  router_wf r → tcp_hdr p = Some h → rst h = true → handle_packet p r = (t, r') →
  t = Continue ∧ chans r' = chans r ∧
  routes (router r') = delete (destination_port h) (routes (router r)) ∧
  ∀ e, routes (router r) !! destination_port h = Some e → sender_alive (tx e) r' = false.
Proof.
  intros Hwf Hh Hr H. unfold handle_packet, is_rst in H. rewrite Hh, Hr in H. simplify_eq.
  split_and!; try done. intros e He. unfold sender_alive. apply not_true_is_false.
  rewrite existsb_exists. intros ([port e'] & Hin%list_elem_of_In & Ht%bool_decide_eq_true).
  apply elem_of_map_to_list in Hin. cbn in Hin, Ht.
  apply lookup_delete_Some in Hin as [Hne Hin]. apply Hne.
  by eapply (wf_distinct _ Hwf).
Qed.

End theorems.
