(* ===== verification/RusbIo.v ===== *)
(** * Endpoints over libusb ([src/usb_backend/rusb/mod.rs]: [RusbAsyncReader],
    [RusbAsyncWriter])

    The reader submits one bulk transfer at a time and hands its data out in
    pieces; the writer collects what is written until [submit_end], which sends it
    as one transfer and ends that with a packet of length zero where the device
    could not tell its end otherwise.  Transfers are libusb's: what each one that is
    submitted comes to, and after how many polls, is scripted. *)

From S2P Require Import Prelude Io Poll Text Errors Conn Backend Tcp Utf8 DeviceMux Router Loops.

(** A poll of an object with state [S]: [Ok None] is [Poll::Pending], the others
    are ready; an error is [std::io::Error::other] of its text. *)
Definition polling (S A : Type) : Type := stateful S string (option A).

(** [BulkResult] *)
Record BulkResult : Type := MkBulkResult { status : Z; data : list byte }.

(** A transfer that was submitted: it stays pending for a number of polls and then
    has its result, [None] if it never comes ([oneshot]'s sender was dropped); it
    stays pending for ever; or its result was taken and the receiver may not be
    polled again. *)
Inductive Transfer : Type :=
| CompletesIn (polls : nat) (result : option BulkResult)
| NeverCompletes
| ResultTaken.

(** Polling the receiver. *)
Definition poll_rx (t : Transfer) : outcome Empty_set (option (option BulkResult)) * Transfer :=
  match t with
  | CompletesIn O result => (Ok (Some result), ResultTaken)
  | CompletesIn (S n) result => (Ok None, CompletesIn n result)
  | NeverCompletes => (Ok None, NeverCompletes)
  | ResultTaken => (Panic, ResultTaken)
  end.

Definition libusb_status_str (status : Z) : string :=
  match status with
  | -1 => "LIBUSB_ERROR_IO"
  | -2 => "LIBUSB_ERROR_INVALID_PARAM"
  | -3 => "LIBUSB_ERROR_ACCESS"
  | -4 => "LIBUSB_ERROR_NO_DEVICE"
  | -5 => "LIBUSB_ERROR_NOT_FOUND"
  | -6 => "LIBUSB_ERROR_BUSY"
  | -7 => "LIBUSB_ERROR_TIMEOUT"
  | -8 => "LIBUSB_ERROR_OVERFLOW"
  | -9 => "LIBUSB_ERROR_PIPE"
  | -10 => "LIBUSB_ERROR_INTERRUPTED"
  | -11 => "LIBUSB_ERROR_NO_MEM"
  | -12 => "LIBUSB_ERROR_NOT_SUPPORTED"
  | _ => "LIBUSB_ERROR_UNKNOWN(" +:+ pretty status +:+ ")"
  end%Z.

(** ** The reader *)

Record RusbAsyncReader : Type := MkReader {
  rr_buffer : list byte;
  rr_pos : nat;
  rr_pending : option Transfer;
  (** what submitting a transfer comes to, in order; after that, transfers never
      complete *)
  submits : list (string + (nat * option BulkResult));
}.

Definition reader_new (submits : list (string + (nat * option BulkResult))) : RusbAsyncReader :=
  MkReader [] 0 None submits.

(** [buffer] and [pos] after the chunk was put into [buf]. *)
Definition chunk_to_buf (chunk : list byte) (buf : ReadBuf) : ReadBuf * list byte * nat :=
  let to_copy := length chunk `min` remaining buf in
  (put_slice (take to_copy chunk) buf,
   if to_copy <? length chunk then chunk else [],
   if to_copy <? length chunk then to_copy else 0).

(** [alloc_and_submit] of a read *)
Definition submit_read (r : RusbAsyncReader) : outcome string Transfer * RusbAsyncReader :=
  match submits r with
  | [] => (Ok NeverCompletes, r)
  | inl e :: rest => (Err e, MkReader (rr_buffer r) (rr_pos r) (rr_pending r) rest)
  | inr (n, result) :: rest =>
      (Ok (CompletesIn n result), MkReader (rr_buffer r) (rr_pos r) (rr_pending r) rest)
  end.

Definition set_pending (t : option Transfer) (r : RusbAsyncReader) : RusbAsyncReader :=
  MkReader (rr_buffer r) (rr_pos r) t (submits r).

(** What a receiver that was polled gives the reader: [check] is whether the
    status is looked at. *)
Definition read_result (check : bool) (t : Transfer) (buf : ReadBuf) : polling RusbAsyncReader ReadBuf := λ r,
  match poll_rx t with
  | (Ok (Some (Some result)), _) =>
      if check && negb (status result =? 0)%Z then
        (Err ("libusb read: " +:+ libusb_status_str (status result)), set_pending None r)
      else
        let '(buf, buffer, pos) := chunk_to_buf (data result) buf in
        (Ok (Some buf), MkReader buffer pos None (submits r))
  | (Ok (Some None), _) => (Err "read transfer cancelled", set_pending None r)
  | (Ok None, t) => (Ok None, set_pending (Some t) r)
  | (_, t) => (Panic, set_pending (Some t) r)
  end.

Definition rusb_poll_read (buf : ReadBuf) : polling RusbAsyncReader ReadBuf := λ r,
  if rr_pos r <? length (rr_buffer r) then
    let available := length (rr_buffer r) - rr_pos r in
    let to_copy := available `min` remaining buf in
    let buf := put_slice (take to_copy (drop (rr_pos r) (rr_buffer r))) buf in
    let pos := rr_pos r + to_copy in
    (Ok (Some buf),
     if pos =? length (rr_buffer r) then MkReader [] 0 (rr_pending r) (submits r)
     else MkReader (rr_buffer r) pos (rr_pending r) (submits r))
  else
    match rr_pending r with
    | Some t => read_result true t buf r
    | None =>
        match submit_read r with
        | (Ok t, r) => read_result false t buf r
        | (Err e, r) => (Err e, r)
        | (_, r) => (Panic, r)
        end
    end.

(** ** The writer *)

(** What the device gets: the transfers in order, however they are sent.  The
    script of submitted transfers as for the reader; blocking writes may fail. *)
Record RusbAsyncWriter : Type := MkWriter {
  rw_max_packet_size : nat;
  rw_buffer : list byte;
  current_transfer_len : nat;
  rw_pending : option Transfer;
  transfers : list (list byte);
  rw_submits : list (string + (nat * option BulkResult));
  write_faults : list (option string);
}.

Definition writer_new (max_packet_size : nat) (submits : list (string + (nat * option BulkResult)))
    (faults : list (option string)) : RusbAsyncWriter :=
  MkWriter max_packet_size [] 0 None [] submits faults.

(** [handle.write_bulk] without a deadline; the length it returns is not looked
    at. *)
Definition write_bulk (bytes : list byte) : stateful RusbAsyncWriter RusbmuxError.t () := λ w,
  let sent := MkWriter (rw_max_packet_size w) (rw_buffer w) (current_transfer_len w) (rw_pending w)
    (transfers w ++ [bytes]) (rw_submits w) (drop 1 (write_faults w)) in
  match write_faults w with
  | Some e :: rest =>
      (Err (RusbmuxError.RusbError e),
       MkWriter (rw_max_packet_size w) (rw_buffer w) (current_transfer_len w) (rw_pending w)
         (transfers w) (rw_submits w) rest)
  | _ => (Ok (), sent)
  end.

Definition set_transfer (buffer : list byte) (len : nat) (w : RusbAsyncWriter) : RusbAsyncWriter :=
  MkWriter (rw_max_packet_size w) buffer len (rw_pending w) (transfers w) (rw_submits w) (write_faults w).

Definition modify_writer (f : RusbAsyncWriter → RusbAsyncWriter) : stateful RusbAsyncWriter RusbmuxError.t () :=
  λ w, (Ok (), f w).

(** [n.is_multiple_of(m)] *)
Definition is_multiple_of (n m : nat) : bool := if m =? 0 then n =? 0 else n mod m =? 0.

Definition sync_flush_and_zlp : stateful RusbAsyncWriter RusbmuxError.t () :=
  let! w := st_get in
  let! _ :=
    if negb (length (rw_buffer w) =? 0) then
      let data := rw_buffer w in
      let! _ := modify_writer (λ w, set_transfer [] (current_transfer_len w + length data) w) in
      write_bulk data
    else st_ret () in
  let! w := st_get in
  let! _ :=
    if (0 <? current_transfer_len w) && is_multiple_of (current_transfer_len w) (rw_max_packet_size w)
    then write_bulk []
    else st_ret () in
  modify_writer (λ w, set_transfer (rw_buffer w) 0 w).

(** [AnyEndpointWriter::submit_end] drops the result. *)
Definition rusb_submit_end (w : RusbAsyncWriter) : RusbAsyncWriter := (sync_flush_and_zlp w).2.

(** [alloc_and_submit] of a write *)
Definition submit_write (bytes : list byte) (w : RusbAsyncWriter) : outcome string Transfer * RusbAsyncWriter :=
  let sent rest := MkWriter (rw_max_packet_size w) (rw_buffer w) (current_transfer_len w) (rw_pending w)
    (transfers w ++ [bytes]) rest (write_faults w) in
  match rw_submits w with
  | [] => (Ok NeverCompletes, sent [])
  | inl e :: rest =>
      (Err e, MkWriter (rw_max_packet_size w) (rw_buffer w) (current_transfer_len w) (rw_pending w)
                (transfers w) rest (write_faults w))
  | inr (n, result) :: rest => (Ok (CompletesIn n result), sent rest)
  end.

Definition set_write_pending (t : option Transfer) (w : RusbAsyncWriter) : RusbAsyncWriter :=
  MkWriter (rw_max_packet_size w) (rw_buffer w) (current_transfer_len w) t (transfers w) (rw_submits w)
    (write_faults w).

(** The bytes from which on a write is submitted on its own *)
Definition AUTO_FLUSH : nat := Z.to_nat (MAX_PACKET_SIZE * 2).

Definition rusb_poll_write (buf : list byte) : polling RusbAsyncWriter nat := λ w,
  match rw_pending w with
  | Some t =>
      match poll_rx t with
      | (Ok (Some (Some result)), t) =>
          (if negb (status result =? 0)%Z then Err "transfer failed" else Ok None,
           set_write_pending (Some t) w)
      | (Ok (Some None), _) => (Err "write transfer cancelled", set_write_pending None w)
      | (Ok None, t) => (Ok None, set_write_pending (Some t) w)
      | (_, t) => (Panic, set_write_pending (Some t) w)
      end
  | None =>
      if length buf =? 0 then (Ok (Some 0), w)
      else
        let len := length buf in
        let w := set_transfer (rw_buffer w ++ buf) (current_transfer_len w) w in
        if AUTO_FLUSH <=? length (rw_buffer w) then
          let data := rw_buffer w in
          let w := set_transfer [] (current_transfer_len w) w in
          match submit_write data w with
          | (Ok t, w) =>
              (Ok None, set_write_pending (Some t) (set_transfer (rw_buffer w) (current_transfer_len w + len) w))
          | (Err e, w) => (Err e, w)
          | (_, w) => (Panic, w)
          end
        else (Ok (Some len), w)
  end.

(** What a receiver that was polled gives a flush. *)
Definition flush_result (t : Transfer) : polling RusbAsyncWriter () := λ w,
  match poll_rx t with
  | (Ok (Some (Some result)), _) =>
      (if negb (status result =? 0)%Z
       then Err ("libusb write: " +:+ libusb_status_str (status result)) else Ok (Some ()),
       set_write_pending None w)
  | (Ok (Some None), _) => (Err "write transfer cancelled", set_write_pending None w)
  | (Ok None, t) => (Ok None, set_write_pending (Some t) w)
  | (_, t) => (Panic, set_write_pending (Some t) w)
  end.

Definition rusb_poll_flush : polling RusbAsyncWriter () := λ w,
  match rw_pending w with
  | Some t => flush_result t w
  | None =>
      if length (rw_buffer w) =? 0 then (Ok (Some ()), w)
      else
        let data := rw_buffer w in
        let w := set_transfer [] (current_transfer_len w) w in
        match submit_write data w with
        | (Ok t, w) => flush_result t (set_transfer (rw_buffer w) (current_transfer_len w + length data) w)
        | (Err e, w) => (Err e, w)
        | (_, w) => (Panic, w)
        end
  end.

Definition rusb_poll_shutdown : polling RusbAsyncWriter () := rusb_poll_flush.

(** ** Specification *)

(** The data of a transfer that the reader has yet to take. *)
Definition transfer_data (t : Transfer) : list byte :=
  match t with
  | CompletesIn _ (Some result) => if (status result =? 0)%Z then data result else []
  | _ => []
  end.

(** The same of one that is still to be submitted: the status of a transfer that is
    complete when it is first polled is not looked at. *)
Definition submit_data (s : string + (nat * option BulkResult)) : list byte :=
  match s with
  | inr (O, Some result) => data result
  | inr (n, result) => transfer_data (CompletesIn n result)
  | inl _ => []
  end.

(** What is still to be read. *)
Definition rusb_unread (r : RusbAsyncReader) : list byte :=
  drop (rr_pos r) (rr_buffer r) ++ match rr_pending r with Some t => transfer_data t | None => [] end
  ++ (submits r ≫= submit_data).

Record reader_ok (r : RusbAsyncReader) : Prop := {
  ro_pos : rr_pos r < length (rr_buffer r) ∨ (rr_buffer r = [] ∧ rr_pos r = 0);
  ro_pending : rr_pending r ≠ Some ResultTaken;
}.

(** Polling with buffers of these sizes: what came out, and whether a poll
    panicked. *)
Fixpoint rusb_reads (sizes : list nat) (r : RusbAsyncReader) : list byte * bool * RusbAsyncReader :=
  match sizes with
  | [] => ([], false, r)
  | n :: sizes =>
      match rusb_poll_read (read_buf_of n) r with
      | (Ok (Some buf), r) =>
          let '(bs, panicked, r) := rusb_reads sizes r in (filled buf ++ bs, panicked, r)
      | (Panic, r) | (Ub, r) => ([], true, r)
      | (_, r) => rusb_reads sizes r
      end
  end.

(** What the writer loop does with its endpoint: [write_all], which polls until all
    is written, and [submit_end]. *)
Inductive out_op : Type := WriteAll (bytes : list byte) | SubmitEnd.

(** A write that is pending, polled until it ends: the receiver wakes the task when the
    transfer is complete, but a completed transfer leaves the write pending with nothing
    that would wake it again. *)
Definition write_pending (w : RusbAsyncWriter) : write_end * RusbAsyncWriter :=
  match rw_pending w with
  | Some (CompletesIn _ (Some result)) =>
      (if negb (status result =? 0)%Z then WriteFailed else WriteStalls,
       set_write_pending (Some ResultTaken) w)
  | Some (CompletesIn _ None) => (WriteFailed, set_write_pending None w)
  | _ => (WriteStalls, w)
  end.

Fixpoint rusb_write_all (fuel : nat) (bytes : list byte) (w : RusbAsyncWriter) : write_end * RusbAsyncWriter :=
  match bytes, fuel with
  | [], _ => (Written, w)
  | _, O => (WriteStalls, w)
  | _, S fuel =>
      match rusb_poll_write bytes w with
      | (Ok (Some (S n)), w) => rusb_write_all fuel (drop (S n) bytes) w
      | (Ok None, w) => write_pending w
      | (Ok (Some O), w) | (Err _, w) => (WriteFailed, w)
      | (_, w) => (WritePanics, w)
      end
  end.

(** The endpoint of the writer loop; every poll of [write_all] but a pending one takes
    a byte. *)
#[export] Instance rusb_endpoint : EndpointOut RusbAsyncWriter := {
  out_write bytes w := rusb_write_all (length bytes) bytes w;
  submit_end := rusb_submit_end;
}.

(** What a loop does with an endpoint; [false] when it does not get to the end. *)
Fixpoint endpoint_outs `{EndpointOut W} (ops : list out_op) (w : W) : bool * W :=
  match ops with
  | [] => (true, w)
  | WriteAll bytes :: ops =>
      match out_write bytes w with
      | (Written, w) => endpoint_outs ops w
      | (_, w) => (false, w)
      end
  | SubmitEnd :: ops => endpoint_outs ops (submit_end w)
  end.

(** The packets that the operations send, and what is written of the next one;
    [cur] is written already. *)
Fixpoint packets_of (ops : list out_op) (cur : list byte) : list (list byte) * list byte :=
  match ops with
  | [] => ([], cur)
  | WriteAll bytes :: ops => packets_of ops (cur ++ bytes)
  | SubmitEnd :: ops => let '(ps, cur') := packets_of ops [] in (cur :: ps, cur')
  end.

(** The bytes of a transfer on the bus: packets of [max] bytes, and a shorter one if
    they do not fill the last. *)
Fixpoint usb_packets_go (fuel max : nat) (bytes : list byte) : list (list byte) :=
  match fuel with
  | O => []
  | S fuel =>
      if length bytes <=? max then [bytes]
      else take max bytes :: usb_packets_go fuel max (drop max bytes)
  end.

Definition usb_packets (max : nat) (bytes : list byte) : list (list byte) :=
  usb_packets_go (S (length bytes)) max bytes.

(** The device puts packets together until a short one. *)
Fixpoint reassemble (max : nat) (acc : list byte) (packets : list (list byte)) : list (list byte) :=
  match packets with
  | [] => []
  | p :: packets =>
      if length p <? max then (acc ++ p) :: reassemble max [] packets
      else reassemble max (acc ++ p) packets
  end.

(** Every prefix of a packet stays below the size from which on it would be
    submitted by itself. *)
Fixpoint outs_fit (ops : list out_op) (cur : nat) : Prop :=
  match ops with
  | [] => True
  | WriteAll bytes :: ops => cur + length bytes < AUTO_FLUSH ∧ outs_fit ops (cur + length bytes)
  | SubmitEnd :: ops => outs_fit ops 0
  end.

(** A transfer that was started over: nothing counted, nothing in flight. *)
Definition between_flushes (w : RusbAsyncWriter) : Prop :=
  rw_pending w = None ∧ current_transfer_len w = 0 ∧ write_faults w = [].

(** The transfers that a packet takes. *)
Definition packet_transfers (max : nat) (packet : list byte) : list (list byte) :=
  match packet with
  | [] => []
  | _ => packet :: (if is_multiple_of (length packet) max then [[]] else [])
  end.

(** Polling a write again and again. *)
Fixpoint write_polls (n : nat) (buf : list byte) (w : RusbAsyncWriter)
  : list (outcome string (option nat)) * RusbAsyncWriter :=
  match n with
  | O => ([], w)
  | S n =>
      let '(o, w) := rusb_poll_write buf w in
      let '(os, w) := write_polls n buf w in (o :: os, w)
  end.

(** ** Lemmas *)

Lemma chunk_to_buf_split chunk buf b buffer pos :
  chunk_to_buf chunk buf = (b, buffer, pos) →
  filled b ++ drop pos buffer = filled buf ++ chunk ∧
  (pos < length buffer ∨ (buffer = [] ∧ pos = 0)).
Proof.
  unfold chunk_to_buf. intros [= <- <- <-]. cbn [put_slice filled].
  destruct (Nat.ltb_spec (length chunk `min` remaining buf) (length chunk)).
  - rewrite <- app_assoc, take_drop. split; [done|lia].
  - rewrite take_ge by lia. rewrite drop_nil, app_nil_r. split; [done|by right].
Qed.

(** What a poll leaves of what was to be read. *)
Definition reads (r : RusbAsyncReader) (o : outcome string (option ReadBuf)) (r' : RusbAsyncReader) : Prop :=
  reader_ok r' ∧ o ≠ Panic ∧ o ≠ Ub ∧
  match o with
  | Ok (Some buf) => filled buf ++ rusb_unread r' = rusb_unread r
  | _ => rusb_unread r' = rusb_unread r
  end.

(** A receiver that is polled with the status checked, or at once. *)
Lemma read_result_reads (check : bool) t n r r0 o r' :
  rr_buffer r = [] → rr_pos r = 0 → t ≠ ResultTaken →
  (if check then transfer_data t else match t with
     | CompletesIn n result => submit_data (inr (n, result)) | _ => [] end) ++ (submits r ≫= submit_data)
    = rusb_unread r0 →
  read_result check t (read_buf_of n) r = (o, r') → reads r0 o r'.
Proof.
  intros Hb Hp Ht Hu. unfold read_result.
  assert (Hcont : ∀ x, rr_buffer x = [] → rr_pos x = 0 → rr_pending x ≠ Some ResultTaken →
    match rr_pending x with Some t => transfer_data t | None => [] end ++ (submits x ≫= submit_data) = rusb_unread r0 →
    ∀ e : outcome string (option ReadBuf), e ≠ Panic → e ≠ Ub → (∀ b, e ≠ Ok (Some b)) → reads r0 e x).
  { intros x Hbx Hpx Hx Hux e He1 He2 He3. split; [split; [by right|done]|]. split_and!; [done..|].
    assert (rusb_unread x = rusb_unread r0).
    { unfold rusb_unread at 1. by rewrite Hbx, drop_nil. }
    destruct e as [[b|]|e'| |]; try done. by destruct (He3 b). }
  destruct t as [[|k] [res|]| |]; cbn [poll_rx]; try done.
  - destruct (check && negb (status res =? 0)%Z) eqn:Ec.
    + intros [= <- <-]. apply Hcont; try done. cbn [set_pending rr_pending submits app].
      destruct check; cbn in Ec; [|done]. rewrite <- Hu. cbn [transfer_data].
      by destruct (status res =? 0)%Z.
    + destruct (chunk_to_buf _ _) as [[b buffer] pos] eqn:E. intros [= <- <-].
      destruct (chunk_to_buf_split _ _ _ _ _ E) as [Hf Hl]. cbn in Hf.
      split; [by split|]. split_and!; [done..|]. unfold rusb_unread at 1.
      cbn [rr_pos rr_buffer rr_pending submits]. rewrite app_nil_l, app_assoc, Hf, <- Hu. f_equal.
      destruct check; [|done]. cbn [transfer_data]. cbn in Ec. by destruct (status res =? 0)%Z.
  - intros [= <- <-]. apply Hcont; try done. cbn [set_pending rr_pending submits app]. rewrite <- Hu.
    by destruct check.
  - intros [= <- <-]. apply Hcont; try done. cbn [set_pending rr_pending submits]. rewrite <- Hu.
    by destruct check.
  - intros [= <- <-]. apply Hcont; try done. cbn [set_pending rr_pending submits]. rewrite <- Hu.
    by destruct check.
  - intros [= <- <-]. apply Hcont; try done. cbn [set_pending rr_pending submits]. rewrite <- Hu.
    by destruct check.
Qed.

Lemma rusb_poll_read_reads n r o r' :
  reader_ok r → rusb_poll_read (read_buf_of n) r = (o, r') → reads r o r'.
Proof.
  intros [Hp Hr]. unfold rusb_poll_read.
  destruct (Nat.ltb_spec (rr_pos r) (length (rr_buffer r))) as [Hlt|Hge].
  - set (k := (length (rr_buffer r) - rr_pos r) `min` remaining (read_buf_of n)). intros [= <- <-].
    assert (Hk : take k (drop (rr_pos r) (rr_buffer r)) ++ drop (rr_pos r + k) (rr_buffer r)
                 = drop (rr_pos r) (rr_buffer r)) by (rewrite <- drop_drop; apply take_drop).
    destruct (Nat.eqb_spec (rr_pos r + k) (length (rr_buffer r))) as [E|E];
      (split; [split; [cbn; first [by right|left; lia]|done]|]); split_and!; try done; unfold rusb_unread;
      cbn [put_slice filled rr_pos rr_buffer rr_pending submits read_buf_of app].
    + rewrite drop_nil, app_nil_l. f_equal. rewrite <- Hk at 2.
      by rewrite (drop_ge _ (rr_pos r + k)), app_nil_r by lia.
    + by rewrite app_assoc, Hk.
  - destruct Hp as [Hp|[Hb Hp]]; [lia|].
    destruct (rr_pending r) as [t|] eqn:Et.
    + intros E. eapply (read_result_reads true t n r r); [exact Hb|exact Hp|congruence| |exact E].
      unfold rusb_unread. by rewrite Hb, drop_nil, Et.
    + unfold submit_read. destruct (submits r) as [|[e|[k res]] rest] eqn:Es.
      * intros E. eapply (read_result_reads false _ n r r); [..|exact E]; [exact Hb|exact Hp|done|].
        unfold rusb_unread. by rewrite Hb, drop_nil, Et.
      * intros [= <- <-]. split; [split; [by right|cbn; by rewrite Et]|]. split_and!; try done.
        unfold rusb_unread. cbn [rr_pos rr_buffer rr_pending submits]. by rewrite Hb, Et, Es.
      * intros E. eapply (read_result_reads false _ n _ r); [..|exact E]; [exact Hb|exact Hp|done|].
        unfold rusb_unread. rewrite Hb, drop_nil, Et, Es. cbn. done.
Qed.

Lemma rusb_reads_unread sizes : ∀ r bs panicked r',
  reader_ok r → rusb_reads sizes r = (bs, panicked, r') →
  reader_ok r' ∧ panicked = false ∧ bs ++ rusb_unread r' = rusb_unread r.
Proof.
  induction sizes as [|n sizes IH]; intros r bs panicked r' Hr; cbn [rusb_reads]; [by intros [= <- <- <-]|].
  destruct (rusb_poll_read (read_buf_of n) r) as [o r1] eqn:E.
  apply rusb_poll_read_reads in E as (H1 & H2 & H3 & H4); [|done].
  destruct o as [[buf|]|e| |]; [| | |done|done].
  - destruct (rusb_reads sizes r1) as [[bs1 p1] r2] eqn:E1. intros [= <- <- <-].
    destruct (IH _ _ _ _ H1 E1) as (H5 & H6 & H7). split_and!; [done..|]. by rewrite <- app_assoc, H7.
  - intros E1. destruct (IH _ _ _ _ H1 E1) as (H5 & H6 & H7). split_and!; [done..|]. by rewrite H7.
  - intros E1. destruct (IH _ _ _ _ H1 E1) as (H5 & H6 & H7). split_and!; [done..|]. by rewrite H7.
Qed.

(** *** The writer *)

(** A piece that fits is taken whole. *)
Lemma rusb_write_all_ok bytes w :
  rw_pending w = None → length (rw_buffer w) + length bytes < AUTO_FLUSH →
  rusb_write_all (length bytes) bytes w = (Written, set_transfer (rw_buffer w ++ bytes) (current_transfer_len w) w).
Proof.
  intros Hp Hl. destruct bytes as [|b bytes].
  { cbn. rewrite app_nil_r. by destruct w. }
  cbn [length rusb_write_all]. unfold rusb_poll_write. rewrite Hp.
  cbn [length Nat.eqb]. cbn [rw_buffer set_transfer].
  destruct (Nat.leb_spec AUTO_FLUSH (length (rw_buffer w ++ b :: bytes))) as [H|H];
    [rewrite length_app in H; lia|].
  cbn [length drop]. rewrite drop_all. by destruct (length bytes).
Qed.

Lemma submit_end_ok w :
  between_flushes w →
  rusb_submit_end w =
    MkWriter (rw_max_packet_size w) [] 0 None
      (transfers w ++ packet_transfers (rw_max_packet_size w) (rw_buffer w)) (rw_submits w) [].
Proof.
  intros (Hp & Hc & Hf). destruct w as [max buf len pend ts subs faults]. cbn in Hp, Hc, Hf. subst.
  unfold rusb_submit_end, sync_flush_and_zlp, st_bind, st_get, modify_writer, write_bulk, st_ret.
  destruct buf as [|b buf]; cbn -[is_multiple_of]; [by rewrite app_nil_r|].
  destruct (is_multiple_of _ max); cbn; by rewrite <- ?app_assoc.
Qed.

(** [write_pending] is what polling comes to: pending while the transfer is in flight,
    then the result of the poll that sees it complete. *)
Lemma write_pending_polls n result bytes w :
  rw_pending w = Some (CompletesIn n result) →
  ∃ w', write_polls n bytes w = (replicate n (Ok None), w') ∧
    (rusb_poll_write bytes w').2 = (write_pending w).2 ∧
    match (write_pending w).1, (rusb_poll_write bytes w').1 with
    | WriteFailed, Err _ | WriteStalls, Ok None => True
    | _, _ => False
    end.
Proof.
  revert w. induction n as [|n IH]; intros w Hp.
  - exists w. unfold rusb_poll_write, write_pending. rewrite Hp. cbn [poll_rx write_polls replicate].
    destruct result as [res|]; [destruct (status res =? 0)%Z|]; done.
  - destruct (IH (set_write_pending (Some (CompletesIn n result)) w)) as (w' & E & H2 & H3); [done|].
    exists w'. cbn [write_polls]. unfold rusb_poll_write at 1. rewrite Hp. cbn [poll_rx]. rewrite E.
    split; [done|]. unfold write_pending in *. rewrite Hp. cbn [rw_pending set_write_pending] in *.
    by destruct result as [res|]; [destruct (status res =? 0)%Z|].
Qed.

(** *** On the bus *)

Lemma reassemble_transfer fuel max bytes : ∀ acc rest,
  0 < max → bytes ≠ [] → length bytes < fuel →
  reassemble max acc (usb_packets_go fuel max bytes ++ rest) =
    if is_multiple_of (length bytes) max then reassemble max (acc ++ bytes) rest
    else (acc ++ bytes) :: reassemble max [] rest.
Proof.
  revert bytes. induction fuel as [|fuel IH]; intros bytes acc rest Hm Hb Hl; [lia|].
  cbn [usb_packets_go]. unfold is_multiple_of in *. destruct (Nat.eqb_spec max 0) as [|_]; [lia|].
  destruct (Nat.leb_spec (length bytes) max) as [Hle|Hgt]; cbn [app reassemble].
  - destruct (Nat.ltb_spec (length bytes) max).
    + rewrite Nat.mod_small by done. destruct bytes; [done|]. done.
    + assert (length bytes = max) as -> by lia. by rewrite Nat.Div0.mod_same.
  - rewrite length_take, Nat.min_l by lia. rewrite Nat.ltb_irrefl, IH; rewrite ?length_drop; try lia.
    + rewrite <- app_assoc, take_drop.
      assert (E : length bytes mod max = (length bytes - max) mod max).
      { replace (length bytes) with ((length bytes - max) + 1 * max) at 1 by lia. apply Nat.Div0.mod_add. }
      by rewrite E.
    + intros E%(f_equal length). rewrite length_drop in E. cbn in E. lia.
Qed.

(** Each packet comes out again. *)
Lemma reassemble_packets max ps :
  0 < max →
  reassemble max [] ((ps ≫= packet_transfers max) ≫= usb_packets max) = filter (λ p, p ≠ []) ps.
Proof.
  intros Hm. induction ps as [|p ps IH]; [done|]. rewrite bind_cons, bind_app.
  destruct p as [|b p]; [rewrite list.filter_cons_False by naive_solver; exact IH|].
  rewrite list.filter_cons_True by done. unfold packet_transfers at 1. rewrite bind_cons, <- app_assoc.
  unfold usb_packets at 1. rewrite reassemble_transfer by (try done; lia).
  destruct (is_multiple_of _ _).
  - change ([[]] ≫= usb_packets max) with (usb_packets max [] ++ []). rewrite app_nil_r.
    unfold usb_packets at 1. cbn [usb_packets_go length Nat.leb app reassemble].
    destruct (Nat.ltb_spec 0 max); [|lia]. by rewrite app_nil_r, IH.
  - change ([] ≫= usb_packets max) with (@nil (list byte)). by rewrite !app_nil_l, IH.
Qed.

(** What the operations do to a writer between two flushes. *)
Lemma rusb_outs_ok ops : ∀ w ps cur,
  between_flushes w → outs_fit ops (length (rw_buffer w)) → packets_of ops (rw_buffer w) = (ps, cur) →
  ∃ w', endpoint_outs ops w = (true, w') ∧ between_flushes w' ∧ rw_buffer w' = cur ∧
    transfers w' = transfers w ++ (ps ≫= packet_transfers (rw_max_packet_size w)).
Proof.
  induction ops as [|[bytes|] ops IH]; intros w ps cur Hw Hfit Hps; cbn [packets_of outs_fit endpoint_outs] in *.
  - simplify_eq. exists w. cbn. by rewrite app_nil_r.
  - destruct Hfit as [Hl Hfit]. cbn [out_write rusb_endpoint]. rewrite rusb_write_all_ok; [|apply Hw|done].
    destruct (IH (set_transfer (rw_buffer w ++ bytes) (current_transfer_len w) w) ps cur) as (w' & H); [| | |eauto].
    + by destruct w.
    + cbn [rw_buffer set_transfer]. by rewrite length_app.
    + done.
  - destruct (packets_of ops []) as [ps' cur'] eqn:E. simplify_eq.
    cbn [submit_end rusb_endpoint]. rewrite submit_end_ok by done.
    destruct (IH (MkWriter (rw_max_packet_size w) [] 0 None
      (transfers w ++ packet_transfers (rw_max_packet_size w) (rw_buffer w)) (rw_submits w) []) ps' cur)
      as (w' & H1 & H2 & H3 & H4); [done..|].
    exists w'. split_and!; try done. rewrite H4. cbn [transfers rw_max_packet_size].
    by rewrite bind_cons, <- app_assoc.
Qed.

(** The same on the stream. *)
Lemma stream_outs_ok ops : ∀ (e : endpoint_out) ps cur,
  s_faults (out e) = [] → packets_of ops (s_out (out e)) = (ps, cur) →
  ∃ e', endpoint_outs ops e = (true, e') ∧ ended e' = ended e ++ ps ∧ s_out (out e') = cur.
Proof.
  induction ops as [|[bytes|] ops IH]; intros e ps cur Hf Hps; cbn [packets_of endpoint_outs] in *.
  - simplify_eq. exists e. by rewrite app_nil_r.
  - cbn [out_write stream_endpoint]. rewrite write_all_faultless by done.
    apply (IH (EndOut (Stream (s_in (out e)) (s_end (out e)) (s_out (out e) ++ bytes) []) (ended e)));
      done.
  - destruct (packets_of ops []) as [ps' cur'] eqn:E. simplify_eq.
    destruct (IH (submit_end e) ps' cur) as (e' & H1 & H2 & H3); [done..|].
    exists e'. split_and!; try done. rewrite H2. cbn. by rewrite <- app_assoc.
Qed.

(** ** Theorems *)

(** C15.  The reader neither loses nor repeats a byte, whatever the sizes of the buffers
    it is polled with and however long each transfer takes: what has come out,
    followed by what is still to be read, is what there was to be read; and no
    poll panics. *)
Theorem rusb_reads_exactly sizes submits :
  let '(bs, panicked, r) := rusb_reads sizes (reader_new submits) in
  panicked = false ∧ bs ++ rusb_unread r = submits ≫= submit_data.
Proof.
  destruct (rusb_reads sizes (reader_new submits)) as [[bs panicked] r] eqn:E.
  apply rusb_reads_unread in E as (_ & H1 & H2); [done|]. split; [by right|done].
Qed.

(** The writer implements the endpoint the writer loop works on: for any writes and
    ends of packets, as long as no packet reaches the size of an automatic flush,
    nothing waits or fails, the bytes are those that the endpoint of the model gets
    with as many ends, and the device, putting together packets of the bus until a
    short one, gets back exactly the packets, one transfer each, even those that
    fill their last packet on the bus. *)
Theorem rusb_writer_refines ops max subs ps cur e :
  0 < max → outs_fit ops 0 → packets_of ops [] = (ps, cur) → s_faults (out e) = [] → s_out (out e) = [] →
  ended e = [] →
  ∃ w e', endpoint_outs ops (writer_new max subs []) = (true, w) ∧ endpoint_outs ops e = (true, e') ∧
    concat (ended e') = concat (transfers w) ∧ s_out (out e') = rw_buffer w ∧ ended e' = ps ∧
    reassemble max [] (transfers w ≫= usb_packets max) = filter (λ p, p ≠ []) ps.
Proof.
  intros Hm Hfit Hps Hf He Hd.
  destruct (rusb_outs_ok ops (writer_new max subs []) ps cur) as (w & H1 & _ & H3 & H4); [done..|].
  destruct (stream_outs_ok ops e ps cur Hf) as (e' & E1 & E2 & E3); [by rewrite He|].
  cbn [writer_new transfers rw_max_packet_size app] in H4. rewrite Hd in E2.
  exists w, e'. split_and!; try done.
  - rewrite E2, H4. cbn [app]. clear.
    induction ps as [|p ps IH]; [done|]. rewrite bind_cons, concat_app, <- IH. cbn [concat]. f_equal.
    destruct p; [done|]. unfold packet_transfers. cbn [concat].
    destruct (is_multiple_of _ _); cbn; by rewrite ?app_nil_r.
  - congruence.
  - rewrite H4. by apply reassemble_packets.
Qed.

(** At the size of an automatic flush a write never comes back: [pending] stays set
    after its transfer has completed, so that the poll that sees that is pending as
    well, with nothing to wake it, and any later one polls a receiver that has
    given its result, which panics. *)
Theorem rusb_auto_flush_never_returns bytes w n result rest more :
  rw_pending w = None → rw_submits w = inr (n, Some result) :: rest → status result = 0%Z →
  bytes ≠ [] → AUTO_FLUSH ≤ length (rw_buffer w) + length bytes →
  ∃ w1 w2, rusb_poll_write bytes w = (Ok None, w1) ∧
    (* the polls while the transfer is in flight, and the one that sees it complete *)
    write_polls (S n) more w1 = (replicate (S n) (Ok None), w2) ∧
    (rusb_poll_write more w2).1 = Panic.
Proof.
  intros Hp Hs Hst Hb Hl. unfold rusb_poll_write at 1. rewrite Hp.
  destruct (length bytes =? 0) eqn:E; [apply Nat.eqb_eq in E; by destruct bytes|]. clear E.
  cbn [rw_buffer set_transfer].
  destruct (Nat.leb_spec AUTO_FLUSH (length (rw_buffer w ++ bytes))) as [_|H]; [|rewrite length_app in H; lia].
  unfold submit_write. cbn [rw_submits set_transfer]. rewrite Hs.
  match goal with |- ∃ w1 _, (Ok None, set_write_pending _ ?x) = _ ∧ _ => set (w0 := x) end.
  exists (set_write_pending (Some (CompletesIn n (Some result))) w0), (set_write_pending (Some ResultTaken) w0).
  split_and!; [done| |done]. clearbody w0. clear Hs. induction n as [|n IH].
  - cbn [write_polls]. unfold rusb_poll_write. cbn [rw_pending set_write_pending poll_rx]. by rewrite Hst.
  - change (write_polls (S (S n)) more ?x) with
      (let '(o, w) := rusb_poll_write more x in
       let '(os, w) := write_polls (S n) more w in (o :: os, w)).
    unfold rusb_poll_write at 1. cbn [rw_pending set_write_pending poll_rx].
    change (set_write_pending (Some (CompletesIn n (Some result)))
      (set_write_pending (Some (CompletesIn (S n) (Some result))) w0))
      with (set_write_pending (Some (CompletesIn n (Some result))) w0).
    by rewrite IH.
Qed.
