(* ===== verification/Transfer.v ===== *)
(** * Transfers of libusb ([src/usb_backend/rusb/mod.rs]: [alloc_and_submit],
    [bulk_callback], [TransferHandle])

    A bulk transfer is three allocations (libusb's record, the buffer, the user data)
    that two threads share: libusb's event thread runs the callback, which sends the
    result and frees everything; the thread that waits for the result holds a
    [TransferHandle] and, when that is dropped early, cancels the transfer.  The heap
    is explicit: what is not there cannot be read or freed ([Ub]).  Both threads are
    cut at their accesses, and every interleaving of them is a run. *)

From S2P Require Import Prelude Io Poll Errors Conn Backend Tcp Utf8 DeviceMux Router Loops RusbIo.

(** ** The heap *)

Abbreviation loc := nat (only parsing).

(** [libusb_transfer] *)
Record LibusbTransfer : Type := MkTransfer {
  lt_endpoint : Z;
  lt_buffer : loc;
  lt_length : nat;
  lt_user_data : loc;
  lt_actual_length : Z;
  lt_status : Z;
}.

(** [result] and [completed] are shared with the waiting side ([Shared]). *)
Record TransferUserData : Type := MkUserData {
  ud_buffer_ptr : loc;
  ud_buffer_len : nat;
}.

Inductive Cell : Type :=
| CellTransfer (t : LibusbTransfer)
| CellUserData (ud : TransferUserData)
| CellBuffer (bytes : list byte) (capacity : nat).

Abbreviation Heap := (gmap loc Cell).

Definition heap_alloc {E} (c : Cell) : stateful Heap E loc := λ h,
  let l := fresh (dom h) in (Ok l, <[l := c]> h).

Definition heap_read {E} (l : loc) : stateful Heap E Cell := λ h,
  (match h !! l with Some c => Ok c | None => Ub end, h).

Definition heap_free {E} (l : loc) : stateful Heap E () := λ h,
  match h !! l with Some _ => (Ok (), delete l h) | None => (Ub, h) end.

(** [let _ = Vec::from_raw_parts(ptr, 0, capacity)] *)
Definition drop_vec {E} (l : loc) (capacity : nat) : stateful Heap E () := λ h,
  match h !! l with
  | Some (CellBuffer _ c) => if c =? capacity then heap_free l h else (Ub, h)
  | _ => (Ub, h)
  end.

Definition read_transfer {E} (l : loc) : stateful Heap E LibusbTransfer :=
  let! c := heap_read l in
  match c with CellTransfer t => st_ret t | _ => st_lift Ub end.

Definition read_user_data {E} (l : loc) : stateful Heap E TransferUserData :=
  let! c := heap_read l in
  match c with CellUserData ud => st_ret ud | _ => st_lift Ub end.

(** [slice::from_raw_parts(ptr, len).to_vec()] *)
Definition read_slice {E} (l : loc) (len : nat) : stateful Heap E (list byte) :=
  let! c := heap_read l in
  match c with
  | CellBuffer bytes _ => if len <=? length bytes then st_ret (take len bytes) else st_lift Ub
  | _ => st_lift Ub
  end.

Definition libusb_fill_bulk_transfer {E} (transfer : loc) (endpoint : Z) (buffer : loc) (len : nat)
    (user_data : loc) : stateful Heap E () := λ h,
  match h !! transfer with
  | Some (CellTransfer t) =>
      (Ok (), <[transfer := CellTransfer (MkTransfer endpoint buffer len user_data 0 0)]> h)
  | _ => (Ub, h)
  end.

(** ** Submitting *)

(** [null] and [ret] are what [libusb_alloc_transfer] and [libusb_submit_transfer]
    give; the buffer is the caller's [Vec].  The result is the transfer of the
    handle. *)
Definition alloc_and_submit (null : bool) (ret : Z) (endpoint : Z) (buffer : list byte) (capacity : nat)
  : stateful Heap RusbmuxError.t loc :=
  let! buffer_ptr := heap_alloc (CellBuffer buffer capacity) in
  if null then
    let! _ := drop_vec buffer_ptr capacity in
    st_lift (Err (RusbmuxError.UnexpectedPacket "libusb_alloc_transfer failed"))
  else
    let! transfer := heap_alloc (CellTransfer (MkTransfer 0 0 0 0 0 0)) in
    let! user_data := heap_alloc (CellUserData (MkUserData buffer_ptr capacity)) in
    let! _ := libusb_fill_bulk_transfer transfer endpoint buffer_ptr (length buffer) user_data in
    if negb (ret =? 0)%Z then
      let! _ := heap_free user_data in
      let! _ := drop_vec buffer_ptr capacity in
      let! _ := heap_free transfer in
      st_lift (Err (RusbmuxError.UnexpectedPacket ("libusb_submit_transfer error: " +:+ pretty ret)))
    else st_ret transfer.

(** ** The two threads *)

(** [completed], and what was sent on the [oneshot] channel *)
Record Shared : Type := MkShared {
  sh_heap : Heap;
  sh_completed : bool;
  sh_sent : option BulkResult;
}.

Definition on_heap {A} (m : stateful Heap Empty_set A) : stateful Shared Empty_set A := λ s,
  let '(o, h) := m (sh_heap s) in (o, MkShared h (sh_completed s) (sh_sent s)).

(** Where the callback is: what it does next, with its variables. *)
Inductive callback : Type :=
| CbTake
| CbStore (ud : loc)
| CbReadTransfer (ud : loc)
| CbCopy (ud : loc) (actual_length : nat) (status : Z)
| CbSend (ud : loc) (result : BulkResult)
| CbDropBuffer (ud : loc)
| CbFreeTransfer (ud : loc)
| CbDropUserData (ud : loc)
| CbReturned.

Definition bulk_callback (transfer : loc) (pc : callback) : stateful Shared Empty_set callback :=
  match pc with
  | CbTake =>
      let! t := on_heap (read_transfer transfer) in
      st_ret (CbStore (lt_user_data t))
  | CbStore ud => λ s,
      match on_heap (read_user_data ud) s with
      | (Ok _, s) => (Ok (CbReadTransfer ud), MkShared (sh_heap s) true (sh_sent s))
      | (_, s) => (Ub, s)
      end
  | CbReadTransfer ud =>
      let! t := on_heap (read_transfer transfer) in
      st_ret (CbCopy ud (Z.to_nat (Z.max (lt_actual_length t) 0)) (lt_status t))
  | CbCopy ud actual_length status =>
      if 0 <? actual_length then
        let! u := on_heap (read_user_data ud) in
        let! data := on_heap (read_slice (ud_buffer_ptr u) actual_length) in
        st_ret (CbSend ud (MkBulkResult status data))
      else st_ret (CbSend ud (MkBulkResult status []))
  | CbSend ud result => λ s,
      match on_heap (read_user_data ud) s with
      | (Ok _, s) => (Ok (CbDropBuffer ud), MkShared (sh_heap s) (sh_completed s) (Some result))
      | (_, s) => (Ub, s)
      end
  | CbDropBuffer ud =>
      let! u := on_heap (read_user_data ud) in
      let! _ := on_heap (drop_vec (ud_buffer_ptr u) (ud_buffer_len u)) in
      st_ret (CbFreeTransfer ud)
  | CbFreeTransfer ud =>
      let! _ := on_heap (heap_free transfer) in
      st_ret (CbDropUserData ud)
  | CbDropUserData ud =>
      let! _ := on_heap (heap_free ud) in
      st_ret CbReturned
  | CbReturned => st_ret CbReturned
  end.

(** The holder of the handle: it may be dropped at any time, which loads [completed]
    and then may cancel. *)
Inductive holder : Type := Held | Cancelling | HandleDropped.

Definition drop_handle (transfer : loc) (pc : holder) : stateful Shared Empty_set holder :=
  match pc with
  | Held => λ s, (Ok (if negb (sh_completed s) then Cancelling else HandleDropped), s)
  | Cancelling =>
      (* [libusb_cancel_transfer] *)
      let! _ := on_heap (read_transfer transfer) in
      st_ret HandleDropped
  | HandleDropped => st_ret HandleDropped
  end.

(** The callback with what libusb called it for, if it has. *)
Record Xfer : Type := MkXfer {
  x_transfer : loc;
  x_shared : Shared;
  x_callback : option (BulkResult * callback);
  x_holder : holder;
}.

Definition submitted (transfer : loc) (h : Heap) : Xfer :=
  MkXfer transfer (MkShared h false None) None Held.

Definition callback_turn (x : Xfer) : outcome Empty_set Xfer :=
  match x_callback x with
  | None => Ok x
  | Some (r, pc) =>
      match bulk_callback (x_transfer x) pc (x_shared x) with
      | (Ok pc, s) => Ok (MkXfer (x_transfer x) s (Some (r, pc)) (x_holder x))
      | (Panic, _) => Panic
      | (_, _) => Ub
      end
  end.

Definition holder_turn (x : Xfer) : outcome Empty_set Xfer :=
  match drop_handle (x_transfer x) (x_holder x) (x_shared x) with
  | (Ok pc, s) => Ok (MkXfer (x_transfer x) s (x_callback x) pc)
  | (Panic, _) => Panic
  | (_, _) => Ub
  end.

(** libusb is done with a transfer, whatever came of it: it has put bytes into the
    buffer, or read them, and calls the callback, once. *)
Definition libusb_done (t : LibusbTransfer) (bytes : list byte) (actual_length status : Z) (x : Xfer) : Xfer :=
  let h := sh_heap (x_shared x) in
  let capacity := match h !! lt_buffer t with Some (CellBuffer _ c) => c | _ => 0 end in
  let t' := MkTransfer (lt_endpoint t) (lt_buffer t) (lt_length t) (lt_user_data t) actual_length status in
  MkXfer (x_transfer x)
    (MkShared (<[x_transfer x := CellTransfer t']> (<[lt_buffer t := CellBuffer bytes capacity]> h))
       (sh_completed (x_shared x)) (sh_sent (x_shared x)))
    (Some (MkBulkResult status (take (Z.to_nat actual_length) bytes), CbTake)) (x_holder x).

Inductive xfer_step : Xfer → Xfer → Prop :=
| step_done x t bytes actual_length status :
    x_callback x = None → sh_heap (x_shared x) !! x_transfer x = Some (CellTransfer t) →
    length bytes = lt_length t → (actual_length ≤ Z.of_nat (lt_length t))%Z →
    xfer_step x (libusb_done t bytes actual_length status x)
| step_callback x x' : callback_turn x = Ok x' → xfer_step x x'
| step_drop x x' : holder_turn x = Ok x' → xfer_step x x'.

(** ** Specification *)

(** What the callback has not yet freed, and what it has done. *)
Definition transfer_live (pc : callback) : bool :=
  match pc with CbDropUserData _ | CbReturned => false | _ => true end.

Definition buffer_live (pc : callback) : bool :=
  match pc with CbFreeTransfer _ | CbDropUserData _ | CbReturned => false | _ => true end.

Definition user_data_live (pc : callback) : bool :=
  match pc with CbReturned => false | _ => true end.

Definition has_stored (pc : callback) : bool :=
  match pc with CbTake | CbStore _ => false | _ => true end.

Definition has_sent (pc : callback) : bool :=
  match pc with CbDropBuffer _ | CbFreeTransfer _ | CbDropUserData _ | CbReturned => true | _ => false end.

(** Where the callback is in [x]; [CbTake] before it is called. *)
Definition callback_at (x : Xfer) : callback :=
  match x_callback x with Some (_, pc) => pc | None => CbTake end.

(** How many accesses the callback has before it. *)
Definition remaining (pc : callback) : nat :=
  match pc with
  | CbTake => 8
  | CbStore _ => 7
  | CbReadTransfer _ => 6
  | CbCopy _ _ _ => 5
  | CbSend _ _ => 4
  | CbDropBuffer _ => 3
  | CbFreeTransfer _ => 2
  | CbDropUserData _ => 1
  | CbReturned => 0
  end.

(** The callback, [n] turns on. *)
Fixpoint callback_turns (n : nat) (x : Xfer) : outcome Empty_set Xfer :=
  match n with
  | O => Ok x
  | S n => let? x := callback_turn x in callback_turns n x
  end.

(** The cells of a transfer that was submitted on the heap [h0]. *)
Record layout (h0 : Heap) (t b u : loc) : Prop := {
  lo_transfer : h0 !! t = None;
  lo_buffer : h0 !! b = None;
  lo_user_data : h0 !! u = None;
  lo_distinct : t ≠ b ∧ t ≠ u ∧ b ≠ u;
}.

(** The variables of the callback agree with the record and the result. *)
Definition variables_ok (u : loc) (actual_length : Z) (r : BulkResult) (pc : callback) : Prop :=
  match pc with
  | CbTake | CbReturned => True
  | CbCopy ud n st => ud = u ∧ n = Z.to_nat (Z.max actual_length 0) ∧ st = status r
  | CbSend ud r' => ud = u ∧ r' = r
  | CbStore ud | CbReadTransfer ud | CbDropBuffer ud | CbFreeTransfer ud | CbDropUserData ud => ud = u
  end.

Record xfer_inv (h0 : Heap) (b u : loc) (capacity : nat) (x : Xfer) : Prop := {
  xi_layout : layout h0 (x_transfer x) b u;
  xi_frame : ∀ l, l ≠ x_transfer x → l ≠ b → l ≠ u → sh_heap (x_shared x) !! l = h0 !! l;
  xi_completed : sh_completed (x_shared x) = has_stored (callback_at x);
  xi_cells : ∃ t bytes,
    lt_buffer t = b ∧ lt_user_data t = u ∧ length bytes = lt_length t ∧
    sh_heap (x_shared x) !! x_transfer x
      = (if transfer_live (callback_at x) then Some (CellTransfer t) else None) ∧
    sh_heap (x_shared x) !! b
      = (if buffer_live (callback_at x) then Some (CellBuffer bytes capacity) else None) ∧
    sh_heap (x_shared x) !! u
      = (if user_data_live (callback_at x) then Some (CellUserData (MkUserData b capacity)) else None) ∧
    match x_callback x with
    | None => sh_sent (x_shared x) = None
    | Some (r, pc) =>
        (lt_actual_length t ≤ Z.of_nat (lt_length t))%Z ∧
        r = MkBulkResult (lt_status t) (take (Z.to_nat (lt_actual_length t)) bytes) ∧
        variables_ok u (lt_actual_length t) r pc ∧
        sh_sent (x_shared x) = if has_sent pc then Some r else None
    end;
}.

(** ** Lemmas *)

Lemma alloc_fresh (h : Heap) : h !! fresh (dom h) = None.
Proof. apply not_elem_of_dom, is_fresh. Qed.

(** Three cells on top of a heap, freed. *)
Lemma free_all h0 h t b u capacity bytes ct cu {A} (o : outcome RusbmuxError.t A) :
  layout h0 t b u → (∀ l, l ≠ t → l ≠ b → l ≠ u → h !! l = h0 !! l) →
  h !! t = Some ct → h !! b = Some (CellBuffer bytes capacity) → h !! u = Some cu →
  (let! _ := heap_free u in let! _ := drop_vec b capacity in let! _ := heap_free t in st_lift o) h
  = (o, h0).
Proof.
  intros [H0t H0b H0u (? & ? & ?)] Hf Ht Hb Hu.
  erewrite st_bind_eq by (unfold heap_free; rewrite Hu; reflexivity).
  erewrite st_bind_eq; [|unfold drop_vec, heap_free;
    rewrite lookup_delete_ne, Hb, Nat.eqb_refl by done; reflexivity].
  erewrite st_bind_eq; [|unfold heap_free; rewrite !lookup_delete_ne, Ht by done; reflexivity].
  unfold st_lift. f_equal. apply map_eq. intros l.
  destruct (decide (l = t)) as [->|]; [by rewrite lookup_delete_eq|]. rewrite lookup_delete_ne by done.
  destruct (decide (l = b)) as [->|]; [by rewrite lookup_delete_eq|]. rewrite lookup_delete_ne by done.
  destruct (decide (l = u)) as [->|]; [by rewrite lookup_delete_eq|]. rewrite lookup_delete_ne by done.
  by apply Hf.
Qed.

(** Three cells that are allocated one after the other. *)
Lemma alloc_layout (h0 : Heap) cb ct cu ct' :
  let b := fresh (dom h0) in let h1 := <[b := cb]> h0 in
  let t := fresh (dom h1) in let h2 := <[t := ct]> h1 in
  let u := fresh (dom h2) in let h3 := <[u := cu]> h2 in
  let h := <[t := ct']> h3 in
  layout h0 t b u ∧ (∀ l, l ≠ t → l ≠ b → l ≠ u → h !! l = h0 !! l) ∧
  h3 !! t = Some ct ∧ h !! t = Some ct' ∧ h !! b = Some cb ∧ h !! u = Some cu.
Proof.
  intros b h1 t h2 u h3 h. pose proof (alloc_fresh h0 : h0 !! b = None) as Hb.
  pose proof (alloc_fresh h1 : h1 !! t = None) as Ht. pose proof (alloc_fresh h2 : h2 !! u = None) as Hu.
  unfold h2 in Hu. apply lookup_insert_None in Hu as [Hu Htu].
  unfold h1 in Ht, Hu. apply lookup_insert_None in Ht as [Ht Hbt].
  apply lookup_insert_None in Hu as [Hu Hbu].
  unfold h, h3, h2, h1. split_and!.
  - split; try done.
  - intros l ???. by rewrite !lookup_insert_ne.
  - by simplify_map_eq.
  - by simplify_map_eq.
  - by simplify_map_eq.
  - by simplify_map_eq.
Qed.

(** Submitting either leaves the heap as it was or gives a transfer that is ready. *)
Lemma alloc_and_submit_cases null ret endpoint buffer capacity h0 :
  (∃ e, alloc_and_submit null ret endpoint buffer capacity h0 = (Err e, h0)) ∨
  ∃ t b u h, alloc_and_submit null ret endpoint buffer capacity h0 = (Ok t, h) ∧
    xfer_inv h0 b u capacity (submitted t h).
Proof.
  unfold alloc_and_submit. set (b := fresh (dom h0)).
  set (h1 := <[b := CellBuffer buffer capacity]> h0).
  rewrite (st_bind_eq (heap_alloc _) _ h0 b h1 eq_refl). destruct null.
  - left. eexists. erewrite st_bind_eq;
      [|unfold drop_vec, heap_free, h1; rewrite lookup_insert_eq, Nat.eqb_refl; reflexivity].
    unfold st_lift. f_equal. apply delete_insert_id, alloc_fresh.
  - pose proof (alloc_layout h0 (CellBuffer buffer capacity) (CellTransfer (MkTransfer 0 0 0 0 0 0))
      (CellUserData (MkUserData b capacity))) as Hl. cbn zeta in Hl. fold b in Hl. fold h1 in Hl.
    set (t := fresh (dom h1)) in *. set (h2 := <[t := CellTransfer (MkTransfer 0 0 0 0 0 0)]> h1) in *.
    set (u := fresh (dom h2)) in *. set (h3 := <[u := CellUserData _]> h2) in *.
    set (tr := CellTransfer (MkTransfer endpoint b (length buffer) u 0 0)).
    destruct (Hl tr) as (Hlay & Hf & H3 & Ht & Hb & Hu).
    rewrite (st_bind_eq (heap_alloc _) _ h1 t h2 eq_refl), (st_bind_eq (heap_alloc _) _ h2 u h3 eq_refl).
    rewrite (st_bind_eq (libusb_fill_bulk_transfer _ _ _ _ _) _ h3 () (<[t := tr]> h3))
      by (unfold libusb_fill_bulk_transfer; by rewrite H3).
    destruct (negb _); [left; eexists; by eapply free_all|].
    right. exists t, b, u. eexists. split; [reflexivity|]. split; cbn; try done.
    exists (MkTransfer endpoint b (length buffer) u 0 0), buffer. done.
Qed.

(** An access of the callback to cells that are known. *)
Ltac run_access :=
  repeat (progress (unfold st_bind, on_heap, read_transfer, read_user_data, read_slice, drop_vec,
                      heap_free, heap_read, st_ret, st_lift; cbn)
          || match goal with
             | H : _ !! ?l = Some _ |- context [_ !! ?l] => rewrite H
             | |- context [?n =? ?n] => rewrite Nat.eqb_refl
             end).

(** The invariant for the same cells, or some of them gone. *)
Ltac same_cells tr bytes Hf :=
  split; cbn;
    [done
    |intros ????; rewrite ?lookup_delete_ne by done; by apply Hf
    |done
    |exists tr, bytes; cbn; split_and!; rewrite ?lookup_delete_eq, ?lookup_delete_ne by done;
     first [done|congruence|match goal with H : _ = MkBulkResult _ _ |- _ => by rewrite H end]].

(** The next access of the callback is to cells that are there. *)
Lemma callback_turn_ok h0 b u capacity x :
  xfer_inv h0 b u capacity x →
  ∃ x', callback_turn x = Ok x' ∧ xfer_inv h0 b u capacity x' ∧
    fst <$> x_callback x' = fst <$> x_callback x ∧
    (is_Some (x_callback x) → remaining (callback_at x') = pred (remaining (callback_at x))).
Proof.
  destruct x as [t [h c s] cb ho]. intros Hi.
  unfold callback_turn. cbn. destruct cb as [[r pc]|]; [|by eexists; split; [done|]; split; [done|]; split; [|intros [??]]].
  destruct Hi as [Hl Hf Hc (tr & bytes & Htb & Htu & Hlen & Ht & Hb & Hu & Ha & Hr & Hv & Hs)].
  cbn in *. destruct (lo_distinct _ _ _ _ Hl) as (? & ? & ?).
  destruct pc as [|ud|ud|ud n st|ud r'|ud|ud|ud|]; cbn in *; destruct_and?; try subst ud.
  4: { assert (n = Z.to_nat (lt_actual_length tr)) as -> by lia. subst st.
       pose proof Hr as Hr'. destruct (Z.to_nat (lt_actual_length tr)) as [|k] eqn:En; rewrite <- En in Hr';
         run_access.
       - eexists. split; [done|]. split; [|by split; intros]. same_cells tr bytes Hf.
       - destruct (length bytes) as [|m] eqn:El; [lia|]. rewrite (proj2 (Nat.leb_le k m)) by lia. run_access.
         eexists. split; [done|]. split; [|by split; intros]. same_cells tr bytes Hf. }
  all: run_access; eexists; (split; [done|]; split; [|by split; intros]; try subst r'; same_cells tr bytes Hf).
Qed.

Lemma libusb_done_inv h0 b u capacity x t bytes actual_length st :
  xfer_inv h0 b u capacity x → x_callback x = None →
  sh_heap (x_shared x) !! x_transfer x = Some (CellTransfer t) →
  length bytes = lt_length t → (actual_length ≤ Z.of_nat (lt_length t))%Z →
  xfer_inv h0 b u capacity (libusb_done t bytes actual_length st x).
Proof.
  destruct x as [tl [h c s] cb ho]. cbn. intros Hi -> Ht Hlen Ha.
  destruct Hi as [Hl Hf Hc (tr & bytes0 & Htb & Htu & _ & Ht' & Hb & Hu & Hs)].
  cbn in *. destruct (lo_distinct _ _ _ _ Hl) as (? & ? & ?).
  rewrite Ht in Ht'. injection Ht' as <-. unfold libusb_done. cbn. rewrite Htb. split; cbn; try done.
  - intros l ???. rewrite !lookup_insert_ne by done. by apply Hf.
  - eexists (MkTransfer (lt_endpoint t) b (lt_length t) (lt_user_data t) actual_length st), bytes.
    cbn. rewrite Hb. split_and!; simplify_map_eq; done.
Qed.

(** The holder of the handle only ever fails at a cancellation, and only when the
    transfer has been freed. *)
Lemma holder_turn_cases h0 b u capacity x :
  xfer_inv h0 b u capacity x →
  (x_holder x = Cancelling ∧ transfer_live (callback_at x) = false ∧ holder_turn x = Ub) ∨
  ((x_holder x = Cancelling → transfer_live (callback_at x) = true) ∧
   ∃ x', holder_turn x = Ok x' ∧ xfer_inv h0 b u capacity x' ∧ x_callback x' = x_callback x ∧
     (x_holder x = Held → sh_completed (x_shared x) = true → x_holder x' = HandleDropped)).
Proof.
  intros Hi. pose proof Hi as [_ _ _ (tr & bytes & _ & _ & _ & Ht & _)].
  destruct x as [t [h c s] cb ho]. cbn in *. unfold holder_turn. cbn.
  destruct ho; cbn.
  - right. split; [done|]. eexists. split; [done|]. split; [by destruct Hi; split|]. split; [done|].
    by intros _ ->.
  - destruct (transfer_live _) eqn:El.
    + right. split; [done|]. run_access. eexists. split; [done|]. split; [by destruct Hi; split|done].
    + left. split; [done|]. split; [done|]. unfold st_bind, on_heap, read_transfer, heap_read, st_bind.
      cbn. by rewrite Ht.
  - right. split; [done|]. eexists. split; [done|]. split; [by destruct Hi; split|done].
Qed.

Lemma xfer_steps_inv h0 b u capacity x x' :
  xfer_inv h0 b u capacity x → rtc xfer_step x x' → xfer_inv h0 b u capacity x'.
Proof.
  intros Hi Hr. induction Hr as [|x1 x2 x3 Hs _ IH]; [done|]. apply IH. destruct Hs as [|x x' Ht|x x' Ht].
  - by apply libusb_done_inv.
  - destruct (callback_turn_ok _ _ _ _ _ Hi) as (x2 & E & Hi2 & _). congruence.
  - destruct (holder_turn_cases _ _ _ _ _ Hi) as [(_ & _ & E)|(_ & x2 & E & Hi2 & _)]; congruence.
Qed.

Lemma callback_turns_ok n : ∀ h0 b u capacity x,
  xfer_inv h0 b u capacity x → is_Some (x_callback x) →
  ∃ x', callback_turns n x = Ok x' ∧ xfer_inv h0 b u capacity x' ∧
    fst <$> x_callback x' = fst <$> x_callback x ∧
    remaining (callback_at x') = remaining (callback_at x) - n.
Proof.
  induction n as [|n IH]; intros h0 b u capacity x Hi Hc; cbn [callback_turns].
  - exists x. split_and!; [done..|lia].
  - destruct (callback_turn_ok _ _ _ _ _ Hi) as (x1 & -> & Hi1 & Hr1 & Hp1). specialize (Hp1 Hc).
    assert (is_Some (x_callback x1)) as Hc1.
    { apply (fmap_is_Some fst). rewrite Hr1. by apply fmap_is_Some. }
    destruct (IH _ _ _ _ _ Hi1 Hc1) as (x2 & E & Hi2 & Hr2 & Hp2).
    exists x2. split_and!; [done..|congruence|lia].
Qed.

(** After the callback everything that was allocated is gone. *)
Lemma returned_heap h0 b u capacity x :
  xfer_inv h0 b u capacity x → callback_at x = CbReturned → sh_heap (x_shared x) = h0.
Proof.
  intros [[H1 H2 H3 _] Hf _ (tr & bytes & _ & _ & _ & Ht & Hb & Hu & _)] E. rewrite E in *. cbn in *.
  apply map_eq. intros l. destruct (decide (l = x_transfer x)) as [->|]; [congruence|].
  destruct (decide (l = b)) as [->|]; [congruence|]. destruct (decide (l = u)) as [->|]; [congruence|].
  by apply Hf.
Qed.

Lemma callback_turns_steps n : ∀ x x',
  callback_turns n x = Ok x' → rtc xfer_step x x' ∧ x_holder x' = x_holder x.
Proof.
  induction n as [|n IH]; intros x x' H; cbn in H; [by injection H as <-|].
  destruct (callback_turn x) as [x1| | |] eqn:E; try done. destruct (IH _ _ H) as [H1 H2]. split.
  - eapply rtc_l; [|done]. by apply step_callback.
  - rewrite H2. unfold callback_turn in E. destruct (x_callback x) as [[r pc]|]; [|by injection E as <-].
    destruct (bulk_callback _ _ _) as [[] ?]; by simplify_eq/=.
Qed.

Lemma remaining_returned pc : remaining pc = 0 → pc = CbReturned.
Proof. by destruct pc. Qed.

(** ** Properties *)

(** C16.  The memory of a transfer, under every interleaving of the event thread
    and the holder of the handle.  If nothing is submitted everything is freed.
    Otherwise the callback never touches a cell that is gone, whatever length and
    status libusb reports, and within eight accesses has sent exactly what was
    transferred and freed exactly what was allocated.  The holder's only access is
    the cancellation; it is safe unless the callback has freed the transfer since
    [completed] was loaded, and a holder that has received the result makes none. *)
Theorem transfer_memory_safe null ret endpoint buffer capacity h0 :
  match alloc_and_submit null ret endpoint buffer capacity h0 with
  | (Ok transfer, h) => ∀ x, rtc xfer_step (submitted transfer h) x →
      (∃ x', callback_turn x = Ok x') ∧
      (holder_turn x = Ub ↔ x_holder x = Cancelling ∧ transfer_live (callback_at x) = false) ∧
      (∀ r, sh_sent (x_shared x) = Some r → fst <$> x_callback x = Some r ∧
         (x_holder x = Held → ∃ x', holder_turn x = Ok x' ∧ x_holder x' = HandleDropped)) ∧
      (∀ r, fst <$> x_callback x = Some r → ∃ x', callback_turns 8 x = Ok x' ∧
         sh_sent (x_shared x') = Some r ∧ sh_heap (x_shared x') = h0)
  | (Err _, h) => h = h0
  | _ => False
  end.
Proof.
  destruct (alloc_and_submit_cases null ret endpoint buffer capacity h0)
    as [[e ->]|(t & b & u & h & -> & Hi)]; [done|].
  intros x Hr. apply (xfer_steps_inv _ _ _ _ _ _ Hi) in Hr. clear Hi.
  destruct (callback_turn_ok _ _ _ _ _ Hr) as (x1 & E1 & _).
  pose proof (holder_turn_cases _ _ _ _ _ Hr) as Hh.
  pose proof Hr as [_ _ Hc (tr & bytes & _ & _ & _ & _ & _ & _ & Hs)]. split_and!.
  - by exists x1.
  - destruct Hh as [(? & ? & ?)|(? & x2 & -> & _)]; [done|]. split; [done|]. intros [E El].
    rewrite H in El; done.
  - intros r E. unfold callback_at in *. destruct (x_callback x) as [[r' pc]|]; [|congruence].
    destruct Hs as (_ & _ & _ & Hs). rewrite E in Hs. destruct (has_sent pc) eqn:Ep; [|done].
    injection Hs as <-. split; [done|]. intros Eh.
    destruct Hh as [(? & _)|(_ & x2 & E2 & _ & _ & H2)]; [congruence|]. exists x2. split; [done|].
    apply H2; [done|]. rewrite Hc. by destruct pc.
  - intros r E. destruct (callback_turns_ok 8 _ _ _ _ _ Hr) as (x2 & E2 & Hi2 & Hf & Hn).
    { by destruct (x_callback x). }
    assert (callback_at x2 = CbReturned) as Er.
    { apply remaining_returned. rewrite Hn. destruct (callback_at x); cbn; lia. }
    exists x2. split; [done|]. split; [|by eapply returned_heap].
    pose proof Hi2 as [_ _ _ (tr2 & bytes2 & _ & _ & _ & _ & _ & _ & Hs2)].
    unfold callback_at in Er. rewrite E in Hf. destruct (x_callback x2) as [[r2 pc]|]; [|done].
    subst pc. injection Hf as ->. apply Hs2.
Qed.

(** The cancellation is not safe: a handle that is dropped while the transfer
    completes loads [completed], the event thread then runs the callback up to the
    point where the transfer is freed, and the transfer that is cancelled after that
    is gone. *)
Theorem drop_cancels_freed null ret endpoint buffer capacity h0 transfer h :
  alloc_and_submit null ret endpoint buffer capacity h0 = (Ok transfer, h) →
  ∃ x, rtc xfer_step (submitted transfer h) x ∧ holder_turn x = Ub.
Proof.
  intros E. destruct (alloc_and_submit_cases null ret endpoint buffer capacity h0)
    as [[e E']|(t & b & u & h' & E' & Hi)]; rewrite E in E'; [done|]. injection E' as <- <-.
  set (x1 := MkXfer transfer (x_shared (submitted transfer h)) None Cancelling).
  assert (xfer_step (submitted transfer h) x1) as H1 by (by apply step_drop).
  assert (xfer_inv h0 b u capacity x1) as Hi1 by (eapply xfer_steps_inv; [done|by apply rtc_once]).
  pose proof Hi1 as [_ _ _ (tr & bytes & _ & _ & Hlen & Ht & _)]. cbn in Ht.
  set (x2 := libusb_done tr bytes 0 0 x1).
  assert (xfer_step x1 x2) as H2 by (apply step_done; [done..|lia]).
  assert (xfer_inv h0 b u capacity x2) as Hi2 by (eapply xfer_steps_inv; [done|by apply rtc_once]).
  destruct (callback_turns_ok 7 _ _ _ _ _ Hi2) as (x3 & E3 & Hi3 & _ & Hn); [by eexists|].
  destruct (callback_turns_steps _ _ _ E3) as [Hs3 Hh3]. exists x3. split.
  - eapply rtc_l; [exact H1|]. eapply rtc_l; [exact H2|done].
  - destruct (holder_turn_cases _ _ _ _ _ Hi3) as [(_ & _ & ?)|(Hl & _)]; [done|].
    specialize (Hl Hh3). cbn in Hn. by destruct (callback_at x3).
Qed.
