(* ===== verification/Endpoints.v ===== *)
(** * The endpoints of a device ([src/usb_backend/mod.rs])

    [AnyEndpointReader] and [AnyEndpointWriter] give the tasks of a device the
    endpoints of either backend.  The [nusb] side is a parameter with the contracts
    [ByteReader] and [EndpointOut]; the [rusb] side is shown to meet them: its reader
    under [tokio]'s [read_exact], its writer under [write_all] and [submit_end].  What
    is proved of the reader and the writer loop against the contracts then holds of
    the bytes on the bus. *)

From S2P Require Import Prelude Io Poll Text Errors Conn Backend Tcp Utf8 DeviceMux Router Loops RusbIo.

(** ** [read_exact] on the [rusb] reader

    A reader whose device goes away after its script: every submission that the script
    does not know fails with [lr_gone].  No transfer stays pending for ever. *)

Definition wakes (t : Transfer) : bool := match t with CompletesIn _ _ => true | _ => false end.

Definition reader_live (r : RusbAsyncReader) : bool :=
  ((rr_pos r <? length (rr_buffer r)) || ((length (rr_buffer r) =? 0) && (rr_pos r =? 0)))
  && match rr_pending r with Some t => wakes t | None => true end.

Record live_reader : Type := LiveReader {
  lr_reader : RusbAsyncReader;
  lr_gone : string;
  lr_live : reader_live lr_reader = true;
}.

Definition refill (gone : string) (r : RusbAsyncReader) : RusbAsyncReader :=
  match submits r with
  | [] => MkReader (rr_buffer r) (rr_pos r) (rr_pending r) [inl gone]
  | _ => r
  end.

(** [read_exact] polls until the buffer of [n] bytes is full; a poll that is ready and
    has put nothing into it is the end of the file.  [std::io::Error::other] is of
    [OtherKind]. *)
Fixpoint rusb_read_go (fuel n : nat) (acc : list byte) (gone : string) (r : RusbAsyncReader)
  : outcome ErrorKind (list byte) * RusbAsyncReader :=
  match fuel with
  | O => (Panic, r)
  | S fuel =>
      if n =? 0 then (Ok acc, r)
      else match rusb_poll_read (read_buf_of n) (refill gone r) with
           | (Ok None, r) => rusb_read_go fuel n acc gone r
           | (Ok (Some buf), r) =>
               match filled buf with
               | [] => (Err UnexpectedEof, r)
               | bs => rusb_read_go fuel (n - length bs) (acc ++ bs) gone r
               end
           | (Err _, r) => (Err OtherKind, r)
           | (_, r) => (Panic, r)
           end
  end.

(** How often a transfer can be polled. *)
Definition transfer_polls (t : Transfer) : nat := match t with CompletesIn n _ => S n | _ => 0 end.

Definition submit_polls (s : string + (nat * option BulkResult)) : nat :=
  match s with inr (n, _) => S (S n) | inl _ => 0 end.

Definition reader_polls (r : RusbAsyncReader) : nat :=
  match rr_pending r with Some t => transfer_polls t | None => 0 end + sum_list (submit_polls <$> submits r).

(** Every poll takes a byte or one of the polls of a transfer. *)
Definition rusb_read_exact (n : nat) (gone : string) (r : RusbAsyncReader)
  : outcome ErrorKind (list byte) * RusbAsyncReader :=
  rusb_read_go (S (n + reader_polls r)) n [] gone r.

(** ** The data up to the first failure

    A transfer without data counts as one: it is read as the end of the file. *)

Definition take_result (check : bool) (result : option BulkResult) (rest : list byte) : list byte :=
  match result with
  | Some result =>
      if check && negb (status result =? 0)%Z then []
      else match data result with [] => [] | bs => bs ++ rest end
  | None => []
  end.

Fixpoint readable_submits (l : list (string + (nat * option BulkResult))) : list byte :=
  match l with
  | inr (O, result) :: l => take_result false result (readable_submits l)
  | inr (S _, result) :: l => take_result true result (readable_submits l)
  | _ => []
  end.

Definition readable (r : RusbAsyncReader) : list byte :=
  drop (rr_pos r) (rr_buffer r) ++
  match rr_pending r with
  | None => readable_submits (submits r)
  | Some (CompletesIn _ result) => take_result true result (readable_submits (submits r))
  | Some _ => []
  end.

(** What one poll with room for [n] bytes does. *)
Definition polled_well (n : nat) (r : RusbAsyncReader) (o : outcome string (option ReadBuf))
    (r' : RusbAsyncReader) : Prop :=
  reader_live r' = true ∧
  match o with
  | Ok (Some buf) =>
      match filled buf with
      | [] => readable r = []
      | bs => length bs ≤ n ∧ readable r = bs ++ readable r' ∧ reader_polls r' ≤ reader_polls r
      end
  | Ok None => readable r' = readable r ∧ reader_polls r' < reader_polls r
  | Err _ => readable r = []
  | _ => False
  end.

(** * Lemmas *)

Lemma reader_live_iff r :
  reader_live r = true ↔
  (rr_pos r < length (rr_buffer r) ∨ (rr_buffer r = [] ∧ rr_pos r = 0)) ∧
  match rr_pending r with Some t => wakes t = true | None => True end.
Proof.
  unfold reader_live. rewrite andb_true_iff, orb_true_iff, andb_true_iff, Nat.ltb_lt, !Nat.eqb_eq, length_zero_iff_nil.
  destruct (rr_pending r); naive_solver.
Qed.

(** A chunk that is there goes into the buffer, what does not fit is kept. *)
Lemma chunk_polled n chunk buf buffer pos r subs rest :
  0 < n → chunk_to_buf chunk (read_buf_of n) = (buf, buffer, pos) →
  readable r = match chunk with [] => [] | _ => chunk ++ rest end →
  readable_submits subs = rest → sum_list (submit_polls <$> subs) ≤ reader_polls r →
  polled_well n r (Ok (Some buf)) (MkReader buffer pos None subs).
Proof.
  intros Hn E Hr Hrest Hp. destruct (chunk_to_buf_split _ _ _ _ _ E) as [Hf Hl]. cbn in Hf.
  split; [by apply reader_live_iff|]. unfold chunk_to_buf in E. injection E as <- E2 E3.
  cbn [filled put_slice read_buf_of remaining app] in *.
  destruct chunk as [|b chunk]; [done|]. destruct n as [|n]; [lia|].
  cbn [length Nat.min take]. split_and!.
  - cbn. rewrite length_take. lia.
  - rewrite Hr. unfold readable. cbn [rr_pos rr_buffer rr_pending submits]. rewrite Hrest, app_assoc.
    f_equal. by rewrite <- Hf.
  - done.
Qed.

Lemma read_result_polled (check : bool) n t r0 r o r' :
  0 < n → wakes t = true → rr_buffer r = [] → rr_pos r = 0 →
  readable r0 = match t with
                | CompletesIn O result => take_result check result (readable_submits (submits r))
                | CompletesIn (S _) result => take_result true result (readable_submits (submits r))
                | _ => []
                end →
  transfer_polls t + sum_list (submit_polls <$> submits r) ≤ reader_polls r0 →
  read_result check t (read_buf_of n) r = (o, r') → polled_well n r0 o r'.
Proof.
  intros Hn Hw Hb Hp Hr Hs. unfold read_result.
  destruct t as [[|k] [res|]| |]; try done; cbn [poll_rx transfer_polls] in *.
  - unfold take_result in Hr. destruct (check && negb (status res =? 0)%Z).
    + intros [= <- <-]. split; [apply reader_live_iff; cbn; auto|done].
    + destruct (chunk_to_buf _ _) as [[b buffer] pos] eqn:E. intros [= <- <-].
      eapply chunk_polled; [done|exact E| |done|lia]. by destruct (data res).
  - intros [= <- <-]. split; [apply reader_live_iff; cbn; auto|done].
  - intros [= <- <-]. split; [apply reader_live_iff; cbn; auto|]. unfold readable at 1, reader_polls at 1.
    cbn [set_pending rr_pos rr_buffer rr_pending submits transfer_polls]. rewrite Hb, drop_nil, Hr. split; [done|lia].
  - intros [= <- <-]. split; [apply reader_live_iff; cbn; auto|]. unfold readable at 1, reader_polls at 1.
    cbn [set_pending rr_pos rr_buffer rr_pending submits transfer_polls]. rewrite Hb, drop_nil, Hr. split; [done|lia].
Qed.

Lemma refill_same gone r :
  readable (refill gone r) = readable r ∧ reader_polls (refill gone r) = reader_polls r ∧
  (reader_live r = true → reader_live (refill gone r) = true) ∧ submits (refill gone r) ≠ [].
Proof. unfold refill. destruct (submits r) eqn:E; [|by rewrite E]. unfold readable, reader_polls. rewrite E. done. Qed.

Lemma poll_read_polled n r o r' :
  0 < n → reader_live r = true → submits r ≠ [] →
  rusb_poll_read (read_buf_of n) r = (o, r') → polled_well n r o r'.
Proof.
  intros Hn [Hb Ht]%reader_live_iff Hsub. unfold rusb_poll_read.
  destruct (Nat.ltb_spec (rr_pos r) (length (rr_buffer r))) as [Hlt|Hge].
  - set (k := (length (rr_buffer r) - rr_pos r) `min` remaining (read_buf_of n)).
    assert (Hk : 0 < k ≤ n) by (subst k; cbn; lia).
    assert (Hkl : rr_pos r + k ≤ length (rr_buffer r)) by (subst k; cbn; lia).
    assert (Hf : length (take k (drop (rr_pos r) (rr_buffer r))) = k)
      by (rewrite length_take, length_drop; lia).
    assert (Hd : drop (rr_pos r) (rr_buffer r)
      = take k (drop (rr_pos r) (rr_buffer r)) ++ drop (rr_pos r + k) (rr_buffer r))
      by (by rewrite <- drop_drop, take_drop).
    intros [= <- <-]. unfold polled_well. cbn [filled put_slice read_buf_of app].
    destruct (take k _) as [|b l] eqn:El; [cbn in Hf; lia|]. rewrite Hf. split_and!; [|lia| |].
    + apply reader_live_iff. destruct (Nat.eqb_spec (rr_pos r + k) (length (rr_buffer r))); cbn;
        (split; [first [by right|left; lia]|done]).
    + unfold readable at 1. rewrite Hd, <- app_assoc. f_equal. unfold readable.
      destruct (Nat.eqb_spec (rr_pos r + k) (length (rr_buffer r))) as [E|E];
        cbn [rr_pos rr_buffer rr_pending submits]; [|done].
      by rewrite (drop_ge _ (rr_pos r + k)) by lia.
    + by destruct (_ =? _).
  - destruct Hb as [?|[Hb Hp]]; [lia|]. destruct (rr_pending r) as [t|] eqn:Et.
    + apply read_result_polled; try done.
      * unfold readable. rewrite Hb, drop_nil, Et. by destruct t as [[|]| |].
      * unfold reader_polls. rewrite Et. by destruct t.
    + unfold submit_read. destruct (submits r) as [|[e|[k res]] rest] eqn:Es; [done| |].
      * intros [= <- <-]. split; [apply reader_live_iff; cbn; rewrite Et; auto|].
        unfold readable. by rewrite Hb, drop_nil, Et, Es.
      * apply read_result_polled; try done; cbn [rr_buffer rr_pos submits].
        -- unfold readable. rewrite Hb, drop_nil, Et, Es. by destruct k.
        -- unfold reader_polls. rewrite Et, Es. cbn. lia.
Qed.

Lemma read_go_spec fuel : ∀ n acc gone r,
  reader_live r = true → n + reader_polls r < fuel →
  ∃ o r', rusb_read_go fuel n acc gone r = (o, r') ∧ reader_live r' = true ∧
    (n ≤ length (readable r) → o = Ok (acc ++ take n (readable r)) ∧ readable r' = drop n (readable r)) ∧
    (length (readable r) < n → ∃ e, o = Err e).
Proof.
  induction fuel as [|fuel IH]; intros n acc gone r Hr Hf; [lia|]. cbn [rusb_read_go].
  destruct (Nat.eqb_spec n 0) as [->|Hn].
  { eexists _, _. split_and!; [done|done| |lia]. by rewrite take_0, drop_0, app_nil_r. }
  destruct (refill_same gone r) as (R1 & R2 & R3 & R4).
  destruct (rusb_poll_read _ (refill gone r)) as [o r1] eqn:E.
  apply poll_read_polled in E as [H1 H2]; [|lia|by apply R3|done]. rewrite R1, R2 in H2.
  destruct o as [[buf|]|e| |]; try done.
  - destruct (filled buf) as [|b bs] eqn:Eb.
    + eexists _, _. split_and!; [done|done| |by eexists]. rewrite H2. cbn. lia.
    + destruct H2 as (Hl & Hrd & Hp). cbn [length] in Hl.
      destruct (IH (n - length (b :: bs)) (acc ++ b :: bs) gone r1 H1) as (o & r' & E1 & E2 & E3 & E4);
        [cbn [length]; lia|].
      exists o, r'. rewrite Hrd, length_app. cbn [length] in *. split_and!; [done|done| |].
      * intros Hle. destruct E3 as [-> ->]; [lia|]. cbn [length]. split.
        -- rewrite take_app_ge by (cbn [length]; lia). cbn [length]. by rewrite <- app_assoc.
        -- rewrite drop_app_ge by (cbn [length]; lia). done.
      * intros Hlt. apply E4. lia.
  - destruct H2 as [Hrd Hp]. destruct (IH n acc gone r1 H1) as (o & r' & H); [lia|].
    exists o, r'. by rewrite <- Hrd.
  - eexists _, _. split_and!; [done|done| |by eexists]. rewrite H2. cbn. lia.
Qed.

Lemma rusb_read_exact_live n gone r :
  reader_live r = true → reader_live (rusb_read_exact n gone r).2 = true.
Proof.
  intros Hr. unfold rusb_read_exact.
  destruct (read_go_spec (S (n + reader_polls r)) n [] gone r Hr) as (o & r' & -> & ? & _); [lia|done].
Qed.

(** ** The contract of the parsers *)

#[export] Instance rusb_byte_reader : ByteReader live_reader ErrorKind := {
  read_exact n s :=
    ((rusb_read_exact n (lr_gone s) (lr_reader s)).1,
     LiveReader (rusb_read_exact n (lr_gone s) (lr_reader s)).2 (lr_gone s)
       (rusb_read_exact_live n (lr_gone s) (lr_reader s) (lr_live s)));
  reader_data s := readable (lr_reader s);
}.

#[export] Instance rusb_byte_reader_laws : ByteReaderLaws live_reader ErrorKind.
Proof.
  split; intros n [r gone Hr]; cbn [reader_data rusb_byte_reader read_exact lr_reader lr_gone lr_live]; intros Hn;
    pose proof (read_go_spec (S (n + reader_polls r)) n [] gone r Hr ltac:(lia)) as (o & r' & E & _ & H1 & H2);
    change (rusb_read_go _ n [] gone r) with (rusb_read_exact n gone r) in E.
  - destruct (H1 Hn) as [-> Hd]. eexists (LiveReader _ gone _).
    split; [apply (f_equal2 pair); [by rewrite E|reflexivity]|].
    cbn [reader_data rusb_byte_reader lr_reader]. by rewrite E.
  - destruct (H2 Hn) as [e ->]. eexists e, (LiveReader _ gone _).
    apply (f_equal2 pair); [by rewrite E|reflexivity].
Qed.

(** ** The contract of the writer loop *)

Definition rusb_endpoint_laws (max : nat) : EndpointOutLaws RusbAsyncWriter.
Proof.
  refine {|
    out_works w := between_flushes w ∧ 0 < max ∧ rw_max_packet_size w = max ∧
      ∃ ps, transfers w = ps ≫= packet_transfers max;
    out_sent w := reassemble max [] (transfers w ≫= usb_packets max);
    out_current := rw_buffer;
    out_takes n := n < AUTO_FLUSH;
  |}.
  - lia.
  - intros bs w (Hw & Hm & Hx & Ht) Hl. rewrite length_app in Hl. cbn [out_write rusb_endpoint].
    rewrite rusb_write_all_ok by (done || apply Hw). eexists. by destruct w.
  - intros w (Hw & Hm & Hx & ps & Ht) Hc. cbn [submit_end rusb_endpoint]. rewrite submit_end_ok, Hx by done.
    cbn [transfers rw_max_packet_size rw_buffer].
    assert (E : transfers w ++ packet_transfers max (rw_buffer w) = (ps ++ [rw_buffer w]) ≫= packet_transfers max).
    { rewrite bind_app, Ht. cbn. by rewrite app_nil_r. }
    rewrite E. split_and!; try done; [by eexists|].
    rewrite reassemble_packets, Ht, reassemble_packets by done.
    rewrite list.filter_app. f_equal. by rewrite list.filter_cons_True.
Defined.

(** ** [AnyEndpointReader] and [AnyEndpointWriter] *)

Inductive any_endpoint (N R : Type) : Type := NusbEnd (x : N) | RusbEnd (x : R).
Arguments NusbEnd {N R} x.
Arguments RusbEnd {N R} x.

(** The [nusb] crate's endpoints, as they are polled *)
Class NusbIo (NR NW : Type) : Type := {
  nusb_poll_read : ReadBuf → polling NR ReadBuf;
  nusb_poll_write : list byte → polling NW nat;
  nusb_poll_flush : polling NW ();
  nusb_poll_shutdown : polling NW ();
}.

(** A poll of the endpoint that is there. *)
Definition dispatch {N R A} (f : polling N A) (g : polling R A) : polling (any_endpoint N R) A := λ e,
  match e with
  | NusbEnd n => let '(o, n) := f n in (o, NusbEnd n)
  | RusbEnd r => let '(o, r) := g r in (o, RusbEnd r)
  end.

Section any.
Context {NR NW : Type} {nusb : NusbIo NR NW}.

Definition AnyEndpointReader : Type := any_endpoint NR RusbAsyncReader.
Definition AnyEndpointWriter : Type := any_endpoint NW RusbAsyncWriter.

Definition any_poll_read (buf : ReadBuf) : polling AnyEndpointReader ReadBuf :=
  dispatch (nusb_poll_read buf) (rusb_poll_read buf).

Definition any_poll_write (buf : list byte) : polling AnyEndpointWriter nat :=
  dispatch (nusb_poll_write buf) (rusb_poll_write buf).

Definition any_poll_flush : polling AnyEndpointWriter () := dispatch nusb_poll_flush rusb_poll_flush.

Definition any_poll_shutdown : polling AnyEndpointWriter () := dispatch nusb_poll_shutdown rusb_poll_shutdown.

End any.

(** The two contracts pass through the dispatch. *)
Section dispatch.
Context {A B E : Type}.

#[export] Instance any_byte_reader `{ByteReader A E, ByteReader B E} : ByteReader (any_endpoint A B) E := {
  read_exact n e :=
    match e with
    | NusbEnd a => let '(o, a) := read_exact n a in (o, NusbEnd a)
    | RusbEnd b => let '(o, b) := read_exact n b in (o, RusbEnd b)
    end;
  reader_data e := match e with NusbEnd a => reader_data a | RusbEnd b => reader_data b end;
}.

#[export] Instance any_byte_reader_laws `{ByteReaderLaws A E, ByteReaderLaws B E} :
  ByteReaderLaws (any_endpoint A B) E.
Proof.
  split; intros n [a|b] Hn; cbn [reader_data read_exact any_byte_reader] in *.
  - destruct (read_exact_enough n a Hn) as (a' & -> & ?). by exists (NusbEnd a').
  - destruct (read_exact_enough n b Hn) as (b' & -> & ?). by exists (RusbEnd b').
  - destruct (read_exact_short n a Hn) as (e & a' & ->). by exists e, (NusbEnd a').
  - destruct (read_exact_short n b Hn) as (e & b' & ->). by exists e, (RusbEnd b').
Qed.

#[export] Instance any_endpoint_out `{EndpointOut A, EndpointOut B} : EndpointOut (any_endpoint A B) := {
  out_write bs e :=
    match e with
    | NusbEnd a => let '(r, a) := out_write bs a in (r, NusbEnd a)
    | RusbEnd b => let '(r, b) := out_write bs b in (r, RusbEnd b)
    end;
  submit_end e := match e with NusbEnd a => NusbEnd (submit_end a) | RusbEnd b => RusbEnd (submit_end b) end;
}.

(** A packet has to fit both backends. *)
#[export, refine] Instance any_endpoint_laws `{EndpointOutLaws A, EndpointOutLaws B} :
  EndpointOutLaws (any_endpoint A B) := {|
  out_works e := match e with NusbEnd a => out_works a | RusbEnd b => out_works b end;
  out_sent e := match e with NusbEnd a => out_sent a | RusbEnd b => out_sent b end;
  out_current e := match e with NusbEnd a => out_current a | RusbEnd b => out_current b end;
  out_takes n := out_takes (W := A) n ∧ out_takes (W := B) n;
|}.
Proof.
  - intros m n Hmn [Ta Tb]. split; by eapply out_takes_le.
  - intros bs [a|b] Hw [Ta Tb]; cbn [out_write any_endpoint_out].
    + destruct (out_write_works bs a Hw Ta) as (a' & -> & ?). by exists (NusbEnd a').
    + destruct (out_write_works bs b Hw Tb) as (b' & -> & ?). by exists (RusbEnd b').
  - intros [a|b] Hw Hc; cbn [submit_end any_endpoint_out]; by apply submit_end_works.
Defined.

End dispatch.

(** ** A device that is read until it goes away

    Its transfers: how often each is polled before it is complete, and its data. *)

Definition good_transfers (l : list (nat * list byte)) : list (string + (nat * option BulkResult)) :=
  (λ t, inr (t.1, Some (MkBulkResult 0 t.2))) <$> l.

Lemma readable_good l :
  Forall (λ t, t.2 ≠ []) l → readable_submits (good_transfers l) = concat (snd <$> l).
Proof.
  induction 1 as [|[n bs] l Hbs _ IH]; [done|]. cbn in *. rewrite <- IH.
  destruct n, bs; done.
Qed.

Definition fresh_reader (gone : string) (l : list (nat * list byte)) : live_reader :=
  LiveReader (reader_new (good_transfers l)) gone eq_refl.

(** ** The writer after the device was opened

    [new_with_disconnect_tx] writes and flushes the version and the setup packet. *)

(** [poll_flush] until it is ready; [None]: it is never woken. *)
Fixpoint rusb_flush (fuel : nat) (w : RusbAsyncWriter) : option (outcome string ()) * RusbAsyncWriter :=
  match rusb_poll_flush w, fuel with
  | (Ok (Some _), w), _ => (Some (Ok ()), w)
  | (Ok None, w), S fuel => rusb_flush fuel w
  | (Ok None, w), O => (None, w)
  | (Err e, w), _ => (Some (Err e), w)
  | (_, w), _ => (Some Panic, w)
  end.

Lemma flush_waits n w :
  rw_pending w = Some (CompletesIn n (Some (MkBulkResult 0 []))) →
  rusb_flush n w = (Some (Ok ()), set_write_pending None w).
Proof.
  revert w. induction n as [|n IH]; intros w Hp; cbn [rusb_flush]; unfold rusb_poll_flush; rewrite Hp; [done|].
  cbn [flush_result poll_rx]. rewrite IH by done. by destruct w.
Qed.

(** What was collected is one transfer, and is counted for the next packet. *)
Lemma flush_ok n rest w :
  rw_pending w = None → rw_buffer w ≠ [] → rw_submits w = inr (n, Some (MkBulkResult 0 [])) :: rest →
  rusb_flush n w = (Some (Ok ()),
    MkWriter (rw_max_packet_size w) [] (current_transfer_len w + length (rw_buffer w)) None
      (transfers w ++ [rw_buffer w]) rest (write_faults w)).
Proof.
  intros Hp Hb Hs. destruct w as [max buf len pend ts subs faults]. cbn in Hp, Hb, Hs. subst.
  destruct buf as [|b buf]; [done|].
  destruct n as [|n]; cbn [rusb_flush]; unfold rusb_poll_flush; cbn -[rusb_flush]; [done|].
  rewrite flush_waits by done. done.
Qed.

Section wire.
Context {codec : TcpCodec} {laws : TcpCodecLaws}.

(** The first two packets of the device, on the [rusb] writer. *)
Definition open_writes (n1 n2 : nat) (w : RusbAsyncWriter) : RusbAsyncWriter :=
  let w := (rusb_flush n1 (out_write (packet_encode version_packet) w).2).2 in
  (rusb_flush n2 (out_write (packet_encode setup_packet) w).2).2.

(** The writer that the writer loop gets: the bytes of the two packets still count. *)
Definition opened_writer (max : nat) : RusbAsyncWriter :=
  MkWriter max [] (length (packet_encode version_packet) + length (packet_encode setup_packet)) None
    [packet_encode version_packet; packet_encode setup_packet] [] [].

Lemma length_opening :
  length (packet_encode version_packet) = 20 ∧ length (packet_encode setup_packet) = 17.
Proof. split; vm_compute; reflexivity. Qed.

Lemma open_writes_ok max n1 n2 :
  open_writes n1 n2 (writer_new max [inr (n1, Some (MkBulkResult 0 [])); inr (n2, Some (MkBulkResult 0 []))] [])
  = opened_writer max.
Proof.
  unfold open_writes, opened_writer. cbn [out_write rusb_endpoint]. destruct length_opening as [L1 L2].
  assert (Hbig : 37 < AUTO_FLUSH) by (apply Nat.ltb_lt; vm_compute; reflexivity).
  revert L1 L2. generalize (packet_encode version_packet) (packet_encode setup_packet).
  intros v s L1 L2.
  rewrite (rusb_write_all_ok v) by (done || (cbn [rw_buffer writer_new length Nat.add]; lia)). cbn [snd].
  erewrite (flush_ok n1); [|done|by destruct v|reflexivity].
  cbn [snd]. rewrite (rusb_write_all_ok s) by (done || (cbn [rw_buffer length Nat.add]; lia)). cbn [snd].
  erewrite (flush_ok n2); [|done|by destruct s|reflexivity]. done.
Qed.

(** A packet that is sent with [c] bytes counted already, and needs no empty packet
    after it. *)
Lemma counted_submit_end max buf c ts subs :
  buf ≠ [] → is_multiple_of (c + length buf) max = false →
  rusb_submit_end (MkWriter max buf c None ts subs []) = MkWriter max [] 0 None (ts ++ [buf]) subs [].
Proof.
  intros Hb H. unfold rusb_submit_end, sync_flush_and_zlp, st_bind, st_get, modify_writer, write_bulk, st_ret.
  destruct buf as [|b l]; [done|]. cbn -[is_multiple_of]. cbn [length] in H. rewrite H.
  by rewrite andb_false_r.
Qed.

Lemma counted_turn oc p recv seq next max c ts subs :
  sendable_packet p → in_width 16 recv → in_width 16 seq →
  match header p with V2 _ => incr_u16 oc seq | V1 _ => Some seq end = Some next →
  let bytes := packet_encode (renumber seq recv p) in
  length bytes < AUTO_FLUSH → is_multiple_of (c + length bytes) max = false →
  writer_turn oc p recv (Writing seq (MkWriter max [] c None ts subs [])) =
  (Wrote, Writing next (MkWriter max [] 0 None (ts ++ [bytes]) subs [])).
Proof.
  intros Hp Hr Hs Hnext bytes Hn Hm. unfold writer_turn. cbn [send_seq end_out]. rewrite Hnext.
  destruct (header_bytes_sendable _ (renumber_ok seq recv p Hs Hr Hp)) as (hb & Hhb & Henc).
  rewrite Hhb. apply header_bytes_nonempty in Hhb. subst bytes. rewrite Henc in *. cbn [out_write rusb_endpoint].
  revert Hn Hm. generalize (payload_encode (DeviceMux.payload (renumber seq recv p))). intros pl Hn Hm.
  pose proof (length_app hb pl) as Hl.
  rewrite (rusb_write_all_ok hb) by (done || (cbn [rw_buffer length Nat.add]; lia)). cbn [set_transfer].
  rewrite (rusb_write_all_ok pl) by (done || (cbn [rw_buffer set_transfer app]; lia)).
  cbn [submit_end rusb_endpoint]. unfold set_transfer.
  cbn [app rw_buffer rw_max_packet_size current_transfer_len rw_pending transfers rw_submits write_faults].
  rewrite counted_submit_end; [done| |done]. by destruct hb.
Qed.

(** The writer loop's counter does not run out at its start. *)
Lemma first_seqs_ok oc (p1 p2 : UsbDevicePacket) :
  match header p1 with V2 _ => incr_u16 oc 1 | V1 _ => Some 1%Z end = Some (next_seq 1 p1) ∧
  match header p2 with V2 _ => incr_u16 oc (next_seq 1 p1) | V1 _ => Some (next_seq 1 p1) end
    = Some (next_seq (next_seq 1 p1) p2) ∧ in_width 16 (next_seq 1 p1).
Proof.
  unfold next_seq. destruct (header p1), (header p2), oc; vm_compute; (split_and!; [done|done|done|done]) || done.
Qed.

Lemma encode_nonempty p : sendable_packet p → packet_encode p ≠ [].
Proof.
  intros Hp. destruct (header_bytes_sendable p Hp) as (hb & Hhb & ->). apply header_bytes_nonempty in Hhb.
  by destruct hb.
Qed.

(** Transfers that end by themselves are the packets of which the device has them. *)
Lemma plain_transfers max ps :
  Forall (λ b, b ≠ [] ∧ is_multiple_of (length b) max = false) ps → ps ≫= packet_transfers max = ps.
Proof.
  induction 1 as [|b ps [Hb Hm] _ IH]; [done|]. rewrite bind_cons, IH. unfold packet_transfers.
  rewrite Hm. by destruct b.
Qed.

Lemma not_multiple_nonempty b max : is_multiple_of (length b) max = false → b ≠ ([] : list byte).
Proof.
  intros H ->. cbn [length] in H. unfold is_multiple_of in H.
  destruct (max =? 0); [done|by rewrite Nat.Div0.mod_0_l in H].
Qed.

Lemma full_speeds max :
  max ∈ [64; 512; 1024] → 0 < max ∧ is_multiple_of 20 max = false ∧ is_multiple_of 17 max = false.
Proof.
  rewrite !elem_of_cons, elem_of_nil. intros [->|[->|[->|[]]]]; vm_compute; split_and!; (lia || done).
Qed.

(** The first turn of the writer loop leaves a writer that works. *)
Lemma opened_first oc max p recv :
  max ∈ [64; 512; 1024] → sendable_packet p → in_width 16 recv →
  let bytes := packet_encode (renumber 1 recv p) in
  length bytes < AUTO_FLUSH → is_multiple_of (length bytes) max = false →
  is_multiple_of (37 + length bytes) max = false →
  ∃ w, writer_turn oc p recv (Writing 1 (opened_writer max)) = (Wrote, Writing (next_seq 1 p) w) ∧
    out_works (EndpointOutLaws := rusb_endpoint_laws max) w ∧ rw_buffer w = [] ∧
    reassemble max [] (transfers w ≫= usb_packets max)
    = [packet_encode version_packet; packet_encode setup_packet; bytes].
Proof.
  intros Hmax Hp Hr bytes Hl Hm1 Hm2. destruct (full_speeds max Hmax) as (Hpos & M1 & M2).
  destruct length_opening as [L1 L2].
  assert (Hplain : Forall (λ b, b ≠ [] ∧ is_multiple_of (length b) max = false)
    [packet_encode version_packet; packet_encode setup_packet; bytes]).
  { repeat apply list.Forall_cons_2; try apply list.Forall_nil_2;
      (split; [apply (not_multiple_nonempty _ max)|]); by rewrite ?L1, ?L2. }
  eexists. split.
  { unfold opened_writer. rewrite L1, L2. by apply counted_turn; [..|apply (first_seqs_ok oc p p)| |]. }
  fold bytes.
  cbn [transfers rw_buffer app]. rewrite <- (plain_transfers max _ Hplain) at 2.
  split_and!; [|done|].
  - split_and!; [done|done|done|]. eexists. symmetry. by apply plain_transfers.
  - rewrite reassemble_packets by done. clear -Hplain.
    induction Hplain as [|b ps [Hb _] _ IH]; [done|]. rewrite list.filter_cons_True by done. by f_equal.
Qed.

(** C13.  From the opening of the device on, the packets on the bus, put together
    until a short one as the device does, are exactly the version packet, the setup
    packet and the packets that came off the queue, in order and renumbered from 1, each
    by itself; and read in this order the queue's packets come out.  This needs the first
    of them to fill its last bus packet neither by itself nor together with the two before
    it, whose bytes are still counted (the SYN it is, of 36 bytes, does not), and packets
    below the size of an automatic flush. *)
Theorem opened_writer_on_bus oc max n1 n2 p recv packets :
  max ∈ [64; 512; 1024] →
  Forall (λ p, sendable_packet p.1 ∧ in_width 16 p.2) ((p, recv) :: packets) →
  oc = false ∨ (1 + Z.of_nat (count_v2 ((p, recv) :: packets)) < 2 ^ 16)%Z →
  let ps := numbered 1 ((p, recv) :: packets) in
  Forall (λ p, length (packet_encode p) < AUTO_FLUSH) ps →
  is_multiple_of (length (packet_encode (renumber 1 recv p))) max = false →
  is_multiple_of (37 + length (packet_encode (renumber 1 recv p))) max = false →
  ∃ s', start_writer_loop oc ((p, recv) :: packets)
      (Writing 1 (open_writes n1 n2
        (writer_new max [inr (n1, Some (MkBulkResult 0 [])); inr (n2, Some (MkBulkResult 0 []))] [])))
    = (true, s') ∧ rw_buffer (end_out s') = [] ∧
    reassemble max [] (transfers (end_out s') ≫= usb_packets max) =
      packet_encode version_packet :: packet_encode setup_packet :: (packet_encode <$> ps) ∧
    read_all (S (length packets)) (wire ps) = Some (ps, []).
Proof.
  intros Hmax Hps Hoc ps Hlen Hm1 Hm2.
  assert (Hread : read_all (S (length packets)) (wire ps) = Some (ps, [])).
  { change (S (length packets)) with (length ((p, recv) :: packets)).
    rewrite <- (length_numbered 1), <- (app_nil_r (wire _)).
    apply read_all_wire, numbered_sendable; [unfold in_width; lia|done]. }
  destruct (next_seq_ok oc 1 p recv packets ltac:(unfold in_width; lia) Hoc) as (_ & Hnw & Hoc').
  apply list.Forall_cons in Hps as [[Hp Hr] Hps]. subst ps. cbn [numbered] in *.
  apply list.Forall_cons in Hlen as [Hl Hlen]. rewrite open_writes_ok. cbn [start_writer_loop].
  destruct (opened_first oc max p recv Hmax Hp Hr Hl Hm1 Hm2) as (w & -> & Hw & Hb & Hs).
  destruct (writer_loop_sends (ol := rusb_endpoint_laws max) oc packets (Writing (next_seq 1 p) w)
    Hnw Hw Hb Hps Hoc' Hlen) as (s' & E & _ & S2 & C2).
  exists s'. split_and!; [exact E|exact C2| |exact Hread].
  cbn [out_sent rusb_endpoint_laws end_out send_seq] in S2. by rewrite S2, Hs.
Qed.

(** The bytes of the version and the setup packet do count: a first packet that fills its
    last bus packet gets no empty packet after it, so that the device takes it and the
    second one for a single packet. *)
Theorem first_packet_glued oc max p1 r1 p2 r2 :
  max ∈ [64; 512; 1024] → sendable_packet p1 → sendable_packet p2 → in_width 16 r1 → in_width 16 r2 →
  let b1 := packet_encode (renumber 1 r1 p1) in
  let b2 := packet_encode (renumber (next_seq 1 p1) r2 p2) in
  length b1 < AUTO_FLUSH → length b2 < AUTO_FLUSH →
  is_multiple_of (length b1) max = true → is_multiple_of (37 + length b1) max = false →
  is_multiple_of (length b2) max = false →
  ∃ s', start_writer_loop oc [(p1, r1); (p2, r2)] (Writing 1 (opened_writer max)) = (true, s') ∧
    reassemble max [] (transfers (end_out s') ≫= usb_packets max) =
      [packet_encode version_packet; packet_encode setup_packet; b1 ++ b2].
Proof.
  intros Hmax Hp1 Hp2 Hr1 Hr2 b1 b2 Hl1 Hl2 Hm1 Hm1' Hm2.
  destruct (full_speeds max Hmax) as (Hpos & M1 & M2). destruct length_opening as [L1 L2].
  destruct (first_seqs_ok oc p1 p2) as (N1 & N2 & Hw). pose proof (ltac:(unfold in_width; lia) : in_width 16 1) as Hw1.
  assert (Hb1 : b1 ≠ []) by (by apply encode_nonempty, renumber_ok).
  assert (Hb2 : b2 ≠ []) by (by apply encode_nonempty, renumber_ok).
  eexists. split.
  { cbn [start_writer_loop]. unfold opened_writer. rewrite L1, L2.
    rewrite (counted_turn oc p1 r1 1 _ _ _ _ _ Hp1 Hr1 Hw1 N1 Hl1 Hm1').
    by rewrite (counted_turn oc p2 r2 _ _ max 0 _ _ Hp2 Hr2 Hw N2 Hl2 Hm2). }
  cbn [end_out transfers app]. fold b1 b2. rewrite !bind_cons.
  unfold usb_packets. rewrite reassemble_transfer, L1, M1 by
    (first [done | lia | intros E; rewrite E in L1; discriminate L1]).
  rewrite reassemble_transfer, L2, M2 by
    (first [done | lia | intros E; rewrite E in L2; discriminate L2]).
  rewrite reassemble_transfer, Hm1 by (done || lia).
  rewrite reassemble_transfer, Hm2 by (done || lia). done.
Qed.

(** With nothing to read a packet is an I/O error. *)
Lemma reader_at_end {R} {reader : ByteReader R ErrorKind} {rlaws : ByteReaderLaws R ErrorKind} (r : R) :
  reader_data r = [] → ∃ k r', packet_from_reader r = (Err (ParseError.IO k), r').
Proof.
  intros Hr. destruct (read_exact_io_short HEADER_V1_SIZE r) as (e & r' & E); [rewrite Hr; by apply Nat.ltb_lt|].
  exists e, r'. unfold packet_from_reader, header_from_reader. unfold st_bind at 1 2. by rewrite E.
Qed.

(** C14.  Packets that the device sends, over transfers that cut their bytes anywhere
    and complete after any number of polls, reach the router exactly as if they were
    handled in order; when the transfers end, because the device is gone, the reader loop
    ends: the device is reported as disconnected once, and no route is left. *)
Theorem device_read_until_gone {NR} {nusb_reader : ByteReader NR ErrorKind}
    {nusb_laws : ByteReaderLaws NR ErrorKind} ps l gone notify id op r :
  Forall sendable_packet ps → Forall (λ t, t.2 ≠ []) l → concat (snd <$> l) = wire ps → never_stalls ps r →
  ∃ s', start_reader_loop (S (length ps)) notify id op
      (Reading (RusbEnd (fresh_reader gone l) : any_endpoint NR live_reader) r 0 []) = (Break, s') ∧
    rd_router s' = clear (handle_all ps r) ∧
    recv_seq s' = wrap 16 (Z.of_nat (length ps)) ∧
    notified s' = if notify then [IODisconnected id op] else [].
Proof.
  intros Hps Hl Hw Hst. set (s := Reading _ r 0 []).
  destruct (reader_loop_handles ps notify id op s []) as (s1 & E & Hd & Hr & Hq & Hn); try done.
  { cbn. rewrite app_nil_r, <- Hw. by apply readable_good. }
  rewrite <- Nat.add_1_r, (start_reader_loop_app _ _ _ _ _ _ _ E). cbn [start_reader_loop].
  destruct (reader_at_end _ Hd) as (k & r' & Ek). unfold reader_turn. rewrite Ek.
  eexists. split; [done|]. cbn [rd_router recv_seq notified]. by rewrite Hr, Hq, Hn.
Qed.

(** A transfer that completes without data is taken for the end of the file: the device is
    reported as gone and its routes are removed, whatever it would still send. *)
Theorem empty_transfer_disconnects {NR} {nusb_reader : ByteReader NR ErrorKind}
    {nusb_laws : ByteReaderLaws NR ErrorKind} n l gone notify id op r :
  ∃ s', reader_turn notify id op
      (Reading (RusbEnd (fresh_reader gone ((n, []) :: l)) : any_endpoint NR live_reader) r 0 []) = (Break, s') ∧
    rd_router s' = clear r ∧ notified s' = if notify then [IODisconnected id op] else [].
Proof.
  set (e := RusbEnd (fresh_reader gone ((n, []) :: l)) : any_endpoint NR live_reader).
  assert (Hd : reader_data e = []) by (by destruct n).
  destruct (reader_at_end e Hd) as (k & r' & Ek). unfold reader_turn. cbn [end_in]. rewrite Ek.
  eexists. split; [done|]. by destruct notify.
Qed.

End wire.
