(* ===== verification/DeviceFlow.v ===== *)
(** * The connections of a device side by side

    A device's reader loop, its packet router, the queue of its writer loop and any
    number of connected clients as one system: [handle_usb_device_connect]
    ([src/bin/rusbmux/handler/connect.rs]) runs once per client, in a task of its own,
    and the tasks meet in the router's channels and in the writer's queue
    ([src/device/usb.rs], [src/device/packet_router.rs]).  A step is one turn of one
    task, the functions of [Loops], [Conn] and [Bridge] on the shared state; a task
    that would wait has no step.  Proved is that the connections do not disturb each
    other: each client gets the stream that the device sent to its port (less at most one
    packet for each of its own receives that is interrupted), and the device gets from each connection the stream that its client wrote. *)

From S2P Require Import Prelude Io Tcp DeviceMux Builder Errors Conn Bridge Router Loops.

(** ** The shared state *)

(** [sh_queue] is everything that was given to the writer loop, each packet with the
    connection that gave it; [sh_open]: the writer loop has not ended. *)
Record shared : Type := Shared {
  sh_router : RouterState;
  sh_queue : list (ConnId * UsbDevicePacket);
  sh_open : bool;
}.

(** What the connection [i] gave to the writer loop. *)
Definition of_conn (i : ConnId) (q : list (ConnId * UsbDevicePacket)) : list UsbDevicePacket :=
  omap (λ jp, if decide (jp.1 = i) then Some jp.2 else None) q.

Definition flow_send (i : ConnId) (p : UsbDevicePacket) : stateful shared RusbmuxError.t () := λ s,
  if sh_open s then (Ok (), Shared (sh_router s) (sh_queue s ++ [(i, p)]) true)
  else (Err (from_send_error p), s).

Definition flow_recv (c : ChanId) : stateful shared RusbmuxError.t UsbDevicePacket := λ s,
  let '(r, router') := Router.rx_recv c (sh_router s) in
  (match r with Received p => Ok p | _ => Err from_recv_error end, Shared router' (sh_queue s) (sh_open s)).

(** The two channels of the connection [i], whose packets come from the channel [c]. *)
Definition chan_link (i : ConnId) (c : ChanId) : Link shared := {|
  tx_send := flow_send i;
  tx_try_send := flow_send i;
  Conn.rx_recv := flow_recv c;
  link_sent s := of_conn i (sh_queue s);
|}.

(** A connection: [fc_log] are the packets it has received, [fc_up] is [None] while it
    waits for the answer to its SYN. *)
Record flow_conn : Type := FlowConn {
  fc_port : Z;
  fc_dest : Z;
  fc_chan : ChanId;
  fc_client : stream;
  fc_log : list UsbDevicePacket;
  fc_up : option (UsbDeviceConn * list byte);
}.

Record flow : Type := Flow {
  fl_shared : shared;
  fl_conns : gmap ConnId flow_conn;
  fl_next : ConnId;
}.

(** ** The steps *)

(** [UsbDevice::connect] in two halves: up to the SYN, and from the SYN-ACK on. *)
Definition syn_packet (source_port destination_port : Z) : UsbDevicePacket :=
  tcp_flag_packet source_port destination_port 0 0 SYN.

Definition after_syn {L} {link : Link L} (id source_port destination_port : Z)
  : stateful L RusbmuxError.t UsbDeviceConn :=
  let! tcp_syn_ack := Conn.rx_recv in
  let! h := st_lift (ok_or (RusbmuxError.UnexpectedPacket "Expected a packet with a tcp header")
                      (tcp_hdr tcp_syn_ack)) in
  if negb (syn h && ack h)
  then st_lift (Err (RusbmuxError.IO ConnectionRefused))
  else
    let sent := (0 + acknowledgment_number h)%Z in
    let! _ := tx_send (tcp_flag_packet source_port destination_port sent 1 ACK) in
    st_ret (Conn id sent 1 source_port destination_port
      (calc_sendable_bytes sent (window_size h) (acknowledgment_number h))
      (window_size h) (acknowledgment_number h) false).

(** The handler's objects, while it runs on the shared state. *)
Definition bridge_of (s : shared) (fc : flow_conn) (up : UsbDeviceConn * list byte)
  : Bridge (shared * list UsbDevicePacket) :=
  MkBridge up.1 (s, fc_log fc) (fc_client fc) up.2.

Definition turn_of (i : ConnId) (c : ChanId) (e : bridge_event) : bridge (L := shared * list UsbDevicePacket) bool :=
  bridge_turn (link := LogLink (link := chan_link i c)) e.

Definition set_conn (i : ConnId) (fc : flow_conn) (s : shared) (f : flow) : flow :=
  Flow s (<[i := fc]> (fl_conns f)) (fl_next f).

Definition drop_conn (i : ConnId) (s : shared) (f : flow) : flow :=
  Flow s (delete i (fl_conns f)) (fl_next f).

Definition on_router (g : RouterState → RouterState) (s : shared) : shared :=
  Shared (g (sh_router s)) (sh_queue s) (sh_open s).

(** A [recv] that is polled to its end does not wait. *)
Definition has_packet (c : ChanId) (s : shared) : Prop := (Router.rx_recv c (sh_router s)).1 ≠ Waiting.

Definition branch_ready (e : bridge_event) (c : ChanId) (s : shared) : Prop :=
  match e with
  | DevicePacket | ClientRead _ true => has_packet c s
  | _ => True
  end.

Inductive flow_label : Type :=
| Handled (p : UsbDevicePacket)
| Turned (i : ConnId) (e : bridge_event)
| OtherStep.

Inductive flow_step (device_id : Z) : flow → flow_label → flow → Prop :=
(** A client asks for a port, a [u16]: its route is there and its SYN is queued. *)
| flow_connect f sp c r' dest client :
    register (sh_router (fl_shared f)) = (Ok (sp, c), r') → sh_open (fl_shared f) = true → in_width 16 dest →
    flow_step device_id f OtherStep
      (Flow (Shared r' (sh_queue (fl_shared f) ++ [(fl_next f, syn_packet sp dest)]) true)
         (<[fl_next f := FlowConn sp dest c client [] None]> (fl_conns f)) (S (fl_next f)))
(** The writer loop has ended: the SYN cannot be queued, and the port is given back. *)
| flow_connect_fails f sp c r' :
    register (sh_router (fl_shared f)) = (Ok (sp, c), r') → sh_open (fl_shared f) = false →
    flow_step device_id f OtherStep
      (Flow (on_router (λ _, rx_drop c (unregister sp r').2) (fl_shared f)) (fl_conns f) (fl_next f))
(** The answer to the SYN. *)
| flow_up f i fc conn s' log' :
    fl_conns f !! i = Some fc → fc_up fc = None → has_packet (fc_chan fc) (fl_shared f) →
    after_syn (link := LogLink (link := chan_link i (fc_chan fc))) device_id (fc_port fc) (fc_dest fc)
      (fl_shared f, fc_log fc) = (Ok conn, (s', log')) →
    flow_step device_id f OtherStep
      (set_conn i (FlowConn (fc_port fc) (fc_dest fc) (fc_chan fc) (fc_client fc) log' (Some (conn, [])))
         (on_router (attach_conn (fc_port fc) i) s') f)
| flow_refused f i fc e s' log' :
    fl_conns f !! i = Some fc → fc_up fc = None → has_packet (fc_chan fc) (fl_shared f) →
    after_syn (link := LogLink (link := chan_link i (fc_chan fc))) device_id (fc_port fc) (fc_dest fc)
      (fl_shared f, fc_log fc) = (Err e, (s', log')) →
    flow_step device_id f OtherStep
      (drop_conn i (on_router (λ r, rx_drop (fc_chan fc) (unregister (fc_port fc) r).2) s') f)
(** The reader loop handles a packet that does not make it wait. *)
| flow_handle f p r' :
    handle_packet p (sh_router (fl_shared f)) = (Continue, r') →
    flow_step device_id f (Handled p) (Flow (on_router (λ _, r') (fl_shared f)) (fl_conns f) (fl_next f))
(** A round of a client's loop, which goes on. *)
| flow_turn f i fc up e b' :
    fl_conns f !! i = Some fc → fc_up fc = Some up → branch_ready e (fc_chan fc) (fl_shared f) →
    turn_of i (fc_chan fc) e (bridge_of (fl_shared f) fc up) = (Ok true, b') →
    flow_step device_id f (Turned i e)
      (set_conn i (FlowConn (fc_port fc) (fc_dest fc) (fc_chan fc) (br_client b') (br_link b').2
         (Some (br_conn b', br_buf b'))) (br_link b').1 f)
(** One that ends it: the connection and its receiver are dropped. *)
| flow_end f i fc up e o b' :
    fl_conns f !! i = Some fc → fc_up fc = Some up → branch_ready e (fc_chan fc) (fl_shared f) →
    turn_of i (fc_chan fc) e (bridge_of (fl_shared f) fc up) = (o, b') → o ≠ Ok true →
    flow_step device_id f (Turned i e)
      (drop_conn i (on_router (rx_drop (fc_chan fc))
         (conn_drop (link := LogLink (link := chan_link i (fc_chan fc))) (br_conn b', br_link b')).2.1) f)
(** The reader loop ends, the writer loop ends. *)
| flow_reader_ends f :
    flow_step device_id f OtherStep (Flow (on_router clear (fl_shared f)) (fl_conns f) (fl_next f))
| flow_writer_ends f :
    flow_step device_id f OtherStep
      (Flow (Shared (sh_router (fl_shared f)) (sh_queue (fl_shared f)) false) (fl_conns f) (fl_next f)).

Inductive flow_steps (device_id : Z) : flow → list flow_label → flow → Prop :=
| flow_nil f : flow_steps device_id f [] f
| flow_cons f l f1 tr f' :
    flow_step device_id f l f1 → flow_steps device_id f1 tr f' → flow_steps device_id f (l :: tr) f'.

(** ** Specification *)

Definition flow_init : flow := Flow (Shared (RState router_new ∅) [] true) ∅ 0.

(** The packets for a port that the reader loop handled, resets aside. *)
Definition arrived (port : Z) (tr : list flow_label) : list UsbDevicePacket :=
  omap (λ l, match l with
             | Handled p => if decide (is_rst p = None ∧ route_port p = port) then Some p else None
             | _ => None
             end) tr.

(** How many of the connection's receives were interrupted when they had taken a packet. *)
Definition interruptions (i : ConnId) (tr : list flow_label) : nat :=
  length (omap (λ l, match l with
                     | Turned j (ClientRead _ true) => if decide (j = i) then Some () else None
                     | _ => None
                     end) tr).

(** What waits in a connection's channel. *)
Definition waiting (fc : flow_conn) (r : RouterState) : list UsbDevicePacket :=
  match chans r !! fc_chan fc with Some ch => chan_queue ch | None => [] end.

(** The connection's route is still there. *)
Definition routed (fc : flow_conn) (r : RouterState) : Prop :=
  ∃ e, routes (router r) !! fc_port fc = Some e ∧ tx e = fc_chan fc.

(** What the client wrote and has not gone out. *)
Definition fc_unsent (fc : flow_conn) : list byte :=
  match fc_up fc with Some (_, buf) => buf | None => [] end ++ s_in (fc_client fc).

(** A connection's channel is its own: it is open, and only its port leads there. *)
Record conn_wf (r : RouterState) (fc : flow_conn) : Prop := {
  cw_alive : ∃ q, chans r !! fc_chan fc = Some (Chan q true);
  cw_port : ∀ port e, routes (router r) !! port = Some e → tx e = fc_chan fc → port = fc_port fc;
}.

Record flow_wf (f : flow) : Prop := {
  fw_router : router_wf (sh_router (fl_shared f));
  fw_conns : ∀ i fc, fl_conns f !! i = Some fc → i < fl_next f ∧ conn_wf (sh_router (fl_shared f)) fc;
  fw_distinct : ∀ i j fc fc', fl_conns f !! i = Some fc → fl_conns f !! j = Some fc' →
    fc_chan fc = fc_chan fc' → i = j;
}.

(** * Lemmas *)

(** The two halves are [conn_new]. *)
Lemma conn_new_halves {L} {link : Link L} id source_port destination_port (l : L) :
  conn_new id source_port destination_port l =
  st_bind (tx_send (syn_packet source_port destination_port))
    (λ _, after_syn id source_port destination_port) l.
Proof.
  unfold conn_new, perform, after_syn, st_bind, st_lift, ok_or, st_ret. fold (syn_packet source_port destination_port).
  destruct (tx_send _ l) as [[[]| | |] l1]; try done.
  destruct (Conn.rx_recv l1) as [[p| | |] l2]; try done.
  destruct (tcp_hdr p) as [h|]; [|done]. destruct (negb _); [done|].
  by destruct (tx_send _ l2) as [[[]| | |] l3].
Qed.

(** ** What a task does to the link it works on

    A preorder that the link's operations respect holds between the link before and
    after a turn. *)
Section respects.
Context {L : Type} {link : Link L} (R : L → L → Prop) `{!PreOrder R}.
Context (R_send : ∀ p l, R l (tx_send p l).2) (R_try : ∀ p l, R l (tx_try_send p l).2)
  (R_recv : ∀ l, R l (Conn.rx_recv l).2).

(** The connection's port does not change either. *)
Definition conn_respects {A} (m : conn_op A) : Prop := ∀ c l,
  R l (m (c, l)).2.2 ∧ conn_source_port (m (c, l)).2.1 = conn_source_port c.

Definition bridge_respects {A} (m : bridge A) : Prop := ∀ b,
  R (br_link b) (br_link (m b).2) ∧ conn_source_port (br_conn (m b).2) = conn_source_port (br_conn b).

Lemma conn_respects_bind {A B} (m : conn_op A) (f : A → conn_op B) :
  conn_respects m → (∀ a, conn_respects (f a)) → conn_respects (st_bind m f).
Proof.
  intros Hm Hf c l. unfold st_bind. destruct (Hm c l) as [H1 H2].
  destruct (m (c, l)) as [[a|e| |] [c1 l1]]; try done. cbn [fst snd] in *.
  destruct (Hf a c1 l1) as [H3 H4]. split; [by etrans|congruence].
Qed.

Lemma bridge_respects_bind {A B} (m : bridge A) (f : A → bridge B) :
  bridge_respects m → (∀ a, bridge_respects (f a)) → bridge_respects (st_bind m f).
Proof.
  intros Hm Hf b. unfold st_bind. destruct (Hm b) as [H1 H2].
  destruct (m b) as [[a|e| |] b1]; try done. cbn [snd] in *.
  destruct (Hf a b1) as [H3 H4]. split; [by etrans|congruence].
Qed.

Lemma self_respects : conn_respects self.
Proof. done. Qed.

Lemma modify_respects f : (∀ c, conn_source_port (f c) = conn_source_port c) → conn_respects (modify_self f).
Proof. intros Hf c l. cbn. by split. Qed.

Lemma on_link_respects {A} (m : stateful L RusbmuxError.t A) : (∀ l, R l (m l).2) → conn_respects (on_link m).
Proof. intros Hm c l. unfold on_link. specialize (Hm l). by destruct (m l). Qed.

Lemma on_conn_respects {A} (m : conn_op A) : conn_respects m → bridge_respects (on_conn m).
Proof. intros Hm b. unfold on_conn. specialize (Hm (br_conn b) (br_link b)). by destruct (m _) as [? []]. Qed.

Lemma ret_respects {A} (m : outcome RusbmuxError.t A) : bridge_respects (λ b, (m, b)).
Proof. done. Qed.

Lemma update_states_port p c : conn_source_port (update_states p c) = conn_source_port c.
Proof. unfold update_states. by destruct (tcp_hdr p). Qed.

Lemma ack_respects : conn_respects conn_ack.
Proof.
  apply conn_respects_bind; [apply self_respects|intros c].
  apply conn_respects_bind; [by apply on_link_respects|intros _]. by apply modify_respects.
Qed.

Lemma recv_respects : conn_respects recv.
Proof.
  apply conn_respects_bind; [by apply on_link_respects|intros p].
  apply conn_respects_bind; [apply modify_respects, update_states_port|intros _].
  apply conn_respects_bind; [apply ack_respects|done].
Qed.

Lemma close_respects : conn_respects close.
Proof.
  apply conn_respects_bind; [|intros _; by apply modify_respects].
  apply conn_respects_bind; [apply self_respects|intros c]. by apply on_link_respects.
Qed.

Lemma close_blocking_respects : conn_respects close_blocking.
Proof.
  apply conn_respects_bind; [|intros _; by apply modify_respects].
  apply conn_respects_bind; [apply self_respects|intros c]. by apply on_link_respects.
Qed.

Lemma send_bytes_respects v : conn_respects (send_bytes v).
Proof.
  apply conn_respects_bind; [apply self_respects|intros c].
  apply conn_respects_bind; [by apply on_link_respects|intros _].
  apply conn_respects_bind; [|intros _]; by apply modify_respects.
Qed.

Lemma interrupted_respects : conn_respects interrupted_recv.
Proof.
  apply conn_respects_bind; [by apply on_link_respects|intros p]. apply modify_respects, update_states_port.
Qed.

Lemma client_read_respects n k : bridge_respects (client_read n k).
Proof.
  intros b. destruct (client_read n k b) as [o b'] eqn:E. cbn [snd].
  apply client_read_spec in E as (-> & -> & _). done.
Qed.

Lemma client_send_respects bs : bridge_respects (client_send bs).
Proof. intros b. unfold client_send, on_socket. by destruct (write_all bs (br_client b)). Qed.

Lemma turn_respects e : bridge_respects (bridge_turn e).
Proof.
  destruct e as [| |n i]; cbn [bridge_turn].
  - apply ret_respects.
  - apply bridge_respects_bind; [apply on_conn_respects, recv_respects|intros p].
    apply bridge_respects_bind; [apply client_send_respects|intros _; apply ret_respects].
  - apply bridge_respects_bind; [apply on_conn_respects, self_respects|intros c].
    destruct (negb _); [apply ret_respects|].
    apply bridge_respects_bind.
    { destruct i; [apply on_conn_respects, interrupted_respects|apply ret_respects]. }
    intros _. apply bridge_respects_bind; [apply client_read_respects|intros bs].
    destruct bs; (apply bridge_respects_bind; [apply on_conn_respects|intros _; apply ret_respects]);
      [apply close_respects|apply send_bytes_respects].
Qed.

Lemma conn_drop_respects c l : R l (conn_drop (c, l)).2.
Proof. unfold conn_drop. destruct (negb _); [apply close_blocking_respects|done]. Qed.

Lemma after_syn_respects id sp dp l : R l (after_syn id sp dp l).2.
Proof.
  unfold after_syn, st_bind, st_lift, ok_or. pose proof (R_recv l) as H1.
  destruct (Conn.rx_recv l) as [[p| | |] l1]; try done. cbn [snd] in H1.
  destruct (tcp_hdr p) as [h|]; [|done]. destruct (negb _); [done|].
  match goal with |- context [tx_send ?q l1] => pose proof (R_send q l1) as H2;
    destruct (tx_send q l1) as [[[]| | |] l2] end; cbn in *; by etrans.
Qed.

End respects.

(** ** What one connection's operations leave alone *)

Record frame (i : ConnId) (c : ChanId) (l l' : shared * list UsbDevicePacket) : Prop := {
  fr_router : router (sh_router l'.1) = router (sh_router l.1);
  fr_others : ∀ c', c' ≠ c → chans (sh_router l'.1) !! c' = chans (sh_router l.1) !! c';
  fr_chan : ∀ q a, chans (sh_router l.1) !! c = Some (Chan q a) →
    ∃ q', chans (sh_router l'.1) !! c = Some (Chan q' a) ∧ l.2 ++ q = l'.2 ++ q' ∧ length q' ≤ length q;
  fr_none : chans (sh_router l.1) !! c = None → chans (sh_router l'.1) !! c = None;
  fr_queue : ∃ ps, sh_queue l'.1 = sh_queue l.1 ++ ((i,.) <$> ps);
}.

#[export] Instance frame_preorder i c : PreOrder (frame i c).
Proof.
  split.
  - intros l. split; try done; [intros q a H; by exists q|]. exists []. by rewrite app_nil_r.
  - intros l1 l2 l3 [A1 A2 A3 A4 [ps A5]] [B1 B2 B3 B4 [qs B5]]. split.
    + congruence.
    + intros c' Hc. by rewrite B2, A2.
    + intros q a H. destruct (A3 q a H) as (q2 & H2 & E2 & L2).
      destruct (B3 q2 a H2) as (q3 & H3 & E3 & L3). exists q3. split_and!; [done|congruence|lia].
    + auto.
    + exists (ps ++ qs). by rewrite B5, A5, fmap_app, app_assoc.
Qed.

Lemma frame_send i c p l : frame i c l (tx_send (Link := LogLink (link := chan_link i c)) p l).2.
Proof.
  destruct l as [s log]. cbn. unfold flow_send. destruct (sh_open s); [|done]. cbn.
  split; try done; [intros q a H; by exists q|]. by exists [p].
Qed.

Lemma frame_recv i c l : frame i c l (Conn.rx_recv (Link := LogLink (link := chan_link i c)) l).2.
Proof.
  destruct l as [s log]. cbn. unfold flow_recv.
  destruct (Router.rx_recv c (sh_router s)) as [r r'] eqn:E. cbn.
  apply rx_recv_cases in E as [[-> Hr]|(p & q & a & -> & Hc & ->)].
  - assert (match match r with Received p => Ok p | _ => Err from_recv_error end with
            | Ok p => [p] | _ => [] end = []) as -> by (destruct r as [p| |]; [by destruct (Hr p)|done..]).
    rewrite app_nil_r. split; try done; [intros q a H; by exists q|]. exists []. by rewrite app_nil_r.
  - split; cbn.
    + done.
    + intros c' Hne. by rewrite lookup_insert_ne.
    + intros q0 a0 H. rewrite Hc in H. injection H as <- <-. exists q.
      rewrite lookup_insert_eq, <- app_assoc. cbn. split_and!; [done..|lia].
    + congruence.
    + exists []. by rewrite app_nil_r.
Qed.

Lemma turn_frame i c e b :
  frame i c (br_link b) (br_link (turn_of i c e b).2) ∧
  conn_source_port (br_conn (turn_of i c e b).2) = conn_source_port (br_conn b).
Proof.
  apply (turn_respects (link := LogLink (link := chan_link i c)) (frame i c));
    [apply frame_send|apply frame_recv].
Qed.

Lemma drop_frame i c conn l :
  frame i c l (conn_drop (link := LogLink (link := chan_link i c)) (conn, l)).2.
Proof.
  apply (conn_drop_respects (link := LogLink (link := chan_link i c)) (frame i c)); apply frame_send.
Qed.

Lemma after_syn_frame i c id sp dp l :
  frame i c l (after_syn (link := LogLink (link := chan_link i c)) id sp dp l).2.
Proof.
  apply (after_syn_respects (link := LogLink (link := chan_link i c)) (frame i c));
    [apply frame_send|apply frame_recv].
Qed.

(** The same for a connection of the flow: its handshake, its turns and its end. *)
Section conn_frames.
Context (f : flow) (i : ConnId) (fc : flow_conn).

Lemma handshake_frame id o l' :
  after_syn (link := LogLink (link := chan_link i (fc_chan fc))) id (fc_port fc) (fc_dest fc)
    (fl_shared f, fc_log fc) = (o, l') →
  frame i (fc_chan fc) (fl_shared f, fc_log fc) l'.
Proof.
  intros E. pose proof (after_syn_frame i (fc_chan fc) id (fc_port fc) (fc_dest fc) (fl_shared f, fc_log fc)) as H.
  by rewrite E in H.
Qed.

Lemma turned_frame e up o b' :
  turn_of i (fc_chan fc) e (bridge_of (fl_shared f) fc up) = (o, b') →
  frame i (fc_chan fc) (fl_shared f, fc_log fc) (br_link b').
Proof. intros E. destruct (turn_frame i (fc_chan fc) e (bridge_of (fl_shared f) fc up)) as [H _]. by rewrite E in H. Qed.

Lemma ended_frame e up o b' :
  turn_of i (fc_chan fc) e (bridge_of (fl_shared f) fc up) = (o, b') →
  frame i (fc_chan fc) (fl_shared f, fc_log fc)
    (conn_drop (link := LogLink (link := chan_link i (fc_chan fc))) (br_conn b', br_link b')).2.
Proof. intros E. etrans; [by eapply turned_frame|apply drop_frame]. Qed.

End conn_frames.

(** ** What the router's operations leave to a connection *)

(** Its channel stays open, and [ds] is put into it; no route to it is added. *)
Record calm (fc : flow_conn) (r r' : RouterState) (ds : list UsbDevicePacket) : Prop := {
  calm_chan : ∀ q, chans r !! fc_chan fc = Some (Chan q true) →
    chans r' !! fc_chan fc = Some (Chan (q ++ ds) true);
  calm_routes : ∀ port e, routes (router r') !! port = Some e → tx e = fc_chan fc →
    ∃ e0, routes (router r) !! port = Some e0 ∧ tx e0 = fc_chan fc;
}.

Lemma calm_wf fc r r' ds : calm fc r r' ds → conn_wf r fc → conn_wf r' fc.
Proof.
  intros [Hc Hr] [[q Hq] Hp]. split; [by eexists; apply Hc|].
  intros port e He Ht. destruct (Hr port e He Ht) as (e0 & H0 & Ht0). by eapply Hp.
Qed.

Lemma calm_routed fc r r' ds : calm fc r r' ds → routed fc r' → routed fc r.
Proof. intros [_ Hr] (e & He & Ht). by apply (Hr _ e). Qed.

Lemma calm_waiting fc r r' ds : conn_wf r fc → calm fc r r' ds → waiting fc r' = waiting fc r ++ ds.
Proof. intros [[q Hq] _] [Hc _]. unfold waiting. by rewrite (Hc q Hq), Hq. Qed.

Lemma calm_trans fc r1 r2 r3 ds es : calm fc r1 r2 ds → calm fc r2 r3 es → calm fc r1 r3 (ds ++ es).
Proof.
  intros [A1 A2] [B1 B2]. split.
  - intros q Hq. rewrite app_assoc. auto.
  - intros port e He Ht. destruct (B2 port e He Ht) as (e2 & H2 & T2). by eapply A2.
Qed.

(** Nothing happens to the channels, and routes only go or change their connection. *)
Lemma calm_sub fc r r' :
  chans r' = chans r →
  (∀ port e, routes (router r') !! port = Some e → ∃ e0, routes (router r) !! port = Some e0 ∧ tx e0 = tx e) →
  calm fc r r' [].
Proof.
  intros Hc Hr. split.
  - intros q Hq. by rewrite Hc, app_nil_r.
  - intros port e He Ht. destruct (Hr port e He) as (e0 & H0 & T0). exists e0. by rewrite T0.
Qed.

Lemma calm_refl fc r : calm fc r r [].
Proof. apply calm_sub; [done|]. by intros port e He; exists e. Qed.

Lemma calm_unregister fc r port : calm fc r (unregister port r).2 [].
Proof.
  apply calm_sub; [done|]. cbn. intros p e [_ He]%lookup_delete_Some. by exists e.
Qed.

Lemma calm_clear fc r : calm fc r (clear r) [].
Proof. apply calm_sub; [done|]. cbn. intros p e. by rewrite lookup_empty. Qed.

Lemma calm_attach fc r port i : calm fc r (attach_conn port i r) [].
Proof.
  unfold attach_conn. destruct (routes (router r) !! port) as [pe|] eqn:E; [|apply calm_refl].
  apply calm_sub; [done|]. cbn. intros p e [[-> <-]|[_ He]]%lookup_insert_Some; [by exists pe|by exists e].
Qed.

Lemma calm_rx_drop fc r c : c ≠ fc_chan fc → calm fc r (rx_drop c r) [].
Proof.
  intros Hc. unfold rx_drop. destruct (chans r !! c) as [ch|]; [|apply calm_refl]. split; cbn.
  - intros q Hq. by rewrite lookup_insert_ne, app_nil_r.
  - intros p e He Ht. by exists e.
Qed.

Lemma register_cases s sp c s' :
  register s = (Ok (sp, c), s') →
  chans s !! c = None ∧ routes (router s') !! sp = Some (Entry c None) ∧
  (∀ p e, p ≠ sp → routes (router s') !! p = Some e → routes (router s) !! p = Some e) ∧
  chans s' = <[c := Chan [] true]> (chans s).
Proof.
  unfold register. intros H. apply probe_ok in H as (_ & _ & Hc & Hr & Hch). split_and!; try done.
  - by rewrite Hr, lookup_insert_eq.
  - intros p e Hp He. rewrite Hr, lookup_insert_ne in He by done. by apply cleanup_dead_lookup in He as [? _].
Qed.

Lemma calm_register fc s sp c s' :
  conn_wf s fc → register s = (Ok (sp, c), s') → c ≠ fc_chan fc ∧ calm fc s s' [].
Proof.
  intros [[q Hq] _] H. apply register_cases in H as (Hc & Hsp & Hr & Hch).
  assert (Hne : c ≠ fc_chan fc) by congruence. split; [done|]. split.
  - intros q' Hq'. by rewrite Hch, lookup_insert_ne, app_nil_r.
  - intros p e He Ht. destruct (decide (p = sp)) as [->|Hp].
    + rewrite Hsp in He. injection He as <-. by destruct Hne.
    + exists e. split; [by apply (Hr p)|done].
Qed.

Lemma register_conn_wf s sp c s' client dest :
  router_wf s → register s = (Ok (sp, c), s') → conn_wf s' (FlowConn sp dest c client [] None).
Proof.
  intros Hwf H. pose proof (router_wf_register _ _ _ Hwf H) as Hwf'.
  apply register_cases in H as (_ & Hsp & _ & Hch). split; cbn.
  - exists []. by rewrite Hch, lookup_insert_eq.
  - intros port e He Ht. by apply (wf_distinct _ Hwf' port sp e (Entry c None)).
Qed.

(** Handling a packet delivers it to the one connection whose port it is for. *)
Lemma calm_handle fc r p r' :
  conn_wf r fc → handle_packet p r = (Continue, r') →
  ∃ ds, calm fc r r' ds ∧ (routed fc r → ds = arrived (fc_port fc) [Handled p]) ∧ (¬ routed fc r → ds = []).
Proof.
  intros [[q Hq] Hp] H. unfold handle_packet in H. unfold arrived. cbn [omap list_omap].
  destruct (is_rst p) as [t|] eqn:Er.
  { injection H as <-. exists []. split; [apply calm_unregister|]. by rewrite decide_False by naive_solver. }
  destruct (route_cases p r) as [[En E]|(e & Ee & [[Ed E]|(ch & Ec & Ea & [[Hl E]|[_ E]])])];
    rewrite E in H; try discriminate; injection H as <-.
  - exists []. split; [apply calm_refl|]. split; [|done]. intros (e & He & _).
    rewrite decide_False; [done|]. intros [_ Hport]. congruence.
  - exists []. split; [apply calm_unregister|]. split; [|done]. intros (e' & He' & Ht).
    rewrite decide_False; [done|]. intros [_ Hport]. rewrite Hport in Ee. assert (e' = e) as -> by congruence.
    unfold is_disconnected in Ed. by rewrite Ht, Hq in Ed.
  - destruct (decide (tx e = fc_chan fc)) as [Ht|Ht].
    + assert (Hport : route_port p = fc_port fc) by (by eapply Hp). exists [p]. split_and!.
      * split; cbn; [|by intros port e0 He0 Ht0; exists e0].
        intros q0 Hq0. rewrite Ht in *. rewrite Ec in Hq0. injection Hq0 as ->. by rewrite lookup_insert_eq.
      * intros _. by rewrite decide_True.
      * intros Hn. destruct Hn. exists e. by rewrite <- Hport.
    + exists []. split_and!; [|intros (e' & He' & Ht')|done].
      * split; cbn; [|by intros port e0 He0 Ht0; exists e0].
        intros q0 Hq0. by rewrite lookup_insert_ne, app_nil_r.
      * rewrite decide_False; [done|]. intros [_ Hport]. rewrite Hport in Ee. congruence.
Qed.

(** An operation of another connection, or of its own. *)
Lemma frame_calm fc i c l l' : c ≠ fc_chan fc → frame i c l l' → calm fc (sh_router l.1) (sh_router l'.1) [].
Proof.
  intros Hc Hf. split.
  - intros q Hq. rewrite (fr_others _ _ _ _ Hf), app_nil_r by done. done.
  - intros port e He Ht. rewrite (fr_router _ _ _ _ Hf) in He. by exists e.
Qed.

Lemma frame_wf fc i c l l' : frame i c l l' → conn_wf (sh_router l.1) fc → conn_wf (sh_router l'.1) fc.
Proof.
  intros Hf [[q Hq] Hp]. split; [|by rewrite (fr_router _ _ _ _ Hf)].
  destruct (decide (c = fc_chan fc)) as [->|Hc].
  - destruct (fr_chan _ _ _ _ Hf q true Hq) as (q' & H & _). by exists q'.
  - exists q. by rewrite (fr_others _ _ _ _ Hf).
Qed.

Lemma frame_router_wf i c l l' : frame i c l l' → router_wf (sh_router l.1) → router_wf (sh_router l'.1).
Proof.
  intros [H1 H2 H3 H4 _] [Wp Wn Wc Wd Wq]. split; rewrite ?H1; try done.
  - intros port e He. destruct (Wc _ _ He) as [[q a] Hq].
    destruct (decide (tx e = c)) as [Hc|Hc]; [|rewrite H2 by done; by eexists].
    rewrite Hc in *. destruct (H3 q a Hq) as (q' & H & _). by eexists.
  - intros c' [q' a'] Hq'. destruct (decide (c' = c)) as [->|Hc]; [|rewrite H2 in Hq' by done; eauto].
    destruct (chans (sh_router l.1) !! c) as [[q a]|] eqn:Hq; [|by rewrite H4 in Hq'].
    destruct (H3 q a eq_refl) as (q2 & E & _ & Hl). rewrite E in Hq'. injection Hq' as <- <-.
    specialize (Wq _ _ Hq). cbn in *. lia.
Qed.

Lemma of_conn_app i q1 q2 : of_conn i (q1 ++ q2) = of_conn i q1 ++ of_conn i q2.
Proof. apply omap_app. Qed.

Lemma of_conn_own i ps : of_conn i ((i,.) <$> ps) = ps.
Proof. unfold of_conn. induction ps as [|p ps IH]; [done|]. cbn. by rewrite decide_True, IH. Qed.

Lemma of_conn_other i j ps : i ≠ j → of_conn i ((j,.) <$> ps) = [].
Proof. intros Hij. unfold of_conn. induction ps as [|p ps IH]; [done|]. cbn. by rewrite decide_False. Qed.

(** ** The invariant *)

Lemma router_wf_rx_drop c r : router_wf r → router_wf (rx_drop c r).
Proof. intros Hwf. unfold rx_drop. destruct (chans r !! c); [|done]. apply router_wf_chan; [done|]. cbn. lia. Qed.

Lemma handle_packet_wf p r t r' : router_wf r → handle_packet p r = (t, r') → router_wf r'.
Proof.
  intros Hwf. unfold handle_packet. destruct (is_rst p); [intros [= <- <-]; by apply router_wf_unregister|].
  destruct (route p r) as [res r1] eqn:E. intros [= <- <-]. by eapply router_wf_route.
Qed.

(** Replacing a connection by one with the same channel and port. *)
Lemma flow_wf_set f i fc fc' s' :
  flow_wf f → fl_conns f !! i = Some fc → fc_chan fc' = fc_chan fc → fc_port fc' = fc_port fc →
  router_wf (sh_router s') →
  (∀ k fc0, fl_conns f !! k = Some fc0 → conn_wf (sh_router s') fc0) →
  flow_wf (set_conn i fc' s' f).
Proof.
  intros [Wr Wc Wd] Hi Hch Hpo Hwf Hall. split; cbn; [done| |].
  - intros k fc0 [[<- <-]|[_ Hk]]%lookup_insert_Some.
    + split; [by apply (Wc _ _ Hi)|]. destruct (Hall _ _ Hi) as [[q Hq] Hp].
      split; rewrite Hch; [by exists q|]. intros port e He Ht. rewrite Hpo. by eapply Hp.
    + split; [by apply (Wc _ _ Hk)|by eapply Hall].
  - intros k1 k2 f1 f2 [[<- <-]|[? H1]]%lookup_insert_Some [[<- <-]|[? H2]]%lookup_insert_Some Ht;
      rewrite ?Hch in Ht; [done|by eapply Wd|by eapply Wd|by eapply Wd].
Qed.

Lemma flow_wf_drop f i s' :
  flow_wf f → router_wf (sh_router s') →
  (∀ k fc0, k ≠ i → fl_conns f !! k = Some fc0 → conn_wf (sh_router s') fc0) →
  flow_wf (drop_conn i s' f).
Proof.
  intros [Wr Wc Wd] Hwf Hall. split; cbn; [done| |].
  - intros k fc0 [Hne Hk]%lookup_delete_Some. split; [by apply (Wc _ _ Hk)|by apply (Hall k)].
  - intros k1 k2 f1 f2 [_ H1]%lookup_delete_Some [_ H2]%lookup_delete_Some. by eapply Wd.
Qed.

Lemma flow_wf_same f s' :
  flow_wf f → router_wf (sh_router s') →
  (∀ k fc0, fl_conns f !! k = Some fc0 → conn_wf (sh_router s') fc0) →
  flow_wf (Flow s' (fl_conns f) (fl_next f)).
Proof. intros [Wr Wc Wd] Hwf Hall. split; cbn; [done| |done]. intros k fc0 Hk. split; [by apply (Wc _ _ Hk)|eauto]. Qed.

(** Another connection's channel is another one. *)
Lemma other_chan f i j fc fc' :
  flow_wf f → fl_conns f !! i = Some fc → fl_conns f !! j = Some fc' → j ≠ i → fc_chan fc ≠ fc_chan fc'.
Proof. intros Hwf Hi Hj Hne Hc. apply Hne. symmetry. by eapply (fw_distinct _ Hwf). Qed.

Section wf.
Context (f : flow) (Hwf : flow_wf f).

Lemma flow_conn_wf k fc : fl_conns f !! k = Some fc → conn_wf (sh_router (fl_shared f)) fc.
Proof using Hwf. intros Hk. by apply (fw_conns _ Hwf k). Qed.

Lemma flow_connect_wf sp c r' dest client q :
  register (sh_router (fl_shared f)) = (Ok (sp, c), r') →
  flow_wf (Flow (Shared r' q true) (<[fl_next f := FlowConn sp dest c client [] None]> (fl_conns f)) (S (fl_next f))).
Proof using Hwf.
  intros Hr. pose proof (fw_router _ Hwf) as Wr.
  assert (Hnew : ∀ k fc, fl_conns f !! k = Some fc → c ≠ fc_chan fc ∧ calm fc (sh_router (fl_shared f)) r' [])
    by (intros k fc Hk; eapply calm_register; [by eapply flow_conn_wf|done]).
  split; cbn.
  - by eapply router_wf_register.
  - intros k fc [[<- <-]|[_ Hk]]%lookup_insert_Some.
    + split; [lia|by eapply register_conn_wf].
    + split; [apply (fw_conns _ Hwf) in Hk as [? _]; lia|].
      eapply calm_wf, flow_conn_wf; [by apply (Hnew k)|done].
  - intros k1 k2 f1 f2 [[<- <-]|[? H1]]%lookup_insert_Some [[<- <-]|[? H2]]%lookup_insert_Some Ht; cbn in Ht.
    + done.
    + by destruct (Hnew _ _ H2).
    + by destruct (Hnew _ _ H1).
    + by eapply (fw_distinct _ Hwf).
Qed.

(** After an operation of the connection [i] on its link. *)
Lemma own_wf i fc l' k fc' log :
  fl_conns f !! i = Some fc → frame i (fc_chan fc) (fl_shared f, log) l' → fl_conns f !! k = Some fc' →
  router_wf (sh_router l'.1) ∧ conn_wf (sh_router l'.1) fc'.
Proof using Hwf.
  intros Hi Hf Hk. split; [eapply frame_router_wf; [done|apply Hwf]|].
  eapply frame_wf; [done|by eapply flow_conn_wf].
Qed.

Lemma flow_drop_wf i fc l' log g :
  fl_conns f !! i = Some fc → frame i (fc_chan fc) (fl_shared f, log) l' →
  (∀ r, router_wf r → router_wf (g r)) →
  (∀ fc' r, fc_chan fc ≠ fc_chan fc' → calm fc' r (g r) []) →
  flow_wf (drop_conn i (on_router g l'.1) f).
Proof using Hwf.
  intros Hi Hf Hg Hcalm. apply flow_wf_drop; [done| |].
  - apply Hg. by eapply own_wf.
  - intros k fc' Hne Hk. apply (calm_wf _ (sh_router l'.1) _ []).
    + apply Hcalm. by eapply other_chan.
    + by eapply (own_wf i fc l' k fc').
Qed.

End wf.

Lemma flow_step_wf id f l f' : flow_wf f → flow_step id f l f' → flow_wf f'.
Proof.
  intros Hwf Hs. pose proof (fw_router _ Hwf) as Wr.
  destruct Hs as [f sp c r' dest client Hr Ho Hde|f sp c r' Hr Ho|f i fc conn s' log' Hi Hu Hp E|f i fc e s' log' Hi Hu Hp E
    |f p r' E|f i fc up e b' Hi Hu Hb E|f i fc up e o b' Hi Hu Hb E Hne|f|f].
  - by apply flow_connect_wf.
  - apply flow_wf_same; [done|cbn; apply router_wf_rx_drop, router_wf_unregister; by eapply router_wf_register|].
    intros k fc Hk. pose proof (flow_conn_wf f Hwf k fc Hk) as Wc.
    destruct (calm_register fc _ _ _ _ Wc Hr) as [Hne Hcalm]. eapply calm_wf; [|done].
    eapply calm_trans; [exact Hcalm|]. eapply calm_trans; [apply calm_unregister|by apply calm_rx_drop].
  - pose proof (handshake_frame _ _ _ _ _ _ E) as Hf. eapply flow_wf_set; [done..| |].
    + apply router_wf_attach. by eapply (own_wf f Hwf i fc (s', log')).
    + intros k fc0 Hk. eapply calm_wf; [apply calm_attach|]. by eapply (own_wf f Hwf i fc (s', log')).
  - pose proof (handshake_frame _ _ _ _ _ _ E) as Hf. eapply (flow_drop_wf f Hwf i fc (s', log')); [done..| |].
    + intros r Hr. by apply router_wf_rx_drop, router_wf_unregister.
    + intros fc' r Hne. eapply (calm_trans _ _ _ _ [] []); [apply calm_unregister|by apply calm_rx_drop].
  - apply flow_wf_same; [done|by eapply handle_packet_wf|]. intros k fc Hk.
    destruct (calm_handle fc _ _ _ (flow_conn_wf f Hwf k fc Hk) E) as (ds & Hc & _).
    eapply calm_wf; [exact Hc|by eapply flow_conn_wf].
  - pose proof (turned_frame _ _ _ _ _ _ _ E) as Hf. eapply flow_wf_set; [done..| |].
    + by apply (own_wf f Hwf i fc (br_link b') i fc (fc_log fc)).
    + intros k fc0 Hk. by apply (own_wf f Hwf i fc (br_link b') k fc0 (fc_log fc)).
  - eapply (flow_drop_wf f Hwf i fc _ (fc_log fc)); [done|by eapply ended_frame|intros r; apply router_wf_rx_drop|].
    intros fc' r Hne'. by apply calm_rx_drop.
  - apply flow_wf_same; [done| |].
    + apply router_wf_sub; [done|apply map_empty_subseteq|apply Wr].
    + intros k fc Hk. eapply calm_wf; [apply calm_clear|by eapply flow_conn_wf].
  - apply flow_wf_same; [done|done|]. intros k fc Hk. by eapply flow_conn_wf.
Qed.

Lemma flow_init_wf : flow_wf flow_init.
Proof.
  split; cbn; [|intros k fc; by rewrite lookup_empty|intros i j fc fc'; by rewrite lookup_empty].
  split; cbn; try (intros *; by rewrite lookup_empty). done.
Qed.

Lemma flow_steps_wf id f tr f' : flow_wf f → flow_steps id f tr f' → flow_wf f'.
Proof. intros Hwf Hs. induction Hs; eauto using flow_step_wf. Qed.

(** ** One connection's streams *)

#[export] Instance chan_link_laws i c : @LinkLaws shared (chan_link i c).
Proof.
  assert (Hq : queues (H := chan_link i c) (flow_send i)).
  { intros p s. unfold flow_send. destruct (sh_open s).
    - eexists. left. split; [reflexivity|].
      change (of_conn i (sh_queue s ++ ((i,.) <$> [p])) = of_conn i (sh_queue s) ++ [p]).
      by rewrite of_conn_app, of_conn_own.
    - exists s. right. split; [by eexists|done]. }
  split; [exact Hq..|]. intros s. exists (flow_recv c s).2. cbn. unfold flow_recv.
  destruct (Router.rx_recv c (sh_router s)) as [[p| |] r]; (split; [done|]);
    [left; by eexists|right; by eexists..].
Qed.

(** From [q] to [q'] packets were taken; they were written to the client, in order, but for
    at most [k] of them. *)
Definition written (k : nat) (q q' : list UsbDevicePacket) (out out' : list byte) : Prop :=
  ∃ taken kept, q = taken ++ q' ∧ kept `sublist_of` taken ∧ length taken ≤ length kept + k ∧
    out' = out ++ payloads kept.

Lemma written_none k q out : written k q q out out.
Proof. exists [], []. rewrite app_nil_r. split_and!; [done..|cbn; lia|done]. Qed.

Lemma written_trans k k' q q1 q2 ds out out1 out2 :
  written k q q1 out out1 → written k' (q1 ++ ds) q2 out1 out2 → written (k + k') (q ++ ds) q2 out out2.
Proof.
  intros (t1 & w1 & -> & S1 & L1 & ->) (t2 & w2 & E2 & S2 & L2 & ->). exists (t1 ++ t2), (w1 ++ w2).
  rewrite !length_app, payloads_app. split_and!; [|by apply sublist_app|lia|by rewrite app_assoc].
  by rewrite <- !app_assoc, E2.
Qed.

(** A round of its own: what reaches the client is taken from its channel, what is queued
    is taken from what the client wrote. *)
Lemma turn_own i fc up e s b' q :
  chans (sh_router s) !! fc_chan fc = Some (Chan q true) → fc_up fc = Some up →
  turn_of i (fc_chan fc) e (bridge_of s fc up) = (Ok true, b') →
  (∃ q', chans (sh_router (br_link b').1) !! fc_chan fc = Some (Chan q' true) ∧
     written (interruptions i [Turned i e]) q q' (s_out (fc_client fc)) (s_out (br_client b'))) ∧
  ∃ ps, sh_queue (br_link b').1 = sh_queue s ++ ((i,.) <$> ps) ∧
     payloads ps ++ unsent b' = fc_unsent fc.
Proof.
  intros Hq Hup E. destruct (turn_frame i (fc_chan fc) e (bridge_of s fc up)) as [Hf _].
  rewrite E in Hf. cbn [snd] in Hf. split.
  - destruct (fr_chan _ _ _ _ Hf q true Hq) as (q' & Hq' & Hlog & _). exists q'. split; [done|].
    destruct (bridge_turn_writes (link := chan_link i (fc_chan fc)) e _ _ E) as (ps & kept & Hd & Hs & Hl & Ho).
    unfold Bridge.delivered in Hd. cbn [bridge_of br_link br_client snd] in *.
    rewrite Hd, <- app_assoc in Hlog. apply app_inv_head in Hlog as ->.
    exists ps, kept. split_and!; [done..| |done]. unfold interruptions. cbn.
    destruct e as [| |n []]; cbn; rewrite ?decide_True by done; cbn; lia.
  - destruct (fr_queue _ _ _ _ Hf) as [ps Hps]. exists ps. split; [done|].
    destruct (bridge_turn_moves (link := LogLink (link := chan_link i (fc_chan fc))) e _ _ _ E)
      as (ps' & lost & Hm & Hu & [->|[? [=]]]).
    unfold queued_for_device in Hm. cbn [link_sent LogLink chan_link bridge_of br_link fst] in Hm, Hps.
    rewrite Hps, of_conn_app, of_conn_own in Hm. apply app_inv_head in Hm as ->.
    rewrite app_nil_l in Hu. rewrite Hu. unfold fc_unsent. rewrite Hup. destruct up. done.
Qed.

(** What a step does to the connection [i]: [ds] arrive for it, [ps] are sent by it. *)
Record stream_step (i : ConnId) (f : flow) (fc : flow_conn) (l : flow_label) (f' : flow) (fc' : flow_conn)
    (ds ps : list UsbDevicePacket) : Prop := {
  st_same : fc_port fc' = fc_port fc ∧ fc_chan fc' = fc_chan fc ∧ is_Some (fc_up fc');
  st_in : written (interruptions i [l]) (waiting fc (sh_router (fl_shared f)) ++ ds)
    (waiting fc' (sh_router (fl_shared f'))) (s_out (fc_client fc)) (s_out (fc_client fc'));
  st_arrived : routed fc (sh_router (fl_shared f)) → ds = arrived (fc_port fc) [l];
  st_gone : ¬ routed fc (sh_router (fl_shared f)) → ds = [];
  st_routed : routed fc' (sh_router (fl_shared f')) → routed fc (sh_router (fl_shared f));
  st_sent : of_conn i (sh_queue (fl_shared f')) = of_conn i (sh_queue (fl_shared f)) ++ ps;
  st_out : payloads ps ++ fc_unsent fc' = fc_unsent fc;
}.

(** Steps of others: the router calm, nothing sent under its name. *)
Lemma stream_calm i f fc l f' ds qs :
  conn_wf (sh_router (fl_shared f)) fc → is_Some (fc_up fc) →
  calm fc (sh_router (fl_shared f)) (sh_router (fl_shared f')) ds →
  (routed fc (sh_router (fl_shared f)) → ds = arrived (fc_port fc) [l]) →
  (¬ routed fc (sh_router (fl_shared f)) → ds = []) →
  sh_queue (fl_shared f') = sh_queue (fl_shared f) ++ qs → of_conn i qs = [] →
  stream_step i f fc l f' fc ds [].
Proof.
  intros Hwf Hup Hc Ha Hg Hq Hqs. split; try done.
  - rewrite (calm_waiting _ _ _ _ Hwf Hc). apply written_none.
  - by apply (calm_routed _ _ _ _ Hc).
  - by rewrite Hq, of_conn_app, Hqs.
Qed.

Section others.
Context (f : flow) (Hwf : flow_wf f) (i : ConnId) (fc : flow_conn).
Context (Hi : fl_conns f !! i = Some fc) (Hup : is_Some (fc_up fc)).

(** The router alone, calmly. *)
Lemma stream_router l f' g :
  fl_shared f' = on_router g (fl_shared f) →
  calm fc (sh_router (fl_shared f)) (g (sh_router (fl_shared f))) [] →
  arrived (fc_port fc) [l] = [] → stream_step i f fc l f' fc [] [].
Proof using Hwf Hi Hup.
  intros Hs' Hg Ha. eapply (stream_calm _ _ _ _ _ [] []); try done; [by eapply flow_conn_wf|by rewrite Hs'|].
  by rewrite Hs', app_nil_r.
Qed.

(** An operation of another connection on its link, and then the router. *)
Lemma stream_other l f' j fcj l' log g :
  j ≠ i → fl_conns f !! j = Some fcj → frame j (fc_chan fcj) (fl_shared f, log) l' →
  fl_shared f' = on_router g l'.1 → (∀ r, fc_chan fcj ≠ fc_chan fc → calm fc r (g r) []) →
  arrived (fc_port fc) [l] = [] → stream_step i f fc l f' fc [] [].
Proof using Hwf Hi Hup.
  intros Hji Hj Hf Hs' Hg Ha. destruct (fr_queue _ _ _ _ Hf) as [ps Hps].
  assert (Hne : fc_chan fcj ≠ fc_chan fc) by (by eapply other_chan).
  eapply (stream_calm _ _ _ _ _ [] ((j,.) <$> ps)); try done;
    [by eapply flow_conn_wf| |by rewrite Hs'|by apply of_conn_other].
  rewrite Hs'. eapply (calm_trans _ _ _ _ [] []); [|by apply Hg].
  by apply (frame_calm fc j (fc_chan fcj) (fl_shared f, log)).
Qed.

(** Its own round. *)
Lemma stream_own e up b' :
  fc_up fc = Some up →
  turn_of i (fc_chan fc) e (bridge_of (fl_shared f) fc up) = (Ok true, b') →
  ∃ ps, stream_step i f fc (Turned i e)
    (set_conn i (FlowConn (fc_port fc) (fc_dest fc) (fc_chan fc) (br_client b') (br_link b').2
       (Some (br_conn b', br_buf b'))) (br_link b').1 f)
    (FlowConn (fc_port fc) (fc_dest fc) (fc_chan fc) (br_client b') (br_link b').2
       (Some (br_conn b', br_buf b'))) [] ps.
Proof using Hwf Hi.
  intros Hu E. destruct (flow_conn_wf f Hwf i fc Hi) as [[q Hq] _].
  destruct (turn_own i fc up e _ b' q Hq Hu E) as [(q' & Hq' & Hin) (ps & Hps & Hout)].
  exists ps. destruct (turn_frame i (fc_chan fc) e (bridge_of (fl_shared f) fc up)) as [Hf _].
  rewrite E in Hf. cbn [snd] in Hf. split; cbn; try done.
  - unfold waiting. cbn [fc_chan fl_shared set_conn]. rewrite Hq', Hq. cbn [chan_queue]. by rewrite app_nil_r.
  - unfold routed. cbn. by rewrite (fr_router _ _ _ _ Hf).
  - by rewrite Hps, of_conn_app, of_conn_own.
Qed.

End others.

Lemma flow_step_streams id f l f' i fc fc' :
  flow_wf f → flow_step id f l f' → fl_conns f !! i = Some fc → is_Some (fc_up fc) →
  fl_conns f' !! i = Some fc' →
  ∃ ds ps, stream_step i f fc l f' fc' ds ps.
Proof.
  intros Hwf Hs Hi Hup Hi'. pose proof (flow_conn_wf f Hwf i fc Hi) as Wc.
  assert (Hlt : i ≠ fl_next f) by (apply (fw_conns _ Hwf) in Hi as [? _]; lia).
  assert (Hwait : ∀ j fcj, fl_conns f !! j = Some fcj → fc_up fcj = None → j ≠ i)
    by (intros j fcj Hj Hu ->; rewrite Hi in Hj; injection Hj as <-; rewrite Hu in Hup; by destruct Hup).
  assert (Hdrop : ∀ c port r, c ≠ fc_chan fc → calm fc r (rx_drop c (unregister port r).2) [])
    by (intros c port r Hc; apply (calm_trans _ _ _ _ [] [] (calm_unregister _ _ port)); by apply calm_rx_drop).
  destruct Hs as [f sp c r' dest client Hr Ho Hde|f sp c r' Hr Ho|f j fcj conn s' log' Hj Hu Hp E|f j fcj e s' log' Hj Hu Hp E
    |f p r' E|f j fcj up e b' Hj Hu Hb E|f j fcj up e o b' Hj Hu Hb E Hne|f|f]; cbn [fl_conns set_conn drop_conn] in Hi'.
  - rewrite lookup_insert_ne in Hi' by done. assert (fc' = fc) as -> by congruence. exists [], [].
    eapply stream_calm; [done|done|by eapply calm_register|done|done|reflexivity|].
    by apply of_conn_other with (ps := [_]).
  - assert (fc' = fc) as -> by congruence. exists [], []. eapply (stream_router f Hwf); try done.
    destruct (calm_register fc _ _ _ _ Wc Hr) as [Hne Hc]. eapply (calm_trans _ _ _ _ [] []); [exact Hc|by apply Hdrop].
  - pose proof (Hwait j fcj Hj Hu) as Hji. rewrite lookup_insert_ne in Hi' by done.
    assert (fc' = fc) as -> by congruence. exists [], [].
    eapply (stream_other f Hwf i fc Hi Hup _ _ j fcj (s', log')); try done; [by eapply handshake_frame|intros; apply calm_attach].
  - pose proof (Hwait j fcj Hj Hu) as Hji. rewrite lookup_delete_ne in Hi' by done.
    assert (fc' = fc) as -> by congruence. exists [], [].
    eapply (stream_other f Hwf i fc Hi Hup _ _ j fcj (s', log')); try done; [by eapply handshake_frame|intros; by apply Hdrop].
  - assert (fc' = fc) as -> by congruence. destruct (calm_handle fc _ _ _ Wc E) as (ds & Hc & Ha & Hg).
    exists ds, []. eapply (stream_calm _ _ _ _ _ _ []); try done. by rewrite app_nil_r.
  - destruct (decide (j = i)) as [->|Hji].
    + rewrite lookup_insert_eq in Hi'. injection Hi' as <-. assert (fcj = fc) as -> by congruence. exists [].
      by eapply stream_own.
    + rewrite lookup_insert_ne in Hi' by done. assert (fc' = fc) as -> by congruence. exists [], [].
      eapply (stream_other f Hwf i fc Hi Hup _ _ j fcj (br_link b') _ (λ r, r)); try done; [by eapply turned_frame| |intros; apply calm_refl].
      cbn. by destruct (br_link b').1.
  - assert (j ≠ i) as Hji by (intros ->; by rewrite lookup_delete_eq in Hi').
    rewrite lookup_delete_ne in Hi' by done. assert (fc' = fc) as -> by congruence. exists [], [].
    eapply (stream_other f Hwf i fc Hi Hup _ _ j fcj _ (fc_log fcj) (rx_drop (fc_chan fcj)));
      [done|done|by eapply ended_frame|reflexivity|intros; by apply calm_rx_drop|done].
  - assert (fc' = fc) as -> by congruence. exists [], []. eapply (stream_router f Hwf); try done. apply calm_clear.
  - assert (fc' = fc) as -> by congruence. exists [], []. eapply (stream_calm _ _ _ _ _ _ []); try done;
      [apply calm_refl|by rewrite app_nil_r].
Qed.

#[export] Instance routed_dec fc r : Decision (routed fc r).
Proof.
  unfold routed. destruct (routes (router r) !! fc_port fc) as [e|] eqn:E.
  - destruct (decide (tx e = fc_chan fc)); [left; by exists e|right]. intros (e' & He & Ht). congruence.
  - right. intros (e & He & _). congruence.
Defined.

(** A connection that has ended does not come back. *)
Lemma flow_step_ended id f l f' (i : ConnId) :
  flow_step id f l f' → fl_conns f !! i = None → i < fl_next f →
  fl_conns f' !! i = None ∧ i < fl_next f'.
Proof.
  intros Hs Hi Hn. destruct Hs; cbn; (split; [|lia || done]); try done.
  - rewrite lookup_insert_ne; [done|lia].
  - rewrite lookup_insert_ne; [done|intros ->; congruence].
  - rewrite lookup_delete_ne; [done|intros ->; congruence].
  - rewrite lookup_insert_ne; [done|intros ->; congruence].
  - rewrite lookup_delete_ne; [done|intros ->; congruence].
Qed.

Lemma flow_steps_ended id f tr f' (i : ConnId) :
  flow_steps id f tr f' → fl_conns f !! i = None → i < fl_next f → fl_conns f' !! i = None.
Proof.
  induction 1 as [|f l f1 tr f' Hs _ IH]; [done|]. intros Hi Hn.
  destruct (flow_step_ended _ _ _ _ _ Hs Hi Hn). auto.
Qed.

Lemma arrived_app port tr1 tr2 : arrived port (tr1 ++ tr2) = arrived port tr1 ++ arrived port tr2.
Proof. apply omap_app. Qed.

Lemma interruptions_app i tr1 tr2 : interruptions i (tr1 ++ tr2) = interruptions i tr1 + interruptions i tr2.
Proof. unfold interruptions. by rewrite omap_app, length_app. Qed.

Lemma flow_steps_streams id f tr f' i fc fc' :
  flow_wf f → flow_steps id f tr f' → fl_conns f !! i = Some fc → is_Some (fc_up fc) →
  fl_conns f' !! i = Some fc' →
  ∃ ds ps, ds `prefix_of` arrived (fc_port fc) tr ∧
    (routed fc' (sh_router (fl_shared f')) → ds = arrived (fc_port fc) tr) ∧
    (¬ routed fc (sh_router (fl_shared f)) → ds = []) ∧
    (routed fc' (sh_router (fl_shared f')) → routed fc (sh_router (fl_shared f))) ∧
    written (interruptions i tr) (waiting fc (sh_router (fl_shared f)) ++ ds)
      (waiting fc' (sh_router (fl_shared f'))) (s_out (fc_client fc)) (s_out (fc_client fc')) ∧
    of_conn i (sh_queue (fl_shared f')) = of_conn i (sh_queue (fl_shared f)) ++ ps ∧
    payloads ps ++ fc_unsent fc' = fc_unsent fc.
Proof.
  intros Hwf Hs. revert fc Hwf. induction Hs as [f|f l f1 tr f' Hs Hss IH]; intros fc Hwf Hi Hup Hi'.
  - assert (fc' = fc) as -> by congruence. exists [], []. rewrite !app_nil_r.
    split_and!; [done..|apply written_none|done|done].
  - destruct (fl_conns f1 !! i) as [fc1|] eqn:Hi1.
    2: { assert (i < fl_next f1) by (apply (fw_conns _ Hwf) in Hi as [? _]; destruct Hs; cbn; lia).
         by rewrite (flow_steps_ended _ _ _ _ _ Hss Hi1) in Hi'. }
    destruct (flow_step_streams id f l f1 i fc fc1 Hwf Hs Hi Hup) as (ds1 & ps1 & S1); [done|].
    destruct (st_same _ _ _ _ _ _ _ _ S1) as (Hp & Hc & Hup1).
    destruct (IH fc1 (flow_step_wf _ _ _ _ Hwf Hs) eq_refl Hup1) as (ds2 & ps2 & P1 & P2 & P3 & P4 & P5 & P6 & P7);
      [done|].
    exists (ds1 ++ ds2), (ps1 ++ ps2). rewrite Hp in *.
    assert (Happ : arrived (fc_port fc) (l :: tr) = arrived (fc_port fc) [l] ++ arrived (fc_port fc) tr)
      by apply (arrived_app _ [l]).
    split_and!.
    + rewrite Happ. destruct (decide (routed fc (sh_router (fl_shared f)))) as [Hr|Hr].
      * rewrite (st_arrived _ _ _ _ _ _ _ _ S1 Hr). by apply prefix_app.
      * rewrite (st_gone _ _ _ _ _ _ _ _ S1 Hr), (P3 (λ H, Hr (st_routed _ _ _ _ _ _ _ _ S1 H))). apply prefix_nil.
    + intros Hr. by rewrite Happ, (st_arrived _ _ _ _ _ _ _ _ S1 (st_routed _ _ _ _ _ _ _ _ S1 (P4 Hr))), (P2 Hr).
    + intros Hr. by rewrite (st_gone _ _ _ _ _ _ _ _ S1 Hr), (P3 (λ H, Hr (st_routed _ _ _ _ _ _ _ _ S1 H))).
    + intros Hr. by apply (st_routed _ _ _ _ _ _ _ _ S1), P4.
    + change (l :: tr) with ([l] ++ tr). rewrite interruptions_app, app_assoc.
      eapply written_trans; [exact (st_in _ _ _ _ _ _ _ _ S1)|done].
    + by rewrite P6, (st_sent _ _ _ _ _ _ _ _ S1), app_assoc.
    + rewrite payloads_app, <- app_assoc, P7. apply (st_out _ _ _ _ _ _ _ _ S1).
Qed.

(** C6.  However the reader loop, the clients' loops, new and ending connections
    interleave: the packets that waited in a connection's channel, followed by what the
    device sent to its port meanwhile (all of it as long as its route is there, a prefix of
    it when the route was removed), are the packets that were taken, followed by those that
    wait; and what was taken has been written to the client, byte for byte and in order,
    but for at most one packet for each [recv] that was interrupted after it had taken one.
    What the connection has given to the writer loop, followed by what is unsent, is what
    its client wrote, whether or not a [recv] was interrupted. *)
Theorem flow_streams_exact device_id tr0 f tr f' i fc fc' :
  flow_steps device_id flow_init tr0 f → flow_steps device_id f tr f' →
  fl_conns f !! i = Some fc → is_Some (fc_up fc) → fl_conns f' !! i = Some fc' →
  ∃ ds taken kept ps, ds `prefix_of` arrived (fc_port fc) tr ∧
    (routed fc' (sh_router (fl_shared f')) → ds = arrived (fc_port fc) tr) ∧
    waiting fc (sh_router (fl_shared f)) ++ ds = taken ++ waiting fc' (sh_router (fl_shared f')) ∧
    s_out (fc_client fc') = s_out (fc_client fc) ++ payloads kept ∧
    kept `sublist_of` taken ∧ length taken ≤ length kept + interruptions i tr ∧
    (interruptions i tr = 0 → kept = taken) ∧
    of_conn i (sh_queue (fl_shared f')) = of_conn i (sh_queue (fl_shared f)) ++ ps ∧
    payloads ps ++ fc_unsent fc' = fc_unsent fc.
Proof.
  intros H0 Hs Hi Hup Hi'.
  destruct (flow_steps_streams device_id f tr f' i fc fc')
    as (ds & ps & P1 & P2 & _ & _ & (taken & kept & Q1 & Q2 & Q3 & Q4) & P4 & P5); try done.
  { eapply flow_steps_wf; [apply flow_init_wf|done]. }
  exists ds, taken, kept, ps. split_and!; try done. intros H. by apply sublist_all; [|lia].
Qed.

(** ** Running a schedule *)

(** Some of the steps, as functions: a task is told to go on. *)
Inductive flow_cmd : Type :=
| CmdConnect (dest : Z) (client : stream)
| CmdUp (i : ConnId)
| CmdHandle (p : UsbDevicePacket)
| CmdTurn (i : ConnId) (e : bridge_event).

Definition packet_there (c : ChanId) (s : shared) : bool :=
  match (Router.rx_recv c (sh_router s)).1 with Waiting => false | _ => true end.

Definition can_take (e : bridge_event) (c : ChanId) (s : shared) : bool :=
  match e with
  | DevicePacket | ClientRead _ true => packet_there c s
  | _ => true
  end.

Definition flow_do (device_id : Z) (cmd : flow_cmd) (f : flow) : option (flow_label * flow) :=
  let s := fl_shared f in
  match cmd with
  | CmdConnect dest client =>
      if negb (sh_open s && bool_decide (0 ≤ dest < 2 ^ 16)%Z) then None
      else match register (sh_router s) with
           | (Ok (sp, c), r') =>
               Some (OtherStep,
                 Flow (Shared r' (sh_queue s ++ [(fl_next f, syn_packet sp dest)]) true)
                   (<[fl_next f := FlowConn sp dest c client [] None]> (fl_conns f)) (S (fl_next f)))
           | _ => None
           end
  | CmdUp i =>
      fc ← fl_conns f !! i;
      match fc_up fc with
      | Some _ => None
      | None =>
          if negb (packet_there (fc_chan fc) s) then None
          else match after_syn (link := LogLink (link := chan_link i (fc_chan fc))) device_id (fc_port fc) (fc_dest fc)
                 (s, fc_log fc) with
               | (Ok conn, (s', log')) =>
                   Some (OtherStep, set_conn i (FlowConn (fc_port fc) (fc_dest fc) (fc_chan fc) (fc_client fc) log'
                     (Some (conn, []))) (on_router (attach_conn (fc_port fc) i) s') f)
               | _ => None
               end
      end
  | CmdHandle p =>
      match handle_packet p (sh_router s) with
      | (Continue, r') => Some (Handled p, Flow (on_router (λ _, r') s) (fl_conns f) (fl_next f))
      | _ => None
      end
  | CmdTurn i e =>
      fc ← fl_conns f !! i;
      up ← fc_up fc;
      if negb (can_take e (fc_chan fc) s) then None
      else match turn_of i (fc_chan fc) e (bridge_of s fc up) with
           | (Ok true, b') =>
               Some (Turned i e, set_conn i (FlowConn (fc_port fc) (fc_dest fc) (fc_chan fc) (br_client b')
                 (br_link b').2 (Some (br_conn b', br_buf b'))) (br_link b').1 f)
           | _ => None
           end
  end.

Fixpoint flow_run (device_id : Z) (cmds : list flow_cmd) (f : flow) : option (list flow_label * flow) :=
  match cmds with
  | [] => Some ([], f)
  | cmd :: cmds =>
      '(l, f) ← flow_do device_id cmd f;
      '(tr, f) ← flow_run device_id cmds f;
      Some (l :: tr, f)
  end.

Lemma packet_there_ok c s : packet_there c s = true → has_packet c s.
Proof. unfold packet_there, has_packet. by destruct (Router.rx_recv c (sh_router s)).1. Qed.

Lemma flow_do_sound device_id cmd f l f' :
  flow_do device_id cmd f = Some (l, f') → flow_step device_id f l f'.
Proof.
  unfold flow_do. destruct cmd as [dest client|i|p|i e].
  - destruct (sh_open (fl_shared f)) eqn:Ho; [cbn [andb]|done].
    case_bool_decide as Hd; [cbn [negb]|done].
    destruct (register _) as [[[sp c]| | |] r'] eqn:E; try done. intros [= <- <-]. by apply flow_connect.
  - destruct (fl_conns f !! i) as [fc|] eqn:Hi; [cbn|done]. destruct (fc_up fc) eqn:Hu; [done|].
    destruct (packet_there _ _) eqn:Hp; [cbn|done].
    destruct (after_syn _ _ _ _) as [[conn| | |] [s' log']] eqn:E; try done. intros [= <- <-].
    eapply flow_up; try done. by apply packet_there_ok.
  - destruct (handle_packet _ _) as [[] r'] eqn:E; try done. intros [= <- <-]. by apply flow_handle.
  - destruct (fl_conns f !! i) as [fc|] eqn:Hi; [cbn|done]. destruct (fc_up fc) as [up|] eqn:Hu; [cbn|done].
    destruct (can_take _ _ _) eqn:Hc; [cbn|done].
    destruct (turn_of _ _ _ _) as [[[]| | |] b'] eqn:E; try done. intros [= <- <-].
    eapply flow_turn; try done. destruct e as [| |n []]; try done; by apply packet_there_ok.
Qed.

Lemma flow_run_sound device_id cmds : ∀ f tr f',
  flow_run device_id cmds f = Some (tr, f') → flow_steps device_id f tr f'.
Proof.
  induction cmds as [|cmd cmds IH]; intros f tr f'; cbn [flow_run]; [intros [= <- <-]; constructor|].
  destruct (flow_do device_id cmd f) as [[l f1]|] eqn:E; [cbn|done].
  destruct (flow_run device_id cmds f1) as [[tr1 f2]|] eqn:E1; [cbn|done]. intros [= <- <-].
  eapply flow_cons; [by eapply flow_do_sound|by apply IH].
Qed.
