(* ===== verification/FlowPackets.v ===== *)
(** * The packets that the connections of a device make

    Whatever well-formed packets a device sends, and whatever its clients write, every
    packet that is given to the writer loop is one that the loop transports: its fields
    fit, its header has no options, and it is no longer than [MAX_PACKET_SIZE]. *)

From S2P Require Import Prelude Io Tcp DeviceMux Builder Errors Conn Bridge Router Loops DeviceFlow.

(** ** Specification *)

(** A TCP header, if there is one, as a parser can have read it *)
Definition heard (p : UsbDevicePacket) : Prop := ∀ h, tcp_hdr p = Some h → tcp_wf h.

Section given.
Context {codec : TcpCodec}.

Definition given (p : UsbDevicePacket) : Prop :=
  sendable_packet p ∧ (Z.of_nat (length (packet_encode p)) ≤ MAX_PACKET_SIZE)%Z.

(** A connection's numbers fit their fields, and its window a packet. *)
Record conn_fits (c : UsbDeviceConn) : Prop := {
  cf_sent : in_width 32 (sent_bytes c);
  cf_received : in_width 32 (received_bytes c);
  cf_source : in_width 16 (conn_source_port c);
  cf_destination : in_width 16 (conn_destination_port c);
  cf_sendable : (sendable_bytes c ≤ MAX_PACKET_PAYLOAD_SIZE)%Z;
}.

Record shared_fits (s : shared) : Prop := {
  sf_queue : Forall (λ jp, given jp.2) (sh_queue s);
  sf_chans : ∀ c ch, chans (sh_router s) !! c = Some ch → Forall heard (chan_queue ch);
}.

Record flow_fits (f : flow) : Prop := {
  ff_shared : shared_fits (fl_shared f);
  ff_conns : ∀ i fc, fl_conns f !! i = Some fc →
    in_width 16 (fc_port fc) ∧ in_width 16 (fc_dest fc) ∧ (∀ up, fc_up fc = Some up → conn_fits up.1);
}.

(** * Lemmas *)

Context {laws : TcpCodecLaws}.

Lemma sendable_heard p : sendable_packet p → heard p.
Proof. intros [(_ & pr & _ & _ & Ht & _) _] h Hh. rewrite Hh in Ht. apply Ht. Qed.

Lemma length_renumber seq recv p :
  in_width 16 seq → in_width 16 recv → sendable_packet p →
  length (packet_encode (renumber seq recv p)) = length (packet_encode p).
Proof.
  intros Hs Hr Hp. rewrite (length_packet_encode p) by (by apply sendable_heard).
  rewrite length_packet_encode by (by apply sendable_heard, renumber_ok).
  unfold renumber. destruct (header p) eqn:E; cbn [header tcp_hdr DeviceMux.payload]; by rewrite ?E.
Qed.

Lemma calc_sendable_max s w r : (calc_sendable_bytes s w r ≤ MAX_PACKET_PAYLOAD_SIZE)%Z.
Proof. unfold calc_sendable_bytes. case_decide; [lia|done]. Qed.

Lemma tcp_given s d seq a fl bs :
  in_width 16 s → in_width 16 d → in_width 32 seq → in_width 32 a →
  (Z.of_nat (length bs) ≤ MAX_PACKET_PAYLOAD_SIZE)%Z →
  let h := b_tcp_hdr (tcp_header s d seq a fl (header_tcp AUTO_SEQ AUTO_SEQ builder_new)) in
  given (Packet (V2 (header_v2_new Tcp (HEADER_V2_SIZE + TCP_MIN_LEN + length bs) AUTO_SEQ AUTO_SEQ))
           (Some h) (PayloadBytes bs)).
Proof.
  intros Hs Hd Hq Ha Hl h.
  assert (Hh : plain_tcp h) by (by apply tcp_header_plain).
  assert (Hm : (MAX_PACKET_PAYLOAD_SIZE = 49116)%Z) by reflexivity. rewrite Hm in Hl.
  assert (Hok := tcp_packet_ok h AUTO_SEQ AUTO_SEQ bs Hh ltac:(done)
    ltac:(unfold payload_fits; change (HEADER_V2_SIZE + TCP_MIN_LEN) with 36; lia)).
  split; [split; [exact Hok|by intros ? [= <-]; apply Hh]|].
  rewrite length_packet_encode by (by intros ? [= <-]; apply Hh).
  cbn [header tcp_hdr DeviceMux.payload header_size tcp_hdr_len payload_len]. unfold tcp_header_len.
  destruct Hh as [_ ->]. cbn [length]. rewrite Nat.add_0_r.
  change (HEADER_V2_SIZE + TCP_MIN_LEN) with 36. change MAX_PACKET_SIZE with 49152%Z. lia.
Qed.

Lemma flag_given s d seq a fl :
  in_width 16 s → in_width 16 d → in_width 32 seq → in_width 32 a → given (tcp_flag_packet s d seq a fl).
Proof. intros Hs Hd Hq Ha. apply (tcp_given s d seq a fl [] Hs Hd Hq Ha). by vm_compute. Qed.

Lemma build_flag_given fl c : conn_fits c → given (build_flag fl c).
Proof. intros [? ? ? ? ?]. unfold build_flag. apply flag_given; assumption. Qed.

Lemma build_data_given bs c :
  conn_fits c → (Z.of_nat (length bs) ≤ MAX_PACKET_PAYLOAD_SIZE)%Z → given (build_data bs c).
Proof. intros [? ? ? ? ?] Hl. unfold build_data. apply tcp_given; assumption. Qed.

(** ** Operations that keep what fits

    [post] holds of what an operation returns. *)
Section fits.
Context {L : Type} {link : Link L} (Q : L → Prop).
Context (Q_send : ∀ p l, given p → Q l → Q (tx_send p l).2) (Q_try : ∀ p l, given p → Q l → Q (tx_try_send p l).2)
  (Q_recv : ∀ l, Q l → Q (Conn.rx_recv l).2 ∧ ∀ p, (Conn.rx_recv l).1 = Ok p → heard p).

Definition conn_keeps {A} (m : conn_op A) (post : A → Prop) : Prop := ∀ c l, conn_fits c → Q l →
  conn_fits (m (c, l)).2.1 ∧ Q (m (c, l)).2.2 ∧ ∀ a, (m (c, l)).1 = Ok a → post a.

Definition bridge_keeps {A} (m : bridge A) (post : A → Prop) : Prop := ∀ b,
  conn_fits (br_conn b) → Q (br_link b) →
  conn_fits (br_conn (m b).2) ∧ Q (br_link (m b).2) ∧ ∀ a, (m b).1 = Ok a → post a.

Lemma conn_keeps_bind {A B} (m : conn_op A) (f : A → conn_op B) P1 P2 :
  conn_keeps m P1 → (∀ a, P1 a → conn_keeps (f a) P2) → conn_keeps (st_bind m f) P2.
Proof.
  intros Hm Hf c l Hc Hl. unfold st_bind. destruct (Hm c l Hc Hl) as (H1 & H2 & H3).
  destruct (m (c, l)) as [[a|e| |] [c1 l1]]; cbn [fst snd] in *; try done. by apply (Hf a (H3 a eq_refl)).
Qed.

Lemma bridge_keeps_bind {A B} (m : bridge A) (f : A → bridge B) P1 P2 :
  bridge_keeps m P1 → (∀ a, P1 a → bridge_keeps (f a) P2) → bridge_keeps (st_bind m f) P2.
Proof.
  intros Hm Hf b Hc Hl. unfold st_bind. destruct (Hm b Hc Hl) as (H1 & H2 & H3).
  destruct (m b) as [[a|e| |] b1]; cbn [fst snd] in *; try done. by apply (Hf a (H3 a eq_refl)).
Qed.

Lemma self_keeps : conn_keeps self conn_fits.
Proof. intros c l Hc Hl. split_and!; try done. by intros a [= <-]. Qed.

Lemma modify_keeps f : (∀ c, conn_fits c → conn_fits (f c)) → conn_keeps (modify_self f) (λ _, True).
Proof. intros Hf c l Hc Hl. split_and!; [by apply Hf|done|done]. Qed.

Lemma send_keeps (m : UsbDevicePacket → stateful L RusbmuxError.t ()) p :
  (∀ p l, given p → Q l → Q (m p l).2) → given p → conn_keeps (on_link (m p)) (λ _, True).
Proof.
  intros Hm Hp c l Hc Hl. unfold on_link. specialize (Hm p l Hp Hl). by destruct (m p l).
Qed.

Lemma rx_keeps : conn_keeps (on_link Conn.rx_recv) heard.
Proof.
  intros c l Hc Hl. unfold on_link. destruct (Q_recv l Hl) as [H1 H2].
  destruct (Conn.rx_recv l) as [o l1]. by split_and!.
Qed.

Lemma update_sendable_keeps : conn_keeps (modify_self update_sendable_bytes) (λ _, True).
Proof. apply modify_keeps. intros c [? ? ? ? ?]. split; try done. apply calc_sendable_max. Qed.

Lemma update_states_keeps p : heard p → conn_keeps (modify_self (update_states p)) (λ _, True).
Proof.
  intros Hp. apply modify_keeps. intros c [? ? ? ? ?]. unfold update_states. destruct (tcp_hdr p) as [h|]; [|done].
  split; cbn; try done. apply wrap_range. lia.
Qed.

Lemma dropped_keeps : conn_keeps (modify_self set_dropped) (λ _, True).
Proof. apply modify_keeps. by intros c [? ? ? ? ?]. Qed.

Lemma ack_keeps : conn_keeps conn_ack (λ _, True).
Proof.
  eapply conn_keeps_bind; [apply self_keeps|intros c Hc].
  eapply conn_keeps_bind; [apply (send_keeps tx_send); [done|by apply build_flag_given]|intros _ _].
  apply update_sendable_keeps.
Qed.

Lemma recv_keeps : conn_keeps recv (λ _, True).
Proof.
  eapply conn_keeps_bind; [apply rx_keeps|intros p Hp].
  eapply conn_keeps_bind; [by apply update_states_keeps|intros _ _].
  eapply conn_keeps_bind; [apply ack_keeps|intros _ _]. by intros c l.
Qed.

Lemma close_keeps : conn_keeps close (λ _, True).
Proof.
  eapply conn_keeps_bind; [|intros _ _; apply dropped_keeps].
  eapply conn_keeps_bind; [apply self_keeps|intros c Hc].
  apply (send_keeps tx_send); [done|by apply build_flag_given].
Qed.

Lemma close_blocking_keeps : conn_keeps close_blocking (λ _, True).
Proof.
  eapply conn_keeps_bind; [|intros _ _; apply dropped_keeps].
  eapply conn_keeps_bind; [apply self_keeps|intros c Hc].
  apply (send_keeps tx_try_send); [done|by apply build_flag_given].
Qed.

Lemma send_bytes_keeps v :
  (Z.of_nat (length v) ≤ MAX_PACKET_PAYLOAD_SIZE)%Z → conn_keeps (send_bytes v) (λ _, True).
Proof.
  intros Hv. eapply conn_keeps_bind; [apply self_keeps|intros c Hc].
  eapply conn_keeps_bind; [apply (send_keeps tx_send); [done|by apply build_data_given]|intros _ _].
  eapply conn_keeps_bind; [apply modify_keeps; intros c' [? ? ? ? ?]; split; try done; apply wrap_range; lia|intros _ _].
  apply update_sendable_keeps.
Qed.

Lemma interrupted_keeps : conn_keeps interrupted_recv (λ _, True).
Proof. eapply conn_keeps_bind; [apply rx_keeps|intros p Hp]. by apply update_states_keeps. Qed.

Lemma on_conn_keeps {A} (m : conn_op A) post : conn_keeps m post → bridge_keeps (on_conn m) post.
Proof. intros Hm b Hc Hl. unfold on_conn. specialize (Hm (br_conn b) (br_link b) Hc Hl). by destruct (m _) as [? []]. Qed.

Lemma ret_keeps {A} (m : outcome RusbmuxError.t A) : bridge_keeps (λ b, (m, b)) (λ _, True).
Proof. by intros b. Qed.

Lemma client_send_keeps bs : bridge_keeps (client_send bs) (λ _, True).
Proof. intros b Hc Hl. unfold client_send, on_socket. by destruct (write_all bs (br_client b)). Qed.

Lemma client_read_keeps n k : bridge_keeps (client_read n k) (λ bs, length bs ≤ Z.to_nat k).
Proof.
  intros b Hc Hl. destruct (client_read n k b) as [o b'] eqn:E. cbn [fst snd].
  apply client_read_spec in E as (-> & -> & _ & _ & H). split_and!; [done..|].
  intros bs ->. destruct H as [(bs' & [= <-] & _ & Hle & _)|[[e ?] _]]; done.
Qed.

Lemma turn_keeps e : bridge_keeps (bridge_turn e) (λ _, True).
Proof.
  destruct e as [| |n i]; cbn [bridge_turn].
  - apply ret_keeps.
  - eapply bridge_keeps_bind; [apply on_conn_keeps, recv_keeps|intros p _].
    eapply bridge_keeps_bind; [apply client_send_keeps|intros _ _; apply ret_keeps].
  - eapply bridge_keeps_bind; [apply on_conn_keeps, self_keeps|intros c Hc].
    destruct (negb _); [apply ret_keeps|].
    eapply (bridge_keeps_bind _ _ (λ _, True)).
    { destruct i; [apply on_conn_keeps, interrupted_keeps|apply ret_keeps]. }
    intros _ _. eapply bridge_keeps_bind; [apply client_read_keeps|intros bs Hbs].
    pose proof (cf_sendable _ Hc). assert (0 ≤ MAX_PACKET_PAYLOAD_SIZE)%Z by by vm_compute.
    destruct bs; (eapply bridge_keeps_bind; [apply on_conn_keeps|intros _ _; apply ret_keeps]);
      [apply close_keeps|apply send_bytes_keeps; lia].
Qed.

Lemma conn_drop_keeps c l : conn_fits c → Q l → Q (conn_drop (c, l)).2.
Proof. intros Hc Hl. unfold conn_drop. destruct (negb _); [|done]. by apply close_blocking_keeps. Qed.

Lemma after_syn_keeps id sp dp l :
  in_width 16 sp → in_width 16 dp → Q l →
  Q (after_syn id sp dp l).2 ∧ ∀ c, (after_syn id sp dp l).1 = Ok c → conn_fits c.
Proof.
  intros Hsp Hdp Hl. unfold after_syn, st_bind, st_lift, ok_or. destruct (Q_recv l Hl) as [H1 H2].
  destruct (Conn.rx_recv l) as [[p| | |] l1]; try done. cbn [fst snd] in H1, H2.
  specialize (H2 p eq_refl). destruct (tcp_hdr p) as [h|] eqn:Eh; [|done].
  destruct (H2 h Eh) as (_ & _ & _ & Ha & _). destruct (negb _); [done|].
  match goal with |- context [tx_send ?q l1] =>
    assert (given q) as Hq by (by apply flag_given); pose proof (Q_send q l1 Hq H1) as H3;
    destruct (tx_send q l1) as [[[]| | |] l2] end; cbn in *; try done.
  split; [done|]. intros c [= <-]. split; cbn; try done. apply calc_sendable_max.
Qed.

End fits.

(** ** The link of a connection *)

Definition log_fits (l : shared * list UsbDevicePacket) : Prop := shared_fits l.1.

Lemma link_send_fits i c p l :
  given p → log_fits l → log_fits (tx_send (Link := LogLink (link := chan_link i c)) p l).2.
Proof.
  destruct l as [s log]. intros Hp [H1 H2]. cbn. unfold flow_send. destruct (sh_open s); [|by split].
  cbn. split; cbn; [|done]. apply Forall_app_2; [done|]. by apply list.Forall_singleton.
Qed.

Lemma link_recv_fits i c l :
  log_fits l →
  log_fits (Conn.rx_recv (Link := LogLink (link := chan_link i c)) l).2 ∧
  ∀ p, (Conn.rx_recv (Link := LogLink (link := chan_link i c)) l).1 = Ok p → heard p.
Proof.
  destruct l as [s log]. intros [H1 H2]. cbn. unfold flow_recv.
  destruct (Router.rx_recv c (sh_router s)) as [r r'] eqn:E. cbn in *.
  apply rx_recv_cases in E as [[-> Hr]|(p & q & a & -> & Hc & ->)].
  - split; [by split|]. intros p. destruct r as [p'| |]; [by destruct (Hr p')|done..].
  - pose proof (H2 _ _ Hc) as Hq. cbn in Hq. apply list.Forall_cons in Hq as [Hp Hq].
    split; [|by intros ? [= <-]]. split; [done|]. cbn. intros c' ch [[<- <-]|[_ Hk]]%lookup_insert_Some; [done|eauto].
Qed.

(** Routes only matter through the channels. *)
Lemma fits_router s g :
  shared_fits s →
  (∀ c ch, chans (g (sh_router s)) !! c = Some ch → Forall heard (chan_queue ch)) →
  shared_fits (on_router g s).
Proof. intros [H1 _] H2. by split. Qed.

Lemma fits_same_chans s g : shared_fits s → chans (g (sh_router s)) = chans (sh_router s) → shared_fits (on_router g s).
Proof. intros Hs E. apply fits_router; [done|]. rewrite E. apply Hs. Qed.

Lemma rx_drop_heard c r :
  (∀ c ch, chans r !! c = Some ch → Forall heard (chan_queue ch)) →
  ∀ c' ch, chans (rx_drop c r) !! c' = Some ch → Forall heard (chan_queue ch).
Proof.
  intros H c' ch. unfold rx_drop. destruct (chans r !! c) as [ch0|] eqn:E; [|apply H]. cbn.
  intros [[<- <-]|[_ Hk]]%lookup_insert_Some; [|by eapply H].
  apply list.Forall_nil_2.
Qed.

Lemma attach_chans port i r : chans (attach_conn port i r) = chans r.
Proof. unfold attach_conn. by destruct (routes (router r) !! port). Qed.

Lemma handle_heard p r t r' :
  heard p → (∀ c ch, chans r !! c = Some ch → Forall heard (chan_queue ch)) →
  handle_packet p r = (t, r') → ∀ c ch, chans r' !! c = Some ch → Forall heard (chan_queue ch).
Proof.
  intros Hp Hr H. unfold handle_packet in H. destruct (is_rst p); [injection H as <- <-; exact Hr|].
  destruct (route p r) as [res r1] eqn:E. injection H as _ <-.
  destruct (route_cases p r) as [[_ E']|(e & _ & [[_ E']|(ch & Ec & _ & [[_ E']|[_ E']])])];
    rewrite E' in E; injection E as _ <-; try exact Hr.
  cbn. intros c ch' [[<- <-]|[_ Hk]]%lookup_insert_Some; [|by eapply Hr].
  cbn. apply Forall_app_2; [by eapply Hr|by apply list.Forall_singleton].
Qed.

(** ** The flow *)

Definition label_heard (l : flow_label) : Prop := match l with Handled p => heard p | _ => True end.

Lemma flow_fits_set f i fc s' :
  flow_fits f → shared_fits s' → in_width 16 (fc_port fc) → in_width 16 (fc_dest fc) →
  (∀ up, fc_up fc = Some up → conn_fits up.1) → flow_fits (set_conn i fc s' f).
Proof.
  intros [_ Hc] Hs Hp Hd Hu. split; [done|]. cbn. intros k fc0 [[<- <-]|[_ Hk]]%lookup_insert_Some; [done|eauto].
Qed.

Lemma flow_fits_drop f i s' : flow_fits f → shared_fits s' → flow_fits (drop_conn i s' f).
Proof. intros [_ Hc] Hs. split; [done|]. cbn. intros k fc0 [_ Hk]%lookup_delete_Some. eauto. Qed.

Lemma flow_fits_same f s' n : flow_fits f → shared_fits s' → flow_fits (Flow s' (fl_conns f) n).
Proof. intros [_ Hc] Hs. by split. Qed.

Lemma flow_turn_fits f i fc up e b' o :
  flow_fits f → fl_conns f !! i = Some fc → fc_up fc = Some up →
  turn_of i (fc_chan fc) e (bridge_of (fl_shared f) fc up) = (o, b') →
  conn_fits (br_conn b') ∧ log_fits (br_link b').
Proof.
  intros Hf Hi Hu E. destruct (ff_conns _ Hf i fc Hi) as (_ & _ & Hup).
  destruct (turn_keeps (link := LogLink (link := chan_link i (fc_chan fc))) log_fits
    (link_send_fits i _) (link_recv_fits i _) e (bridge_of (fl_shared f) fc up))
    as (H1 & H2 & _); [by apply Hup|apply Hf|].
  unfold turn_of in E. rewrite E in H1, H2. by split.
Qed.

Lemma flow_step_fits id f l f' :
  flow_wf f → flow_fits f → label_heard l → flow_step id f l f' → flow_fits f'.
Proof.
  intros Hwf Hf Hl Hs. pose proof (ff_shared _ Hf) as Sf.
  destruct Hs as [f sp c r' dest client Hr Ho Hde|f sp c r' Hr Ho|f i fc conn s' log' Hi Hu Hp E|f i fc e s' log' Hi Hu Hp E
    |f p r' E|f i fc up e b' Hi Hu Hb E|f i fc up e o b' Hi Hu Hb E Hne|f|f].
  - pose proof (register_cases _ _ _ _ Hr) as (_ & Hsp & _ & Hch).
    assert (in_width 16 sp) as Hw.
    { pose proof (router_wf_register _ _ _ (fw_router _ Hwf) Hr) as [Wp _ _ _ _]. apply Wp in Hsp.
      unfold in_width in *. lia. }
    split; cbn.
    + split; cbn.
      * apply Forall_app_2; [apply Sf|]. apply list.Forall_singleton. by apply flag_given.
      * rewrite Hch. intros c' ch [[<- <-]|[_ Hk]]%lookup_insert_Some; [apply list.Forall_nil_2|by eapply Sf].
    + intros k fc [[<- <-]|[_ Hk]]%lookup_insert_Some; [done|by eapply Hf].
  - apply flow_fits_same; [done|]. apply fits_router; [done|]. apply rx_drop_heard.
    destruct (register_cases _ _ _ _ Hr) as (_ & _ & _ & Hch). cbn. rewrite Hch.
    intros c' ch [[<- <-]|[_ Hk]]%lookup_insert_Some; [apply list.Forall_nil_2|by eapply Sf].
  - destruct (ff_conns _ Hf i fc Hi) as (Hp1 & Hd1 & _).
    destruct (after_syn_keeps (link := LogLink (link := chan_link i (fc_chan fc))) log_fits (link_send_fits i _)
      (link_recv_fits i _) id (fc_port fc) (fc_dest fc) (fl_shared f, fc_log fc)) as [H1 H2]; [done..|].
    rewrite E in H1, H2. apply flow_fits_set; try done.
    + apply fits_same_chans; [done|apply attach_chans].
    + cbn. intros up [= <-]. by apply H2.
  - destruct (ff_conns _ Hf i fc Hi) as (Hp1 & Hd1 & _).
    destruct (after_syn_keeps (link := LogLink (link := chan_link i (fc_chan fc))) log_fits (link_send_fits i _)
      (link_recv_fits i _) id (fc_port fc) (fc_dest fc) (fl_shared f, fc_log fc)) as [H1 _]; [done..|].
    rewrite E in H1. apply flow_fits_drop; [done|]. apply fits_router; [done|]. apply rx_drop_heard. apply H1.
  - apply flow_fits_same; [done|]. apply fits_router; [done|]. by eapply handle_heard; [|apply Sf|].
  - destruct (flow_turn_fits _ _ _ _ _ _ _ Hf Hi Hu E) as [H1 H2]. destruct (ff_conns _ Hf i fc Hi) as (Hp1 & Hd1 & _).
    apply flow_fits_set; try done. cbn. by intros up' [= <-].
  - destruct (flow_turn_fits _ _ _ _ _ _ _ Hf Hi Hu E) as [H1 H2].
    apply flow_fits_drop; [done|]. apply fits_router; [|apply rx_drop_heard];
      apply (conn_drop_keeps (link := LogLink (link := chan_link i (fc_chan fc))) log_fits
               (link_send_fits i (fc_chan fc)) (br_conn b') (br_link b') H1 H2).
  - apply flow_fits_same; [done|]. by apply fits_same_chans.
  - apply flow_fits_same; [done|]. split; apply Sf.
Qed.

Lemma flow_init_fits : flow_fits flow_init.
Proof. split; [split|]; cbn; [done|intros c ch; by rewrite lookup_empty|intros i fc; by rewrite lookup_empty]. Qed.

End given.
