(* ===== verification/DeviceBus.v ===== *)
(** * A device, from its clients to the bus

    The tasks of [DeviceFlow] with the two ends they work on: the reader loop takes its
    packets from the device's endpoint, the writer loop takes them off the queue, fills
    in the sequence numbers, the received one being what the reader loop has counted by
    then ([recv_seq] of [src/device/usb.rs]), and writes them to the other endpoint.  The
    endpoints are any that meet the contracts [ByteReader] and [EndpointOut]. *)

From stdpp Require Import sorting.
From S2P Require Import Prelude Io Tcp DeviceMux Builder Errors Conn Bridge Router Loops RusbIo Endpoints.
From S2P Require Import DeviceFlow FlowPackets.

(** ** The state and the steps *)

Section device.
Context {codec : TcpCodec} {R : Type} {reader : ByteReader R ErrorKind} {W : Type} {endpoint : EndpointOut W}.

(** [dv_reading]: the reader loop has not ended; [dv_held]: the packet it has read,
    counted and not yet handled, as while it waits for room in a channel; [dv_taken]: how
    much of the queue the writer loop has taken. *)
Record device : Type := Device {
  dv_flow : flow;
  dv_reader : R;
  dv_reading : bool;
  dv_recv : Z;
  dv_held : option UsbDevicePacket;
  dv_writer : writer_state W;
  dv_taken : nat;
}.

Definition device_init (r : R) (w : W) : device := Device flow_init r true 0 None (writer_init w) 0.

Definition dv_shared (d : device) : shared := fl_shared (dv_flow d).

(** The reader loop's state. *)
Definition dv_loop (d : device) : reader_state R :=
  Reading (dv_reader d) (sh_router (dv_shared d)) (dv_recv d) [].

Definition set_flow (f : flow) (d : device) : device :=
  Device f (dv_reader d) (dv_reading d) (dv_recv d) (dv_held d) (dv_writer d) (dv_taken d).

Definition set_router (r : RouterState) (f : flow) : flow :=
  Flow (on_router (λ _, r) (fl_shared f)) (fl_conns f) (fl_next f).

(** The reader loop has read a packet: [recv_seq.fetch_add(1)]. *)
Definition hold (p : UsbDevicePacket) (r : R) (d : device) : device :=
  Device (dv_flow d) r (dv_reading d) (wrap 16 (dv_recv d + 1)) (Some p) (dv_writer d) (dv_taken d).

(** It has handled it. *)
Definition release (r : RouterState) (d : device) : device :=
  Device (set_router r (dv_flow d)) (dv_reader d) (dv_reading d) (dv_recv d) None (dv_writer d) (dv_taken d).

(** It has read no packet. *)
Definition set_loop (reading : bool) (s : reader_state R) (d : device) : device :=
  Device (set_router (rd_router s) (dv_flow d)) (end_in s) reading (recv_seq s) (dv_held d)
    (dv_writer d) (dv_taken d).

Definition set_writer (w : writer_state W) (taken : nat) (d : device) : device :=
  Device (dv_flow d) (dv_reader d) (dv_reading d) (dv_recv d) (dv_held d) w taken.

(** [notify], [opaque]: as for [start_reader_loop]. *)
Section steps.
Context (notify overflow_checks : bool) (device_id opaque : Z).

Inductive device_step : device → flow_label → device → Prop :=
(** A client's task, a new connection, or the end of a loop. *)
| device_task d l f' :
    flow_step device_id (dv_flow d) l f' → (∀ p, l ≠ Handled p) → device_step d l (set_flow f' d)
(** The reader loop reads a packet; it handles it, when its channel has room. *)
| device_read d p r' :
    dv_reading d = true → dv_held d = None → packet_from_reader (dv_reader d) = (Ok p, r') →
    device_step d OtherStep (hold p r' d)
| device_handle d p r' :
    dv_held d = Some p → handle_packet p (sh_router (dv_shared d)) = (Continue, r') →
    device_step d (Handled p) (release r' d)
(** What it reads is no packet, or it is at the end and the loop ends. *)
| device_skip d e s' :
    dv_reading d = true → dv_held d = None → (packet_from_reader (dv_reader d)).1 = Err e →
    reader_turn notify device_id opaque (dv_loop d) = (Continue, s') →
    device_step d OtherStep (set_loop true s' d)
| device_gone d e s' :
    dv_reading d = true → dv_held d = None → (packet_from_reader (dv_reader d)).1 = Err e →
    reader_turn notify device_id opaque (dv_loop d) = (Break, s') →
    device_step d OtherStep (set_loop false s' d)
(** A turn of the writer loop. *)
| device_write d i p t w' :
    sh_open (dv_shared d) = true → sh_queue (dv_shared d) !! dv_taken d = Some (i, p) →
    writer_turn overflow_checks p (dv_recv d) (dv_writer d) = (t, w') → t = Wrote ∨ t = HeaderFailed →
    device_step d OtherStep (set_writer w' (S (dv_taken d)) d)
(** It panics: its queue is closed, and the packet it took is not written. *)
| device_writer_dies d i p w' :
    sh_open (dv_shared d) = true → sh_queue (dv_shared d) !! dv_taken d = Some (i, p) →
    writer_turn overflow_checks p (dv_recv d) (dv_writer d) = (WriterDied, w') →
    device_step d OtherStep
      (set_writer w' (dv_taken d)
         (set_flow (Flow (Shared (sh_router (dv_shared d)) (sh_queue (dv_shared d)) false)
                      (fl_conns (dv_flow d)) (fl_next (dv_flow d))) d)).

Inductive device_steps : device → list flow_label → device → Prop :=
| device_nil d : device_steps d [] d
| device_snoc d tr d1 l d' : device_steps d tr d1 → device_step d1 l d' → device_steps d (tr ++ [l]) d'.

End steps.
End device.
Arguments device : clear implicits.

(** ** Specification *)

(** The packets the reader loop handled. *)
Definition handled (tr : list flow_label) : list UsbDevicePacket :=
  omap (λ l, match l with Handled p => Some p | _ => None end) tr.

(** The packets for a port, resets aside. *)
Definition for_port (port : Z) (ps : list UsbDevicePacket) : list UsbDevicePacket :=
  omap (λ p, if decide (is_rst p = None ∧ route_port p = port) then Some p else None) ps.

(** The packets of the queue as the writer loop writes them, each with its connection. *)
Definition on_bus (queue : list (ConnId * UsbDevicePacket)) (recvs : list Z) : list (ConnId * UsbDevicePacket) :=
  zip queue.*1 (numbered 1 (zip queue.*2 recvs)).

(** [recv_seq] after [n] packets *)
Definition counted (n : nat) : Z := wrap 16 (Z.of_nat n).

(** The writer loop's counter after some packets *)
Definition seq_after (seq : Z) (packets : list (UsbDevicePacket * Z)) : Z :=
  fold_left (λ seq p, next_seq seq p.1) packets seq.

(** * Lemmas *)

Lemma arrived_handled port tr : arrived port tr = for_port port (handled tr).
Proof.
  unfold arrived, for_port, handled. induction tr as [|l tr IH]; [done|]. cbn [omap list_omap].
  destruct l as [p|i e|]; cbn; [|exact IH..]. destruct (decide _); [by f_equal|done].
Qed.

Lemma handled_app tr1 tr2 : handled (tr1 ++ tr2) = handled tr1 ++ handled tr2.
Proof. apply omap_app. Qed.

Lemma numbered_snoc packets p recv : ∀ seq,
  numbered seq (packets ++ [(p, recv)]) = numbered seq packets ++ [renumber (seq_after seq packets) recv p].
Proof.
  induction packets as [|[q r] packets IH]; intros seq; [done|]. cbn [app numbered]. rewrite IH. done.
Qed.

Lemma seq_after_snoc packets p recv seq :
  seq_after seq (packets ++ [(p, recv)]) = next_seq (seq_after seq packets) p.
Proof. unfold seq_after. by rewrite fold_left_app. Qed.

Lemma next_seq_width seq p : in_width 16 seq → in_width 16 (next_seq seq p).
Proof. intros H. unfold next_seq. destruct (header p); [done|]. apply wrap_range. lia. Qed.

Lemma payload_renumber seq recv p : DeviceMux.payload (renumber seq recv p) = DeviceMux.payload p.
Proof. unfold renumber. by destruct (header p). Qed.

(** Renumbering changes no payload. *)
Lemma on_bus_payloads i queue : ∀ seq recvs,
  length recvs = length queue →
  payloads (of_conn i (zip queue.*1 (numbered seq (zip queue.*2 recvs)))) = payloads (of_conn i queue).
Proof.
  induction queue as [|[j p] queue IH]; intros seq [|recv recvs] Hl; try done.
  cbn [fmap list_fmap fst snd zip zip_with numbered]. unfold of_conn. cbn [omap list_omap fst snd].
  injection Hl as Hl. specialize (IH (match header p with V2 _ => wrap 16 (seq + 1) | V1 _ => seq end) recvs Hl).
  unfold of_conn in IH. destruct (decide (j = i)); [|exact IH].
  unfold payloads in *. rewrite !bind_cons, payload_renumber. by f_equal.
Qed.

Lemma on_bus_fst queue recvs : length recvs = length queue → (on_bus queue recvs).*1 = queue.*1.
Proof.
  intros Hl. unfold on_bus. apply fst_zip. rewrite length_numbered, length_zip_with, !length_fmap. lia.
Qed.

Lemma on_bus_snd queue recvs :
  length recvs = length queue → (on_bus queue recvs).*2 = numbered 1 (zip queue.*2 recvs).
Proof.
  intros Hl. unfold on_bus. apply snd_zip. rewrite length_numbered, length_zip_with, !length_fmap. lia.
Qed.

(** Steps only add to the queue. *)
Lemma flow_step_queue id f l f' :
  flow_step id f l f' → ∃ qs, sh_queue (fl_shared f') = sh_queue (fl_shared f) ++ qs.
Proof.
  assert (Hnil : ∀ q : list (ConnId * UsbDevicePacket), ∃ qs, q = q ++ qs) by (intros q; exists []; by rewrite app_nil_r).
  intros Hs. destruct Hs as [f sp c r' dest client Hr Ho Hde|f sp c r' Hr Ho|f i fc conn s' log' Hi Hu Hp E|f i fc e s' log' Hi Hu Hp E
    |f p r' E|f i fc up e b' Hi Hu Hb E|f i fc up e o b' Hi Hu Hb E Hne|f|f]; try apply Hnil.
  - cbn. eauto.
  - destruct (fr_queue _ _ _ _ (handshake_frame _ _ _ _ _ _ E)) as [ps H]. cbn in *. eauto.
  - destruct (fr_queue _ _ _ _ (handshake_frame _ _ _ _ _ _ E)) as [ps H]. cbn in *. eauto.
  - destruct (fr_queue _ _ _ _ (turned_frame _ _ _ _ _ _ _ E)) as [ps H]. cbn in *. eauto.
  - destruct (fr_queue _ _ _ _ (ended_frame _ _ _ _ _ _ _ E)) as [ps H]. cbn in *. eauto.
Qed.

(** What the counter was at each packet that was written *)
Definition counts_upto (n : nat) (counts : list nat) : Prop :=
  StronglySorted le counts ∧ Forall (λ c, c ≤ n) counts.

Lemma counts_upto_mono n m counts : n ≤ m → counts_upto n counts → counts_upto m counts.
Proof. intros Hl [H1 H2]. split; [done|]. eapply list.Forall_impl; [exact H2|cbn; lia]. Qed.

Lemma counts_upto_snoc n counts : counts_upto n counts → counts_upto n (counts ++ [n]).
Proof.
  intros [H1 H2]. split; [|by apply Forall_app_2; [|apply list.Forall_singleton]].
  apply StronglySorted_app_2; [|done|repeat constructor].
  intros x y Hx ->%list_elem_of_singleton. rewrite list.Forall_forall in H2. by apply H2.
Qed.

Lemma counted_S n : counted (S n) = wrap 16 (counted n + 1).
Proof. unfold counted. rewrite wrap_add_l. f_equal. lia. Qed.

Lemma counted_width n : in_width 16 (counted n).
Proof. apply wrap_range. lia. Qed.

Section device_lemmas.
Context {codec : TcpCodec} {laws : TcpCodecLaws}.
Context {R : Type} {reader : ByteReader R ErrorKind} {rlaws : ByteReaderLaws R ErrorKind}.
Context {W : Type} {endpoint : EndpointOut W} {ol : EndpointOutLaws W}.
Context (notify oc : bool) (id opaque : Z).
Implicit Types d : device R W.

(** What the reader loop does with an error. *)
Lemma reader_turn_error notify' id' op (s : reader_state R) e :
  (packet_from_reader (end_in s)).1 = Err e →
  (∃ io, e = ParseError.IO io) ∧ (∃ r', reader_turn notify' id' op s =
     (Break, Reading r' (clear (rd_router s)) (recv_seq s)
       (if notify' then notified s ++ [IODisconnected id' op] else notified s))) ∨
  (∀ io, e ≠ ParseError.IO io) ∧ (∃ r', reader_turn notify' id' op s =
     (Continue, Reading r' (rd_router s) (recv_seq s) (notified s))).
Proof using Type.
  unfold reader_turn. destruct (packet_from_reader (end_in s)) as [o r']. cbn. intros ->.
  destruct e; [left; eauto|right; eauto..].
Qed.

(** A step of the device is one of the flow, or does nothing to it. *)
Lemma device_step_flow d l d' :
  device_step notify oc id opaque d l d' →
  flow_step id (dv_flow d) l (dv_flow d') ∨ (l = OtherStep ∧ dv_flow d' = dv_flow d).
Proof.
  intros Hs. destruct Hs as [d l f' Hf Hl|d p r' Hr Hh E|d p r' Hh E|d e s' Hr Hh Hp E|d e s' Hr Hh Hp E
    |d i p t w' Ho Hq E Ht|d i p w' Ho Hq E]; [by left|by right|..].
  - left. by apply flow_handle.
  - right. split; [done|]. destruct (reader_turn_error notify id opaque (dv_loop d) _ Hp) as [[_ (r' & E')]|[_ (r' & E')]];
      rewrite E' in E; simplify_eq. by destruct d as [[[] conns next] ? ? ? ? ? ?].
  - left. destruct (reader_turn_error notify id opaque (dv_loop d) _ Hp) as [[_ (r' & E')]|[_ (r' & E')]];
      rewrite E' in E; simplify_eq. apply flow_reader_ends.
  - by right.
  - left. apply flow_writer_ends.
Qed.

(** ** What a run keeps *)

(** What the writer loop is given, each packet with the counter it meets. *)
Lemma given_pairs (q : list (ConnId * UsbDevicePacket)) : ∀ recvs,
  Forall (λ jp, given jp.2) q → length recvs = length q → Forall (in_width 16) recvs →
  Forall (λ p, sendable_packet p.1 ∧ in_width 16 p.2) (zip q.*2 recvs).
Proof using Type.
  induction q as [|[j p] q IH]; intros [|x recvs] Hg Hl Hw; try done.
  apply list.Forall_cons in Hg as [[Hp _] Hg], Hw as [Hx Hw]. injection Hl as Hl.
  cbn. apply list.Forall_cons_2; [by split|by apply IH].
Qed.

Section run.
Context (ps : list UsbDevicePacket) (Hps : Forall sendable_packet ps).
Context (w0 : W) (Htakes : out_takes (Z.to_nat MAX_PACKET_SIZE)).

(** What the reader loop has read *)
Definition has_read (tr : list flow_label) d : list UsbDevicePacket := handled tr ++ option_list (dv_held d).

Record device_inv (tr : list flow_label) d : Prop := {
  di_wf : flow_wf (dv_flow d);
  di_fits : flow_fits (dv_flow d);
  di_recv : dv_recv d = counted (length (has_read tr d));
  di_read : ∃ rest, ps = has_read tr d ++ rest ∧
    if dv_reading d then reader_data (dv_reader d) = wire rest else dv_held d = None ∧ rest = [];
  di_taken : dv_taken d ≤ length (sh_queue (dv_shared d));
  di_works : out_works (end_out (dv_writer d));
  di_current : out_current (end_out (dv_writer d)) = [];
  di_seq : in_width 16 (send_seq (dv_writer d));
  di_bus : ∃ counts, let taken := take (dv_taken d) (sh_queue (dv_shared d)) in
    length counts = length taken ∧ counts_upto (length (has_read tr d)) counts ∧
    out_sent (end_out (dv_writer d)) =
      out_sent w0 ++ (packet_encode <$> (on_bus taken (counted <$> counts)).*2) ∧
    send_seq (dv_writer d) = seq_after 1 (zip taken.*2 (counted <$> counts));
}.

Lemma device_init_inv r :
  reader_data r = wire ps → out_works w0 → out_current w0 = [] → device_inv [] (device_init r w0).
Proof using Type.
  intros Hr Hw Hc. split; cbn; [apply flow_init_wf|apply flow_init_fits|done|by exists ps|lia|done|done|done|].
  exists []. cbn. rewrite app_nil_r. split_and!; [done| |done|done]. split; constructor.
Qed.

(** The writer loop does nothing. *)
Lemma inv_flow tr l d d' :
  device_inv tr d → flow_step id (dv_flow d) l (dv_flow d') ∨ dv_flow d' = dv_flow d →
  label_heard l → length (has_read tr d) ≤ length (has_read (tr ++ [l]) d') →
  dv_recv d' = counted (length (has_read (tr ++ [l]) d')) →
  (∃ rest, ps = has_read (tr ++ [l]) d' ++ rest ∧
    if dv_reading d' then reader_data (dv_reader d') = wire rest else dv_held d' = None ∧ rest = []) →
  dv_writer d' = dv_writer d → dv_taken d' = dv_taken d → device_inv (tr ++ [l]) d'.
Proof using laws.
  intros [H1 H2 H3 H4 H5 H6 H7 H8 (counts & L1 & L2 & L3)] Hs Hl Hgrow Hrecv Hread Hw Ht.
  assert (Hq : ∃ qs, sh_queue (dv_shared d') = sh_queue (dv_shared d) ++ qs).
  { destruct Hs as [Hs|Hs]; [by eapply flow_step_queue|]. exists []. unfold dv_shared. by rewrite Hs, app_nil_r. }
  destruct Hq as [qs Hq].
  split; rewrite ?Hw, ?Ht; try done.
  - destruct Hs as [Hs| ->]; [by eapply flow_step_wf|done].
  - destruct Hs as [Hs| ->]; [by eapply flow_step_fits|done].
  - rewrite Hq, length_app. lia.
  - exists counts. rewrite Hq, take_app_le by done. split_and!; [done| |apply L3..]. by eapply counts_upto_mono.
Qed.

(** The same when the reader loop does nothing either. *)
Lemma inv_quiet tr l d d' :
  device_inv tr d → flow_step id (dv_flow d) l (dv_flow d') ∨ dv_flow d' = dv_flow d →
  (∀ p, l ≠ Handled p) → dv_reader d' = dv_reader d → dv_reading d' = dv_reading d →
  dv_held d' = dv_held d → dv_recv d' = dv_recv d →
  dv_writer d' = dv_writer d → dv_taken d' = dv_taken d → device_inv (tr ++ [l]) d'.
Proof using laws.
  intros Hi Hs Hl E1 E2 E3 E4 E5 E6.
  assert (Hr : has_read (tr ++ [l]) d' = has_read tr d).
  { unfold has_read. rewrite handled_app, E3. destruct l; [by destruct (Hl p)|..]; cbn; by rewrite app_nil_r. }
  eapply inv_flow; rewrite ?Hr, ?E1, ?E2, ?E3, ?E4; try done; [by destruct l; [destruct (Hl p)|..]|apply Hi..].
Qed.

(** The writer loop takes the next packet. *)
Lemma inv_write tr d i p t w' :
  device_inv tr d → sh_queue (dv_shared d) !! dv_taken d = Some (i, p) →
  writer_turn oc p (dv_recv d) (dv_writer d) = (t, w') →
  (t = Wrote ∧ device_inv (tr ++ [OtherStep]) (set_writer w' (S (dv_taken d)) d)) ∨
  (t = WriterDied ∧ w' = dv_writer d).
Proof using laws Htakes.
  intros [H1 H2 H3 H4 H5 H6 H7 H8 (counts & L1 & L2 & L3 & L4)] Hq E.
  assert (Hw : in_width 16 (dv_recv d)) by (rewrite H3; apply counted_width).
  assert (Hg : given p).
  { pose proof (sf_queue _ (ff_shared _ H2)) as Hall. rewrite list.Forall_lookup in Hall. by apply (Hall _ _ Hq). }
  destruct Hg as [Hp Hlen].
  destruct (match header p with V2 _ => incr_u16 oc (send_seq (dv_writer d)) | V1 _ => Some (send_seq (dv_writer d)) end)
    as [next|] eqn:En.
  2: { right. unfold writer_turn in E. rewrite En in E. by injection E as <- <-. }
  left. assert (next = next_seq (send_seq (dv_writer d)) p) as ->.
  { unfold next_seq. destruct (header p); [by injection En|]. unfold incr_u16 in En. destruct (_ && _); [done|by injection En]. }
  destruct (writer_turn_ok oc p (dv_recv d) (dv_writer d) _ Hp Hw H8 H6 H7 En) as (o & E' & W1 & S1 & C1).
  { eapply out_takes_le; [|exact Htakes]. rewrite length_renumber by done. lia. }
  rewrite E' in E. injection E as <- <-. split; [done|].
  assert (Hread : has_read (tr ++ [OtherStep]) (set_writer (Writing (next_seq (send_seq (dv_writer d)) p) o)
    (S (dv_taken d)) d) = has_read tr d).
  { unfold has_read. by rewrite handled_app, app_nil_r. }
  split; rewrite ?Hread; try done; [exact (lookup_lt_Some _ _ _ Hq)|by apply next_seq_width|].
  cbn [set_writer dv_flow dv_writer dv_taken end_out send_seq]. change (dv_shared (set_writer _ _ d)) with (dv_shared d).
  exists (counts ++ [length (has_read tr d)]). cbv zeta.
  assert (counted <$> (counts ++ [length (has_read tr d)]) = (counted <$> counts) ++ [dv_recv d]) as ->
    by (by rewrite fmap_app, H3).
  set (recvs := counted <$> counts) in *. set (q := sh_queue (dv_shared d)) in *. set (k := dv_taken d) in *.
  assert (Hr : length recvs = length (take k q)) by (subst recvs; by rewrite length_fmap).
  assert (Htake : take (S k) q = take k q ++ [(i, p)]) by (by apply take_S_r).
  assert (Hzip : zip (take (S k) q).*2 (recvs ++ [dv_recv d]) = zip (take k q).*2 recvs ++ [(p, dv_recv d)]).
  { rewrite Htake, fmap_app. cbn [fmap list_fmap snd]. by rewrite zip_with_app by (by rewrite length_fmap). }
  assert (Hl : length (recvs ++ [dv_recv d]) = length (take (S k) q)) by (rewrite Htake, !length_app; cbn; lia).
  split_and!.
  - rewrite <- Hl, !length_app. subst recvs. by rewrite length_fmap.
  - by apply counts_upto_snoc.
  - rewrite on_bus_snd by done. cbn [fmap list_fmap]. rewrite Hzip, numbered_snoc, fmap_app, S1, L3, on_bus_snd by done.
    cbn. by rewrite <- app_assoc, L4.
  - cbn [fmap list_fmap]. by rewrite Hzip, seq_after_snoc, L4.
Qed.

(** What comes next is a packet, or the end. *)
Lemma inv_reads tr d :
  device_inv tr d → dv_reading d = true →
  (∃ p rest r', ps = has_read tr d ++ p :: rest ∧ sendable_packet p ∧
     packet_from_reader (dv_reader d) = (Ok p, r') ∧ reader_data r' = wire rest) ∨
  (ps = has_read tr d ∧ ∃ k r', packet_from_reader (dv_reader d) = (Err (ParseError.IO k), r')).
Proof using laws rlaws Hps.
  intros Hi Hb. destruct (di_read _ _ Hi) as (rest & Hr & Hd). rewrite Hb in Hd. destruct rest as [|p rest].
  - right. split; [by rewrite app_nil_r in Hr|]. by apply reader_at_end.
  - left. assert (Hp : sendable_packet p) by (rewrite Hr, Forall_app, list.Forall_cons in Hps; apply Hps).
    rewrite wire_cons in Hd. destruct (sendable_read p (dv_reader d) _ Hp Hd) as (r' & E & Hr'). by exists p, rest, r'.
Qed.

Lemma device_step_inv tr d l d' :
  device_inv tr d → device_step notify oc id opaque d l d' → device_inv (tr ++ [l]) d'.
Proof using laws Hps Htakes rlaws.
  intros Hi Hs. pose proof (device_step_flow _ _ _ Hs) as Hf.
  assert (Hf' : flow_step id (dv_flow d) l (dv_flow d') ∨ dv_flow d' = dv_flow d) by naive_solver. clear Hf.
  destruct Hs as [d l f' Hf Hl|d p r' Hr Hh E|d p r' Hh E|d e s' Hr Hh Hp E|d e s' Hr Hh Hp E
    |d i p t w' Ho Hq E Ht|d i p w' Ho Hq E].
  - by eapply inv_quiet.
  - destruct (inv_reads _ _ Hi Hr) as [(p' & rest & r1 & Hps' & Hp & E' & Hd)|[_ (k & r1 & E')]];
      rewrite E' in E; simplify_eq.
    assert (Hread : has_read (tr ++ [OtherStep]) (hold p r' d) = has_read tr d ++ [p]).
    { unfold has_read. rewrite handled_app, Hh. by rewrite !app_nil_r. }
    eapply inv_flow; try done; rewrite Hread; [rewrite length_app; lia| |].
    + cbn. rewrite length_app, Nat.add_1_r, counted_S. by rewrite (di_recv _ _ Hi).
    + exists rest. cbn. by rewrite Hr, <- app_assoc.
  - assert (Hread : has_read (tr ++ [Handled p]) (release r' d) = has_read tr d).
    { unfold has_read. rewrite handled_app, Hh. cbn. by rewrite app_nil_r. }
    destruct (di_read _ _ Hi) as (rest & Hps' & Hd).
    eapply inv_flow; rewrite ?Hread; try done; [|apply Hi|exists rest; split; [done|]].
    + apply sendable_heard. unfold has_read in Hps'. rewrite Hps', Hh, !Forall_app in Hps. cbn in Hps.
      rewrite list.Forall_singleton in Hps. apply Hps.
    + cbn. destruct (dv_reading d); [done|]. rewrite Hh in Hd. by destruct Hd.
  - exfalso. destruct (inv_reads _ _ Hi Hr) as [(? & ? & ? & _ & _ & E' & _)|[_ (k & r1 & E')]]; rewrite E' in Hp; simplify_eq.
    destruct (reader_turn_error notify id opaque (dv_loop d) (ParseError.IO k)) as [[_ (r2 & E2)]|[Hne _]];
      [cbn; by rewrite E'|by rewrite E2 in E|by destruct (Hne k)].
  - destruct (inv_reads _ _ Hi Hr) as [(? & ? & ? & _ & _ & E' & _)|[Hps' (k & r1 & E')]]; rewrite E' in Hp; simplify_eq.
    destruct (reader_turn_error notify id opaque (dv_loop d) (ParseError.IO k)) as [[_ (r2 & E2)]|[Hne _]];
      [cbn; by rewrite E'| |by destruct (Hne k)]. rewrite E2 in E. injection E as <-.
    assert (Hread : ∀ s', has_read (tr ++ [OtherStep]) (set_loop false s' d) = has_read tr d)
      by (intros s'; unfold has_read; by rewrite handled_app, app_nil_r).
    eapply inv_flow; rewrite ?Hread; try done; [apply Hi|]. exists []. by rewrite app_nil_r.
  - destruct (inv_write _ _ _ _ _ _ Hi Hq E) as [[_ H]|[-> _]]; [exact H|]. by destruct Ht.
  - destruct (inv_write _ _ _ _ _ _ Hi Hq E) as [[? _]|[_ ->]]; [done|]. by eapply inv_quiet.
Qed.

Lemma device_steps_inv tr0 d tr d' :
  device_inv tr0 d → device_steps notify oc id opaque d tr d' → device_inv (tr0 ++ tr) d'.
Proof using laws Hps Htakes rlaws.
  intros Hi Hs. induction Hs as [d|d tr d1 l d' _ IH Hs]; [by rewrite app_nil_r|].
  rewrite app_assoc. eapply device_step_inv; [by apply IH|done].
Qed.

End run.

Lemma flow_steps_snoc f tr f1 l f' :
  flow_steps id f tr f1 → flow_step id f1 l f' → flow_steps id f (tr ++ [l]) f'.
Proof using Type. induction 1; cbn; intros; [eapply flow_cons; [done|constructor]|eapply flow_cons; eauto]. Qed.

(** A run of the device is one of its flow. *)
Lemma device_steps_flow d tr d' :
  device_steps notify oc id opaque d tr d' →
  ∃ tr', flow_steps id (dv_flow d) tr' (dv_flow d') ∧ handled tr' = handled tr ∧
  (∀ i, interruptions i tr' = interruptions i tr).
Proof using Type.
  induction 1 as [d|d tr d1 l d' _ (tr' & Hs & Hh & Hin) Hl]; [by exists []; repeat constructor|].
  destruct (device_step_flow _ _ _ Hl) as [Hf|[-> Hf]].
  - exists (tr' ++ [l]). split_and!; [by eapply flow_steps_snoc|by rewrite !handled_app, Hh|].
    intros i. by rewrite !interruptions_app, Hin.
  - exists tr'. rewrite Hf. split_and!; [done|by rewrite handled_app, app_nil_r|]. intros i.
    rewrite interruptions_app, Hin. unfold interruptions at 3. cbn. by rewrite Nat.add_0_r.
Qed.

(** ** Theorem *)

(** C5.  From the clients to the bus and back.  A device sends the packets [ps];
    however its loops and its clients' tasks interleave, new and ending connections
    included: the reader loop handles [ps] in order, and ends only after all of them; what
    waited in a client's channel, with the packets handled since for its port (or a prefix
    of them, when its route was removed), is what was taken from the channel and what waits
    there, and what was taken has been written to the client, byte for byte and in order,
    but for at most one packet for each [recv] that was interrupted after it had taken one;
    the endpoint has been given whole packets, each by itself, which can be read back in this
    order, numbered from 1, each with the number of packets that had been read by then; and
    those of them that are this connection's, with what is still queued and unsent, carry
    what its client wrote, byte for byte and in order, interrupted [recv]s or not.  Nothing
    is asked of the clients. *)
Theorem device_streams_exact ps r w tr0 d tr d' i fc fc' :
  Forall sendable_packet ps → reader_data r = wire ps →
  out_works w → out_current w = [] → out_takes (Z.to_nat MAX_PACKET_SIZE) →
  device_steps notify oc id opaque (device_init r w) tr0 d → device_steps notify oc id opaque d tr d' →
  fl_conns (dv_flow d) !! i = Some fc → is_Some (fc_up fc) → fl_conns (dv_flow d') !! i = Some fc' →
  let read := handled tr0 ++ handled tr ++ option_list (dv_held d') in
  (read `prefix_of` ps ∧ (dv_reading d' = false → handled tr0 ++ handled tr = ps)) ∧
  (∃ ds taken kept, ds `prefix_of` for_port (fc_port fc) (handled tr) ∧
     (routed fc' (sh_router (dv_shared d')) → ds = for_port (fc_port fc) (handled tr)) ∧
     waiting fc (sh_router (dv_shared d)) ++ ds = taken ++ waiting fc' (sh_router (dv_shared d')) ∧
     s_out (fc_client fc') = s_out (fc_client fc) ++ payloads kept ∧
     kept `sublist_of` taken ∧ length taken ≤ length kept + interruptions i tr ∧
     (interruptions i tr = 0 → kept = taken)) ∧
  (∃ counts, let queue := sh_queue (dv_shared d') in
     let bus := on_bus (take (dv_taken d') queue) (counted <$> counts) in
     counts_upto (length read) counts ∧
     out_sent (end_out (dv_writer d')) = out_sent w ++ (packet_encode <$> bus.*2) ∧
     read_all (length bus) (wire bus.*2) = Some (bus.*2, []) ∧
     payloads (of_conn i bus) ++ payloads (of_conn i (drop (dv_taken d') queue)) ++ fc_unsent fc' =
       payloads (of_conn i (sh_queue (dv_shared d))) ++ fc_unsent fc).
Proof using laws rlaws.
  intros Hps Hr Hw Hc Ht H0 H1 Hi Hup Hi'. cbv zeta. rewrite (app_assoc (handled tr0)), <- handled_app.
  pose proof (device_steps_inv ps Hps w Ht [] _ _ _ (device_init_inv ps w r Hr Hw Hc) H0) as I0. cbn in I0.
  pose proof (device_steps_inv ps Hps w Ht _ _ _ _ I0 H1) as I1.
  destruct (device_steps_flow _ _ _ H1) as (tr' & Hf & Hh & Hin).
  destruct (flow_steps_streams id (dv_flow d) tr' (dv_flow d') i fc fc')
    as (ds & qs & P1 & P2 & _ & _ & (taken & kept & Q1 & Q2 & Q3 & Q4) & P4 & P5); try done; [apply I0|].
  rewrite (Hin i) in Q3.
  rewrite arrived_handled, Hh in P1, P2. split_and!.
  - destruct (di_read _ _ _ _ I1) as (rest & Hps' & _). by exists rest.
  - intros Hb. destruct (di_read _ _ _ _ I1) as (rest & Hps' & Hd). rewrite Hb in Hd. destruct Hd as [Hd ->].
    unfold has_read in Hps'. by rewrite Hd, !app_nil_r in Hps'.
  - exists ds, taken, kept. split_and!; try done. intros H. by apply sublist_all; [|lia].
  - destruct (di_bus _ _ _ _ I1) as (counts & L1 & L2 & L3 & _). exists counts. cbv zeta.
    set (queue := sh_queue (dv_shared d')) in *. set (k := dv_taken d') in *.
    assert (Hl : length (counted <$> counts) = length (take k queue)) by (by rewrite length_fmap).
    split_and!; [exact L2|exact L3| |].
    + rewrite on_bus_snd by done. rewrite <- (app_nil_r (wire _)).
      replace (length (on_bus _ _)) with (length (numbered 1 (zip (take k queue).*2 (counted <$> counts))))
        by (by rewrite <- on_bus_snd, length_fmap).
      apply read_all_wire, numbered_sendable; [by unfold in_width|].
      pose proof (sf_queue _ (ff_shared _ (di_fits _ _ _ _ I1))) as Hg. fold (dv_shared d') queue in Hg.
      apply given_pairs; [by apply list.Forall_take|done|].
      apply list.Forall_forall. intros x (n & -> & _)%list_elem_of_fmap. apply counted_width.
    + unfold on_bus. rewrite on_bus_payloads by done. rewrite app_assoc, <- payloads_app, <- of_conn_app, take_drop.
      unfold queue, dv_shared. rewrite P4, payloads_app, <- app_assoc. by rewrite P5.
Qed.

End device_lemmas.

(** ** Running a schedule *)

Section schedule.
Context {codec : TcpCodec} {R : Type} {reader : ByteReader R ErrorKind} {W : Type} {endpoint : EndpointOut W}.
Context (notify oc : bool) (id opaque : Z).

Inductive device_cmd : Type := DoTask (cmd : flow_cmd) | DoRead | DoHandle | DoWrite.

Definition device_do (cmd : device_cmd) (d : device R W) : option (flow_label * device R W) :=
  match cmd with
  | DoTask (CmdHandle _) => None
  | DoTask cmd => '(l, f) ← flow_do id cmd (dv_flow d); Some (l, set_flow f d)
  | DoRead =>
      match dv_reading d, dv_held d, packet_from_reader (dv_reader d) with
      | true, None, (Ok p, r') => Some (OtherStep, hold p r' d)
      | _, _, _ => None
      end
  | DoHandle =>
      p ← dv_held d;
      match handle_packet p (sh_router (dv_shared d)) with
      | (Continue, r') => Some (Handled p, release r' d)
      | _ => None
      end
  | DoWrite =>
      match sh_open (dv_shared d), sh_queue (dv_shared d) !! dv_taken d with
      | true, Some (_, p) =>
          match writer_turn oc p (dv_recv d) (dv_writer d) with
          | (Wrote, w') => Some (OtherStep, set_writer w' (S (dv_taken d)) d)
          | _ => None
          end
      | _, _ => None
      end
  end.

Fixpoint device_run (cmds : list device_cmd) (tr : list flow_label) (d : device R W)
  : option (list flow_label * device R W) :=
  match cmds with
  | [] => Some (tr, d)
  | cmd :: cmds => '(l, d) ← device_do cmd d; device_run cmds (tr ++ [l]) d
  end.

Lemma flow_do_label cmd f l f' :
  (∀ p, cmd ≠ CmdHandle p) → flow_do id cmd f = Some (l, f') → ∀ p, l ≠ Handled p.
Proof.
  intros Hc H p ->. unfold flow_do in H. destruct cmd; [..|by destruct (Hc p0)|]; repeat case_match; simplify_option_eq;
    repeat case_match; simplify_eq.
Qed.

Lemma device_do_sound cmd d l d' : device_do cmd d = Some (l, d') → device_step notify oc id opaque d l d'.
Proof.
  unfold device_do. destruct cmd as [cmd| | |].
  - intros H. assert (∃ f', flow_do id cmd (dv_flow d) = Some (l, f') ∧ d' = set_flow f' d ∧ ∀ p, cmd ≠ CmdHandle p)
      as (f' & Hf & -> & Hc).
    { destruct cmd; try done; destruct (flow_do id _ (dv_flow d)) as [[l1 f1]|] eqn:E; try done; cbn in H;
        injection H as <- <-; eauto. }
    apply device_task; [by apply flow_do_sound with cmd|by eapply flow_do_label].
  - destruct (dv_reading d) eqn:Hr; [|done]. destruct (dv_held d) eqn:Hh; [done|].
    destruct (packet_from_reader (dv_reader d)) as [[p| | |] r'] eqn:Hp; try done. intros [= <- <-]. by apply device_read.
  - destruct (dv_held d) as [p|] eqn:Hh; [cbn|done].
    destruct (handle_packet p _) as [[] r'] eqn:E; try done. intros [= <- <-]. by apply device_handle.
  - destruct (sh_open (dv_shared d)) eqn:Ho; [|done].
    destruct (sh_queue (dv_shared d) !! dv_taken d) as [[i p]|] eqn:Hq; [|done].
    destruct (writer_turn oc p _ _) as [[] w'] eqn:E; try done. intros [= <- <-]. eapply device_write; eauto.
Qed.

Lemma device_run_sound cmds d0 : ∀ tr d tr' d',
  device_steps notify oc id opaque d0 tr d → device_run cmds tr d = Some (tr', d') →
  device_steps notify oc id opaque d0 tr' d'.
Proof.
  induction cmds as [|cmd cmds IH]; intros tr d tr' d' Hs; cbn [device_run]; [by intros [= <- <-]|].
  destruct (device_do cmd d) as [[l d1]|] eqn:E; [cbn|done]. apply IH.
  eapply device_snoc; [done|by apply device_do_sound in E].
Qed.

End schedule.
