(* ===== verification/UsbDevice.v ===== *)
(** * A USB device and its connections ([src/device/usb.rs], [src/device/core.rs])

    [connect] registers a port, performs the handshake and attaches the
    connection; [close_all] resets every connection; [shutdown] and the drop of the
    device end its tasks.  The reader loop works on the same router while
    [connect] waits for the handshake: what it does in the meantime is the
    argument [meanwhile].  [ud_conns] are the connections somebody still holds, so
    that a router's weak reference upgrades when its connection is there. *)

From S2P Require Import Prelude Io Tcp DeviceMux Plist Builder Errors Conn Router.

(** ** Data *)

Section device.
Context {L : Type} {link : Link L}.

Record UsbDevice : Type := MkUsbDevice {
  ud_id : Z;
  ud_udid : string;
  ud_speed : option Z;
  ud_location_id : Z;
  ud_product_id : Z;
  ud_router : RouterState;
  ud_conns : gmap ConnId UsbDeviceConn;
  ud_link : L;
  (** the token is cancelled, the loops are aborted, the device is marked *)
  ud_canceled : bool;
  ud_loops_aborted : bool;
  ud_dropped : bool;
}.

Definition set_state (r : RouterState) (cs : gmap ConnId UsbDeviceConn) (l : L) (d : UsbDevice)
  : UsbDevice :=
  MkUsbDevice (ud_id d) (ud_udid d) (ud_speed d) (ud_location_id d) (ud_product_id d) r cs l
    (ud_canceled d) (ud_loops_aborted d) (ud_dropped d).

(** ** Connections *)

Definition connect (meanwhile : RouterState → RouterState) (destination_port : Z)
  : stateful UsbDevice RusbmuxError.t ConnId := λ d,
  match register (ud_router d) with
  | (Ok (source_port, _), r) =>
      match conn_new (ud_id d) source_port destination_port (ud_link d) with
      | (Ok conn, l) =>
          let c := fresh (dom (ud_conns d)) in
          (Ok c, set_state (attach_conn source_port c (meanwhile r))
                   (<[c := conn]> (ud_conns d)) l d)
      | (Err err, l) =>
          (Err err, set_state (unregister source_port (meanwhile r)).2 (ud_conns d) l d)
      | (Panic, l) => (Panic, set_state (meanwhile r) (ud_conns d) l d)
      | (Ub, l) => (Ub, set_state (meanwhile r) (ud_conns d) l d)
      end
  | (Err err, r) => (Err err, set_state r (ud_conns d) (ud_link d) d)
  | (Panic, r) => (Panic, set_state r (ud_conns d) (ud_link d) d)
  | (Ub, r) => (Ub, set_state r (ud_conns d) (ud_link d) d)
  end.

(** Closes the connection registered under the port, if it is still held. *)
Definition cleanup_conn (source_port : Z) : stateful UsbDevice RusbmuxError.t () := λ d,
  let '(pe, r) := unregister source_port (ud_router d) in
  match pe ≫= entry_conn with
  | Some c =>
      match ud_conns d !! c with
      | Some conn =>
          if dropped conn then (Ok (), set_state r (ud_conns d) (ud_link d) d)
          else
            let '(o, (conn', l)) := close (conn, ud_link d) in
            (o, set_state r (<[c := conn']> (ud_conns d)) l d)
      | None => (Ok (), set_state r (ud_conns d) (ud_link d) d)
      end
  | None => (Ok (), set_state r (ud_conns d) (ud_link d) d)
  end.

(** The loop over the connections taken from the router: a failing send does not
    stop it, the first error is kept. *)
Fixpoint rst_each (send : conn_op ()) (cs : list UsbDeviceConn) (first_err : option RusbmuxError.t)
    (l : L) : option RusbmuxError.t * L :=
  match cs with
  | [] => (first_err, l)
  | conn :: cs =>
      let '(o, (_, l')) := send (conn, l) in
      let first_err := match o, first_err with Err e, None => Some e | _, _ => first_err end in
      rst_each send cs first_err l'
  end.

Context {mo : MapOrder}.

Definition upgrades (d : UsbDevice) (c : ConnId) : bool := bool_decide (is_Some (ud_conns d !! c)).

(** The connections of [take_all_conns] that are still there. *)
Definition taken_conns (d : UsbDevice) : list UsbDeviceConn * RouterState :=
  let '(cs, r) := take_all_conns (upgrades d) (ud_router d) in
  (omap (λ c, c ≫= λ c, ud_conns d !! c) cs, r).

Definition close_all_with (send : conn_op ()) : stateful UsbDevice RusbmuxError.t () := λ d,
  let '(cs, r) := taken_conns d in
  let '(first_err, l) := rst_each send cs None (ud_link d) in
  (match first_err with Some err => Err err | None => Ok () end, set_state r (ud_conns d) l d).

Definition close_all : stateful UsbDevice RusbmuxError.t () := close_all_with send_rst.
Definition close_all_blocking : stateful UsbDevice RusbmuxError.t () :=
  close_all_with send_rst_blocking.

(** ** Shutdown *)

Definition cancel (d : UsbDevice) : UsbDevice :=
  MkUsbDevice (ud_id d) (ud_udid d) (ud_speed d) (ud_location_id d) (ud_product_id d)
    (ud_router d) (ud_conns d) (ud_link d) true (ud_loops_aborted d) (ud_dropped d).

Definition set_device_dropped (d : UsbDevice) : UsbDevice :=
  MkUsbDevice (ud_id d) (ud_udid d) (ud_speed d) (ud_location_id d) (ud_product_id d)
    (ud_router d) (ud_conns d) (ud_link d) (ud_canceled d) (ud_loops_aborted d) true.

Definition drop_loops (d : UsbDevice) : UsbDevice :=
  MkUsbDevice (ud_id d) (ud_udid d) (ud_speed d) (ud_location_id d) (ud_product_id d)
    (ud_router d) (ud_conns d) (ud_link d) (ud_canceled d) true (ud_dropped d).

Definition modify_device (f : UsbDevice → UsbDevice) : stateful UsbDevice RusbmuxError.t () := λ d,
  (Ok (), f d).

Definition shutdown : stateful UsbDevice RusbmuxError.t () :=
  let! _ := modify_device cancel in
  let! _ := close_all in
  let! _ := modify_device set_device_dropped in
  modify_device drop_loops.

Definition shutdown_blocking : stateful UsbDevice RusbmuxError.t () :=
  let! _ := modify_device cancel in
  let! _ := close_all_blocking in
  let! _ := modify_device set_device_dropped in
  modify_device drop_loops.

(** [Drop for UsbDevice], its debug assertion aside *)
Definition device_drop (d : UsbDevice) : UsbDevice :=
  if negb (ud_dropped d) then (shutdown_blocking d).2 else d.

(** ** The message that announces the device *)

Definition create_device_attached (d : UsbDevice) : Value :=
  Dictionary
    [("DeviceID", Integer (ud_id d));
     ("MessageType", String "Attached");
     ("Properties", Dictionary
        [("ConnectionSpeed", Integer (default 0%Z (ud_speed d)));
         ("ConnectionType", String "USB");
         ("DeviceID", Integer (ud_id d));
         ("LocationID", Integer (ud_location_id d));
         ("ProductID", Integer (ud_product_id d));
         ("SerialNumber", String (ud_udid d))])].

(** ** Lemmas *)

Context {laws : LinkLaws L}.

Lemma conn_new_cases id s d (l : L) :
  (∃ c l', conn_new id s d l = (Ok c, l') ∧ conn_source_port c = s ∧
     conn_destination_port c = d ∧ dropped c = false ∧ device_id c = id)
  ∨ ∃ e l', conn_new id s d l = (Err e, l').
Proof.
  unfold conn_new, perform, st_bind, st_lift, st_ret.
  destruct (tx_send_spec (tcp_flag_packet s d 0 0 SYN) l) as (l1 & [[-> _]|[[? ->] _]]); [|eauto].
  destruct (rx_recv_spec l1) as (l2 & _ & [[p ->]|[? ->]]); [|eauto].
  destruct (tcp_hdr p) as [h|]; cbn [ok_or]; [|eauto]. destruct (negb _); [eauto|].
  set (q := tcp_flag_packet s d (0 + _) _ ACK).
  destruct (tx_send_spec q l2) as (l3 & [[-> _]|[[? ->] _]]); [|eauto].
  left. eauto 10.
Qed.

(** Resetting a list of connections: what is queued is a part of the resets, all
    of them if no send fails. *)
Lemma rst_each_spec send cs err l :
  (∀ c (l : L), ∃ l', (send (c, l) = (Ok (), (c, l')) ∧ link_sent l' = link_sent l ++ [build_flag RST c])
     ∨ ((∃ e, send (c, l) = (Err e, (c, l'))) ∧ link_sent l' = link_sent l)) →
  ∃ qs err' l', rst_each send cs err l = (err', l') ∧ link_sent l' = link_sent l ++ qs ∧
    qs `sublist_of` (build_flag RST <$> cs) ∧
    (err' = None → err = None ∧ qs = build_flag RST <$> cs) ∧
    (∀ e, err = Some e → err' = Some e).
Proof.
  intros Hs. revert err l. induction cs as [|c cs IH]; intros err l.
  - exists [], err, l. rewrite app_nil_r. split_and!; try done.
  - simpl. destruct (Hs c l) as (l1 & [[E Hq]|[[e E] Hq]]); rewrite E.
    + destruct (IH err l1) as (qs & err' & l' & E' & Hq' & Hsub & Hn & He).
      exists (build_flag RST c :: qs), err', l'. split_and!.
      * destruct err; exact E'.
      * by rewrite Hq', Hq, <- app_assoc.
      * by constructor.
      * intros ->. destruct Hn as [-> ->]; done.
      * done.
    + destruct (IH (match err with None => Some e | _ => err end) l1)
        as (qs & err' & l' & E' & Hq' & Hsub & Hn & He).
      exists qs, err', l'. split_and!.
      * destruct err; exact E'.
      * by rewrite Hq', Hq.
      * by constructor.
      * intros ->. destruct Hn as [Hf _]; [done|]. by destruct err.
      * intros e' ->. by apply He.
Qed.

Lemma close_all_with_spec send d :
  (∀ c (l : L), ∃ l', (send (c, l) = (Ok (), (c, l')) ∧ link_sent l' = link_sent l ++ [build_flag RST c])
     ∨ ((∃ e, send (c, l) = (Err e, (c, l'))) ∧ link_sent l' = link_sent l)) →
  ∃ o d' qs, close_all_with send d = (o, d') ∧
    d' = set_state (RState (Router ∅ (next_source_port (router (ud_router d)))) (chans (ud_router d)))
           (ud_conns d) (ud_link d') d ∧
    link_sent (ud_link d') = link_sent (ud_link d) ++ qs ∧
    qs `sublist_of` (build_flag RST <$> (taken_conns d).1) ∧
    (o = Ok () ∧ qs = build_flag RST <$> (taken_conns d).1 ∨ ∃ e, o = Err e).
Proof.
  intros Hs. unfold close_all_with. destruct (taken_conns d) as [cs r] eqn:E.
  destruct (rst_each_spec send cs None (ud_link d) Hs) as (qs & err & l' & -> & Hq & Hsub & Hn & _).
  eexists _, _, qs. split; [done|]. cbn [ud_link set_state]. split_and!; try done.
  - f_equal. unfold taken_conns in E.
    destruct (take_all_conns (upgrades d) (ud_router d)) as [ids r0] eqn:Et.
    apply take_all_conns_spec in Et as [-> _]. by simplify_eq.
  - destruct err; [right; eauto|]. left. by destruct Hn.
Qed.

Lemma send_rst_spec c (l : L) :
  ∃ l', (send_rst (c, l) = (Ok (), (c, l')) ∧ link_sent l' = link_sent l ++ [build_flag RST c])
     ∨ ((∃ e, send_rst (c, l) = (Err e, (c, l'))) ∧ link_sent l' = link_sent l).
Proof. apply rst_cases, tx_send_spec. Qed.

Lemma send_rst_blocking_spec c (l : L) :
  ∃ l', (send_rst_blocking (c, l) = (Ok (), (c, l')) ∧ link_sent l' = link_sent l ++ [build_flag RST c])
     ∨ ((∃ e, send_rst_blocking (c, l) = (Err e, (c, l'))) ∧ link_sent l' = link_sent l).
Proof. apply rst_cases, tx_try_send_spec. Qed.

(** The connections taken are those attached to a registered port and still held. *)
Lemma elem_of_taken_conns d conn :
  conn ∈ (taken_conns d).1 ↔ ∃ port e c, routes (router (ud_router d)) !! port = Some e ∧
    entry_conn e = Some c ∧ ud_conns d !! c = Some conn.
Proof.
  unfold taken_conns. destruct (take_all_conns (upgrades d) (ud_router d)) as [ids r] eqn:Et.
  apply take_all_conns_spec in Et as [_ Hids]. cbn [fst]. rewrite list_elem_of_omap. split.
  - intros ([c|] & Hin & Hc); [|done]. cbn in Hc. rewrite Hids in Hin.
    apply list_elem_of_omap in Hin as (e & ([p e'] & -> & Hp%elem_of_map_to_list)%list_elem_of_fmap & He).
    cbn in He. destruct (entry_conn e') as [c'|] eqn:Ec; [|done]. cbn in He.
    destruct (upgrades d c'); simplify_eq. eauto 10.
  - intros (p & e & c & Hp & He & Hc). exists (Some c). split; [|done]. rewrite Hids.
    apply list_elem_of_omap. exists e. split.
    + apply list_elem_of_fmap. exists (p, e). split; [done|]. by apply elem_of_map_to_list.
    + rewrite He. cbn. unfold upgrades. by rewrite bool_decide_eq_true_2 by (by eexists).
Qed.
(** The connection of a [connect] that succeeds is held under its key. *)
Lemma usb_connect_cases meanwhile port d :
  (∃ c d' conn, connect meanwhile port d = (Ok c, d') ∧ ud_conns d' !! c = Some conn ∧
     ud_id d' = ud_id d ∧ device_id conn = ud_id d ∧ conn_destination_port conn = port) ∨
  (∃ e d', connect meanwhile port d = (Err e, d') ∧ ud_id d' = ud_id d).
Proof.
  unfold connect.
  destruct (register_total (ud_router d)) as [(sp & ch & r & ->)|(e & r & ->)]; [|eauto].
  destruct (conn_new_cases (ud_id d) sp port (ud_link d)) as [(c & l & -> & _ & Hp & _ & Hi)|(e & l & ->)]; [|eauto].
  left. eexists _, _, _. split; [done|]. split; [apply lookup_insert_eq|by split_and!].
Qed.

(** ** Properties *)

(** Whatever the reader loop does to the router while the handshake runs, a
    successful [connect] returns a new connection for the port it registered and
    leaves it attached there if the port is still registered; a failed one leaves
    its port unregistered, holds no new connection and touches no other port. *)
Theorem connect_spec meanwhile port d o d' :
  connect meanwhile port d = (o, d') →
  match register (ud_router d) with
  | (Ok (sp, _), r) =>
      (∀ p, p ≠ sp → routes (router (ud_router d')) !! p = routes (router (meanwhile r)) !! p) ∧
      match o with
      | Ok c => ud_conns d !! c = None ∧ ∃ conn, ud_conns d' = <[c := conn]> (ud_conns d) ∧
          conn_source_port conn = sp ∧ conn_destination_port conn = port ∧
          (∀ e, routes (router (meanwhile r)) !! sp = Some e →
             routes (router (ud_router d')) !! sp = Some (Entry (tx e) (Some c)))
      | _ => (∃ e, o = Err e) ∧ ud_conns d' = ud_conns d ∧
          routes (router (ud_router d')) !! sp = None
      end
  | (_, r) => (∃ e, o = Err e) ∧ d' = set_state r (ud_conns d) (ud_link d) d
  end.
Proof.
  unfold connect. intros H.
  destruct (register_total (ud_router d)) as [(sp & ch & r & E)|(e & r & E)]; rewrite E in H |- *;
    [|by simplify_eq; split; [eexists|]].
  destruct (conn_new_cases (ud_id d) sp port (ud_link d))
    as [(c & l & Ec & Hsp & Hdp & _)|(e & l & Ec)]; rewrite Ec in H;
    injection H as <- <-.
  - cbn [ud_router ud_conns set_state]. split.
    + intros p Hp. unfold attach_conn. destruct (routes _ !! sp); [|done].
      cbn. by rewrite lookup_insert_ne.
    + split; [apply not_elem_of_dom, is_fresh|]. exists c. split_and!; try done.
      intros e He. unfold attach_conn. rewrite He. cbn. by rewrite lookup_insert_eq.
  - cbn. split.
    + intros p Hp. by rewrite lookup_delete_ne.
    + split; [by eexists|]. split; [done|]. by rewrite lookup_delete_eq.
Qed.

(** [close_all] empties the router and queues a reset for each connection
    that is attached to a port and still held, and for no other: if it returns
    [Ok] all of them are queued; a send that fails does not keep the others from
    being tried, and is reported. *)
Theorem close_all_resets d o d' :
  close_all d = (o, d') →
  routes (router (ud_router d')) = ∅ ∧ ud_conns d' = ud_conns d ∧
  ∃ conns qs,
    (∀ conn, conn ∈ conns ↔ ∃ port e c, routes (router (ud_router d)) !! port = Some e ∧
       entry_conn e = Some c ∧ ud_conns d !! c = Some conn) ∧
    link_sent (ud_link d') = link_sent (ud_link d) ++ qs ∧
    qs `sublist_of` (build_flag RST <$> conns) ∧
    (o = Ok () ∧ qs = build_flag RST <$> conns ∨ ∃ e, o = Err e).
Proof.
  intros H. destruct (close_all_with_spec send_rst d send_rst_spec)
    as (o2 & d2 & qs & E & Hd & Hq & Hsub & Ho). unfold close_all in H. rewrite E in H. simplify_eq.
  rewrite Hd. split; [done|]. split; [done|]. exists (taken_conns d).1, qs.
  split; [apply elem_of_taken_conns|]. rewrite Hd in Hq. done.
Qed.

(** After [shutdown] and the drop of the device its tasks have been stopped,
    its token cancelled, the device marked and its router emptied, whether or not
    [shutdown] could queue all its resets: when it could not it returns early and
    stops nothing, and the drop, which finds the router empty, finishes the work
    without queueing anything. *)
Theorem shutdown_then_drop d o d' :
  ud_dropped d = false → shutdown d = (o, d') →
  let d'' := device_drop d' in
  ud_canceled d'' = true ∧ ud_loops_aborted d'' = true ∧ ud_dropped d'' = true ∧
  routes (router (ud_router d'')) = ∅ ∧
  ((o = Ok () ∧ d'' = d') ∨
   ((∃ e, o = Err e) ∧ ud_dropped d' = false ∧ ud_loops_aborted d' = ud_loops_aborted d ∧
    link_sent (ud_link d'') = link_sent (ud_link d'))).
Proof.
  intros Hdr H. unfold shutdown in H. rewrite (st_bind_eq _ _ d () (cancel d)) in H by done.
  destruct (close_all_with_spec send_rst (cancel d) send_rst_spec)
    as (o2 & d2 & qs & E & Hd & Hq & Hsub & Ho). fold close_all in E.
  destruct Ho as [[-> Hqs]|[e ->]].
  - rewrite (st_bind_eq _ _ _ _ _ E) in H. unfold st_bind, modify_device in H. simplify_eq.
    rewrite Hd. cbn. split_and!; try done. by left.
  - rewrite (st_bind_fail _ _ _ _ _ E) in H. simplify_eq.
    assert (Hdr' : ud_dropped d' = false) by (by rewrite Hd).
    destruct (close_all_with_spec send_rst_blocking (cancel d') send_rst_blocking_spec)
      as (o3 & d3 & qs3 & E3 & Hd3 & Hq3 & Hsub3 & Ho3). fold close_all_blocking in E3.
    assert (Hempty : (taken_conns (cancel d')).1 = []).
    { destruct (taken_conns (cancel d')).1 as [|conn cs] eqn:Et; [done|].
      assert (conn ∈ (taken_conns (cancel d')).1) as Hin by (rewrite Et; by left).
      apply elem_of_taken_conns in Hin as (p & e' & c & Hp & _).
      rewrite Hd in Hp. cbn in Hp. by rewrite lookup_empty in Hp. }
    rewrite Hempty in Hsub3, Ho3. cbn in Hsub3, Ho3. apply sublist_nil_r in Hsub3 as ->.
    rewrite app_nil_r in Hq3.
    assert (Ho3' : o3 = Ok ()).
    { unfold close_all_blocking, close_all_with in E3.
      destruct (taken_conns (cancel d')) as [cs r]. cbn in Hempty. subst cs. cbn in E3. by simplify_eq. }
    subst o3. unfold device_drop. rewrite Hdr'. cbn [negb]. unfold shutdown_blocking.
    rewrite (st_bind_eq _ _ d' () (cancel d')) by done. rewrite (st_bind_eq _ _ _ _ _ E3).
    unfold st_bind, modify_device. cbn. rewrite Hd3. cbn. split_and!; try done. right.
    split_and!; [by eexists|done|by rewrite Hd|]. rewrite Hd3 in Hq3. done.
Qed.

End device.
Arguments UsbDevice : clear implicits.
