(* ===== verification/Registry.v ===== *)
(** * Connected devices ([src/bin/rusbmux/watcher/], [src/bin/rusbmux/utils.rs],
    [src/device/mod.rs], [src/device/network.rs])

    The daemon's registry of connected devices and the hotplug events it
    broadcasts.  A device may be connected by USB and over the network at once;
    clients are to see only one of the two, USB preferred.  [visible] says which
    devices those are, [view] what a client has been told by the events, and
    the theorems relate the two.  Device ids key the map [CONNECTED_DEVICES]; the
    order [DashMap] iterates in is the parameter [RegistryOrder]. *)

From S2P Require Import Prelude Io Plist Request Errors Conn Router UsbDevice.

(** ** Network devices *)

Record NetworkDevice : Type := MkNetworkDevice {
  nd_id : Z;
  nd_addr : IpAddr;
  nd_scope_id : option Z;
  nd_mac_address : string;
  nd_service_name : string;
  nd_udid : string;
  nd_canceled : bool;
}.

Definition network_shutdown (d : NetworkDevice) : NetworkDevice :=
  MkNetworkDevice (nd_id d) (nd_addr d) (nd_scope_id d) (nd_mac_address d) (nd_service_name d)
    (nd_udid d) true.

(** [libc::sockaddr_in] and [sockaddr_in6] as they lie in memory on Linux: the
    family, a zero port, and the address; for IPv6 a zero flow label, the address
    and the scope.  The message carries them in an array of 128 bytes. *)
Definition AF_INET : Z := 2.
Definition AF_INET6 : Z := 10.

Definition sockaddr_bytes (addr : IpAddr) (scope_id : option Z) : list byte :=
  match addr with
  | IpV4 octets => le_encode 2 AF_INET ++ le_encode 2 0 ++ octets ++ le_encode 8 0
  | IpV6 octets =>
      le_encode 2 AF_INET6 ++ le_encode 2 0 ++ le_encode 4 0 ++ octets
      ++ le_encode 4 (default 0%Z scope_id)
  end.

Definition network_address (addr : IpAddr) (scope_id : option Z) : list byte :=
  let socket_bytes := sockaddr_bytes addr scope_id in
  socket_bytes ++ replicate (128 - length socket_bytes) Byte.x00.

Definition network_device_attached (d : NetworkDevice) : Value :=
  Dictionary
    [("DeviceID", Integer (nd_id d));
     ("MessageType", String "Attached");
     ("Properties", Dictionary
        [("ConnectionType", String "Network");
         ("DeviceID", Integer (nd_id d));
         ("EscapedFullServiceName", String (nd_service_name d));
         ("InterfaceIndex", Integer (default 0%Z (nd_scope_id d)));
         ("NetworkAddress", Data (network_address (nd_addr d) (nd_scope_id d)));
         ("SerialNumber", String (nd_udid d))])].

(** ** Devices *)

Inductive ConnectionType : Type := UsbConnection | NetworkConnection.

Section registry.
Context {L : Type} {link : Link L} {mo : MapOrder}.

Inductive Device : Type :=
| Network (d : NetworkDevice)
| Usb (d : UsbDevice L).

Definition connection_type (d : Device) : ConnectionType :=
  match d with Usb _ => UsbConnection | Network _ => NetworkConnection end.

Definition is_usb (d : Device) : bool :=
  match connection_type d with UsbConnection => true | NetworkConnection => false end.

Definition is_network (d : Device) : bool :=
  match connection_type d with NetworkConnection => true | UsbConnection => false end.

Definition device_id (d : Device) : Z :=
  match d with Network dev => nd_id dev | Usb dev => ud_id dev end.

Definition device_udid (d : Device) : string :=
  match d with Network dev => nd_udid dev | Usb dev => ud_udid dev end.

Definition as_network (d : Device) : option NetworkDevice :=
  match d with Network dev => Some dev | Usb _ => None end.

Definition as_usb (d : Device) : option (UsbDevice L) :=
  match d with Usb dev => Some dev | Network _ => None end.

(** [Device::shutdown], whose result its callers ignore *)
Definition device_shutdown (d : Device) : Device :=
  match d with
  | Usb dev => Usb (shutdown dev).2
  | Network dev => Network (network_shutdown dev)
  end.

Definition device_attached (d : Device) : Value :=
  match d with
  | Usb dev => create_device_attached dev
  | Network dev => network_device_attached dev
  end.

(** ** The registry *)

Inductive DeviceEvent : Type := Attached (id : Z) | Detached (id : Z).

Record Daemon : Type := MkDaemon {
  (** [CONNECTED_DEVICES] *)
  connected : gmap Z Device;
  (** everything sent on [HOTPLUG_EVENT_TX], oldest first *)
  events : list DeviceEvent;
}.

Class RegistryOrder : Type := {
  devices_in_order : gmap Z Device → list (Z * Device);
  devices_in_order_perm : ∀ m, devices_in_order m ≡ₚ map_to_list m;
}.
Context {ro : RegistryOrder}.

Definition send_event (e : DeviceEvent) (s : Daemon) : Daemon :=
  MkDaemon (connected s) (events s ++ [e]).

Definition set_connected (m : gmap Z Device) (s : Daemon) : Daemon := MkDaemon m (events s).

Definition any_device (f : Device → bool) (s : Daemon) : bool :=
  existsb (λ kv, f kv.2) (devices_in_order (connected s)).

Definition has_usb_with_udid (udid : string) (s : Daemon) : bool :=
  any_device (λ d, match as_usb d with Some u => String.eqb (ud_udid u) udid | None => false end) s.

Definition has_network_with_udid (udid : string) (s : Daemon) : bool :=
  any_device (λ d, match as_network d with Some n => String.eqb (nd_udid n) udid | None => false end) s.

Definition is_shadowed (dev : Device) (s : Daemon) : bool :=
  match as_network dev with
  | Some ndev => has_usb_with_udid (nd_udid ndev) s
  | None => false
  end.

Definition find_network_id_by_udid (udid : string) (s : Daemon) : option Z :=
  device_id <$> (find (λ d, match as_network d with Some n => String.eqb (nd_udid n) udid | None => false end)
                   (devices_in_order (connected s)).*2).

(** [watcher::remove_device] *)
Definition remove_device (id : Z) : stateful Daemon RusbmuxError.t Device := λ s,
  match connected s !! id with
  | None => (Err (RusbmuxError.DeviceNotFound id), s)
  | Some device =>
      let s := set_connected (delete id (connected s)) s in
      let device := device_shutdown device in
      match connection_type device with
      | UsbConnection =>
          let s := match find_network_id_by_udid (device_udid device) s with
                   | Some ndev_id => send_event (Attached ndev_id) s
                   | None => s
                   end in
          (Ok device, send_event (Detached id) s)
      | NetworkConnection =>
          if has_usb_with_udid (device_udid device) s then (Ok device, s)
          else (Ok device, send_event (Detached (device_id device)) s)
      end
  end.

(** ** The watchers' loops, one event each *)

Inductive UsbEvent : Type :=
| UsbConnected (device : UsbDevice L) (id : Z)
| UsbDisconnected (id : Z)
| UsbError (e : RusbmuxError.t).

Definition watch_usb_daemon_turn (event : UsbEvent) (s : Daemon) : Daemon :=
  match event with
  | UsbConnected device id =>
      let s := match find_network_id_by_udid (ud_udid device) s with
               | Some ndev_id => send_event (Detached ndev_id) s
               | None => s
               end in
      let s := set_connected
        (filter (λ kv, (is_network kv.2 || negb (String.eqb (device_udid kv.2) (ud_udid device))) = true)
           (connected s)) s in
      let s := set_connected (<[id := Usb device]> (connected s)) s in
      send_event (Attached id) s
  | UsbDisconnected id => (remove_device id s).2
  | UsbError _ => s
  end.

Inductive NetworkEvent : Type :=
| NetworkConnected (dev : NetworkDevice)
| NetworkDisconnected (id : Z)
| NetworkError (e : RusbmuxError.t).

(** [Some err]: the watcher ends with that error. *)
Definition watch_network_daemon_turn (event : NetworkEvent) (s : Daemon)
  : option RusbmuxError.t * Daemon :=
  match event with
  | NetworkConnected dev =>
      let udid := nd_udid dev in
      if has_network_with_udid udid s then (None, s)
      else
        let id := nd_id dev in
        let s := set_connected (<[id := Network dev]> (connected s)) s in
        (None, if negb (has_usb_with_udid udid s) then send_event (Attached id) s else s)
  | NetworkDisconnected id =>
      match connected s !! id with
      | None => (None, s)
      | Some device =>
          let s := set_connected (delete id (connected s)) s in
          let device := device_shutdown device in
          (None, if negb (has_usb_with_udid (device_udid device) s)
                 then send_event (Detached id) s else s)
      end
  | NetworkError err =>
      match err with
      | RusbmuxError.Mdns _ => (Some err, s)
      | _ => (None, s)
      end
  end.

(** What [add_device] does to the registry once the pairing file has been read, before
    the device is reached: nothing when it is there and need not be added again
    ([None]), else the device that was there is taken out. *)
Definition take_old (udid : string) (force : bool) (s : Daemon) : option (option (Z * Device)) * Daemon :=
  match find_network_id_by_udid udid s with
  | Some ndev_id =>
      if negb force then (None, s)
      else
        let s := send_event (Detached ndev_id) s in
        (Some ((λ d, (ndev_id, d)) <$> connected s !! ndev_id), set_connected (delete ndev_id (connected s)) s)
  | None => (Some None, s)
  end.

(** And after that: [made] is what [Device::new_network] gives for the id. *)
Definition put_new (udid : string) (id : Z) (made : outcome RusbmuxError.t NetworkDevice)
    (old_ndev : option (Z * Device)) : stateful Daemon RusbmuxError.t () := λ s,
  match made with
  | Ok device =>
      let s := set_connected (<[id := Network device]> (connected s)) s in
      (Ok (), if negb (has_usb_with_udid udid s) then send_event (Attached id) s else s)
  | Err err =>
      (Err err, match old_ndev with
                | Some (id, ndev) => set_connected (<[id := ndev]> (connected s)) s
                | None => s
                end)
  | Panic => (Panic, s)
  | Ub => (Ub, s)
  end.

(** Both, with nothing in between *)
Definition register_network (udid : string) (force : bool) (id : Z)
    (made : outcome RusbmuxError.t NetworkDevice) : stateful Daemon RusbmuxError.t () := λ s,
  match take_old udid force s with
  | (Some old_ndev, s) => put_new udid id made old_ndev s
  | (None, s) => (Ok (), s)
  end.

(** ** Specification *)

(** The ids of the devices clients are to see: all but the network devices whose
    [udid] is also connected by USB. *)
Definition visible (s : Daemon) : gset Z :=
  dom (filter (λ kv, is_shadowed kv.2 s = false) (connected s)).

(** What a client that started with the devices [v] knows after the events. *)
Definition apply_event (v : gset Z) (e : DeviceEvent) : gset Z :=
  match e with Attached id => {[id]} ∪ v | Detached id => v ∖ {[id]} end.

Definition view (v : gset Z) (es : list DeviceEvent) : gset Z := fold_left apply_event es v.

(** The ids of the USB devices, and of the network devices, with a [udid]. *)
Definition usb_ids (udid : string) (s : Daemon) : gset Z :=
  dom (filter (λ kv, (is_usb kv.2 && String.eqb (device_udid kv.2) udid) = true) (connected s)).

Definition network_ids (udid : string) (s : Daemon) : gset Z :=
  dom (filter (λ kv, (is_network kv.2 && String.eqb (device_udid kv.2) udid) = true) (connected s)).

(** Devices are under their own ids, and a [udid] is connected at most once by each
    means, but for network devices whose ids are in [D]. *)
Record registry_wf (D : gset Z) (s : Daemon) : Prop := {
  wf_id : ∀ id d, connected s !! id = Some d → device_id d = id;
  wf_usb : ∀ id1 id2 d1 d2, connected s !! id1 = Some (Usb d1) → connected s !! id2 = Some (Usb d2) →
    ud_udid d1 = ud_udid d2 → id1 = id2;
  wf_network : ∀ id1 id2 d1 d2, connected s !! id1 = Some (Network d1) →
    connected s !! id2 = Some (Network d2) → nd_udid d1 = nd_udid d2 → id1 = id2 ∨ id1 ∈ D;
}.

(** No device with this [udid] is connected by USB. *)
Definition no_usb (udid : string) (s : Daemon) : Prop :=
  ∀ id d, connected s !! id = Some (Usb d) → ud_udid d ≠ udid.

(** None is connected over the network. *)
Definition no_network (udid : string) (s : Daemon) : Prop :=
  ∀ id n, connected s !! id = Some (Network n) → nd_udid n ≠ udid.

(** The network watcher's events are about network devices, new ones have a fresh
    id. *)
Definition network_event_ok (e : NetworkEvent) (s : Daemon) : Prop :=
  match e with
  | NetworkConnected d => connected s !! nd_id d = None
  | NetworkDisconnected id => ∀ u, connected s !! id ≠ Some (Usb u)
  | NetworkError _ => True
  end.

(** The device that [add_device] made or took out, if it did. *)
Definition made_ok (udid : string) (id : Z) (made : outcome RusbmuxError.t NetworkDevice) (s : Daemon) : Prop :=
  ∀ d, made = Ok d → nd_id d = id ∧ nd_udid d = udid ∧ connected s !! id = None.

Definition old_ok (udid : string) (old : option (Z * Device)) (s : Daemon) : Prop :=
  ∀ id dev, old = Some (id, dev) →
    connected s !! id = None ∧ ∃ n, dev = Network n ∧ nd_id n = id ∧ nd_udid n = udid.

(** The ids about which [put_new] may leave clients wrong: it registers a [udid] for the
    second time, or puts a device back that clients have been told is gone and that no
    USB device hides. *)
Definition put_disturbs (udid : string) (id : Z) (made : outcome RusbmuxError.t NetworkDevice)
    (old : option (Z * Device)) (s : Daemon) : gset Z :=
  let twice (id : Z) := if decide (network_ids udid s = ∅) then ∅ else {[id]} ∪ network_ids udid s in
  match made, old with
  | Ok _, _ => twice id
  | Err _, Some (id, _) => twice id ∪ (if has_usb_with_udid udid s then ∅ else {[id]})
  | _, _ => ∅
  end.

(** The registry's transitions: what the watchers and [add_device] do, whenever they do
    it; a device has an id that is not in use.  With each go the ids it disturbs: clients
    may be wrong about those afterwards.  Three kinds of transition disturb an id: a USB
    device that connects again while its old entry is still there, an [add_device] that
    has taken the old device out and fails, and one that reaches its device when it has
    been added meanwhile ([usb_reconnect_ghost], [add_device_failure_hides],
    [add_device_race]). *)
Inductive registry_step : Daemon → gset Z → Daemon → Prop :=
| usb_connected s d :
    connected s !! ud_id d = None →
    registry_step s (usb_ids (ud_udid d) s) (watch_usb_daemon_turn (UsbConnected d (ud_id d)) s)
| usb_disconnected s id : registry_step s ∅ (watch_usb_daemon_turn (UsbDisconnected id) s)
| usb_error s e : registry_step s ∅ (watch_usb_daemon_turn (UsbError e) s)
| device_removed s id r s' : remove_device id s = (r, s') → registry_step s ∅ s'
| network_event s e r s' :
    network_event_ok e s → watch_network_daemon_turn e s = (r, s') → registry_step s ∅ s'
| network_taken s udid force old s' : take_old udid force s = (old, s') → registry_step s ∅ s'
| network_put s udid id made old r s' :
    made_ok udid id made s → old_ok udid old s → put_new udid id made old s = (r, s') →
    registry_step s (put_disturbs udid id made old s) s'.

(** Any number of them; all that they disturb. *)
Inductive registry_steps : Daemon → gset Z → Daemon → Prop :=
| steps_nil s : registry_steps s ∅ s
| steps_cons s X s1 Y s' : registry_step s X s1 → registry_steps s1 Y s' → registry_steps s (X ∪ Y) s'.

(** A client that knows [v] is right about every id but those in [D]. *)
Definition right_but (D v : gset Z) (s : Daemon) : Prop := ∀ id, id ∉ D → (id ∈ v ↔ id ∈ visible s).

(** ** Lemmas *)

(** The [udid] is connected by USB in [m]. *)
Definition usb_in (udid : string) (m : gmap Z Device) : Prop :=
  ∃ id d, m !! id = Some (Usb d) ∧ ud_udid d = udid.

Lemma any_device_spec f s :
  any_device f s = true ↔ ∃ id d, connected s !! id = Some d ∧ f d = true.
Proof.
  unfold any_device. rewrite existsb_exists. split.
  - intros ([id d] & Hin%list_elem_of_In & Hf). rewrite devices_in_order_perm in Hin.
    apply elem_of_map_to_list in Hin. eauto.
  - intros (id & d & Hd & Hf). exists (id, d). split; [|done]. apply list_elem_of_In.
    rewrite devices_in_order_perm. by apply elem_of_map_to_list.
Qed.

Lemma has_usb_spec udid s : has_usb_with_udid udid s = true ↔ usb_in udid (connected s).
Proof.
  unfold has_usb_with_udid. rewrite any_device_spec. split.
  - intros (id & [n|u] & Hd & Hf); [done|]. exists id, u. split; [done|]. by apply String.eqb_eq.
  - intros (id & u & Hd & <-). exists id, (Usb u). split; [done|]. apply String.eqb_refl.
Qed.

Lemma has_network_spec udid s : has_network_with_udid udid s = true ↔
  ∃ id n, connected s !! id = Some (Network n) ∧ nd_udid n = udid.
Proof.
  unfold has_network_with_udid. rewrite any_device_spec. split.
  - intros (id & [n|u] & Hd & Hf); [|done]. exists id, n. split; [done|]. by apply String.eqb_eq.
  - intros (id & n & Hd & <-). exists id, (Network n). split; [done|]. apply String.eqb_refl.
Qed.

Lemma usb_in_network udid id n m : usb_in udid (<[id := Network n]> m) → usb_in udid m.
Proof. intros (i & u & [[_ [=]]|[_ Hi]]%lookup_insert_Some & Hu). by exists i, u. Qed.

Lemma is_shadowed_spec d s : is_shadowed d s = true ↔
  ∃ n, d = Network n ∧ usb_in (nd_udid n) (connected s).
Proof.
  unfold is_shadowed. destruct d as [n|u]; simpl; [|naive_solver].
  rewrite has_usb_spec. naive_solver.
Qed.

Lemma elem_of_visible id s : id ∈ visible s ↔
  ∃ d, connected s !! id = Some d ∧ ∀ n, d = Network n → ¬ usb_in (nd_udid n) (connected s).
Proof.
  unfold visible. rewrite elem_of_dom. unfold is_Some. setoid_rewrite map_lookup_filter_Some. simpl.
  split; intros (d & Hd & Hs); exists d; (split; [done|]).
  - intros n -> Hu. assert (is_shadowed (Network n) s = true) by (apply is_shadowed_spec; eauto).
    congruence.
  - apply not_true_is_false. intros (n & -> & Hu)%is_shadowed_spec. by eapply Hs.
Qed.

(** [find] gives the one network device with the [udid], if there is one. *)
Lemma find_network_spec D udid s : registry_wf D s →
  (∃ id n, find_network_id_by_udid udid s = Some id ∧ connected s !! id = Some (Network n) ∧
     nd_udid n = udid) ∨
  (find_network_id_by_udid udid s = None ∧
     ∀ id n, connected s !! id = Some (Network n) → nd_udid n ≠ udid).
Proof.
  intros Hwf. unfold find_network_id_by_udid. destruct (find _ _) as [d|] eqn:E; simpl; [left|right].
  - apply find_some in E as [Hin%list_elem_of_In Hf].
    apply list_elem_of_fmap in Hin as ([id d'] & -> & Hin). rewrite devices_in_order_perm in Hin.
    apply elem_of_map_to_list in Hin. cbn in *. destruct d' as [n|u]; [|done].
    apply (wf_id _ _ Hwf) in Hin as Hid. exists id, n. rewrite <- Hid at 1. split_and!; try done.
    by apply String.eqb_eq.
  - split; [done|]. intros id n Hd Hu.
    assert (In (Network n) (devices_in_order (connected s)).*2) as Hin.
    { apply list_elem_of_In, list_elem_of_fmap. exists (id, Network n). split; [done|].
      rewrite devices_in_order_perm. by apply elem_of_map_to_list. }
    apply (find_none _ _ E) in Hin. cbn in Hin. subst. by rewrite String.eqb_refl in Hin.
Qed.

Lemma device_shutdown_same d :
  device_id (device_shutdown d) = device_id d ∧ device_udid (device_shutdown d) = device_udid d ∧
  connection_type (device_shutdown d) = connection_type d.
Proof.
  destruct d as [n|u]; [done|]. simpl. unfold shutdown, st_bind, modify_device, close_all, close_all_with.
  destruct (taken_conns (cancel u)) as [cs r]. destruct (rst_each _ _ _ _) as [[e|] l]; done.
Qed.

(** ** Each operation, in terms of what it shows *)

(** What a transition owes: the invariant, and events that turn what was visible
    into what is visible, [D] apart. *)
Definition tells (D : gset Z) (s s' : Daemon) : Prop :=
  registry_wf D s' ∧ ∃ es, events s' = events s ++ es ∧ right_but D (view (visible s) es) s'.

Lemma registry_wf_mono D D' s : D ⊆ D' → registry_wf D s → registry_wf D' s.
Proof.
  intros HD [H1 H2 H3]. split; [done..|]. intros i1 i2 d1 d2 E1 E2 E.
  destruct (H3 _ _ _ _ E1 E2 E) as [?|?]; [by left|right; set_solver].
Qed.

Lemma tells_same D s s' :
  registry_wf D s → connected s' = connected s → events s' = events s → tells D s s'.
Proof.
  intros Hwf Hc He. split.
  - destruct Hwf. split; by rewrite Hc.
  - exists []. rewrite app_nil_r. split; [done|]. intros x _.
    unfold view. cbn [fold_left]. by rewrite !elem_of_visible, Hc.
Qed.

Lemma registry_wf_delete D id es s :
  registry_wf D s → registry_wf D (MkDaemon (delete id (connected s)) es).
Proof.
  intros [Hi Hu Hn]. split; simpl; intros *; rewrite !lookup_delete_Some; naive_solver.
Qed.

Lemma elem_of_network_ids udid s id :
  id ∈ network_ids udid s ↔ ∃ n, connected s !! id = Some (Network n) ∧ nd_udid n = udid.
Proof.
  unfold network_ids. rewrite elem_of_dom. unfold is_Some. setoid_rewrite map_lookup_filter_Some. cbn. split.
  - intros ([n|u] & Hd & Hu); [|done]. exists n. by split; [|apply String.eqb_eq].
  - intros (n & Hd & <-). exists (Network n). split; [done|]. apply String.eqb_refl.
Qed.

Lemma elem_of_usb_ids udid s id :
  id ∈ usb_ids udid s ↔ ∃ u, connected s !! id = Some (Usb u) ∧ ud_udid u = udid.
Proof.
  unfold usb_ids. rewrite elem_of_dom. unfold is_Some. setoid_rewrite map_lookup_filter_Some. cbn. split.
  - intros ([n|u] & Hd & Hu); [done|]. exists u. by split; [|apply String.eqb_eq].
  - intros (u & Hd & <-). exists (Usb u). split; [done|]. apply String.eqb_refl.
Qed.

(** A USB device may be inserted when none has its [udid]; a network device, when the
    others with its [udid] and itself are in [D]. *)
Lemma registry_wf_insert_usb D u es s :
  registry_wf D s → no_usb (ud_udid u) s → registry_wf D (MkDaemon (<[ud_id u := Usb u]> (connected s)) es).
Proof.
  intros [Hi Hu Hn] Hno. split; simpl; intros *; rewrite !lookup_insert_Some; [naive_solver| |naive_solver].
  intros [[<- [= <-]]|[Hne1 E1]] [[<- [= <-]]|[Hne2 E2]] E; [done|..].
  - by destruct (Hno _ _ E2).
  - by destruct (Hno _ _ E1).
  - by eapply Hu.
Qed.

Lemma registry_wf_insert_network D n es s :
  registry_wf D s → (no_network (nd_udid n) s ∨ {[nd_id n]} ∪ network_ids (nd_udid n) s ⊆ D) →
  registry_wf D (MkDaemon (<[nd_id n := Network n]> (connected s)) es).
Proof.
  intros [Hi Hu Hn] Hno. split; simpl; intros *; rewrite !lookup_insert_Some; [naive_solver..|].
  intros [[<- [= <-]]|[Hne1 E1]] [[<- [= <-]]|[Hne2 E2]] E; [by left|..].
  - destruct Hno as [Hno|HD]; [by destruct (Hno _ _ E2)|right; set_solver].
  - destruct Hno as [Hno|HD]; [by destruct (Hno _ _ E1)|right]. apply HD, elem_of_union. right.
    apply elem_of_network_ids. eauto.
  - by eapply Hn.
Qed.

Lemma usb_in_delete udid id m :
  usb_in udid (delete id m) ↔ ∃ i u, i ≠ id ∧ m !! i = Some (Usb u) ∧ ud_udid u = udid.
Proof.
  unfold usb_in. split.
  - intros (i & u & [Hne Hi]%lookup_delete_Some & Hu). eauto 10.
  - intros (i & u & Hne & Hi & Hu). exists i, u. by rewrite lookup_delete_ne.
Qed.

Lemma usb_in_insert udid id d m : m !! id = None →
  usb_in udid (<[id := d]> m) ↔ usb_in udid m ∨ ∃ u, d = Usb u ∧ ud_udid u = udid.
Proof.
  intros Hid. unfold usb_in. split.
  - intros (i & u & [[<- ->]|[Hne Hi]]%lookup_insert_Some & Hu); eauto 10.
  - intros [(i & u & Hi & Hu)|(u & -> & Hu)].
    + exists i, u. rewrite lookup_insert_ne; [done|]. intros ->. congruence.
    + exists id, u. by rewrite lookup_insert_eq.
Qed.

(** A network device goes: it was either hidden, or its removal is announced. *)
Lemma network_gone D s id n :
  registry_wf D s → connected s !! id = Some (Network n) →
  let m := delete id (connected s) in
  tells D s (MkDaemon m (events s ++ if has_usb_with_udid (nd_udid n) (MkDaemon m (events s))
                                     then [] else [Detached id])).
Proof.
  intros Hwf Hid m. split; [by apply registry_wf_delete|].
  assert (Hus : ∀ u, usb_in u m ↔ usb_in u (connected s)).
  { intros u. unfold m. rewrite usb_in_delete. unfold usb_in. split; [naive_solver|].
    intros (i & d & Hi & Hu). exists i, d. split; [|done]. congruence. }
  eexists. split; [done|]. intros x _.
  pose proof (has_usb_spec (nd_udid n) (MkDaemon m (events s))) as Hh. cbn [connected] in Hh.
  rewrite elem_of_visible. cbn [connected]. setoid_rewrite Hus.
  destruct (has_usb_with_udid _ _); cbn [view fold_left apply_event];
    rewrite ?elem_of_difference, ?elem_of_singleton, elem_of_visible; unfold m;
    setoid_rewrite lookup_delete_Some.
  - assert (usb_in (nd_udid n) (connected s)) by (apply Hus; by apply Hh).
    split; intros (d & Hd & Hs); exists d; [|naive_solver].
    split; [|done]. split; [|done]. intros <-. naive_solver.
  - naive_solver.
Qed.

(** A network device comes. *)
Lemma network_comes D s n :
  registry_wf D s → connected s !! nd_id n = None →
  (no_network (nd_udid n) s ∨ {[nd_id n]} ∪ network_ids (nd_udid n) s ⊆ D) →
  let m := <[nd_id n := Network n]> (connected s) in
  tells D s (MkDaemon m (events s ++ if has_usb_with_udid (nd_udid n) (MkDaemon m (events s))
                                     then [] else [Attached (nd_id n)])).
Proof.
  intros Hwf Hid Hn m. split; [by apply registry_wf_insert_network|].
  assert (Hus : ∀ u, usb_in u m ↔ usb_in u (connected s)).
  { intros u. unfold m. rewrite usb_in_insert by done. naive_solver. }
  eexists. split; [done|]. intros x Hx.
  pose proof (has_usb_spec (nd_udid n) (MkDaemon m (events s))) as Hh. cbn [connected] in Hh.
  rewrite elem_of_visible. cbn [connected]. setoid_rewrite Hus. rewrite Hus in Hh.
  destruct (has_usb_with_udid _ _); cbn [view fold_left apply_event];
    rewrite ?elem_of_union, ?elem_of_singleton, elem_of_visible; unfold m.
  - split; intros (d & Hd & Hs); exists d.
    + split; [|done]. rewrite lookup_insert_ne; [done|]. intros <-. congruence.
    + apply lookup_insert_Some in Hd as [[<- <-]|[_ Hd]]; [|done].
      exfalso. apply (Hs n); [done|]. by apply Hh.
  - split.
    + intros [->|(d & Hd & Hs)].
      * exists (Network n). rewrite lookup_insert_eq. split; [done|]. intros ? [= <-] Hu.
        by apply Hh in Hu.
      * exists d. split; [|done]. rewrite lookup_insert_ne; [done|]. intros <-. congruence.
    + intros (d & [[<- <-]|[_ Hd]]%lookup_insert_Some & Hs); [by left|right]. eauto.
Qed.

(** A USB device goes: the network device behind it shows up, if there is one. *)
Lemma usb_gone D s id u :
  registry_wf D s → connected s !! id = Some (Usb u) →
  let s1 := set_connected (delete id (connected s)) s in
  tells D s (MkDaemon (delete id (connected s))
    (events s ++ match find_network_id_by_udid (ud_udid u) s1 with
                 | Some nid => [Attached nid] | None => [] end ++ [Detached id])).
Proof.
  intros Hwf Hid s1. assert (Hwf1 : registry_wf D s1) by by apply registry_wf_delete.
  split; [by apply registry_wf_delete|].
  eexists. split; [done|]. intros x HxD. unfold view. rewrite fold_left_app.
  cbn [fold_left apply_event]. rewrite elem_of_difference, elem_of_singleton, elem_of_visible.
  cbn [connected]. setoid_rewrite usb_in_delete.
  assert (Hfold : x ∈ fold_left apply_event match find_network_id_by_udid (ud_udid u) s1 with
      | Some nid => [Attached nid] | None => [] end (visible s)
    ↔ x ∈ visible s ∨ find_network_id_by_udid (ud_udid u) s1 = Some x).
  { destruct (find_network_id_by_udid (ud_udid u) s1) as [nid|]; cbn [fold_left apply_event];
      [set_solver|naive_solver]. }
  rewrite Hfold, elem_of_visible. clear Hfold.
  setoid_rewrite lookup_delete_Some.
  destruct (find_network_spec D (ud_udid u) s1 Hwf1) as [(nid & n & -> & Hn & Hu)|[-> Hno]].
  - change (connected s1) with (delete id (connected s)) in Hn.
    apply lookup_delete_Some in Hn as [Hne Hn]. split.
    + intros [[(d & Hd & Hs)|[= <-]] Hx].
      * exists d. split; [done|]. intros n' -> (i & u' & _ & Hi & Hu'). eapply Hs; [done|].
        by exists i, u'.
      * exists (Network n). split; [done|]. intros n' [= <-] (i & u' & Hi & Hu' & E).
        apply Hi. eapply (wf_usb _ _ Hwf); [done..|]. congruence.
    + intros (d & [Hx Hd] & Hs). split; [|done].
      destruct (decide (x = nid)) as [->|Hxn]; [by right|left]. exists d. split; [done|].
      intros n' -> (i & u' & Hi & Hu'). destruct (decide (i = id)) as [->|Hii].
      * rewrite Hid in Hi. simplify_eq.
        destruct (wf_network _ _ Hwf _ _ _ _ Hd Hn) as [?|?]; [congruence|done..].
      * eapply Hs; [done|]. exists i, u'. done.
  - split.
    + intros [[(d & Hd & Hs)|?] Hx]; [|done]. exists d. split; [done|].
      intros n' -> (i & u' & _ & Hi & Hu'). eapply Hs; [done|]. by exists i, u'.
    + intros (d & [Hx Hd] & Hs). split; [|done]. left. exists d. split; [done|].
      intros n' -> (i & u' & Hi & Hu'). destruct (decide (i = id)) as [->|Hii].
      * rewrite Hid in Hi. simplify_eq. eapply (Hno x n'); [|done].
        change (connected s1) with (delete id (connected s)). by apply lookup_delete_Some.
      * eapply Hs; [done|]. by exists i, u'.
Qed.

(** A USB device comes: the network device behind it is hidden, if there is one, and so
    is an old entry of its own. *)
Definition without_usb (udid : string) (s : Daemon) : gmap Z Device :=
  filter (λ kv, (is_network kv.2 || negb (String.eqb (device_udid kv.2) udid)) = true) (connected s).

Lemma lookup_without_usb udid s i d : without_usb udid s !! i = Some d ↔
  connected s !! i = Some d ∧ ∀ u, d = Usb u → ud_udid u ≠ udid.
Proof.
  unfold without_usb. rewrite map_lookup_filter_Some. cbn. split; intros [Hd Hf]; split; try done.
  - intros u ->. cbn in Hf. by apply negb_true_iff, String.eqb_neq in Hf.
  - destruct d as [n|u]; [done|]. cbn. apply negb_true_iff, String.eqb_neq. by apply Hf.
Qed.

Lemma registry_wf_without D udid es s :
  registry_wf D s → registry_wf D (MkDaemon (without_usb udid s) es).
Proof.
  intros [Hi Hu Hn]. split; cbn [connected]; intros *; rewrite !lookup_without_usb; naive_solver.
Qed.

(** What is visible then. *)
Lemma visible_usb_comes D s u es x :
  registry_wf D s → connected s !! ud_id u = None → x ∉ D → x ∉ usb_ids (ud_udid u) s →
  x ∈ visible (MkDaemon (<[ud_id u := Usb u]> (without_usb (ud_udid u) s)) es) ↔
  x = ud_id u ∨ (x ∈ visible s ∧ find_network_id_by_udid (ud_udid u) s ≠ Some x).
Proof.
  intros Hwf Hid HD Hst. rewrite !elem_of_visible. cbn [connected].
  assert (Hus : ∀ v, usb_in v (<[ud_id u := Usb u]> (without_usb (ud_udid u) s)) ↔
    usb_in v (connected s) ∨ v = ud_udid u).
  { assert (without_usb (ud_udid u) s !! ud_id u = None) as Hn.
    { destruct (without_usb _ _ !! _) as [d|] eqn:E; [|done]. apply lookup_without_usb in E as [E _]. congruence. }
    intros v. rewrite usb_in_insert by done. unfold usb_in. setoid_rewrite lookup_without_usb.
    split; [naive_solver|]. intros [(i & d & Hi & Hd)| ->]; [|naive_solver].
    destruct (decide (v = ud_udid u)) as [->|Hv]; [naive_solver|]. left. exists i, d. naive_solver. }
  setoid_rewrite Hus. split.
  - intros (d & [[<- <-]|[Hne [Hd Hnu]%lookup_without_usb]]%lookup_insert_Some & Hs); [by left|right]. split.
    + exists d. split; [done|]. intros n -> Hu. eapply Hs; [done|]. by left.
    + intros E. destruct (find_network_spec D (ud_udid u) s Hwf) as [(nid & n' & E' & Hn & Hu')|[E' _]];
        rewrite E in E'; simplify_eq. eapply Hs; [done|]. by right.
  - intros [->|[(d & Hd & Hs) Hx]].
    + exists (Usb u). by rewrite lookup_insert_eq.
    + exists d. rewrite lookup_insert_ne by congruence. split.
      * apply lookup_without_usb. split; [done|]. intros v -> E. apply Hst, elem_of_usb_ids. eauto.
      * intros n -> [Hu|Hu]; [by eapply Hs|]. apply Hx.
        destruct (find_network_spec D (ud_udid u) s Hwf) as [(nid & n' & E & Hn & Hu')|[_ Hnone]];
          [|by exfalso; eapply Hnone].
        rewrite E. f_equal. destruct (wf_network _ _ Hwf _ _ _ _ Hd Hn) as [?|?]; [congruence|done..].
Qed.

Lemma usb_comes D s u :
  registry_wf D s → connected s !! ud_id u = None →
  tells (D ∪ usb_ids (ud_udid u) s) s (MkDaemon (<[ud_id u := Usb u]> (without_usb (ud_udid u) s))
    (events s ++ match find_network_id_by_udid (ud_udid u) s with
                 | Some nid => [Detached nid] | None => [] end ++ [Attached (ud_id u)])).
Proof.
  intros Hwf Hid. split.
  { apply (registry_wf_insert_usb _ _ _ (MkDaemon (without_usb (ud_udid u) s) (events s))).
    - apply registry_wf_without. by eapply registry_wf_mono; [apply union_subseteq_l|].
    - intros i d [_ H]%lookup_without_usb. by apply H. }
  eexists. split; [done|]. intros x [HD Hst]%not_elem_of_union. unfold view. rewrite fold_left_app.
  cbn [fold_left apply_event]. rewrite elem_of_union, elem_of_singleton.
  rewrite (visible_usb_comes D) by done.
  destruct (find_network_id_by_udid (ud_udid u) s) as [nid|]; cbn [fold_left apply_event]; set_solver.
Qed.

Lemma remove_device_tells D id s r s' :
  registry_wf D s → remove_device id s = (r, s') → tells D s s'.
Proof.
  intros Hwf H. unfold remove_device in H.
  destruct (connected s !! id) as [d|] eqn:Hd; [|simplify_eq; by apply tells_same].
  destruct (device_shutdown_same d) as (Ei & Eu & Et). rewrite Eu, Ei, Et in H.
  destruct d as [n|u]; cbn [connection_type device_udid device_id] in H.
  - pose proof (network_gone D s id n Hwf Hd) as Ht. cbn zeta in Ht.
    unfold set_connected in H. rewrite (wf_id _ _ Hwf _ _ Hd : nd_id n = id) in H.
    destruct (has_usb_with_udid _ _); simplify_eq; [rewrite app_nil_r in Ht|]; exact Ht.
  - pose proof (usb_gone D s id u Hwf Hd) as Ht. cbn zeta in Ht. simplify_eq.
    destruct (find_network_id_by_udid _ _) as [nid|]; unfold send_event in *; cbn in *;
      rewrite <- ?app_assoc in *; exact Ht.
Qed.

Lemma network_event_tells D e s r s' :
  registry_wf D s → network_event_ok e s →
  watch_network_daemon_turn e s = (r, s') → tells D s s'.
Proof.
  intros Hwf Hok H. destruct e as [n|id|err]; cbn in H, Hok.
  - destruct (has_network_with_udid (nd_udid n) s) eqn:Eh; [simplify_eq; by apply tells_same|].
    assert (Hn : no_network (nd_udid n) s).
    { intros i n' Hi E. apply not_true_iff_false in Eh. apply Eh, has_network_spec. eauto. }
    pose proof (network_comes D s n Hwf Hok (or_introl Hn)) as Ht. cbn zeta in Ht.
    unfold set_connected, send_event in H.
    destruct (has_usb_with_udid _ _); simplify_eq/=; [rewrite app_nil_r in Ht|]; exact Ht.
  - destruct (connected s !! id) as [d|] eqn:Hd; [|simplify_eq; by apply tells_same].
    destruct (device_shutdown_same d) as (Ei & Eu & Et). rewrite Eu in H.
    destruct d as [n|u]; [|by destruct (Hok u)]. cbn [device_udid] in H.
    pose proof (network_gone D s id n Hwf Hd) as Ht. cbn zeta in Ht.
    unfold set_connected, send_event in H.
    destruct (has_usb_with_udid _ _); simplify_eq/=; [rewrite app_nil_r in Ht|]; exact Ht.
  - destruct err; simplify_eq; by apply tells_same.
Qed.

Lemma usb_connected_tells D s d :
  registry_wf D s → connected s !! ud_id d = None →
  tells (D ∪ usb_ids (ud_udid d) s) s (watch_usb_daemon_turn (UsbConnected d (ud_id d)) s).
Proof.
  intros Hwf Hid. pose proof (usb_comes D s d Hwf Hid) as Ht.
  cbn [watch_usb_daemon_turn].
  destruct (find_network_id_by_udid _ _) as [nid|]; unfold send_event, set_connected; cbn;
    rewrite <- ?app_assoc; exact Ht.
Qed.

Lemma take_old_tells D s udid force old s' :
  registry_wf D s → take_old udid force s = (old, s') → tells D s s'.
Proof.
  intros Hwf H. unfold take_old in H.
  destruct (find_network_spec D udid s Hwf) as [(nid & n & E & Hn & Hu)|[E Hno]]; rewrite E in H;
    [|simplify_eq; by apply tells_same].
  destruct force; cbn [negb] in H; [|simplify_eq; by apply tells_same]. injection H as _ <-.
  split; [by apply registry_wf_delete|].
  exists [Detached nid]. split; [done|]. intros x _. unfold view. cbn [fold_left apply_event].
  rewrite elem_of_difference, elem_of_singleton, !elem_of_visible. cbn [connected set_connected send_event].
  assert (Hus : ∀ u, usb_in u (delete nid (connected s)) ↔ usb_in u (connected s)).
  { intros u. rewrite usb_in_delete. unfold usb_in. split; [naive_solver|].
    intros (i & d' & Hi & Hu'). exists i, d'. split; [|done]. congruence. }
  setoid_rewrite Hus. setoid_rewrite lookup_delete_Some. naive_solver.
Qed.

(** What is registered a second time is disturbed. *)
Lemma network_ids_empty udid s : network_ids udid s = ∅ → no_network udid s.
Proof. intros E i n Hi Hu. assert (i ∈ network_ids udid s) by (apply elem_of_network_ids; eauto). set_solver. Qed.

(** A device is put back without an event. *)
Lemma network_restored D s n :
  registry_wf D s → connected s !! nd_id n = None →
  (no_network (nd_udid n) s ∨ {[nd_id n]} ∪ network_ids (nd_udid n) s ⊆ D) →
  (if has_usb_with_udid (nd_udid n) s then True else nd_id n ∈ D) →
  tells D s (MkDaemon (<[nd_id n := Network n]> (connected s)) (events s)).
Proof.
  intros Hwf Hid Hn Hus. split; [by apply registry_wf_insert_network|].
  exists []. rewrite app_nil_r. split; [done|]. intros x Hx. unfold view. cbn [fold_left].
  rewrite !elem_of_visible. cbn [connected].
  assert (Hu : ∀ u, usb_in u (<[nd_id n := Network n]> (connected s)) ↔ usb_in u (connected s))
    by (intros u; rewrite usb_in_insert by done; naive_solver).
  setoid_rewrite Hu. split; intros (d & Hd & Hs).
  - exists d. rewrite lookup_insert_ne; [done|]. intros <-. congruence.
  - apply lookup_insert_Some in Hd as [[<- <-]|[_ Hd]]; [|by exists d].
    destruct (has_usb_with_udid _ _) eqn:E; [|done]. apply has_usb_spec in E. by destruct (Hs n).
Qed.

Lemma put_new_tells D s udid id made old r s' :
  registry_wf D s → made_ok udid id made s → old_ok udid old s → put_new udid id made old s = (r, s') →
  tells (D ∪ put_disturbs udid id made old s) s s'.
Proof.
  intros Hwf Hmade Hold H.
  assert (Hwf' : ∀ X, registry_wf (D ∪ X) s) by (intros X; by eapply registry_wf_mono; [apply union_subseteq_l|]).
  assert (Htwice : ∀ i X, (if decide (network_ids udid s = ∅) then ∅ else {[i]} ∪ network_ids udid s) ⊆ X →
    no_network udid s ∨ {[i]} ∪ network_ids udid s ⊆ X).
  { intros i X HX. destruct (decide _) as [E|E]; [left; by apply network_ids_empty|by right]. }
  destruct made as [d|e| |]; cbn [put_new put_disturbs] in *; [| |injection H as _ <-; by apply tells_same..].
  - destruct (Hmade d eq_refl) as (<- & <- & Hid).
    pose proof (network_comes _ s d (Hwf' _) Hid (Htwice (nd_id d) _ (union_subseteq_r _ _))) as Ht. cbn zeta in Ht.
    unfold put_new, set_connected, send_event in H.
    destruct (has_usb_with_udid _ _); simplify_eq/=; [rewrite app_nil_r in Ht|]; exact Ht.
  - destruct old as [[nid dev]|]; [|injection H as _ <-; by apply tells_same].
    destruct (Hold _ _ eq_refl) as (Hid & n & -> & <- & <-). injection H as _ <-.
    apply network_restored; [done..| |].
    + apply Htwice. set_solver.
    + destruct (has_usb_with_udid _ _); [done|]. set_solver.
Qed.

Lemma registry_step_tells D X s s' : registry_wf D s → registry_step s X s' → tells (D ∪ X) s s'.
Proof.
  intros Hwf H. destruct H; rewrite ?(right_id_L ∅ (∪)).
  - by apply usb_connected_tells.
  - cbn. destruct (remove_device id s) as [r s'] eqn:E. by eapply remove_device_tells.
  - by apply tells_same.
  - by eapply remove_device_tells.
  - by eapply network_event_tells.
  - by eapply take_old_tells.
  - by eapply put_new_tells.
Qed.

(** Membership after events depends on membership before only. *)
Lemma view_local v v' es x : (x ∈ v ↔ x ∈ v') → x ∈ view v es ↔ x ∈ view v' es.
Proof.
  revert v v'. induction es as [|[id|id] es IH]; intros v v' H; [done|..];
    apply (IH ({[id]} ∪ v) ({[id]} ∪ v')) || apply (IH (v ∖ {[id]}) (v' ∖ {[id]})); set_solver.
Qed.

Lemma view_app v es es' : view v (es ++ es') = view (view v es) es'.
Proof. apply fold_left_app. Qed.

Lemma tells_trans D D' s1 s2 s3 : D ⊆ D' → tells D s1 s2 → tells D' s2 s3 → tells D' s1 s3.
Proof.
  intros HD (_ & es1 & He1 & Hv1) (Hwf & es2 & He2 & Hv2). split; [done|]. exists (es1 ++ es2).
  split; [by rewrite He2, He1, app_assoc|]. intros x Hx. rewrite view_app, <- (Hv2 x Hx).
  apply view_local, Hv1. set_solver.
Qed.

Lemma registry_steps_tell D X s s' : registry_wf D s → registry_steps s X s' → tells (D ∪ X) s s'.
Proof.
  intros Hwf H. revert D Hwf. induction H as [s|s X s1 Y s' H1 _ IH]; intros D Hwf.
  { rewrite (right_id_L ∅ (∪)). by apply tells_same. }
  pose proof (registry_step_tells _ _ _ _ Hwf H1) as Ht. rewrite (assoc_L (∪)).
  eapply tells_trans; [apply union_subseteq_l|exact Ht|]. apply IH, Ht.
Qed.

Lemma registry_steps_app s X s1 Y s' : registry_steps s X s1 → registry_steps s1 Y s' → registry_steps s (X ∪ Y) s'.
Proof.
  induction 1 as [s|s X s1 Z s2 H1 _ IH]; intros H; [by rewrite (left_id_L ∅ (∪))|].
  rewrite <- (assoc_L (∪)). eapply steps_cons; [done|by apply IH].
Qed.

Lemma registry_steps_once s X s' : registry_step s X s' → registry_steps s X s'.
Proof. intros H. rewrite <- (right_id_L ∅ (∪) X). eapply steps_cons; [done|constructor]. Qed.

(** Events that name an id decide about it; the others leave it alone. *)
Definition names (id : Z) (e : DeviceEvent) : Prop := match e with Attached i | Detached i => i = id end.

#[export] Instance names_dec id e : Decision (names id e).
Proof. destruct e; cbn; apply _. Defined.

Lemma view_unnamed x v es : ¬ Exists (names x) es → x ∈ view v es ↔ x ∈ v.
Proof.
  revert v. induction es as [|e es IH]; intros v Hx; [done|]. rewrite Exists_cons in Hx.
  change (view v (e :: es)) with (view (apply_event v e) es). rewrite IH by tauto.
  destruct e as [i|i]; cbn in *; set_solver.
Qed.

Lemma view_named x v v' es : Exists (names x) es → x ∈ view v es ↔ x ∈ view v' es.
Proof.
  intros H. revert v v'. induction H as [e es He|e es _ IH]; intros v v'; [|by apply IH].
  apply (view_local (apply_event v e) (apply_event v' e)). destruct e as [i|i]; cbn in *; subst i;
    unfold apply_event; rewrite ?elem_of_union, ?elem_of_difference, ?elem_of_singleton; tauto.
Qed.

(** ** Properties *)

(** C4.  The hotplug events keep clients exact: whatever the watchers and
    [add_device] do to a registry, a client that was right about the visible devices and
    applies the events is right about the devices that are visible now, but for the ids
    that the run disturbed; when it disturbed none, the client knows exactly the visible
    devices.  The registry stays well formed: ids are their devices', a [udid] is
    connected at most once by USB, and by the network but for disturbed ids. *)
Theorem registry_steps_view D s X s' :
  registry_wf D s → registry_steps s X s' →
  registry_wf (D ∪ X) s' ∧ ∃ es, events s' = events s ++ es ∧
    (∀ v, right_but D v s → right_but (D ∪ X) (view v es) s') ∧
    (D ∪ X = ∅ → view (visible s) es = visible s').
Proof.
  intros Hwf H. destruct (registry_steps_tell _ _ _ _ Hwf H) as (Hwf' & es & He & Hv).
  split; [done|]. exists es. split_and!; [done| |].
  - intros v Hr x Hx. rewrite <- (Hv x Hx). apply view_local, Hr. set_solver.
  - intros E. apply set_eq. intros x. apply Hv. set_solver.
Qed.

(** Of the devices with one [udid] at most one is visible, the USB one if there
    is one, and a [udid] that is connected at all is visible. *)
Theorem visible_dedup s :
  registry_wf ∅ s →
  (∀ id1 id2 d1 d2, id1 ∈ visible s → id2 ∈ visible s → connected s !! id1 = Some d1 →
     connected s !! id2 = Some d2 → device_udid d1 = device_udid d2 → id1 = id2) ∧
  (∀ id u, connected s !! id = Some (Usb u) → id ∈ visible s) ∧
  (∀ id d, connected s !! id = Some d → ∃ id' d', id' ∈ visible s ∧
     connected s !! id' = Some d' ∧ device_udid d' = device_udid d).
Proof.
  intros Hwf. split_and!.
  - intros id1 id2 d1 d2 (d1' & H1 & V1)%elem_of_visible (d2' & H2 & V2)%elem_of_visible E1 E2 Hu.
    rewrite E1 in H1. rewrite E2 in H2. injection H1 as <-. injection H2 as <-.
    destruct d1 as [n1|u1], d2 as [n2|u2]; cbn in Hu.
    + by destruct (wf_network _ _ Hwf _ _ _ _ E1 E2 Hu).
    + exfalso. eapply V1; [done|]. exists id2, u2. done.
    + exfalso. eapply V2; [done|]. exists id1, u1. done.
    + by eapply (wf_usb _ _ Hwf).
  - intros id u Hu. apply elem_of_visible. exists (Usb u). split; [done|]. by intros.
  - intros id d Hd. destruct (is_shadowed d s) eqn:Es.
    + apply is_shadowed_spec in Es as (n & -> & i & u & Hi & Hu). exists i, (Usb u).
      split_and!; [|done|done]. apply elem_of_visible. exists (Usb u). split; [done|]. by intros.
    + exists id, d. split_and!; [|done|done]. apply elem_of_visible. exists d. split; [done|].
      intros n -> Hu. apply not_true_iff_false in Es. apply Es, is_shadowed_spec. eauto.
Qed.

(** When a USB device connects again while its old entry is still
    registered, the old entry is removed without a [Detached] event: a client
    that knew the visible devices keeps a device id that no longer exists. *)
Theorem usb_reconnect_ghost s d i old :
  registry_wf ∅ s → connected s !! i = Some (Usb old) → ud_udid old = ud_udid d → i ≠ ud_id d →
  let s' := watch_usb_daemon_turn (UsbConnected d (ud_id d)) s in
  connected s' !! i = None ∧ ∃ es, events s' = events s ++ es ∧ i ∈ view (visible s) es.
Proof.
  intros Hwf Hi Hu Hne s'.
  assert (Hvis : i ∈ visible s).
  { apply elem_of_visible. exists (Usb old). split; [done|]. by intros. }
  assert (Hnf : find_network_id_by_udid (ud_udid d) s ≠ Some i).
  { destruct (find_network_spec ∅ (ud_udid d) s Hwf) as [(nid & n & -> & Hn & _)|[-> _]]; [|done].
    intros [= <-]. congruence. }
  subst s'. cbn [watch_usb_daemon_turn].
  destruct (find_network_id_by_udid (ud_udid d) s) as [nid|]; cbn; split.
  1,3: rewrite lookup_insert_ne by done; apply map_lookup_filter_None; right; intros x Hx;
    rewrite Hi in Hx; simplify_eq; cbn; by rewrite Hu, String.eqb_refl.
  - exists [Detached nid; Attached (ud_id d)]. rewrite <- app_assoc. split; [done|].
    cbn. assert (i ≠ nid) by congruence. set_solver.
  - exists [Attached (ud_id d)]. split; [done|]. cbn. set_solver.
Qed.

(** When a forced [add_device] fails to reach the device, the old device is
    put back but the [Detached] event has gone out and no [Attached] follows: a
    device that is connected and visible is gone for every client that listens. *)
Theorem add_device_failure_hides s udid id e nid :
  registry_wf ∅ s → find_network_id_by_udid udid s = Some nid → nid ∈ visible s →
  ∃ s' es, register_network udid true id (Err e) s = (Err e, s') ∧
    connected s' = connected s ∧ nid ∈ visible s' ∧
    events s' = events s ++ es ∧ nid ∉ view (visible s) es.
Proof.
  intros Hwf Hf Hv. destruct (find_network_spec ∅ udid s Hwf) as [(nid' & n & E & Hn & _)|[E _]];
    rewrite Hf in E; simplify_eq.
  eexists _, [Detached nid']. unfold register_network, take_old, put_new. rewrite Hf. cbn. rewrite Hn. cbn.
  assert (Hm : <[nid' := Network n]> (delete nid' (connected s)) = connected s)
    by by apply insert_delete_id.
  split; [done|]. cbn. split_and!; try done.
  - rewrite elem_of_visible in *. cbn. by rewrite Hm.
  - unfold view. cbn. set_solver.
Qed.

(** Two requests that add the same device, the second one before the first has reached
    it: both are registered and clients see the device twice. *)
Theorem add_device_race s udid force1 force2 d1 d2 :
  registry_wf ∅ s → no_network udid s → no_usb udid s →
  nd_udid d1 = udid → nd_udid d2 = udid → nd_id d1 ≠ nd_id d2 →
  connected s !! nd_id d1 = None → connected s !! nd_id d2 = None →
  take_old udid force1 s = (Some None, s) ∧ take_old udid force2 s = (Some None, s) ∧
  let s1 := (put_new udid (nd_id d1) (Ok d1) None s).2 in
  let s2 := (put_new udid (nd_id d2) (Ok d2) None s1).2 in
  nd_id d1 ∈ visible s2 ∧ nd_id d2 ∈ visible s2.
Proof.
  intros Hwf Hno Hnu U1 U2 Hne I1 I2.
  assert (Htake : ∀ f, take_old udid f s = (Some None, s)).
  { intros f. unfold take_old. by destruct (find_network_spec ∅ udid s Hwf) as [(i & n & _ & Hn%Hno & ?)|[-> _]]. }
  do 2 (split; [apply Htake|]). cbv zeta.
  assert (Hc : ∀ t d, connected (put_new udid (nd_id d) (Ok d) None t).2 = <[nd_id d := Network d]> (connected t))
    by (intros t d; unfold put_new; cbn; by destruct (negb _)).
  assert (Hu : ∀ u, u = udid → ¬ usb_in u (<[nd_id d2:=Network d2]> (<[nd_id d1:=Network d1]> (connected s)))).
  { intros u -> (i & v & Hi & Hv)%usb_in_network%usb_in_network. by eapply Hnu. }
  rewrite !elem_of_visible, !Hc. split.
  - exists (Network d1). rewrite lookup_insert_ne, lookup_insert_eq by done. split; [done|].
    intros n [= <-]. by apply Hu.
  - exists (Network d2). rewrite lookup_insert_eq. split; [done|]. intros n [= <-]. by apply Hu.
Qed.

End registry.
Arguments Device : clear implicits.
Arguments Daemon : clear implicits.
Arguments UsbEvent : clear implicits.
Arguments RegistryOrder : clear implicits.
