(* ===== verification/WatchUsb.v ===== *)
(** * Watching USB ([UsbDevice::new_with_disconnect_tx] of [src/device/usb.rs],
    [AnyDeviceInfo::open] and [AnyDeviceHandle::endpoint] of
    [src/usb_backend/mod.rs], [src/watcher/usb.rs])

    A device that a backend announces is opened, its version negotiated, and told
    of to the daemon; if that fails it is tried again for three seconds, and a
    device whose reader loop lost its endpoint is taken back and opened once
    more. *)

From S2P Require Import Prelude Ids Text Io Tcp Utf8 DeviceMux Plist Builder Errors Conn Backend Hotplug.
From S2P Require Import Router Loops UsbDevice Registry.

Section watch_usb.
Context {L : Type} {codec : TcpCodec}.

(** ** Opening a device *)

(** What the attempt meets: what opening the device gives, its configurations as
    either backend reads them, the two pipes at a pair of endpoint addresses, and
    how many packets fit into the three seconds. *)
Record Opening : Type := MkOpening {
  opened : string + UsbHandle;
  nusb_configurations : list Configuration;
  rusb_configurations : list (string + Configuration);
  pipes : Z → Z → stream;
  in_time : nat;
}.

Inductive AnyDeviceHandle : Type :=
| NusbHandle (dev : UsbHandle)
| RusbHandle (handle : UsbHandle) (end_in end_out max_packet_size : Z).

Definition open (o : Opening) (info : AnyDeviceInfo) : outcome RusbmuxError.t AnyDeviceHandle :=
  match info, opened o with
  | Nusb _, inl e => Err (RusbmuxError.USB e)
  | Nusb _, inr dev => Ok (NusbHandle dev)
  | Rusb _, inl e => Err (RusbmuxError.RusbError e)
  | Rusb _, inr dev_handle =>
      let '(r, handle) := rusb_device_endpoints (rusb_configurations o) dev_handle in
      let? found := r in
      let '(end_in, end_out, max_packet_size) := found in
      Ok (RusbHandle handle end_in end_out max_packet_size)
  end.

(** The addresses of the endpoints in and out *)
Definition endpoint (o : Opening) (h : AnyDeviceHandle) : outcome RusbmuxError.t (Z * Z) :=
  match h with
  | NusbHandle dev =>
      let? rw := (nusb_device_endpoints (nusb_configurations o) dev).1 in
      Ok (io_address rw.1, io_address rw.2)
  | RusbHandle _ end_in end_out _ => Ok (end_in, end_out)
  end.

(** A value of a code path that has no errors, only panics. *)
Definition sure {A} (r : outcome Empty_set A) : outcome RusbmuxError.t A :=
  map_err (λ e : Empty_set, match e with end) r.

Definition no_serial_number : RusbmuxError.t := RusbmuxError.InvalidData "USB device has no serial number".

(** [link]: the endpoint that the writer loop will feed. *)
Definition new_with_disconnect_tx (info : AnyDeviceInfo) (id : Z) (o : Opening) (link : L)
  : outcome RusbmuxError.t (UsbDevice L) :=
  let? serial := sure (udid info) in
  let? udid := ok_or no_serial_number serial in
  let? device_handle := open o info in
  let? ends := endpoint o device_handle in
  let? _ := (negotiate (in_time o) (pipes o ends.1 ends.2)).1 in
  let? product_id := sure (product_id info) in
  Ok (MkUsbDevice id udid (speed info) (location_id info) product_id (RState router_new ∅) ∅ link
        false false false).

(** ** The watch *)

Inductive WatchEvent : Type :=
| DeviceConnected (device : UsbDevice L) (id : Z)
| DeviceDisconnected (id : Z) (opaque : option Z) (io_disconnect : bool)
| WatchFailed (e : RusbmuxError.t).

(** One round of the retry loop: what [list_devices] gives, what opening meets, and
    the milliseconds it takes until it sleeps. *)
Record Attempt : Type := MkAttempt {
  listed : list AnyDeviceInfo;
  opening : Opening;
  attempt_link : L;
  took : Z;
}.

Definition find_opaque (opaque : Z) (devices : list AnyDeviceInfo) : option AnyDeviceInfo :=
  find (λ device, (Backend.opaque_id device =? opaque)%Z) devices.

(** The clock shows [now].  [Ok None]: the rounds have run out, the loop goes on. *)
Fixpoint retry_open (attempts : list Attempt) (now deadline : Z) (opaque id : Z)
    (first_error : RusbmuxError.t) : outcome RusbmuxError.t (option (UsbDevice L)) :=
  if (deadline <=? now)%Z then Err first_error
  else
    match attempts with
    | [] => Ok None
    | a :: attempts =>
        let again := retry_open attempts (now + took a + 100) deadline opaque id first_error in
        match find_opaque opaque (listed a) with
        | Some device_info =>
            match new_with_disconnect_tx device_info id (opening a) (attempt_link a) with
            | Ok device => Ok (Some device)
            | Err _ => again
            | Panic => Panic
            | Ub => Ub
            end
        | None => again
        end
    end.

(** An event of the backend, with what opening the device meets at first and in the
    rounds after that; or a device whose reader loop ended, with what opening it
    once more meets. *)
Inductive usb_input : Type :=
| HotplugCame (event : RusbmuxError.t + BackendEvent) (first : Opening) (link : L) (now : Z)
    (attempts : list Attempt)
| IoDisconnected (device : IODisconnectedDevice) (again : Attempt).

(** [Ok None]: it is still trying; [Panic]: the task is gone. *)
Definition usb_turn (i : usb_input) : outcome RusbmuxError.t (option (list WatchEvent)) :=
  match i with
  | HotplugCame (inr (Connected device_info id)) first link now attempts =>
      let device :=
        match new_with_disconnect_tx device_info id first link with
        | Ok device => Ok (Some device)
        | Err first_error =>
            retry_open attempts now (now + 3000) (Backend.opaque_id device_info) id first_error
        | Panic => Panic
        | Ub => Ub
        end in
      match device with
      | Ok (Some device) => Ok (Some [DeviceConnected device id])
      | Ok None => Ok None
      | Err err => Ok (Some [WatchFailed err])
      | Panic => Panic
      | Ub => Ub
      end
  | HotplugCame (inr (Disconnected id)) _ _ _ _ => Ok (Some [DeviceDisconnected id None false])
  | HotplugCame (inl err) _ _ _ _ => Ok (Some [WatchFailed err])
  | IoDisconnected (IODisconnected id opaque) a =>
      let gone := DeviceDisconnected id (Some opaque) true in
      match find_opaque opaque (listed a) with
      | Some device_info =>
          match new_with_disconnect_tx device_info id (opening a) (attempt_link a) with
          | Ok device => Ok (Some [gone; DeviceConnected device id])
          | Err err => Ok (Some [gone; WatchFailed err])
          | Panic => Panic
          | Ub => Ub
          end
      | None => Ok (Some [gone])
      end
  end.

(** The daemon's part: what [watch_usb_daemon] makes of an event. *)
Definition daemon_event (e : WatchEvent) : Registry.UsbEvent L :=
  match e with
  | DeviceConnected device id => UsbConnected device id
  | DeviceDisconnected id _ _ => UsbDisconnected id
  | WatchFailed e => UsbError e
  end.

(** ** Lemmas *)

Lemma new_with_disconnect_tx_fields info id o link d :
  new_with_disconnect_tx info id o link = Ok d →
  ud_id d = id ∧ udid info = Ok (Some (ud_udid d)) ∧ ud_speed d = speed info ∧
  ud_location_id d = location_id info ∧ product_id info = Ok (ud_product_id d) ∧
  ud_router d = RState router_new ∅ ∧ ud_conns d = ∅ ∧ ud_canceled d = false.
Proof.
  unfold new_with_disconnect_tx. intros H. invert_binds. simplify_eq/=.
  destruct (udid info) as [[u|]|[]| |], (product_id info) as [p|[]| |]; by simplify_eq/=.
Qed.

Lemma retry_open_result attempts : ∀ now deadline opaque id e r,
  retry_open attempts now deadline opaque id e = r →
  match r with
  | Ok (Some d) => ∃ info o link, Backend.opaque_id info = opaque ∧ new_with_disconnect_tx info id o link = Ok d
  | Err e' => e' = e
  | _ => True
  end.
Proof.
  induction attempts as [|a attempts IH]; intros now deadline opaque id e r <-; cbn [retry_open];
    destruct (deadline <=? now)%Z; try done.
  destruct (find_opaque opaque (listed a)) as [info|] eqn:Ef; [|by eapply IH].
  destruct (new_with_disconnect_tx info id _ _) as [d|e'| |] eqn:E; [|by eapply IH|done..].
  exists info, (opening a), (attempt_link a). split; [|done].
  apply find_some in Ef as [_ Ef]. lia.
Qed.

Lemma retry_open_ends attempts : ∀ now deadline opaque id e,
  Forall (λ a, 0 ≤ took a)%Z attempts →
  (deadline ≤ now + 100 * Z.of_nat (length attempts))%Z →
  retry_open attempts now deadline opaque id e ≠ Ok None.
Proof.
  induction attempts as [|a attempts IH]; intros now deadline opaque id e Ht Hd; cbn [retry_open].
  - cbn in Hd. destruct (Z.leb_spec deadline now); [done|lia].
  - apply list.Forall_cons in Ht as [Ha Ht]. cbn [length] in Hd.
    destruct (deadline <=? now)%Z; [done|].
    assert (H : retry_open attempts (now + took a + 100) deadline opaque id e ≠ Ok None)
      by (apply IH; [done|lia]).
    destruct (find_opaque opaque (listed a)); [|done].
    by destruct (new_with_disconnect_tx _ _ _ _).
Qed.

End watch_usb.

(** ** Theorems *)

Section theorems.
Context {L : Type} {codec : TcpCodec} {laws : TcpCodecLaws}.

(** C30.  A device that cannot be opened does not hold the watch up for ever: whatever
    the rounds of the retry loop meet and however long they take, thirty of them
    are enough for the turn to end. *)
Theorem usb_turn_ends (i : usb_input (L := L)) :
  (∀ event first link now attempts, i = HotplugCame event first link now attempts →
     30 ≤ length attempts ∧ Forall (λ a, 0 ≤ took a)%Z attempts) →
  usb_turn i ≠ Ok None.
Proof.
  intros Hi. destruct i as [[e|[info id|id]] first link now attempts|[id opaque] a]; cbn [usb_turn]; try done.
  - destruct (Hi _ _ _ _ _ eq_refl) as [Hl Ht].
    assert (H : ∀ e, retry_open attempts now (now + 3000) (Backend.opaque_id info) id e ≠ Ok None)
      by (intros e; apply retry_open_ends; [done|lia]).
    destruct (new_with_disconnect_tx info id first link) as [d|e| |]; [done| |done..].
    specialize (H e). by destruct (retry_open _ _ _ _ _ _) as [[d|]|e'| |].
  - destruct (find_opaque opaque (listed a)) as [info|]; [|done].
    by destruct (new_with_disconnect_tx info id _ _).
Qed.

(** What a turn tells of.  A device that appeared is announced once, under the
    backend's id, with the [udid] and place of a device that was listed at the same
    place of the bus; or nothing but the error of the first attempt is.  A device
    whose endpoint was lost is taken back first, and only then announced again,
    under its old id. *)
Lemma usb_turn_tells (i : usb_input (L := L)) es :
  usb_turn i = Ok (Some es) →
  let announces d opaque id :=
    ud_id d = id ∧ ud_router d = RState router_new ∅ ∧ ud_canceled d = false ∧
    ∃ info, Backend.opaque_id info = opaque ∧ udid info = Ok (Some (ud_udid d)) ∧
      ud_location_id d = location_id info in
  match i with
  | HotplugCame (inr (Connected info id)) first link _ _ =>
      (∃ d, es = [DeviceConnected d id] ∧ announces d (Backend.opaque_id info) id) ∨
      (∃ e, es = [WatchFailed e] ∧ new_with_disconnect_tx info id first link = Err e)
  | HotplugCame (inr (Disconnected id)) _ _ _ _ => es = [DeviceDisconnected id None false]
  | HotplugCame (inl e) _ _ _ _ => es = [WatchFailed e]
  | IoDisconnected (IODisconnected id opaque) a =>
      ∃ es', es = DeviceDisconnected id (Some opaque) true :: es' ∧
        (es' = [] ∨ (∃ d, es' = [DeviceConnected d id] ∧ announces d opaque id) ∨ ∃ e, es' = [WatchFailed e])
  end.
Proof.
  intros H announces.
  assert (Ha : ∀ info id o link d opaque, Backend.opaque_id info = opaque →
    new_with_disconnect_tx info id o link = Ok d → announces d opaque id).
  { intros info id o link d opaque Eo (H1 & H2 & _ & H4 & _ & H6 & _ & H8)%new_with_disconnect_tx_fields.
    split_and!; try done. by exists info. }
  destruct i as [[e|[info id|id]] first link now attempts|[id opaque] a]; cbn [usb_turn] in H;
    [by simplify_eq| |by simplify_eq|].
  - destruct (new_with_disconnect_tx info id first link) as [d|e| |] eqn:E; [|..|done|done].
    + injection H as <-. left. exists d. split; [done|]. by eapply Ha.
    + pose proof (retry_open_result attempts now (now + 3000) (Backend.opaque_id info) id e _ eq_refl) as Hr.
      destruct (retry_open _ _ _ _ _ _) as [[d|]|e'| |]; simplify_eq.
      * destruct Hr as (info' & o & l & Ho & Hd). left. exists d. split; [done|]. by eapply Ha.
      * right. by exists e.
  - destruct (find_opaque opaque (listed a)) as [info|] eqn:Ef;
      [|injection H as <-; exists []; split; [done|by left]].
    assert (Eo : Backend.opaque_id info = opaque) by (apply find_some in Ef as [_ Ef]; lia).
    destruct (new_with_disconnect_tx info id _ _) as [d|e| |] eqn:E; [|..|done|done]; injection H as <-.
    + exists [DeviceConnected d id]. split; [done|]. right. left. exists d. split; [done|]. by eapply Ha.
    + exists [WatchFailed e]. split; [done|]. right. right. by exists e.
Qed.

(** Opening a device.  Without a serial number it is not even opened; a device that
    opens, has its endpoints and answers with its version among the packets of
    older connections is made, with nothing registered on it yet; one that does not
    answer within the packets that fit into the three seconds is not. *)
Theorem new_device_spec info id o (link : L) u p h ends noise v ver rest :
  (udid info = Ok None → new_with_disconnect_tx info id o link = Err no_serial_number) ∧
  (udid info = Ok (Some u) → product_id info = Ok p → open o info = Ok h → endpoint o h = Ok ends →
   let s := pipes o ends.1 ends.2 in
   s_faults s = [] →
   Forall (λ p, sendable_packet p ∧ as_version (DeviceMux.payload p) = None) noise →
   sendable_packet v → DeviceMux.payload v = PayloadVersion ver →
   s_in s = wire noise ++ packet_encode v ++ rest →
   new_with_disconnect_tx info id o link =
     if decide (length noise < in_time o)
     then Ok (MkUsbDevice id u (speed info) (location_id info) p (RState router_new ∅) ∅ link false false false)
     else Err version_timeout).
Proof.
  split; [intros E; unfold new_with_disconnect_tx; by rewrite E|].
  intros Hu Hp Ho He s Hf Hn Hv Hver Hin. unfold new_with_disconnect_tx.
  rewrite Hu. cbn [sure map_err ok_or outcome_bind]. rewrite Ho. cbn [outcome_bind].
  rewrite He. cbn [outcome_bind]. rewrite Hp. cbn [sure map_err outcome_bind].
  destruct (negotiate_spec (in_time o) noise v ver rest s Hf Hn Hv Hver Hin) as [H1 H2].
  subst s. destruct (decide (length noise < in_time o)) as [Hl|Hl].
  - destruct (H1 Hl) as (s' & -> & _). done.
  - destruct (H2 ltac:(lia)) as (s' & -> & _). done.
Qed.

End theorems.
