(* ===== verification/World.v ===== *)
(** * What a client handler works on ([src/bin/rusbmux/handler/mod.rs])

    The client's socket, the registry, the files and the number of listeners; the
    replies every handler makes ([reply], [send_result]); the files under the
    lockdown directory and the check of pair-record ids that guards them. *)

From Stdlib Require Import Strings.Ascii.
From S2P Require Import Prelude Io Plist UsbMux Errors Conn Registry.

(** ** Files

    [fs_fault] scripts what the file system does with a path: it refuses every
    operation, or it lets a write truncate the file and write its first bytes, and
    fails then. *)

Inductive FsFault : Type := Refused (k : ErrorKind) | WriteFails (k : ErrorKind) (written : nat).

Record Disk : Type := MkDisk {
  files : gmap string (list byte);
  fs_fault : string → option FsFault;
}.

Definition fs_read (path : string) (d : Disk) : outcome ErrorKind (list byte) :=
  match fs_fault d path with
  | Some (Refused k) => Err k
  | _ => match files d !! path with Some b => Ok b | None => Err NotFound end
  end.

(** [tokio::fs::write] creates or truncates the file, and then writes. *)
Definition fs_write (path : string) (data : list byte) : stateful Disk ErrorKind () := λ d,
  match fs_fault d path with
  | Some (Refused k) => (Err k, d)
  | Some (WriteFails k n) => (Err k, MkDisk (<[path := take n data]> (files d)) (fs_fault d))
  | None => (Ok (), MkDisk (<[path := data]> (files d)) (fs_fault d))
  end.

Definition fs_remove (path : string) : stateful Disk ErrorKind () := λ d,
  match fs_fault d path with
  | Some (Refused k) => (Err k, d)
  | _ => match files d !! path with
         | Some _ => (Ok (), MkDisk (delete path (files d)) (fs_fault d))
         | None => (Err NotFound, d)
         end
  end.

(** [tokio::fs::try_exists(&path).await.is_ok_and(|exists| exists)] *)
Definition fs_exists (path : string) (d : Disk) : bool :=
  match fs_fault d path with
  | Some (Refused _) => false
  | _ => bool_decide (is_Some (files d !! path))
  end.

(** ** Paths *)

(** [LOCKDOWN_PATH] on Linux *)
Definition LOCKDOWN_PATH : string := "/var/lib/lockdown".

(** [Path::join]: an absolute path replaces the base. *)
Definition path_join (base p : string) : string :=
  if String.prefix "/" p then p else base +:+ "/" +:+ p.

(** [str::contains] *)
Fixpoint contains (needle hay : string) : bool :=
  String.prefix needle hay ||
  match hay with
  | EmptyString => false
  | String.String _ hay => contains needle hay
  end.

Definition malformed_id : RusbmuxError.t :=
  RusbmuxError.UnexpectedPacket "Given pair record id is malformed".

Definition check_pair_record_id (pair_record_id : string) : outcome RusbmuxError.t () :=
  if contains "/" pair_record_id || contains "\" pair_record_id || contains ".." pair_record_id
  then Err malformed_id
  else Ok ().

Definition pair_record_path (id : string) : string := path_join LOCKDOWN_PATH (id +:+ ".plist").

(** The components of a path: what is between its slashes. *)
Fixpoint path_components_go (cur : string) (p : string) : list string :=
  match p with
  | EmptyString => [cur]
  | String.String c p =>
      if Ascii.eqb c "/"%char then cur :: path_components_go "" p
      else path_components_go (cur +:+ String.String c "") p
  end.

Definition path_components (p : string) : list string := path_components_go "" p.

(** ** The handlers' state *)

Section world.
Context {L : Type} {plist : PlistCodec}.

Record World : Type := MkWorld {
  client : stream;
  registry : Daemon L;
  disk : Disk;
  (** [receiver_count] of the hotplug channel *)
  listeners : nat;
  (** [DEVICE_ID_COUNTER] *)
  next_id : Z;
}.

Definition handler (A : Type) : Type := stateful World RusbmuxError.t A.

(** Running an operation on one part of the state. *)
Definition on_client {A} (m : stateful stream ErrorKind A) : handler A := λ w,
  let '(r, c) := m (client w) in
  (map_err RusbmuxError.IO r, MkWorld c (registry w) (disk w) (listeners w) (next_id w)).

Definition on_disk {A} (m : stateful Disk ErrorKind A) : handler A := λ w,
  let '(r, d) := m (disk w) in
  (map_err RusbmuxError.IO r, MkWorld (client w) (registry w) d (listeners w) (next_id w)).

Definition on_registry {A} (m : stateful (Daemon L) RusbmuxError.t A) : handler A := λ w,
  let '(r, s) := m (registry w) in
  (r, MkWorld (client w) s (disk w) (listeners w) (next_id w)).

(** [Result] values a handler matches on. *)
Definition try {A} (m : handler A) : handler (A + RusbmuxError.t) := λ w,
  match m w with
  | (Ok a, w') => (Ok (inl a), w')
  | (Err e, w') => (Ok (inr e), w')
  | (Panic, w') => (Panic, w')
  | (Ub, w') => (Ub, w')
  end.

(** The bytes of a reply: a property list with the request's tag. *)
Definition reply_bytes (tag : Z) (v : Value) : list byte :=
  encode_from (to_xml v) PlistVersion UsbMuxMsgType.MessagePlist tag.

Definition reply (tag : Z) (v : Value) : handler () := on_client (write_all (reply_bytes tag v)).

(** [code as u16] *)
Definition result_plist (code : UsbMuxResult.t) : Value :=
  Dictionary [("MessageType", String "Result"); ("Number", Integer (wrap 16 (result_as_u32 code)))].

Definition send_result (code : UsbMuxResult.t) (tag : Z) : handler () :=
  reply tag (result_plist code).

End world.
Arguments World : clear implicits.

(** ** Lemmas *)

Lemma string_app_empty s : s +:+ "" = s.
Proof.
  induction s as [|c s IH]; [done|].
  change (String.String c (s +:+ "") = String.String c s). by rewrite IH.
Qed.

Lemma string_app_assoc (a b c : string) : (a +:+ b) +:+ c = a +:+ (b +:+ c).
Proof.
  induction a as [|x a IH]; [done|].
  change (String.String x ((a +:+ b) +:+ c) = String.String x (a +:+ (b +:+ c))). by rewrite IH.
Qed.

Lemma string_length_app a b : String.length (a +:+ b) = String.length a + String.length b.
Proof.
  induction a as [|x a IH]; [done|].
  change (S (String.length (a +:+ b)) = S (String.length a + String.length b)). by rewrite IH.
Qed.

Lemma prefix_slash c s : String.prefix "/" (String.String c s) = Ascii.eqb c "/"%char.
Proof.
  change (String.prefix "/" (String.String c s))
    with (if Ascii.ascii_dec "/"%char c then String.prefix "" s else false).
  destruct (Ascii.ascii_dec "/"%char c) as [<-|Hc]; [by destruct s|].
  symmetry. apply Ascii.eqb_neq. congruence.
Qed.

Lemma contains_slash c s :
  contains "/" (String.String c s) = Ascii.eqb c "/"%char || contains "/" s.
Proof. rewrite <- (prefix_slash c s). done. Qed.

Lemma contains_app_ext s : contains "/" s = false → contains "/" (s +:+ ".plist") = false.
Proof.
  induction s as [|c s IH]; intros H; [reflexivity|].
  change (String.String c s +:+ ".plist") with (String.String c (s +:+ ".plist")).
  rewrite contains_slash in *. apply orb_false_iff in H as [-> H]. by rewrite IH.
Qed.

(** Without a slash a path is one component. *)
Lemma path_components_no_slash cur s :
  contains "/" s = false → path_components_go cur s = [cur +:+ s].
Proof.
  revert cur. induction s as [|c s IH]; intros cur Hs.
  - simpl. by rewrite string_app_empty.
  - rewrite contains_slash in Hs. apply orb_false_iff in Hs as [Hc Hs].
    cbn [path_components_go]. rewrite Hc, IH by done. by rewrite string_app_assoc.
Qed.

Section world_lemmas.
Context {L : Type} {plist : PlistCodec}.

(** A client that can be written to. *)
Definition writable (w : World L) : Prop := s_faults (client w) = [].

(** The world after the replies [vs]. *)
Definition after_replies (tag : Z) (vs : list Value) (w : World L) : World L :=
  MkWorld (Stream (s_in (client w)) (s_end (client w))
             (s_out (client w) ++ (vs ≫= reply_bytes tag)) (s_faults (client w)))
    (registry w) (disk w) (listeners w) (next_id w).

Lemma reply_ok tag v (w : World L) :
  writable w → reply tag v w = (Ok (), after_replies tag [v] w).
Proof.
  intros Hw. unfold reply, on_client. rewrite write_all_faultless by done.
  unfold after_replies. cbn. by rewrite app_nil_r, Hw.
Qed.

Lemma after_replies_app tag vs vs' (w : World L) :
  after_replies tag vs' (after_replies tag vs w) = after_replies tag (vs ++ vs') w.
Proof. unfold after_replies. cbn. by rewrite bind_app, app_assoc. Qed.

Lemma after_replies_nil tag (w : World L) : after_replies tag [] w = w.
Proof. unfold after_replies. cbn. rewrite app_nil_r. by destruct w as [[]]. Qed.

Lemma writable_after tag vs (w : World L) : writable w → writable (after_replies tag vs w).
Proof. done. Qed.

End world_lemmas.
