(* ===== verification/Records.v ===== *)
(** * Pair records and the system's BUID ([src/bin/rusbmux/handler/]:
    [save_pair_record.rs], [read_pair_record.rs], [delete_pair_record.rs],
    [read_buid.rs]; [read_system_buid] of [src/bin/rusbmux/utils.rs])

    The handlers that keep files under the lockdown directory.  Each is an
    operation and a wrapper that turns its errors into a reply. *)

From S2P Require Import Prelude Io Plist UsbMux Errors Conn Registry World.

Section records.
Context {L : Type} {plist : PlistCodec}.
Abbreviation handler := (handler (L := L)).

Definition st_of {A} (o : outcome RusbmuxError.t A) : handler A := st_lift o.

Definition read_disk {A} (f : Disk → A) : handler A := λ w, (Ok (f (disk w)), w).

(** ** Saving *)

Definition paired_plist (device_id : Z) : Value :=
  Dictionary [("MessageType", String "Paired"); ("DeviceID", Integer device_id)].

Definition save_pair_record (pair_record_id : string) (pair_record_data : list byte)
    (device_id : option Z) (tag : Z) : handler () :=
  let! _ := st_of (check_pair_record_id pair_record_id) in
  let path := pair_record_path pair_record_id in
  let! _ := on_disk (fs_write path pair_record_data) in
  match device_id with
  | Some device_id => reply tag (paired_plist device_id)
  | None => st_ret ()
  end.

Definition handle_save_pair_record (pair_record_id : string) (pair_record_data : list byte)
    (device_id : option Z) (tag : Z) : handler () :=
  let! r := try (save_pair_record pair_record_id pair_record_data device_id tag) in
  match r with
  | inl _ => send_result UsbMuxResult.OK tag
  | inr err =>
      let! _ := match err with
                | RusbmuxError.UnexpectedPacket _ => send_result UsbMuxResult.BadCommand tag
                | RusbmuxError.IO (PermissionDenied | NotFound) =>
                    send_result UsbMuxResult.BadDeviceOrNoSuchFile tag
                | _ => st_ret ()
                end in
      st_of (Err err)
  end.

(** ** Reading *)

Definition pair_record_plist (pairing_file : list byte) : Value :=
  Dictionary [("PairRecordData", Data pairing_file)].

Definition read_pair_record (pair_record_id : string) (tag : Z) : handler () :=
  let! _ := st_of (check_pair_record_id pair_record_id) in
  let path := pair_record_path pair_record_id in
  let! pairing_file := read_disk (fs_read path) in
  let! pairing_file := st_of (map_err RusbmuxError.IO pairing_file) in
  reply tag (pair_record_plist pairing_file).

Definition handle_read_pair_record (pair_record_id : string) (tag : Z) : handler () :=
  let! r := try (read_pair_record pair_record_id tag) in
  match r with
  | inl _ => st_ret ()
  | inr err =>
      let! _ := match err with
                | RusbmuxError.UnexpectedPacket _ => send_result UsbMuxResult.BadCommand tag
                | RusbmuxError.IO (PermissionDenied | NotFound) =>
                    send_result UsbMuxResult.BadDeviceOrNoSuchFile tag
                | _ => st_ret ()
                end in
      st_of (Err err)
  end.

(** ** Deleting *)

Definition delete_pair_record (pair_record_id : string) : handler () :=
  let! _ := st_of (check_pair_record_id pair_record_id) in
  let path := pair_record_path pair_record_id in
  on_disk (fs_remove path).

Definition handle_delete_pair_record (pair_record_id : string) (tag : Z) : handler () :=
  let! r := try (delete_pair_record pair_record_id) in
  match r with
  | inl _ => send_result UsbMuxResult.OK tag
  | inr err =>
      let! _ := match err with
                | RusbmuxError.UnexpectedPacket _ => send_result UsbMuxResult.BadCommand tag
                | RusbmuxError.IO NotFound => send_result UsbMuxResult.BadDeviceOrNoSuchFile tag
                | _ => st_ret ()
                end in
      st_of (Err err)
  end.

(** ** The BUID *)

Definition system_configuration_path : string :=
  path_join LOCKDOWN_PATH "SystemConfiguration.plist".
#[global] Arguments system_configuration_path : simpl never.

(** [new_uuid] is what [Uuid::new_v4] prints, in upper case. *)
Definition read_system_buid (new_uuid : string) : handler string :=
  let path := system_configuration_path in
  let! exists_ := read_disk (fs_exists path) in
  if negb exists_ then
    let id := new_uuid in
    let config := to_xml (Dictionary [("SystemBUID", String id)]) in
    let! _ := on_disk (fs_write path config) in
    st_ret id
  else
    let! bytes := read_disk (fs_read path) in
    let! bytes := st_of (map_err RusbmuxError.IO bytes) in
    let! config := st_of (map_err RusbmuxError.Plist (from_bytes bytes)) in
    let! dict := st_of (ok_or (RusbmuxError.UnexpectedPacket
      "Expected a packet with a dictionary plist payload") (as_dictionary config)) in
    let! buid := st_of (ok_or (RusbmuxError.ValueNotFound MissingFields.SystemBUID)
      (dict_get "SystemBUID" dict)) in
    st_of (ok_or (RusbmuxError.InvalidData "SystemBUID is not a string") (as_string buid)).

Definition buid_plist (buid : string) : Value := Dictionary [("BUID", String buid)].

Definition handle_read_buid (new_uuid : string) (tag : Z) : handler () :=
  let! r := try (read_system_buid new_uuid) in
  match r with
  | inl buid => reply tag (buid_plist buid)
  | inr (RusbmuxError.IO _) =>
      let! _ := try (send_result UsbMuxResult.BadDeviceOrNoSuchFile tag) in
      st_ret ()
  | inr err => st_of (Err err)
  end.

(** ** Lemmas *)

Definition id_ok (id : string) : Prop := check_pair_record_id id = Ok ().

#[export] Instance id_ok_dec id : Decision (id_ok id).
Proof.
  unfold id_ok. destruct (check_pair_record_id id) as [[]| | |]; [left|right..]; done.
Defined.

Definition with_file (path : string) (data : list byte) (w : World L) : World L :=
  MkWorld (client w) (registry w) (MkDisk (<[path := data]> (files (disk w))) (fs_fault (disk w)))
    (listeners w) (next_id w).

Definition without_file (path : string) (w : World L) : World L :=
  MkWorld (client w) (registry w) (MkDisk (delete path (files (disk w))) (fs_fault (disk w)))
    (listeners w) (next_id w).

Lemma check_cases id : id_ok id ∨ check_pair_record_id id = Err malformed_id.
Proof. unfold id_ok, check_pair_record_id. case_match; auto. Qed.

Lemma send_result_ok code tag (w : World L) :
  writable w → send_result code tag w = (Ok (), after_replies tag [result_plist code] w).
Proof. apply reply_ok. Qed.

(** What each operation does on a client that can be written to, for each state of
    the file system. *)
Lemma save_pair_record_cases id data dev tag (w : World L) :
  writable w →
  save_pair_record id data dev tag w =
  if decide (id_ok id) then
    match fs_fault (disk w) (pair_record_path id) with
    | Some (Refused k) => (Err (RusbmuxError.IO k), w)
    | Some (WriteFails k n) => (Err (RusbmuxError.IO k), with_file (pair_record_path id) (take n data) w)
    | None => (Ok (), after_replies tag (paired_plist <$> option_list dev)
                        (with_file (pair_record_path id) data w))
    end
  else (Err malformed_id, w).
Proof.
  intros Hw. unfold save_pair_record, st_of. destruct (check_cases id) as [E|E].
  - rewrite decide_True by done. rewrite (st_bind_eq _ _ _ _ _ (st_lift_eq _ _ _ E)).
    unfold st_bind, on_disk, fs_write. destruct (fs_fault _ _) as [[k|k n]|]; [by destruct w|done|]. cbn.
    destruct dev; cbn [option_list fmap list_fmap].
    + by rewrite reply_ok.
    + by rewrite after_replies_nil.
  - rewrite decide_False by (unfold id_ok; by rewrite E).
    unfold st_bind, st_lift. by rewrite E.
Qed.

Lemma read_pair_record_cases id tag (w : World L) :
  writable w →
  read_pair_record id tag w =
  if decide (id_ok id) then
    match fs_read (pair_record_path id) (disk w) with
    | Ok b => (Ok (), after_replies tag [pair_record_plist b] w)
    | Err k => (Err (RusbmuxError.IO k), w)
    | Panic => (Panic, w)
    | Ub => (Ub, w)
    end
  else (Err malformed_id, w).
Proof.
  intros Hw. unfold read_pair_record, st_of. destruct (check_cases id) as [E|E].
  - rewrite decide_True by done. rewrite (st_bind_eq _ _ _ _ _ (st_lift_eq _ _ _ E)).
    unfold st_bind, read_disk, st_lift. destruct (fs_read _ _); cbn; try done. by apply reply_ok.
  - rewrite decide_False by (unfold id_ok; by rewrite E).
    unfold st_bind, st_lift. by rewrite E.
Qed.

Lemma delete_pair_record_cases id (w : World L) :
  delete_pair_record id w =
  if decide (id_ok id) then
    match fs_read (pair_record_path id) (disk w) with
    | Ok _ => (Ok (), without_file (pair_record_path id) w)
    | Err k => (Err (RusbmuxError.IO k), w)
    | Panic => (Panic, w)
    | Ub => (Ub, w)
    end
  else (Err malformed_id, w).
Proof.
  unfold delete_pair_record, st_of. destruct (check_cases id) as [E|E].
  - rewrite decide_True by done. rewrite (st_bind_eq _ _ _ _ _ (st_lift_eq _ _ _ E)).
    unfold on_disk, fs_remove, fs_read. destruct (fs_fault _ _) as [[k|k n]|]; [by destruct w|..];
      (destruct (files _ !! _); [done|by destruct w]).
  - rewrite decide_False by (unfold id_ok; by rewrite E).
    unfold st_bind, st_lift. by rewrite E.
Qed.

(** ** Properties *)

(** C32.  An id that passes the check names a file directly inside the
    lockdown directory: its path is that directory's components followed by one
    more, which is neither [.] nor [..] nor empty.  Every other id is refused
    before any file is touched, with a [BadCommand] reply. *)
Theorem pair_record_id_safe id :
  (id_ok id → path_components (pair_record_path id)
     = path_components LOCKDOWN_PATH ++ [id +:+ ".plist"] ∧
     id +:+ ".plist" ∉ [""; "."; ".."]) ∧
  (¬ id_ok id → ∀ data dev tag (w : World L), writable w →
     handle_save_pair_record id data dev tag w
       = (Err malformed_id, after_replies tag [result_plist UsbMuxResult.BadCommand] w) ∧
     handle_read_pair_record id tag w
       = (Err malformed_id, after_replies tag [result_plist UsbMuxResult.BadCommand] w) ∧
     handle_delete_pair_record id tag w
       = (Err malformed_id, after_replies tag [result_plist UsbMuxResult.BadCommand] w)).
Proof.
  split.
  - intros Hok. unfold id_ok, check_pair_record_id in Hok.
    destruct (contains "/" id) eqn:Es; [done|].
    apply contains_app_ext in Es. split.
    + unfold pair_record_path, path_join.
      assert (Hp : String.prefix "/" (id +:+ ".plist") = false).
      { destruct (id +:+ ".plist") as [|c s] eqn:E; [done|]. rewrite contains_slash in Es.
        apply orb_false_iff in Es as [Ec _]. by rewrite prefix_slash. }
      rewrite Hp. transitivity (path_components LOCKDOWN_PATH
        ++ path_components_go "" (id +:+ ".plist")); [reflexivity|].
      by rewrite path_components_no_slash.
    + rewrite !not_elem_of_cons. split_and!; [..|apply not_elem_of_nil];
        intros E; apply (f_equal String.length) in E; rewrite string_length_app in E;
        cbn in E; lia.
  - intros Hno data dev tag w Hw.
    unfold handle_save_pair_record, handle_read_pair_record, handle_delete_pair_record, st_bind, try.
    rewrite save_pair_record_cases, read_pair_record_cases, delete_pair_record_cases by done.
    rewrite !decide_False by done. unfold malformed_id. by rewrite send_result_ok.
Qed.

(** A pair record that has been saved is read back byte for byte, and
    after it has been deleted reading it reports a missing file; each step gets
    its reply with the request's tag, and saving with a device id is answered
    twice, with [Paired] and with the result. *)
Theorem pair_record_roundtrip id data dev t1 t2 t3 t4 (w : World L) :
  writable w → id_ok id → fs_fault (disk w) (pair_record_path id) = None →
  ∃ w1 w2 w3,
    handle_save_pair_record id data dev t1 w = (Ok (), w1) ∧
    w1 = after_replies t1 ((paired_plist <$> option_list dev) ++ [result_plist UsbMuxResult.OK])
           (with_file (pair_record_path id) data w) ∧
    handle_read_pair_record id t2 w1 = (Ok (), w2) ∧
    w2 = after_replies t2 [pair_record_plist data] w1 ∧
    handle_delete_pair_record id t3 w2 = (Ok (), w3) ∧
    w3 = after_replies t3 [result_plist UsbMuxResult.OK] (without_file (pair_record_path id) w2) ∧
    handle_read_pair_record id t4 w3
      = (Err (RusbmuxError.IO NotFound),
         after_replies t4 [result_plist UsbMuxResult.BadDeviceOrNoSuchFile] w3).
Proof.
  intros Hw Hid Hf.
  set (w1 := after_replies t1 ((paired_plist <$> option_list dev) ++ [result_plist UsbMuxResult.OK])
               (with_file (pair_record_path id) data w)).
  set (w2 := after_replies t2 [pair_record_plist data] w1).
  set (w3 := after_replies t3 [result_plist UsbMuxResult.OK] (without_file (pair_record_path id) w2)).
  assert (Hr2 : fs_read (pair_record_path id) (disk w2) = Ok data)
    by (unfold fs_read; cbn; by rewrite Hf, lookup_insert_eq).
  exists w1, w2, w3. split.
  { unfold handle_save_pair_record, st_bind at 1, try.
    rewrite save_pair_record_cases, decide_True, Hf by done. cbn.
    rewrite send_result_ok by done. by rewrite after_replies_app. }
  split; [done|]. split.
  { unfold handle_read_pair_record, st_bind, try.
    by rewrite read_pair_record_cases, decide_True, (Hr2 : fs_read (pair_record_path id) (disk w1) = _). }
  split; [done|]. split.
  { unfold handle_delete_pair_record, st_bind, try.
    rewrite delete_pair_record_cases, decide_True, Hr2 by done. by rewrite send_result_ok. }
  split; [done|].
  assert (Hr3 : fs_read (pair_record_path id) (disk w3) = Err NotFound).
  { unfold fs_read. cbn. by rewrite Hf, lookup_delete_eq. }
  unfold handle_read_pair_record, st_bind, try.
  rewrite read_pair_record_cases, decide_True, Hr3 by done. by rewrite send_result_ok.
Qed.

(** A write that fails half way has truncated the file: the record that was there is gone,
    and the client is told of the failure only for two kinds of error. *)
Theorem failed_save_truncates id data k n tag (w : World L) :
  writable w → id_ok id → fs_fault (disk w) (pair_record_path id) = Some (WriteFails k n) →
  ∃ w' vs, handle_save_pair_record id data None tag w = (Err (RusbmuxError.IO k), w') ∧
    files (disk w') !! pair_record_path id = Some (take n data) ∧
    s_out (client w') = s_out (client w) ++ (vs ≫= reply_bytes tag) ∧
    vs = match k with
         | PermissionDenied | NotFound => [result_plist UsbMuxResult.BadDeviceOrNoSuchFile]
         | _ => []
         end.
Proof.
  intros Hw Hid Hf. unfold handle_save_pair_record, st_bind, try.
  rewrite save_pair_record_cases, decide_True, Hf by done.
  destruct k; unfold st_of, st_lift, st_ret; rewrite ?send_result_ok by exact Hw;
    eexists _, _; (split_and!; [reflexivity|apply lookup_insert_eq| |reflexivity]); cbn; by rewrite ?app_nil_r.
Qed.

Context {plaws : PlistCodecLaws}.

(** The BUID is made once: the first request on a machine without one
    stores a fresh one and answers with it, every later request answers with the
    stored one, whatever id could be made then. *)
Theorem buid_stable uuid1 uuid2 t1 t2 (w : World L) :
  writable w → xml_safe uuid1 = true →
  fs_fault (disk w) system_configuration_path = None →
  files (disk w) !! system_configuration_path = None →
  ∃ w1, handle_read_buid uuid1 t1 w = (Ok (), w1) ∧
    s_out (client w1) = s_out (client w) ++ reply_bytes t1 (buid_plist uuid1) ∧
    handle_read_buid uuid2 t2 w1 = (Ok (), after_replies t2 [buid_plist uuid1] w1).
Proof.
  intros Hw Hs Hf Hn. set (config := Dictionary [("SystemBUID", String uuid1)]).
  eexists. split.
  { unfold handle_read_buid, st_bind at 1, try, read_system_buid.
    unfold st_bind, read_disk, fs_exists. rewrite Hf, Hn. cbn [negb bool_decide].
    rewrite bool_decide_eq_false_2 by (by intros [? ?]). cbn [negb].
    unfold on_disk, fs_write. rewrite Hf. cbn. by rewrite reply_ok. }
  split; [cbn; by rewrite app_nil_r|].
  set (w1 := after_replies _ _ _).
  assert (Hr : fs_read system_configuration_path (disk w1) = Ok (to_xml config)).
  { unfold fs_read. cbn. by rewrite Hf, lookup_insert_eq. }
  assert (He : fs_exists system_configuration_path (disk w1) = true).
  { unfold fs_exists. cbn. rewrite Hf. apply bool_decide_eq_true. by rewrite lookup_insert_eq. }
  assert (Hwf : plist_wf config = true).
  { subst config. cbn [plist_wf]. rewrite bool_decide_eq_true_2.
    - cbn. by rewrite Hs.
    - cbn. apply NoDup_singleton. }
  unfold handle_read_buid, st_bind at 1, try, read_system_buid.
  unfold st_bind, read_disk, st_of, st_lift. rewrite He. cbn [negb].
  rewrite Hr. cbn [negb map_err].
  rewrite (from_to_xml _ Hwf). cbn. by rewrite reply_ok.
Qed.

End records.
