(* ===== verification/Network.v ===== *)
(** * Reaching a network device ([src/device/network.rs],
    [src/device/power_assertion.rs])

    [NetworkDevice::new] connects a heartbeat service and takes a power assertion
    before the device counts as connected; afterwards the heartbeat task decides
    when the device is gone.  The [idevice] crate, which parses pairing files and
    talks to the device, is the class [Idevice]; what the daemon itself does on
    the assertion service's stream ([send_recv]) is modelled on a [stream]. *)

From S2P Require Import Prelude Io Plist Request UsbMux Errors Conn Router UsbDevice Registry World.

Record TcpProvider (P : Type) : Type := MkProvider {
  provider_addr : IpAddr;
  provider_scope_id : option Z;
  provider_pairing_file : P;
  provider_label : string;
}.
Arguments MkProvider {P}.
Arguments provider_addr {P}.
Arguments provider_scope_id {P}.
Arguments provider_pairing_file {P}.
Arguments provider_label {P}.

(** The [idevice] crate; its errors are kept as their [Display] text. *)
Class Idevice : Type := {
  PairingFile : Type;
  pairing_file_from_bytes : list byte → string + PairingFile;
  wifi_mac_address : PairingFile → string;
  (** [HeartbeatClient::connect], [Assertion::connect] *)
  heartbeat_connect : TcpProvider PairingFile → string + ();
  assertion_connect : TcpProvider PairingFile → string + stream;
  (** [IdeviceError::Socket] *)
  idevice_socket_error : ErrorKind → string;
}.

(** Texts of the [plist] crate: [Value]'s [Debug], and the error of reading a
    [Dictionary] from another value. *)
Class PlistText : Type := {
  value_debug : Value → string;
  expected_dictionary : string;
}.

(** ** The assertion service's messages *)

Section assertion.
Context {plist : PlistCodec} {idev : Idevice} {ptext : PlistText}.

Definition idevice_result {A} (r : string + A) : outcome RusbmuxError.t A :=
  match r with inl e => Err (RusbmuxError.Idevice e) | inr a => Ok a end.

Definition idevice_io {A} (m : stateful stream ErrorKind A) : stateful stream RusbmuxError.t A :=
  st_map_err (λ k, RusbmuxError.Idevice (idevice_socket_error k)) m.

Definition send_recv (message : Value) : stateful stream RusbmuxError.t dict :=
  let body := to_xml message in
  let frame := be_encode 4 (wrap 32 (Z.of_nat (length body))) ++ body in
  let! _ := idevice_io (write_all frame) in
  let! len := idevice_io (read_exact 4) in
  let len := be_decode len in
  let! body := idevice_io (read_exact (Z.to_nat len)) in
  let! v := st_lift (map_err RusbmuxError.Plist (from_bytes body)) in
  st_lift (ok_or (RusbmuxError.Plist expected_dictionary) (as_dictionary v)).

(** [ASSERTION_TIMEOUT.as_secs_f64()], by its bits: 1200.0 *)
Definition ASSERTION_TIMEOUT : Value := Real 0x4092C00000000000.

Definition create_assertion : Value :=
  Dictionary
    [("CommandKey", String "CommandCreateAssertion");
     ("AssertionTypeKey", String "AMDPowerAssertionTypeWirelessSync");
     ("AssertionNameKey", String "rusbmux");
     ("AssertionTimeoutKey", ASSERTION_TIMEOUT);
     ("AssertionDetailKey", String "rusbmux")].

(** What [Assertion::new] does once it is connected *)
Definition assertion_exchange : stateful stream RusbmuxError.t () :=
  let! reply := send_recv create_assertion in
  match dict_get "ErrorKey" reply with
  | Some error => st_lift (Err (RusbmuxError.PowerAssertion (value_debug error)))
  | None => st_ret ()
  end.

(** ** Making a device *)

Definition pairing_file_at (path : string) (d : Disk) : outcome RusbmuxError.t PairingFile :=
  let? bytes := map_err RusbmuxError.IO (fs_read path d) in
  idevice_result (pairing_file_from_bytes bytes).

Definition assertion_new (addr : IpAddr) (scope_id : option Z) (udid : string) (d : Disk)
  : outcome RusbmuxError.t () :=
  let? pairing_file := pairing_file_at (pair_record_path udid) d in
  let provider := MkProvider addr scope_id pairing_file ("rusbmux_" +:+ udid +:+ "_power_assertion") in
  let? assertion := idevice_result (assertion_connect provider) in
  (assertion_exchange assertion).1.

(** The second address is tried when the first fails; the error is the first
    one's. *)
Definition connect_heartbeat_client (addr : IpAddr * option IpAddr) (scope_id : option Z)
    (udid : string) (d : Disk) : outcome RusbmuxError.t IpAddr :=
  let? pairing_file := pairing_file_at (pair_record_path udid) d in
  let label := "rusbmux_" +:+ udid +:+ "_heartbeat_client" in
  let make_provider ip := MkProvider ip scope_id pairing_file label in
  match heartbeat_connect (make_provider addr.1) with
  | inr _ => Ok addr.1
  | inl first_error =>
      match addr.2 with
      | Some second_ip =>
          match heartbeat_connect (make_provider second_ip) with
          | inr _ => Ok second_ip
          | inl _ => Err (RusbmuxError.Idevice first_error)
          end
      | None => Err (RusbmuxError.Idevice first_error)
      end
  end.

Definition network_device_new (id : Z) (addr : IpAddr * option IpAddr) (scope_id : option Z)
    (mac_address service_name udid : string) (d : Disk) : outcome RusbmuxError.t NetworkDevice :=
  let? addr := connect_heartbeat_client addr scope_id udid d in
  let? _ := assertion_new addr scope_id udid d in
  Ok (MkNetworkDevice id addr scope_id mac_address service_name udid false).

End assertion.

(** ** The heartbeat task *)

(** The loop's variables. *)
Record Heartbeat : Type := MkHeartbeat { interval : Z; hb_failed : bool }.

Definition heartbeat_start : Heartbeat := MkHeartbeat 15 false.

(** One round: what [get_marco] and [send_polo] gave.  [None]: the device is
    cancelled and the task ends.  When [i + 5] overflows it panics in a build that checks
    for overflow and wraps around in one that does not. *)
Definition heartbeat_turn (overflow_checks : bool) (marco : string + Z) (polo : string + ()) (h : Heartbeat)
  : outcome () (option Heartbeat) :=
  let send_polo (h : Heartbeat) :=
    match polo with
    | inr _ => Ok (Some h)
    | inl _ => if hb_failed h then Ok None else Ok (Some (MkHeartbeat (interval h) true))
    end in
  match marco with
  | inr i =>
      if overflow_checks && (2 ^ 64 <=? i + 5)%Z then Panic
      else send_polo (MkHeartbeat (wrap 64 (i + 5)) false)
  | inl _ => if hb_failed h then Ok None else send_polo (MkHeartbeat (interval h) true)
  end.

Fixpoint heartbeat_run (overflow_checks : bool) (rounds : list ((string + Z) * (string + ()))) (h : Heartbeat)
  : outcome () (option Heartbeat) :=
  match rounds with
  | [] => Ok (Some h)
  | (marco, polo) :: rounds =>
      match heartbeat_turn overflow_checks marco polo h with
      | Ok (Some h) => heartbeat_run overflow_checks rounds h
      | o => o
      end
  end.

(** ** Specification *)

(** What the task saw: a marco that came, a polo that went out, or a failure of
    either. *)
Inductive heartbeat_op : Type := MarcoCame | PoloSent | Failure.

Definition round_ops (round : (string + Z) * (string + ())) : list heartbeat_op :=
  [match round.1 with inr _ => MarcoCame | inl _ => Failure end;
   match round.2 with inr _ => PoloSent | inl _ => Failure end].

(** Intervals that do not overflow. *)
Definition round_ok (round : (string + Z) * (string + ())) : Prop :=
  match round.1 with inr i => (i + 5 < 2 ^ 64)%Z | inl _ => True end.

(** Two failures with no marco between them. *)
Definition gone (ops : list heartbeat_op) : Prop :=
  ∃ a b c, ops = a ++ Failure :: b ++ Failure :: c ∧ MarcoCame ∉ b.

(** ** Lemmas *)

(** The same, as a scan. *)
Fixpoint gone_scan (failed : bool) (ops : list heartbeat_op) : bool :=
  match ops with
  | [] => false
  | MarcoCame :: ops => gone_scan false ops
  | PoloSent :: ops => gone_scan failed ops
  | Failure :: ops => if failed then true else gone_scan true ops
  end.

Definition fails_first (ops : list heartbeat_op) : Prop :=
  ∃ b c, ops = b ++ Failure :: c ∧ MarcoCame ∉ b.

Lemma gone_cons_ok op ops : op ≠ Failure → gone (op :: ops) ↔ gone ops.
Proof.
  intros Hop. split.
  - intros ([|x a] & b & c & E & Hb); simplify_eq/=. by exists a, b, c.
  - intros (a & b & c & -> & Hb). by exists (op :: a), b, c.
Qed.

Lemma gone_cons_failure ops : gone (Failure :: ops) ↔ fails_first ops ∨ gone ops.
Proof.
  split.
  - intros ([|x a] & b & c & E & Hb); simplify_eq/=; [left; by exists b, c|right; by exists a, b, c].
  - intros [(b & c & -> & Hb)|(a & b & c & -> & Hb)]; [by exists [], b, c|by exists (Failure :: a), b, c].
Qed.

Lemma fails_first_cons op ops :
  fails_first (op :: ops) ↔ op = Failure ∨ (op = PoloSent ∧ fails_first ops).
Proof.
  split.
  - intros ([|x b] & c & E & Hb); injection E as -> ->; [by left|].
    apply not_elem_of_cons in Hb as [Hx Hb].
    destruct x; [done|right; split; [done|by exists b, c]|by left].
  - intros [->|[-> (b & c & -> & Hb)]]; [exists [], ops; split; [done|apply not_elem_of_nil]|].
    exists (PoloSent :: b), c. split; [done|]. by apply not_elem_of_cons.
Qed.

Lemma gone_scan_spec ops :
  (gone_scan true ops = true ↔ fails_first ops ∨ gone ops) ∧ (gone_scan false ops = true ↔ gone ops).
Proof.
  induction ops as [|op ops [IHt IHf]].
  - split; (split; [done|]); [intros [([] & ? & ? & _)|([] & ? & ? & ? & _)]
      |intros ([] & ? & ? & ? & _)]; discriminate.
  - rewrite fails_first_cons. destruct op; cbn [gone_scan];
      rewrite ?gone_cons_failure, ?(gone_cons_ok MarcoCame), ?(gone_cons_ok PoloSent), ?IHt, ?IHf by done;
      naive_solver.
Qed.

Lemma heartbeat_run_scan checks rounds h :
  Forall (λ round, checks = true → round_ok round) rounds →
  if gone_scan (hb_failed h) (rounds ≫= round_ops) then heartbeat_run checks rounds h = Ok None
  else ∃ h', heartbeat_run checks rounds h = Ok (Some h').
Proof.
  intros Hok. revert h. induction Hok as [|[marco polo] rounds Hm _ IH]; intros h; [by eexists|].
  unfold round_ok in Hm. cbn [mbind list_bind round_ops app fst snd heartbeat_run] in *.
  unfold heartbeat_turn. destruct marco as [e|i]; cbn [gone_scan].
  - destruct (hb_failed h); [done|]. destruct polo as [e'|]; cbn [gone_scan hb_failed]; [done|].
    apply (IH (MkHeartbeat (interval h) true)).
  - replace (checks && (2 ^ 64 <=? i + 5)%Z) with false.
    2: { symmetry. destruct checks; [|done]. apply Z.leb_gt. by apply Hm. }
    destruct polo as [e'|]; cbn [gone_scan hb_failed];
      [apply (IH (MkHeartbeat (wrap 64 (i + 5)) true))|apply (IH (MkHeartbeat (wrap 64 (i + 5)) false))].
Qed.

(** ** Properties *)

(** C34.  The heartbeat task gives a device up exactly when two of its
    operations fail with no marco in between: a single failure is survived, a
    marco forgives the failures before it, a polo that goes out does not.  This is so for all
    intervals in a build that does not check for overflow, and in one that does as long as
    no interval overflows. *)
Theorem heartbeat_gives_up checks rounds :
  Forall (λ round, checks = true → round_ok round) rounds →
  (heartbeat_run checks rounds heartbeat_start = Ok None ↔ gone (rounds ≫= round_ops)) ∧
  (¬ gone (rounds ≫= round_ops) → ∃ h, heartbeat_run checks rounds heartbeat_start = Ok (Some h)).
Proof.
  intros Hok. apply (heartbeat_run_scan _ _ heartbeat_start) in Hok. cbn [hb_failed heartbeat_start] in Hok.
  destruct (gone_scan_spec (rounds ≫= round_ops)) as [_ Hs].
  destruct (gone_scan _ _); rewrite <- Hs; [by rewrite Hok|].
  destruct Hok as [h ->]. split; [done|]. by exists h.
Qed.

Section theorems.
Context {plist : PlistCodec} {plaws : PlistCodecLaws} {idev : Idevice} {ptext : PlistText}.

(** Messages of the assertion service round-trip: on a connection
    whose next input is the frame of a dictionary (its length in four bytes, most
    significant first, and its property list), [send_recv] writes exactly the
    frame of its message, returns that dictionary and leaves the input behind the
    frame. *)
Theorem send_recv_roundtrip message d rest (s : stream) :
  let frame v := be_encode 4 (Z.of_nat (length (to_xml v))) ++ to_xml v in
  plist_wf (Dictionary d) = true → s_faults s = [] →
  (Z.of_nat (length (to_xml message)) < 2 ^ 32)%Z →
  (Z.of_nat (length (to_xml (Dictionary d))) < 2 ^ 32)%Z →
  s_in s = frame (Dictionary d) ++ rest →
  send_recv message s = (Ok d, Stream rest (s_end s) (s_out s ++ frame message) []).
Proof.
  intros frame Hwf Hf Hm Hd Hin. unfold send_recv, idevice_io. rewrite wrap_small by (split; lia).
  rewrite (st_bind_eq _ _ _ () (Stream (s_in s) (s_end s) (s_out s ++ frame message) []))
    by (unfold st_map_err; by rewrite write_all_faultless).
  rewrite Hin. unfold frame at 1. rewrite <- app_assoc.
  erewrite st_bind_eq by (unfold st_map_err; rewrite stream_read_app by apply length_be_encode; reflexivity).
  rewrite be_decode_encode by (split; lia). rewrite Nat2Z.id.
  erewrite st_bind_eq by (unfold st_map_err; rewrite stream_read_app by done; reflexivity).
  unfold st_bind, st_lift. by rewrite from_to_xml.
Qed.

(** A network device is made only when it was reached: its pairing file was
    readable and valid, the heartbeat service answered at the device's address,
    which is the first one given unless that one failed, and the assertion was
    granted.  If no address answers the error is that of the first. *)
Theorem network_device_new_reached id addr scope mac name udid (dk : Disk) :
  let provider pf ip := MkProvider ip scope pf ("rusbmux_" +:+ udid +:+ "_heartbeat_client") in
  (∀ d, network_device_new id addr scope mac name udid dk = Ok d →
    d = MkNetworkDevice id (nd_addr d) scope mac name udid false ∧
    ∃ bytes pf, fs_read (pair_record_path udid) dk = Ok bytes ∧
      pairing_file_from_bytes bytes = inr pf ∧
      heartbeat_connect (provider pf (nd_addr d)) = inr () ∧
      (nd_addr d = addr.1 ∨ (addr.2 = Some (nd_addr d) ∧
         ∃ e, heartbeat_connect (provider pf addr.1) = inl e)) ∧
      assertion_new (nd_addr d) scope udid dk = Ok ()) ∧
  (∀ bytes pf e, fs_read (pair_record_path udid) dk = Ok bytes →
    pairing_file_from_bytes bytes = inr pf → heartbeat_connect (provider pf addr.1) = inl e →
    (∀ ip, addr.2 = Some ip → ∃ e', heartbeat_connect (provider pf ip) = inl e') →
    network_device_new id addr scope mac name udid dk = Err (RusbmuxError.Idevice e)).
Proof.
  intros provider. split.
  - intros d H. unfold network_device_new in H. invert_binds. simplify_eq. split; [done|].
    match goal with E : connect_heartbeat_client _ _ _ _ = _ |- _ => rename E into Hc end.
    unfold connect_heartbeat_client, pairing_file_at in Hc. invert_binds.
    match goal with E : map_err _ (fs_read _ _) = Ok ?b |- _ => rename E into Hb; exists b end.
    match goal with E : idevice_result (pairing_file_from_bytes _) = Ok ?b |- _ => rename E into Hp; exists b end.
    destruct (fs_read _ _); simplify_eq/=. destruct (pairing_file_from_bytes _); simplify_eq/=.
    repeat match goal with u : () |- _ => destruct u end. subst provider. cbn.
    destruct (heartbeat_connect (MkProvider addr.1 _ _ _)) as [e|[]] eqn:E1; simplify_eq/=.
    2:{ split_and!; auto. }
    destruct addr.2 as [ip|] eqn:E2; [|done].
    destruct (heartbeat_connect (MkProvider ip _ _ _)) as [e'|[]] eqn:E3; simplify_eq/=.
    split_and!; eauto.
  - intros bytes pf e Hb Hp He H2. unfold network_device_new, connect_heartbeat_client, pairing_file_at.
    rewrite Hb. cbn [map_err outcome_bind]. rewrite Hp. cbn [idevice_result outcome_bind].
    unfold provider in He, H2. rewrite He. destruct addr.2 as [ip|]; [|done].
    destruct (H2 ip) as [e' ->]; done.
Qed.

End theorems.
