(* ===== verification/WatchNetwork.v ===== *)
(** * Watching the network ([src/watcher/network.rs])

    mDNS tells of devices on the network.  A service that resolves is matched with
    the pairing files that are saved, by the tags of its TXT record or, before iOS
    26.4, by the address in its name; the device is then reached and announced,
    and taken back when the service goes away or the device's token is cancelled.
    The mDNS daemon's records and idevice's tags are the class [Mdns], the order in
    which a directory is read the class [ReadDir]. *)

From Stdlib Require Import Strings.Ascii.
From S2P Require Import Prelude Ids Text Io Utf8 Plist Request UsbMux Errors Conn Router UsbDevice.
From S2P Require Import Registry World Network.

Definition SERVICE_TYPE : string := "_apple-mobdev2._tcp.local.".

(** ** Resolved services *)

(** [mdns_sd::ScopedIp], with the index of the interface an IPv6 address was seen
    on, or of each one an IPv4 address was *)
Inductive ScopedIp : Type :=
| ScopedV4 (addr : list byte) (interface_ids : list Z)
| ScopedV6 (addr : list byte) (scope_id : Z).

(** A property of the TXT record: its key, and its value if it has one *)
Record TxtProperty : Type := MkTxtProperty { txt_key : string; txt_val : option (list byte) }.

Record ResolvedService : Type := MkResolved {
  fullname : string;
  (** in the order the set is iterated *)
  addresses : list ScopedIp;
  properties : list TxtProperty;
}.

Class Mdns `{Idevice} : Type := {
  (** [ResolvedService::get_property_val] *)
  get_property_val : list TxtProperty → string → option (option (list byte));
  (** eight bytes, if it is one *)
  decode_auth_tag : list byte → option (list byte);
  derive_auth_tag : string → list byte → list byte;
  host_id : PairingFile → string;
  (** [mdns_sd::Error::DaemonShutdown], as text *)
  mdns_shutdown : string;
}.

Class ReadDir : Type := {
  (** [Path::read_dir]: the paths of its entries, each of which may fail *)
  read_dir : string → Disk → outcome ErrorKind (list (ErrorKind + string));
}.

Section watch_network.
Context {idev : Idevice} {md : Mdns} {rdir : ReadDir}.

Record ResolvedDevice : Type := MkResolvedDevice {
  rs_addr : IpAddr * option IpAddr;
  rs_scope_id : Z;
  rs_mac_address : string;
  rs_service_name : string;
  rs_udid : string;
}.

(** The entries that can be read, have a name in UTF-8 and hold a pairing file. *)
Definition get_saved_pairing_files (lockdown_path : string) (d : Disk)
  : list (string * PairingFile) :=
  match read_dir lockdown_path d with
  | Ok entries =>
      omap (λ path,
        match file_stem path ≫= λ fstem, if valid_utf8 (bytes_of_string fstem) then Some fstem else None with
        | Some udid =>
            match pairing_file_at path d with Ok pf => Some (udid, pf) | _ => None end
        | None => None
        end) (omap (λ e, match e with inr path => Some path | inl _ => None end) entries)
  | _ => []
  end.

Definition find_udid_from_txt (identifier : list byte) (auth_tags : list (list byte))
    (lockdown_path : string) (d : Disk) : option string :=
  match auth_tags with
  | [] => None
  | _ =>
      let decoded_tags := omap decode_auth_tag auth_tags in
      match decoded_tags with
      | [] => None
      | _ =>
          fst <$> find (λ '(udid, pf),
            bool_decide (derive_auth_tag (host_id pf) identifier ∈ decoded_tags))
            (get_saved_pairing_files lockdown_path d)
      end
  end.

Definition get_udid_from_mac_addr (mac_addr : string) (lockdown_path : string) (d : Disk)
  : option string :=
  fst <$> find (λ '(udid, pf), String.eqb mac_addr (wifi_mac_address pf))
    (get_saved_pairing_files lockdown_path d).

Definition find_v6 (addrs : list ScopedIp) : option (IpAddr * Z) :=
  head (omap (λ a, match a with ScopedV6 addr scope => Some (IpV6 addr, scope) | _ => None end) addrs).

Definition find_v4 (addrs : list ScopedIp) : option (IpAddr * Z) :=
  head (omap (λ a, match a with
                   | ScopedV4 addr ids => Some (IpV4 addr, default 0%Z (head ids))
                   | _ => None
                   end) addrs).

(** IPv6 is preferred, IPv4 kept as the second address. *)
Definition choose_addr (addrs : list ScopedIp) : option ((IpAddr * option IpAddr) * Z) :=
  match find_v6 addrs, find_v4 addrs with
  | Some (v6, scope), Some (v4, _) => Some ((v6, Some v4), scope)
  | Some (v6, scope), None => Some ((v6, None), scope)
  | None, Some (v4, scope) => Some ((v4, None), scope)
  | None, None => None
  end.

Definition auth_tags_of (props : list TxtProperty) : list (list byte) :=
  omap txt_val (filter (λ p, String.eqb (txt_key p) "authTag" || String.prefix "authTag#" (txt_key p) = true)
                  props).

Definition resolve_service (rs : ResolvedService) (lockdown_path : string) (d : Disk)
  : option ResolvedDevice :=
  match choose_addr (addresses rs) with
  | None => None
  | Some (addr, scope_id) =>
      let identifier := match get_property_val (properties rs) "identifier" with
                        | Some v => v
                        | None => None
                        end in
      let auth_tags := auth_tags_of (properties rs) in
      let mac_address := split_next "@" (fullname rs) in
      let udid :=
        match identifier, auth_tags with
        | Some ident, _ :: _ => find_udid_from_txt ident auth_tags lockdown_path d
        | _, _ => get_udid_from_mac_addr mac_address lockdown_path d
        end in
      match udid with
      | Some udid => Some (MkResolvedDevice addr scope_id mac_address (fullname rs) udid)
      | None => None
      end
  end.

(** ** The watch *)

Inductive ServiceEvent : Type :=
| ServiceResolved (rs : ResolvedService)
| ServiceRemoved (ty_domain name : string)
| OtherServiceEvent.

Record NetworkWatch : Type := MkNetworkWatch {
  (** [devices_id_map], from MAC addresses *)
  nw_ids : gmap string Z;
  (** [devs_canceler]: the device whose token is waited for, and its address *)
  devs_canceler : list (Z * string);
  (** [DEVICE_ID_COUNTER], which the other watchers use as well *)
  nw_counter : Z;
  nw_yielded : list NetworkEvent;
}.

Definition nw_start (counter : Z) : NetworkWatch := MkNetworkWatch ∅ [] counter [].

Definition nw_yield (e : NetworkEvent) (w : NetworkWatch) : NetworkWatch :=
  MkNetworkWatch (nw_ids w) (devs_canceler w) (nw_counter w) (nw_yielded w ++ [e]).

(** [if let Some(id) = devices_id_map.remove(mac_address) { yield .. }] *)
Definition nw_remove (mac_address : string) (w : NetworkWatch) : NetworkWatch :=
  match nw_ids w !! mac_address with
  | Some id =>
      nw_yield (NetworkDisconnected id)
        (MkNetworkWatch (delete mac_address (nw_ids w)) (devs_canceler w) (nw_counter w) (nw_yielded w))
  | None => w
  end.

(** Which branch of the [select!] completed: an event, with the files as they are
    then; the token of the device [id]; or that there will be no more events. *)
Inductive nw_input : Type :=
| ServiceCame (e : ServiceEvent) (d : Disk)
| TokenCancelled (id : Z)
| MdnsClosed.

(** The first future for the device, and the others. *)
Fixpoint take_canceler (id : Z) (cs : list (Z * string)) : option (string * list (Z * string)) :=
  match cs with
  | [] => None
  | (id', mac) :: cs =>
      if (id' =? id)%Z then Some (mac, cs)
      else match take_canceler id cs with
           | Some (mac', cs) => Some (mac', (id', mac) :: cs)
           | None => None
           end
  end.

Context {plist : PlistCodec} {ptext : PlistText}.

Definition nw_resolved (rs : ResolvedService) (d : Disk) (w : NetworkWatch) : NetworkWatch * bool :=
  match resolve_service rs LOCKDOWN_PATH d with
  | None => (w, true)
  | Some rd =>
      match nw_ids w !! rs_mac_address rd with
      | Some _ => (w, true)
      | None =>
          let '(id, counter) := next_device_id (nw_counter w) in
          let w := MkNetworkWatch (nw_ids w) (devs_canceler w) counter (nw_yielded w) in
          match network_device_new id (rs_addr rd) (Some (rs_scope_id rd)) (rs_mac_address rd)
                  (rs_service_name rd) (rs_udid rd) d with
          | Ok device =>
              (nw_yield (NetworkConnected device)
                 (MkNetworkWatch (<[rs_mac_address rd := id]> (nw_ids w))
                    (devs_canceler w ++ [(id, rs_mac_address rd)]) (nw_counter w) (nw_yielded w)), true)
          | Err err => (nw_yield (NetworkError err) w, true)
          | Panic | Ub => (w, false)
          end
      end
  end.

(** One turn; [false]: the stream has ended.  A closed receiver only ends it when no
    token is waited for. *)
Definition nw_turn (i : nw_input) (w : NetworkWatch) : NetworkWatch * bool :=
  match i with
  | ServiceCame (ServiceResolved rs) d => nw_resolved rs d w
  | ServiceCame (ServiceRemoved _ name) d => (nw_remove (split_next "@" name) w, true)
  | ServiceCame OtherServiceEvent d => (w, true)
  | TokenCancelled id =>
      match take_canceler id (devs_canceler w) with
      | Some (mac_address, cs) =>
          (nw_remove mac_address (MkNetworkWatch (nw_ids w) cs (nw_counter w) (nw_yielded w)), true)
      | None => (w, true)
      end
  | MdnsClosed =>
      match devs_canceler w with
      | [] => (nw_yield (NetworkError (RusbmuxError.Mdns mdns_shutdown)) w, false)
      | _ => (w, true)
      end
  end.

Fixpoint nw_run (inputs : list nw_input) (w : NetworkWatch) : NetworkWatch * bool :=
  match inputs with
  | [] => (w, true)
  | i :: inputs =>
      match nw_turn i w with
      | (w, true) => nw_run inputs w
      | (w, false) => (w, false)
      end
  end.

(** [ServiceDaemon::new()?] and [browse(..)?] end the stream at once. *)
Definition watch_network (mdns : string + ()) (inputs : list nw_input) (w : NetworkWatch) : NetworkWatch * bool :=
  match mdns with
  | inl e => (nw_yield (NetworkError (RusbmuxError.Mdns e)) w, false)
  | inr _ => nw_run inputs w
  end.

(** ** Specification *)

Definition nw_id_event (e : NetworkEvent) : option IdEvent :=
  match e with
  | NetworkConnected d => Some (Given (nd_id d))
  | NetworkDisconnected id => Some (Taken id)
  | NetworkError _ => None
  end.

Definition nw_id_events (w : NetworkWatch) : list IdEvent := omap nw_id_event (nw_yielded w).

(** Ids are given and taken back in order; the ids that are held are those of the
    map, and the token of each of these devices is waited for. *)
Record nw_inv (w : NetworkWatch) : Prop := {
  nwi_ids : ids_inv (nw_ids w) (nw_counter w) (nw_id_events w);
  nwi_exact : ids_exact (nw_ids w) (nw_id_events w);
  nwi_waits : ∀ mac id, nw_ids w !! mac = Some id → (id, mac) ∈ devs_canceler w;
  nwi_cancelers : ∀ id mac, (id, mac) ∈ devs_canceler w → (id < nw_counter w)%Z;
  nwi_functional : base.NoDup (devs_canceler w).*1;
}.

(** Something saved under a name with this stem matches the service. *)
Definition saved_match (rs : ResolvedService) (udid : string) (d : Disk) : Prop :=
  ∃ pf, (udid, pf) ∈ get_saved_pairing_files LOCKDOWN_PATH d ∧
    match mjoin (get_property_val (properties rs) "identifier"), auth_tags_of (properties rs) with
    | Some ident, (_ :: _) as tags => derive_auth_tag (host_id pf) ident ∈ omap decode_auth_tag tags
    | _, _ => wifi_mac_address pf = split_next "@" (fullname rs)
    end.

End watch_network.

(** ** Lemmas *)

Section lemmas.
Context {idev : Idevice} {md : Mdns} {rdir : ReadDir} {plist : PlistCodec} {ptext : PlistText}.

Lemma network_device_new_fields id addr scope mac name udid (d : Disk) dev :
  network_device_new id addr scope mac name udid d = Ok dev →
  nd_id dev = id ∧ nd_mac_address dev = mac ∧ nd_udid dev = udid ∧ nd_canceled dev = false.
Proof. unfold network_device_new. intros H. invert_binds. by simplify_eq/=. Qed.

(** Some address is found if there is any. *)
Lemma choose_addr_spec addrs :
  match choose_addr addrs with
  | Some (addr, scope) =>
      addrs ≠ [] ∧
      ((∃ a, addr.1 = IpV6 a ∧ ScopedV6 a scope ∈ addrs) ∨ (∀ a s, ScopedV6 a s ∉ addrs))
  | None => addrs = []
  end.
Proof.
  unfold choose_addr, find_v6, find_v4.
  set (v6 := omap _ addrs). set (v4 := omap _ addrs).
  assert (H6 : match head v6 with
               | Some (ip, s) => ∃ a, ip = IpV6 a ∧ ScopedV6 a s ∈ addrs
               | None => ∀ a s, ScopedV6 a s ∉ addrs
               end).
  { destruct v6 as [|[ip s] l] eqn:E; cbn.
    - intros a s Hin. assert (H : (IpV6 a, s) ∈ v6); [|rewrite E in H; by apply not_elem_of_nil in H].
      apply list_elem_of_omap. by exists (ScopedV6 a s).
    - assert (H : (ip, s) ∈ v6) by (rewrite E; constructor).
      apply list_elem_of_omap in H as ([|a s'] & Hin & H); simplify_eq. eauto. }
  assert (H4 : head v4 = None → ∀ a s, ScopedV4 a s ∉ addrs).
  { destruct v4 as [|x l] eqn:E; [|done]. intros _ a s Hin.
    assert (H : (IpV4 a, default 0%Z (head s)) ∈ v4); [|rewrite E in H; by apply not_elem_of_nil in H].
    apply list_elem_of_omap. by exists (ScopedV4 a s). }
  assert (Hne : is_Some (head v6) ∨ is_Some (head v4) → addrs ≠ []) by (intros H ->; by destruct H as [[? [=]]|[? [=]]]).
  destruct (head v6) as [[ip s]|], (head v4) as [[ip' s']|]; cbn;
    try (split; [apply Hne; eauto|]).
  - destruct H6 as (a & -> & Hin). left. eauto.
  - destruct H6 as (a & -> & Hin). left. eauto.
  - by right.
  - destruct addrs as [|[a s|a s] addrs]; [done| |]; exfalso; [eapply H4|eapply H6]; [done|constructor|constructor].
Qed.

Lemma find_saved_spec (f : string * PairingFile → bool) (P : PairingFile → Prop) l :
  (∀ udid pf, f (udid, pf) = true ↔ P pf) →
  match fst <$> find f l with
  | Some udid => ∃ pf, (udid, pf) ∈ l ∧ P pf
  | None => ∀ udid, ¬ ∃ pf, (udid, pf) ∈ l ∧ P pf
  end.
Proof.
  intros HP. destruct (find f l) as [[udid pf]|] eqn:E; cbn.
  - apply find_some in E as [Hin Hf%HP]. exists pf. split; [by apply list_elem_of_In|done].
  - intros udid (pf & Hin & Hf%(HP udid)). eapply find_none in E; [|by apply list_elem_of_In]. congruence.
Qed.

(** The [udid] that the service is matched with. *)
Lemma resolve_udid_spec rs d :
  match (match mjoin (get_property_val (properties rs) "identifier"), auth_tags_of (properties rs) with
         | Some ident, _ :: _ => find_udid_from_txt ident (auth_tags_of (properties rs)) LOCKDOWN_PATH d
         | _, _ => get_udid_from_mac_addr (split_next "@" (fullname rs)) LOCKDOWN_PATH d
         end) with
  | Some udid => saved_match rs udid d
  | None => ∀ udid, ¬ saved_match rs udid d
  end.
Proof.
  unfold saved_match, find_udid_from_txt, get_udid_from_mac_addr.
  pose proof (find_saved_spec (λ '(udid, pf), String.eqb (split_next "@" (fullname rs)) (wifi_mac_address pf))
    (λ pf, wifi_mac_address pf = split_next "@" (fullname rs)) (get_saved_pairing_files LOCKDOWN_PATH d)) as Hmac.
  specialize (Hmac ltac:(intros udid pf; rewrite String.eqb_eq; split; congruence)).
  destruct (mjoin _) as [ident|]; [|done].
  destruct (auth_tags_of (properties rs)) as [|t ts] eqn:Et; [done|].
  destruct (omap decode_auth_tag (t :: ts)) as [|x tags] eqn:Ed.
  { intros udid (pf & _ & H). by apply not_elem_of_nil in H. }
  apply (find_saved_spec (λ '(udid, pf), bool_decide (derive_auth_tag (host_id pf) ident ∈ x :: tags))
    (λ pf, derive_auth_tag (host_id pf) ident ∈ x :: tags)).
  intros udid pf. apply bool_decide_eq_true.
Qed.

Lemma resolve_service_eq rs d :
  resolve_service rs LOCKDOWN_PATH d =
    match choose_addr (addresses rs),
          match mjoin (get_property_val (properties rs) "identifier"), auth_tags_of (properties rs) with
          | Some ident, _ :: _ => find_udid_from_txt ident (auth_tags_of (properties rs)) LOCKDOWN_PATH d
          | _, _ => get_udid_from_mac_addr (split_next "@" (fullname rs)) LOCKDOWN_PATH d
          end with
    | Some (addr, scope_id), Some udid =>
        Some (MkResolvedDevice addr scope_id (split_next "@" (fullname rs)) (fullname rs) udid)
    | _, _ => None
    end.
Proof.
  unfold resolve_service. destruct (choose_addr (addresses rs)) as [[addr scope]|]; [|done].
  destruct (get_property_val (properties rs) "identifier") as [[ident|]|]; reflexivity.
Qed.

Lemma resolve_service_mac rs d rd :
  resolve_service rs LOCKDOWN_PATH d = Some rd → rs_mac_address rd = split_next "@" (fullname rs).
Proof. rewrite resolve_service_eq. intros H. repeat case_match; by simplify_eq/=. Qed.

(** Does taking a future out leave the others. *)
Lemma take_canceler_spec id cs :
  base.NoDup cs.*1 →
  match take_canceler id cs with
  | Some (mac, cs') => (id, mac) ∈ cs ∧ base.NoDup cs'.*1 ∧
      ∀ c, c ∈ cs' ↔ c ∈ cs ∧ c.1 ≠ id
  | None => ∀ mac, (id, mac) ∉ cs
  end.
Proof.
  induction cs as [|[id' mac] cs IH]; intros Hn; cbn; [intros mac Hm; by apply not_elem_of_nil in Hm|].
  cbn in Hn. apply list.NoDup_cons in Hn as [Hid Hn]. specialize (IH Hn).
  destruct (Z.eqb_spec id' id) as [->|Hne].
  - split; [constructor|]. split; [done|]. intros c. rewrite elem_of_cons. split.
    + intros Hc. split; [by right|]. intros <-. apply Hid. by apply list_elem_of_fmap_2.
    + intros [[->|Hc] H]; done.
  - destruct (take_canceler id cs) as [[mac' cs']|].
    + destruct IH as (H1 & H2 & H3). split; [by right|]. split.
      * cbn. apply list.NoDup_cons. split; [|done]. intros (c & E & Hc)%list_elem_of_fmap.
        apply H3 in Hc as [Hc _]. apply Hid. rewrite E. by apply list_elem_of_fmap_2.
      * intros c. rewrite !elem_of_cons, H3. naive_solver.
    + intros m [[= <- ->]|Hm]%elem_of_cons; [done|]. by eapply IH.
Qed.

Lemma cancelers_functional (cs : list (Z * string)) id mac1 mac2 :
  base.NoDup cs.*1 → (id, mac1) ∈ cs → (id, mac2) ∈ cs → mac1 = mac2.
Proof.
  intros Hn [i1 H1]%list_elem_of_lookup [i2 H2]%list_elem_of_lookup.
  assert (i1 = i2) as ->; [|congruence].
  eapply (NoDup_lookup _ i1 i2 id Hn); rewrite list_lookup_fmap; [by rewrite H1|by rewrite H2].
Qed.

(** The future of a device that is waited for comes out first. *)
Lemma take_canceler_some id mac cs :
  base.NoDup cs.*1 → (id, mac) ∈ cs → ∃ cs', take_canceler id cs = Some (mac, cs').
Proof.
  intros Hn Hin. pose proof (take_canceler_spec id cs Hn) as Ht.
  destruct (take_canceler id cs) as [[mac' cs']|]; [|by apply Ht in Hin].
  destruct Ht as (H1 & _ & _). exists cs'. by rewrite (cancelers_functional cs id mac mac').
Qed.

Lemma cancelers_snoc (cs : list (Z * string)) c mac :
  base.NoDup cs.*1 → (∀ id mac, (id, mac) ∈ cs → (id < c)%Z) → base.NoDup (cs ++ [(c, mac)]).*1.
Proof.
  intros Hn Hlt. rewrite fmap_app. apply list.NoDup_app. split_and!; [done| |by apply list.NoDup_singleton].
  intros id ([id' mac'] & -> & Hi%Hlt)%list_elem_of_fmap E%list_elem_of_singleton. cbn in E. lia.
Qed.

Lemma nw_start_inv counter : (0 ≤ counter)%Z → nw_inv (nw_start counter).
Proof.
  intros Hc. split; cbn; [by apply ids_inv_start|apply ids_exact_start|done| |constructor].
  intros id mac Hi. by apply not_elem_of_nil in Hi.
Qed.

Lemma nw_id_events_yield e w :
  nw_id_events (nw_yield e w) = nw_id_events w ++ match nw_id_event e with Some i => [i] | None => [] end.
Proof. unfold nw_id_events. cbn. rewrite omap_app. cbn. by destruct (nw_id_event e). Qed.

(** An error tells of no device. *)
Lemma nw_error_inv e w : nw_inv w → nw_inv (nw_yield (NetworkError e) w).
Proof.
  intros [H1 H2 H3 H4 H5]. split; cbn [nw_yield nw_ids nw_counter devs_canceler]; try done;
    by rewrite nw_id_events_yield, app_nil_r.
Qed.

(** Removing an address, when the futures [cs'] wait for the tokens of the others. *)
Lemma nw_remove_inv mac cs' w :
  nw_inv w → base.NoDup cs'.*1 →
  (∀ c, c ∈ cs' → c ∈ devs_canceler w) →
  (∀ c, c ∈ devs_canceler w → c.2 ≠ mac → c ∈ cs') →
  nw_inv (nw_remove mac (MkNetworkWatch (nw_ids w) cs' (nw_counter w) (nw_yielded w))).
Proof.
  intros [H1 H2 H3 H4 H5] Hn Hsub Hother. unfold nw_remove. cbn [nw_ids devs_canceler nw_counter nw_yielded].
  destruct (nw_ids w !! mac) as [id|] eqn:E.
  - split; rewrite ?nw_id_events_yield; cbn [nw_yield nw_ids nw_counter devs_canceler nw_id_event].
    + by apply ids_inv_take.
    + by apply ids_exact_take.
    + intros mac' id' [Hne Hm]%lookup_delete_Some. apply Hother; [by apply H3|done].
    + intros id' mac' Hc%Hsub. by eapply H4.
    + done.
  - split; cbn [nw_ids nw_counter devs_canceler]; try done.
    + intros mac' id' Hm. apply Hother; [by apply H3|]. cbn. congruence.
    + intros id' mac' Hc%Hsub. by eapply H4.
Qed.

Lemma nw_resolved_inv rs d w :
  nw_inv w → (nw_counter w + 1 < 2 ^ 64)%Z → nw_inv (nw_resolved rs d w).1.
Proof.
  intros Hw Hc. unfold nw_resolved. destruct (resolve_service rs _ d) as [rd|]; [|done].
  destruct (nw_ids w !! rs_mac_address rd) eqn:E; [done|]. cbn [next_device_id].
  destruct Hw as [H1 H2 H3 H4 H5]. pose proof (ii_counter _ _ _ H1) as H0.
  assert (Ew : wrap 64 (nw_counter w + 1) = (nw_counter w + 1)%Z) by (apply Z.mod_small; lia).
  rewrite Ew.
  assert (Hlater : nw_inv (MkNetworkWatch (nw_ids w) (devs_canceler w) (nw_counter w + 1) (nw_yielded w))).
  { split; try done; [eapply ids_inv_later; [|done]; cbn; lia|].
    intros id mac Hi%H4. cbn. lia. }
  destruct (network_device_new _ _ _ _ _ _ d) as [dev|e| |] eqn:En; [|by apply nw_error_inv|done..].
  apply network_device_new_fields in En as (Eid & _).
  cbn [fst]. split; rewrite ?nw_id_events_yield;
    cbn [nw_yield nw_ids nw_counter devs_canceler nw_id_event]; rewrite ?Eid.
  - apply ids_inv_give; [lia|done].
  - by apply ids_exact_give.
  - intros mac id [[<- <-]|[_ Hm]]%lookup_insert_Some; [set_solver|].
    apply elem_of_app. left. by apply H3.
  - intros id mac [Hi%H4|[= -> ->]%list_elem_of_singleton]%elem_of_app; lia.
  - by apply cancelers_snoc.
Qed.

Lemma nw_turn_inv i w : nw_inv w → (nw_counter w + 1 < 2 ^ 64)%Z → nw_inv (nw_turn i w).1.
Proof.
  intros Hw Hc. destruct i as [[rs|ty name|] d|id|]; cbn [nw_turn]; [by apply nw_resolved_inv| |done| |].
  - destruct w as [ids cs c ys]. cbn [fst]. apply (nw_remove_inv _ cs (MkNetworkWatch ids cs c ys)); try done.
    by destruct Hw.
  - pose proof (take_canceler_spec id (devs_canceler w) (nwi_functional _ Hw)) as Ht.
    destruct (take_canceler id (devs_canceler w)) as [[mac cs']|]; [|done].
    destruct Ht as (H1 & H2 & H3). apply nw_remove_inv; [done..| |].
    + intros c Hc'%H3. by destruct Hc'.
    + intros [id' mac'] Hc' Hne. apply H3. split; [done|]. cbn in *. intros ->. apply Hne.
      by eapply cancelers_functional; [apply nwi_functional| |].
  - destruct (devs_canceler w) eqn:E; [|done]. cbn [fst]. by apply nw_error_inv.
Qed.

Lemma nw_remove_counter mac w : nw_counter (nw_remove mac w) = nw_counter w.
Proof. unfold nw_remove. by destruct (nw_ids w !! mac). Qed.

Lemma nw_turn_counter i w :
  nw_inv w → (nw_counter w + 1 < 2 ^ 64)%Z →
  (nw_counter w ≤ nw_counter (nw_turn i w).1 ≤ nw_counter w + 1)%Z.
Proof.
  intros Hw Hc. pose proof (ii_counter _ _ _ (nwi_ids _ Hw)) as H0.
  assert (Ew : wrap 64 (nw_counter w + 1) = (nw_counter w + 1)%Z) by (apply Z.mod_small; lia).
  destruct i as [[rs|ty name|] d|id|]; cbn [nw_turn fst]; [|rewrite nw_remove_counter; lia|lia| |].
  - unfold nw_resolved. destruct (resolve_service rs _ d) as [rd|]; [|cbn; lia].
    destruct (nw_ids w !! rs_mac_address rd); [cbn; lia|]. cbn [next_device_id].
    destruct (network_device_new _ _ _ _ _ _ d); cbn [fst nw_yield nw_counter]; lia.
  - destruct (take_canceler _ _) as [[mac cs']|]; cbn [fst]; rewrite ?nw_remove_counter; cbn; lia.
  - destruct (devs_canceler w); cbn; lia.
Qed.

Lemma nw_run_inv inputs : ∀ w,
  nw_inv w → (nw_counter w + Z.of_nat (length inputs) < 2 ^ 64)%Z → nw_inv (nw_run inputs w).1.
Proof.
  induction inputs as [|i inputs IH]; intros w Hw Hc; [done|]. cbn [length] in Hc. cbn [nw_run].
  pose proof (nw_turn_inv i w Hw ltac:(lia)) as H1. pose proof (nw_turn_counter i w Hw ltac:(lia)) as H2.
  destruct (nw_turn i w) as [w' []]; cbn [fst] in *; [|done]. apply IH; [done|lia].
Qed.

End lemmas.

(** ** Theorems *)

Section theorems.
Context {idev : Idevice} {md : Mdns} {rdir : ReadDir} {plist : PlistCodec} {ptext : PlistText}.

(** C21.  Whatever comes in and in whatever order, while there are ids left: the network
    watch gives each device an id that none had before and takes back only ids that
    are held; the ids that are held are those of its map, each of one address, and
    for each of them the watch still waits for the device's token, so that a device
    that cancels itself is taken back. *)
Theorem watch_network_ids start mdns inputs :
  (0 ≤ start)%Z → (start + Z.of_nat (length inputs) < 2 ^ 64)%Z →
  let w := (watch_network mdns inputs (nw_start start)).1 in
  bracketed (nw_id_events w) ∧
  (∀ id, id ∈ live (nw_id_events w) ↔
     ∃ mac, nw_ids w !! mac = Some id ∧ ∀ mac', nw_ids w !! mac' = Some id → mac' = mac) ∧
  (∀ mac id, nw_ids w !! mac = Some id →
     nw_ids (nw_turn (TokenCancelled id) w).1 !! mac = None ∧
     list.last (nw_yielded (nw_turn (TokenCancelled id) w).1) = Some (NetworkDisconnected id)).
Proof.
  intros H0 Hn w. assert (Hw : nw_inv w).
  { subst w. destruct mdns; [by apply nw_error_inv, nw_start_inv|]. by apply nw_run_inv; [apply nw_start_inv|]. }
  split_and!; [apply Hw| |].
  - intros id. eapply ids_live_iff; apply Hw.
  - intros mac id Hm. cbn [nw_turn].
    destruct (take_canceler_some id mac (devs_canceler w)) as [cs' ->]; [apply Hw|by apply Hw|].
    unfold nw_remove. cbn [nw_ids fst]. rewrite Hm. cbn [nw_yield nw_ids nw_yielded].
    split; [apply lookup_delete_eq|]. by rewrite list.last_snoc.
Qed.

(** The futures in [devs_canceler] know a device by its address only.  When a
    device went away by an mDNS removal and is resolved again before the future of
    the device that it was has run, that future takes the new device back, although
    it is connected and its own token is not cancelled. *)
Theorem stale_canceler_disconnects rs rd d ty mac old w dev :
  nw_inv w → (nw_counter w + 1 < 2 ^ 64)%Z →
  split_next "@" (fullname rs) = mac → nw_ids w !! mac = Some old →
  resolve_service rs LOCKDOWN_PATH d = Some rd →
  network_device_new (nw_counter w) (rs_addr rd) (Some (rs_scope_id rd)) (rs_mac_address rd)
    (rs_service_name rd) (rs_udid rd) d = Ok dev →
  let inputs := [ServiceCame (ServiceRemoved ty (fullname rs)) d; ServiceCame (ServiceResolved rs) d;
                 TokenCancelled old] in
  nw_yielded (nw_run inputs w).1 =
    nw_yielded w ++ [NetworkDisconnected old; NetworkConnected dev; NetworkDisconnected (nd_id dev)] ∧
  nd_id dev ≠ old ∧ nd_canceled dev = false.
Proof.
  intros Hw Hc Hmac Hold Hr Hd inputs.
  pose proof (resolve_service_mac _ _ _ Hr) as Hrd. rewrite Hmac in Hrd.
  destruct (network_device_new_fields _ _ _ _ _ _ _ _ Hd) as (Eid & _ & _ & Ecan).
  pose proof (nwi_waits _ Hw _ _ Hold) as Hin. pose proof (nwi_cancelers _ Hw _ _ Hin) as Hlt.
  split; [|split; [lia|done]].
  destruct w as [ids cs c ys]. cbn [nw_counter nw_ids devs_canceler nw_yielded] in *. subst inputs.
  cbn [nw_run nw_turn]. unfold nw_remove at 1. rewrite Hmac. cbn [nw_ids]. rewrite Hold.
  unfold nw_yield at 1. cbn [nw_ids devs_canceler nw_counter nw_yielded]. unfold nw_resolved. rewrite Hr.
  cbn [nw_ids]. rewrite Hrd, lookup_delete_eq. cbn [next_device_id nw_counter nw_ids devs_canceler nw_yielded].
  rewrite Hrd in Hd. rewrite Hd. unfold nw_yield at 1. cbn [nw_ids devs_canceler nw_counter nw_yielded].
  destruct (take_canceler_some old mac (cs ++ [(c, mac)])) as [cs' ->].
  { apply cancelers_snoc; apply Hw. }
  { apply elem_of_app. by left. }
  unfold nw_remove. cbn [nw_ids nw_yield]. rewrite lookup_insert_eq.
  cbn. rewrite Eid. by rewrite <- !app_assoc.
Qed.

(** C31.  A service resolves to a device exactly when it has an address and a pairing
    file matches it: by a tag that the file's host id derives from the identifier
    when the TXT record has both, and only otherwise by the address in the
    service's name.  The device has the [udid] of a file that matches, and IPv6 is
    used where there is an IPv6 address. *)
Theorem resolve_service_spec rs d :
  (is_Some (resolve_service rs LOCKDOWN_PATH d) ↔
     addresses rs ≠ [] ∧ ∃ udid, saved_match rs udid d) ∧
  (∀ rd, resolve_service rs LOCKDOWN_PATH d = Some rd →
     saved_match rs (rs_udid rd) d ∧ rs_mac_address rd = split_next "@" (fullname rs) ∧
     ((∃ a, (rs_addr rd).1 = IpV6 a ∧ ScopedV6 a (rs_scope_id rd) ∈ addresses rs) ∨
      ∀ a s, ScopedV6 a s ∉ addresses rs)).
Proof.
  rewrite resolve_service_eq. pose proof (choose_addr_spec (addresses rs)) as Ha.
  pose proof (resolve_udid_spec rs d) as Hu. revert Ha Hu.
  generalize (match mjoin (get_property_val (properties rs) "identifier") with
     | Some ident => match auth_tags_of (properties rs) with
        | [] => get_udid_from_mac_addr (split_next "@" (fullname rs)) LOCKDOWN_PATH d
        | _ :: _ => find_udid_from_txt ident (auth_tags_of (properties rs)) LOCKDOWN_PATH d end
     | None => get_udid_from_mac_addr (split_next "@" (fullname rs)) LOCKDOWN_PATH d end).
  intros udid Ha Hu. destruct (choose_addr (addresses rs)) as [[addr scope]|].
  - destruct Ha as [Hne Ha]. destruct udid as [udid|].
    + split; [|by intros rd [= <-]]. split; [eauto|done].
    + split; [|done]. split; [by intros []|]. intros [_ [u H]]. by apply Hu in H.
  - split; [|done]. split; [by intros []|]. by intros [H _].
Qed.

End theorems.
