(* ===== verification/Watchers.v ===== *)
(** * The watchers and the registry together

    The USB watcher, the network watcher and [add_device] run as tasks of their own
    that share the counter of device ids and the registry.  Here they are put
    together: a backend's watch feeds [watch_usb] and that the daemon's loop,
    [watch_network] feeds the daemon's other loop, and the steps of all tasks
    interleave, in whatever state the registry is.  Every transition that this makes in
    the registry is one of [Registry.registry_step], so that the view of clients stays
    right but for the ids that these disturb. *)

From Stdlib Require Import Strings.Ascii.
From S2P Require Import Prelude Ids Text Io Tcp Utf8 DeviceMux Plist Request UsbMux Errors Conn Backend.
From S2P Require Import Hotplug Router Loops UsbDevice Registry WatchUsb World Network WatchNetwork.

Section watchers.
Context {L : Type} {link : Link L} {mo : MapOrder} {ro : RegistryOrder L} {codec : TcpCodec}.
Context {idev : Idevice} {md : Mdns} {rdir : ReadDir} {plist : PlistCodec} {ptext : PlistText}.

(** An event of either backend, or a device that [nusb] lists at the start. *)
Inductive backend_event : Type :=
| NusbListed (dev : AnyDeviceInfo)
| NusbEvent (e : HotplugEvent)
| RusbEvent (e : Hotplug.UsbEvent).

Definition backend_turn (e : backend_event) (w : Watch) : Watch :=
  match e with
  | NusbListed dev => announce dev w
  | NusbEvent e => nusb_watch_turn w e
  | RusbEvent e => rusb_watch_turn w e
  end.

(** The queues hold what a watcher has yielded and the daemon's loop has not yet
    handled: a watcher only goes on when the loop asks for more. *)
Record System : Type := MkSystem {
  sy_daemon : Daemon L;
  (** [DEVICE_ID_COUNTER] *)
  sy_counter : Z;
  sy_backend : Watch;
  sy_usb_queue : list (WatchEvent (L := L));
  sy_net : NetworkWatch;
  sy_net_queue : list NetworkEvent;
  (** The [add_device] requests that are reaching their device: its [udid], the id
      taken for it, the device that was taken out *)
  sy_adding : list (string * Z * option (Z * Device L));
}.

Definition sy_start (counter : Z) : System :=
  MkSystem (MkDaemon ∅ []) counter (watch_start counter) [] (nw_start counter) [] [].

(** The watches read the shared counter. *)
Definition backend_at (s : System) : Watch :=
  MkWatch (devices_id_map (sy_backend s)) (sy_counter s) (yielded (sy_backend s)).

Definition net_at (s : System) : NetworkWatch :=
  MkNetworkWatch (nw_ids (sy_net s)) (devs_canceler (sy_net s)) (sy_counter s) (nw_yielded (sy_net s)).

(** What [watch_usb] makes of what the backend's watch has newly yielded. *)
Definition usb_queue_of (news : list BackendEvent) (q : list (WatchEvent (L := L))) : Prop :=
  match news with
  | [] => q = []
  | e :: _ => ∃ first link now attempts, usb_turn (HotplugCame (inr e) first link now attempts) = Ok (Some q)
  end.

(** What the daemon's loop disturbs: the old entry of a device that connects again. *)
Definition usb_disturbs (e : WatchEvent (L := L)) (s : Daemon L) : gset Z :=
  match e with DeviceConnected d _ => usb_ids (ud_udid d) s | _ => ∅ end.

(** A step, and the ids it disturbs. *)
Inductive system_step : System → gset Z → System → Prop :=
| backend_tells s e q :
    sy_usb_queue s = [] → (sy_counter s + 1 < 2 ^ 64)%Z →
    let w := backend_turn e (backend_at s) in
    usb_queue_of (drop (length (yielded (sy_backend s))) (yielded w)) q →
    system_step s ∅ (MkSystem (sy_daemon s) (id_counter w) w q (sy_net s) (sy_net_queue s) (sy_adding s))
| io_disconnect s id opaque a q :
    sy_usb_queue s = [] → id ∈ given (id_events (sy_backend s)) →
    usb_turn (IoDisconnected (IODisconnected id opaque) a) = Ok (Some q) →
    system_step s ∅ (MkSystem (sy_daemon s) (sy_counter s) (sy_backend s) q (sy_net s) (sy_net_queue s) (sy_adding s))
| usb_handled s e q :
    sy_usb_queue s = e :: q →
    system_step s (usb_disturbs e (sy_daemon s))
      (MkSystem (watch_usb_daemon_turn (daemon_event e) (sy_daemon s)) (sy_counter s)
         (sy_backend s) q (sy_net s) (sy_net_queue s) (sy_adding s))
| net_tells s i :
    sy_net_queue s = [] → (sy_counter s + 1 < 2 ^ 64)%Z →
    let w := (nw_turn i (net_at s)).1 in
    system_step s ∅ (MkSystem (sy_daemon s) (nw_counter w) (sy_backend s) (sy_usb_queue s) w
                       (drop (length (nw_yielded (sy_net s))) (nw_yielded w)) (sy_adding s))
| net_handled s e q r d' :
    sy_net_queue s = e :: q → watch_network_daemon_turn e (sy_daemon s) = (r, d') →
    system_step s ∅ (MkSystem d' (sy_counter s) (sy_backend s) (sy_usb_queue s) (sy_net s) q (sy_adding s))
(** [add_device] finds that there is nothing to do, or takes the old device out and the
    next id. *)
| add_declined s udid force d' :
    take_old udid force (sy_daemon s) = (None, d') →
    system_step s ∅ (MkSystem d' (sy_counter s) (sy_backend s) (sy_usb_queue s) (sy_net s) (sy_net_queue s)
                       (sy_adding s))
| add_begins s udid force old d' :
    (sy_counter s + 1 < 2 ^ 64)%Z → take_old udid force (sy_daemon s) = (Some old, d') →
    system_step s ∅ (MkSystem d' (next_device_id (sy_counter s)).2 (sy_backend s) (sy_usb_queue s)
                       (sy_net s) (sy_net_queue s) ((udid, (next_device_id (sy_counter s)).1, old) :: sy_adding s))
(** It has reached its device, or not. *)
| add_ends s udid id made old r d' before after :
    sy_adding s = before ++ (udid, id, old) :: after →
    (∀ d, made = Ok d → nd_id d = id ∧ nd_udid d = udid) →
    put_new udid id made old (sy_daemon s) = (r, d') →
    system_step s (put_disturbs udid id made old (sy_daemon s))
      (MkSystem d' (sy_counter s) (sy_backend s) (sy_usb_queue s) (sy_net s) (sy_net_queue s) (before ++ after))
| removed s id r d' :
    remove_device id (sy_daemon s) = (r, d') →
    system_step s ∅ (MkSystem d' (sy_counter s) (sy_backend s) (sy_usb_queue s) (sy_net s) (sy_net_queue s)
                       (sy_adding s)).

Inductive system_steps : System → gset Z → System → Prop :=
| system_nil s : system_steps s ∅ s
| system_snoc s X s1 Y s' : system_steps s X s1 → system_step s1 Y s' → system_steps s (X ∪ Y) s'.

(** ** The invariant *)

Definition usb_given (s : System) : list Z := given (id_events (sy_backend s)).
Definition net_given (s : System) : list Z := given (nw_id_events (sy_net s)).

(** A device that waits in the queue is not connected when its turn comes. *)
Inductive usb_waiting (m : gmap Z (Device L)) (ids : list Z) : list (WatchEvent (L := L)) → Prop :=
| uw_nil : usb_waiting m ids []
| uw_failed e : usb_waiting m ids [WatchFailed e]
| uw_connected d : m !! ud_id d = None → ud_id d ∈ ids → usb_waiting m ids [DeviceConnected d (ud_id d)]
| uw_disconnected id o io : id ∈ ids → usb_waiting m ids [DeviceDisconnected id o io]
| uw_failed_again id o io e : id ∈ ids → usb_waiting m ids [DeviceDisconnected id o io; WatchFailed e]
| uw_again d o io : ud_id d ∈ ids →
    usb_waiting m ids [DeviceDisconnected (ud_id d) o io; DeviceConnected d (ud_id d)].

Inductive net_waiting (m : gmap Z (Device L)) (ids : list Z) : list NetworkEvent → Prop :=
| nwt_nil : net_waiting m ids []
| nwt_error e : net_waiting m ids [NetworkError e]
| nwt_connected d : m !! nd_id d = None → nd_id d ∈ ids → net_waiting m ids [NetworkConnected d]
| nwt_disconnected id : id ∈ ids → net_waiting m ids [NetworkDisconnected id].

Definition waiting_ids (q : list NetworkEvent) : list Z :=
  omap (λ e, match e with NetworkConnected d => Some (nd_id d) | _ => None end) q.

(** The ids that requests hold: the one they have taken, and that of the device they have
    taken out. *)
Definition held_ids (adding : list (string * Z * option (Z * Device L))) : list Z :=
  adding ≫= λ a, a.1.2 :: option_list (fst <$> a.2).

(** The device they have taken out is a network device with their [udid]. *)
Definition old_device (a : string * Z * option (Z * Device L)) : Prop :=
  ∀ id dev, a.2 = Some (id, dev) → ∃ n, dev = Network n ∧ nd_id n = id ∧ nd_udid n = a.1.1.

Record sys_inv (s : System) : Prop := {
  si_backend : watch_inv (backend_at s);
  si_net : nw_inv (net_at s);
  si_disjoint : ∀ id, id ∈ usb_given s → id ∉ net_given s;
  si_used : ∀ id d, connected (sy_daemon s) !! id = Some d → (id < sy_counter s)%Z;
  si_usb : ∀ id d, connected (sy_daemon s) !! id = Some (Usb d) → id ∈ usb_given s;
  si_network : ∀ id d, connected (sy_daemon s) !! id = Some (Network d) → id ∉ usb_given s;
  si_usb_queue : usb_waiting (connected (sy_daemon s)) (usb_given s) (sy_usb_queue s);
  si_net_queue : net_waiting (connected (sy_daemon s)) (net_given s) (sy_net_queue s);
  si_held : NoDup (held_ids (sy_adding s));
  si_held_own : ∀ id, id ∈ held_ids (sy_adding s) → (id < sy_counter s)%Z ∧ (id ∉ usb_given s) ∧
    (id ∉ waiting_ids (sy_net_queue s)) ∧ connected (sy_daemon s) !! id = None;
  si_old : Forall old_device (sy_adding s);
}.

(** ** Lemmas *)

(** *** What a turn of a watch yields *)

(** At most one event, of the next id or of one given before. *)
Definition backend_news (w w' : Watch) : Prop :=
  watch_inv w' ∧ ∃ news, yielded w' = yielded w ++ news ∧
    ((news = [] ∧ id_counter w' = id_counter w) ∨
     (∃ info, news = [Connected info (id_counter w)] ∧ id_counter w' = (id_counter w + 1)%Z) ∨
     (∃ id, news = [Disconnected id] ∧ id ∈ given (id_events w) ∧ id_counter w' = id_counter w)).

Lemma no_news w : watch_inv w → backend_news w w.
Proof. intros Hw. split; [done|]. exists []. rewrite app_nil_r. auto. Qed.

Lemma announce_news info w : watch_inv w → ids_left w 1 → backend_news w (announce info w).
Proof.
  intros Hw Hn. split; [by apply announce_step|]. exists [Connected info (id_counter w)]. split; [done|].
  right; left. exists info. split; [done|]. by apply announce_counter.
Qed.

Lemma retire_news o w : watch_inv w → backend_news w (retire o w).
Proof.
  intros Hw. pose proof (retire_step o w Hw) as [Hi _]. unfold retire in *.
  destruct (devices_id_map w !! o) as [id|] eqn:E; [|by apply no_news].
  split; [done|]. exists [Disconnected id]. split; [done|]. right; right. exists id. split_and!; try done.
  apply live_given. by eapply ii_live.
Qed.

Lemma backend_turn_news e w : watch_inv w → ids_left w 1 → backend_news w (backend_turn e w).
Proof.
  intros Hw Hn. destruct e as [dev|[dev|h]|[d|d]]; cbn [backend_turn nusb_watch_turn rusb_watch_turn].
  2: destruct (ni_vendor_id dev =? APPLE_VID)%Z; cbn [negb].
  5: destruct (is_apple d); cbn [negb].
  all: by auto using no_news, announce_news, retire_news.
Qed.

Lemma nw_remove_news mac w :
  ids_inv (nw_ids w) (nw_counter w) (nw_id_events w) →
  ∃ news, nw_yielded (nw_remove mac w) = nw_yielded w ++ news ∧
    (news = [] ∨ ∃ id, news = [NetworkDisconnected id] ∧ id ∈ given (nw_id_events w)).
Proof.
  intros Hw. unfold nw_remove. destruct (nw_ids w !! mac) as [id|] eqn:E; cbn.
  - exists [NetworkDisconnected id]. split; [done|]. right. exists id. split; [done|].
    apply live_given. by eapply ii_live.
  - exists []. by rewrite app_nil_r; auto.
Qed.

Lemma nw_turn_news i w :
  nw_inv w → (nw_counter w + 1 < 2 ^ 64)%Z →
  let w' := (nw_turn i w).1 in
  ∃ news, nw_yielded w' = nw_yielded w ++ news ∧
    (news = [] ∨ (∃ e, news = [NetworkError e]) ∨
     (∃ id, news = [NetworkDisconnected id] ∧ id ∈ given (nw_id_events w)) ∨
     (∃ d, news = [NetworkConnected d] ∧ nd_id d = nw_counter w)).
Proof.
  intros Hw Hc. destruct i as [[rs|ty name|] d|id|]; cbn [nw_turn].
  - unfold nw_resolved. destruct (resolve_service rs _ d) as [rd|]; cbn [fst];
      [|exists []; rewrite app_nil_r; auto].
    destruct (nw_ids w !! rs_mac_address rd); cbn [fst]; [exists []; rewrite app_nil_r; auto|].
    cbn [next_device_id].
    destruct (network_device_new _ _ _ _ _ _ d) as [dev|e| |] eqn:E; cbn [fst nw_yield nw_yielded].
    + apply network_device_new_fields in E as [E _]. exists [NetworkConnected dev]. split; [done|]. eauto 6.
    + exists [NetworkError e]. split; [done|]. eauto.
    + exists []. rewrite app_nil_r. auto.
    + exists []. rewrite app_nil_r. auto.
  - destruct (nw_remove_news (split_next "@" name) w (nwi_ids _ Hw)) as (news & E & H).
    exists news. split; [done|]. naive_solver.
  - exists []. rewrite app_nil_r. auto.
  - destruct (take_canceler _ _) as [[mac cs]|]; cbn [fst]; [|exists []; rewrite app_nil_r; auto].
    destruct (nw_remove_news mac (MkNetworkWatch (nw_ids w) cs (nw_counter w) (nw_yielded w)))
      as (news & E & H); [apply Hw|]. exists news. split; [done|]. naive_solver.
  - destruct (devs_canceler w); cbn [fst nw_yield nw_yielded].
    + eexists. split; [done|]. eauto.
    + exists []. rewrite app_nil_r. auto.
Qed.

(** *** What a transition of the registry adds *)

Definition adds (new : option (Z * Device L)) (m m' : gmap Z (Device L)) : Prop :=
  ∀ i d, m' !! i = Some d → m !! i = Some d ∨ new = Some (i, d).

Lemma remove_device_adds id d r d' :
  remove_device id d = (r, d') → adds None (connected d) (connected d') ∧ connected d' !! id = None.
Proof.
  unfold remove_device. destruct (connected d !! id) as [dev|] eqn:E.
  - assert (H : connected d' = delete id (connected d) →
      adds None (connected d) (connected d') ∧ connected d' !! id = None).
    { intros ->. split; [|apply lookup_delete_eq]. intros i x [_ Hi]%lookup_delete_Some. by left. }
    intros Hr. apply H. revert Hr.
    destruct (connection_type (device_shutdown dev)); [destruct (find_network_id_by_udid _ _)
      |destruct (has_usb_with_udid _ _)]; by intros [= _ <-].
  - intros [= _ <-]. split; [|done]. by left.
Qed.

Lemma usb_connected_adds u id (d : Daemon L) :
  adds (Some (id, Usb u)) (connected d) (connected (watch_usb_daemon_turn (UsbConnected u id) d)).
Proof.
  intros i x. cbn [watch_usb_daemon_turn send_event set_connected connected].
  intros [[<- <-]|[_ [Hi _]%map_lookup_filter_Some]]%lookup_insert_Some; [by right|left].
  by destruct (find_network_id_by_udid _ _).
Qed.

Lemma network_turn_adds e (d : Daemon L) r d' :
  watch_network_daemon_turn e d = (r, d') →
  adds (match e with NetworkConnected n => Some (nd_id n, Network n) | _ => None end)
    (connected d) (connected d').
Proof.
  destruct e as [n|id|err]; cbn [watch_network_daemon_turn].
  - destruct (has_network_with_udid _ _); [intros [= _ <-]; by left|].
    assert (H : connected d' = <[nd_id n := Network n]> (connected d) →
      adds (Some (nd_id n, Network n)) (connected d) (connected d')).
    { intros -> i x [[<- <-]|[_ Hi]]%lookup_insert_Some; [by right|by left]. }
    intros Hr. apply H. revert Hr. destruct (negb _); by intros [= _ <-].
  - destruct (connected d !! id) as [dev|]; [|intros [= _ <-]; by left].
    assert (H : connected d' = delete id (connected d) → adds None (connected d) (connected d')).
    { intros -> i x [_ Hi]%lookup_delete_Some. by left. }
    intros Hr. apply H. revert Hr. destruct (negb _); by intros [= _ <-].
  - destruct err; intros [= _ <-]; by left.
Qed.

Lemma take_old_adds udid force old (d d' : Daemon L) :
  take_old udid force d = (old, d') → adds None (connected d) (connected d').
Proof.
  unfold take_old. destruct (find_network_id_by_udid udid d) as [nid|]; [|intros [= _ <-]; by left].
  destruct force; cbn [negb]; [|intros [= _ <-]; by left]. intros [= _ <-] i x.
  cbn. intros [_ Hi]%lookup_delete_Some. by left.
Qed.

(** What a request registers when it ends. *)
Definition put_adds (id : Z) (made : outcome RusbmuxError.t NetworkDevice) (old : option (Z * Device L))
  : option (Z * Device L) :=
  match made with Ok d => Some (id, Network d) | Err _ => old | Panic | Ub => None end.

Lemma put_new_adds udid id made old r (d d' : Daemon L) :
  put_new udid id made old d = (r, d') → adds (put_adds id made old) (connected d) (connected d').
Proof.
  intros Hr. assert (connected d' = match put_adds id made old with
      Some (i, x) => <[i := x]> (connected d) | None => connected d end) as E.
  { revert Hr. unfold put_new, put_adds. destruct made as [n|e| |]; [destruct (negb _)|destruct old as [[]|]|..];
      by intros [= _ <-]. }
  intros i x. rewrite E. destruct (put_adds id made old) as [[k y]|]; [|by left].
  intros [[<- <-]|[_ Hi]]%lookup_insert_Some; [by right|by left].
Qed.

Lemma usb_waiting_adds new m m' ids q :
  usb_waiting m ids q → adds new m m' → (∀ i d, new = Some (i, d) → i ∉ ids) → usb_waiting m' ids q.
Proof.
  intros Hq Ha Hn. destruct Hq as [| |d Hd Hi| | |]; try by constructor.
  constructor; [|done]. destruct (m' !! ud_id d) as [x|] eqn:E; [|done].
  apply Ha in E as [E|E]; [congruence|]. by apply Hn in E.
Qed.

Lemma net_waiting_adds new m m' ids q :
  net_waiting m ids q → adds new m m' → (∀ i d, new = Some (i, d) → i ∉ ids) → net_waiting m' ids q.
Proof.
  intros Hq Ha Hn. destruct Hq as [| |d Hd Hi|]; try by constructor.
  constructor; [|done]. destruct (m' !! nd_id d) as [x|] eqn:E; [|done].
  apply Ha in E as [E|E]; [congruence|]. by apply Hn in E.
Qed.

(** *** The steps keep the invariant *)

Lemma nw_inv_later w c : (nw_counter w ≤ c)%Z → nw_inv w →
  nw_inv (MkNetworkWatch (nw_ids w) (devs_canceler w) c (nw_yielded w)).
Proof.
  intros Hc [H1 H2 H3 H4 H5]. split; try done; [by eapply ids_inv_later|]. intros id mac Hi%H4. cbn. lia.
Qed.

Lemma usb_given_lt s id : sys_inv s → id ∈ usb_given s → (id < sy_counter s)%Z.
Proof. intros Hs Hid. by eapply (ii_given _ _ _ (si_backend _ Hs)). Qed.

Lemma net_given_lt s id : sys_inv s → id ∈ net_given s → (id < sy_counter s)%Z.
Proof. intros Hs Hid. by eapply (ii_given _ _ _ (nwi_ids _ (si_net _ Hs))). Qed.

Lemma waiting_lt s id : sys_inv s → id ∈ waiting_ids (sy_net_queue s) → (id < sy_counter s)%Z.
Proof.
  intros Hs Hid. apply net_given_lt; [done|]. revert Hid. destruct (si_net_queue _ Hs) as [| |d _ Hd|]; cbn.
  1,2,4: by intros ?%not_elem_of_nil.
  by intros ->%list_elem_of_singleton.
Qed.

Lemma nothing_connected s id :
  sys_inv s → (sy_counter s ≤ id)%Z → connected (sy_daemon s) !! id = None.
Proof.
  intros Hs Hid. destruct (connected _ !! id) as [d|] eqn:E; [|done]. apply (si_used _ Hs) in E. lia.
Qed.

Lemma net_waiting_ids m ids q id d :
  net_waiting m ids q → m !! id = Some d → id ∉ waiting_ids q.
Proof.
  intros Hq Hd. destruct Hq as [| |n Hn _|]; cbn; try apply not_elem_of_nil.
  intros ->%list_elem_of_singleton. congruence.
Qed.

Lemma net_waiting_others new m m' ids q :
  net_waiting m ids q → adds new m m' → (∀ i d, new = Some (i, d) → i ∉ waiting_ids q) → net_waiting m' ids q.
Proof.
  intros Hq Ha Hn. destruct Hq as [| |d Hd Hi|]; try by constructor.
  constructor; [|done]. destruct (m' !! nd_id d) as [x|] eqn:E; [|done].
  apply Ha in E as [E|E]; [congruence|]. by destruct (Hn _ _ E); left.
Qed.

(** Where the ids that are held after a step come from: they were, they are new, or their
    device has been taken out. *)
Definition held_from (s : System) (d' : Daemon L) (c' : Z) (id : Z) : Prop :=
  id ∈ held_ids (sy_adding s) ∨ (sy_counter s ≤ id < c')%Z ∨
  (connected d' !! id = None ∧ ∃ n, connected (sy_daemon s) !! id = Some (Network n)).

(** A step of the registry, when no more is given out than a counter that goes on. *)
Lemma sys_inv_daemon s d' c' new uq nq adding :
  sys_inv s → adds new (connected (sy_daemon s)) (connected d') →
  (∀ i x, new = Some (i, x) → (i < c')%Z ∧ (i ∉ held_ids adding) ∧
     match x with Usb _ => i ∈ usb_given s | Network _ => i ∉ usb_given s end) →
  (sy_counter s ≤ c')%Z →
  usb_waiting (connected d') (usb_given s) uq → net_waiting (connected d') (net_given s) nq →
  (∀ id, id ∈ waiting_ids nq → id ∈ waiting_ids (sy_net_queue s)) →
  NoDup (held_ids adding) → (∀ id, id ∈ held_ids adding → held_from s d' c' id) → Forall old_device adding →
  sys_inv (MkSystem d' c' (sy_backend s) uq (sy_net s) nq adding).
Proof.
  intros Hs Ha Hnew Hc Huq Hnq Hwait Hnd Hheld Hold.
  pose proof Hs as [Hb Hn Hd Hu Hus Hne _ Hq _ Hown _].
  split; try done.
  - by apply (ids_inv_later _ (sy_counter s)).
  - by apply (nw_inv_later (net_at s)).
  - intros id x Hx. cbn in *. apply Ha in Hx as [Hx|Hx]; [apply Hu in Hx; lia|]. by apply Hnew in Hx as [? _].
  - intros id x Hx. apply Ha in Hx as [Hx|Hx]; [by eapply Hus|]. by apply Hnew in Hx as (_ & _ & ?).
  - intros id x Hx. apply Ha in Hx as [Hx|Hx]; [by eapply Hne|]. by apply Hnew in Hx as (_ & _ & ?).
  - intros id Hid. cbn [sy_counter sy_daemon sy_net_queue].
    assert (Hgone : connected (sy_daemon s) !! id = None → connected d' !! id = None).
    { intros Hx. destruct (connected d' !! id) as [x|] eqn:E; [|done]. apply Ha in E as [E|E]; [congruence|].
      by apply Hnew in E as (_ & ? & _). }
    assert (Hw : id ∉ waiting_ids (sy_net_queue s) → id ∉ waiting_ids nq) by (intros H1 H2; by apply H1, Hwait).
    destruct (Hheld id Hid) as [(H1 & H2 & H3 & H4)%Hown|[Hlt|[H1 [n H2]]]].
    + split_and!; [lia|done|by apply Hw|by apply Hgone].
    + split_and!; [lia|intros Hx; apply (usb_given_lt s) in Hx; [lia|done]| |].
      * apply Hw. intros Hx. apply (waiting_lt s) in Hx; [lia|done].
      * apply Hgone. apply nothing_connected; [done|lia].
    + split_and!; [apply Hu in H2; lia|by eapply Hne| |done]. apply Hw. by eapply net_waiting_ids.
Qed.

(** The same when no request begins or ends. *)
Lemma sys_inv_registry s d' c' new uq nq :
  sys_inv s → adds new (connected (sy_daemon s)) (connected d') →
  (∀ i x, new = Some (i, x) →
     match x with Usb _ => i ∈ usb_given s | Network _ => i ∈ net_given s ∧ i ∈ waiting_ids (sy_net_queue s) end) →
  (sy_counter s ≤ c')%Z →
  usb_waiting (connected d') (usb_given s) uq → net_waiting (connected d') (net_given s) nq →
  (∀ id, id ∈ waiting_ids nq → id ∈ waiting_ids (sy_net_queue s)) →
  sys_inv (MkSystem d' c' (sy_backend s) uq (sy_net s) nq (sy_adding s)).
Proof.
  intros Hs Ha Hnew Hc Huq Hnq Hw. eapply sys_inv_daemon; try done; [|apply Hs|by left|apply Hs].
  intros i x Hx. specialize (Hnew i x Hx). destruct x as [n|u].
  - destruct Hnew as [Hg Hq]. split_and!; [apply net_given_lt in Hg; [lia|done]|by intros (_ & _ & ? & _)%(si_held_own _ Hs)|].
    intros Hi. by apply (si_disjoint _ Hs) in Hi.
  - split_and!; [apply usb_given_lt in Hnew; [lia|done]|by intros (_ & ? & _)%(si_held_own _ Hs)|done].
Qed.

Lemma usb_queue_of_waiting s news q :
  sys_inv s →
  (news = [] ∨ (∃ info, news = [Connected info (sy_counter s)]) ∨
   ∃ id, news = [Disconnected id] ∧ id ∈ usb_given s) →
  usb_queue_of news q →
  ∀ ids, (∀ id, id ∈ usb_given s → id ∈ ids) →
    ((∃ info, news = [Connected info (sy_counter s)]) → sy_counter s ∈ ids) →
    usb_waiting (connected (sy_daemon s)) ids q.
Proof.
  intros Hs Hnews Hq ids Hids Hc. destruct Hnews as [->|[[info ->]|(id & -> & Hid)]]; cbn [usb_queue_of] in Hq.
  - subst q. constructor.
  - destruct Hq as (first & link' & now & attempts & [(d & -> & E & _)|(e & -> & _)]%usb_turn_tells);
      [rewrite <- E|]; constructor; rewrite E; [by apply nothing_connected|]. apply Hc. by eexists.
  - destruct Hq as (first & link' & now & attempts & ->%usb_turn_tells). constructor. by apply Hids.
Qed.

Lemma backend_step_inv s e q :
  sys_inv s → (sy_counter s + 1 < 2 ^ 64)%Z →
  let w := backend_turn e (backend_at s) in
  usb_queue_of (drop (length (yielded (sy_backend s))) (yielded w)) q →
  sys_inv (MkSystem (sy_daemon s) (id_counter w) w q (sy_net s) (sy_net_queue s) (sy_adding s)).
Proof.
  intros Hs Hc w Hq.
  destruct (backend_turn_news e (backend_at s)) as (Hw & news & Hy & Hnews); [apply Hs|done|]. fold w in Hw, Hy, Hnews.
  rewrite Hy in Hq. cbn [backend_at yielded] in Hq. rewrite drop_app_length in Hq.
  assert (Hg : given (id_events w) = usb_given s ∨
    (given (id_events w) = usb_given s ++ [sy_counter s] ∧ id_counter w = (sy_counter s + 1)%Z ∧
     ∃ info, news = [Connected info (sy_counter s)])).
  { unfold usb_given, id_events. rewrite Hy. cbn [backend_at yielded].
    destruct Hnews as [[-> _]|[(info & -> & Ec)|(id & -> & _)]]; cbn [backend_at id_counter] in *.
    - left. by rewrite app_nil_r.
    - right. rewrite map_app. cbn. rewrite given_snoc. eauto.
    - left. rewrite map_app. cbn. by rewrite given_snoc, app_nil_r. }
  assert (Hcw : (sy_counter s ≤ id_counter w)%Z)
    by (destruct Hnews as [[_ ->]|[(? & _ & ->)|(? & _ & _ & ->)]]; cbn; lia).
  assert (Hn3 : news = [] ∨ (∃ info, news = [Connected info (sy_counter s)]) ∨
     ∃ id, news = [Disconnected id] ∧ id ∈ usb_given s) by naive_solver.
  assert (Hsub : ∀ id, id ∈ usb_given s → id ∈ given (id_events w)).
  { intros id Hid. destruct Hg as [->|[-> _]]; [done|]. apply elem_of_app. by left. }
  assert (Hnet : ∀ id, id ∈ given (id_events w) → id ∈ usb_given s ∨ (sy_counter s ≤ id)%Z).
  { intros id. destruct Hg as [->|[-> _]]; [by left|].
    intros [Hid| ->%list_elem_of_singleton]%elem_of_app; [by left|right; lia]. }
  split; cbn [sy_daemon sy_counter sy_backend sy_net sy_usb_queue sy_net_queue].
  - unfold backend_at. cbn [sy_backend sy_counter]. by destruct w.
  - by apply (nw_inv_later (net_at s)); [|apply Hs].
  - intros id [Hid|Hid]%Hnet; [by apply (si_disjoint _ Hs)|]. intros Hid'. apply (net_given_lt s) in Hid'; [lia|done].
  - intros id d Hd%(si_used _ Hs). lia.
  - intros id d Hd%(si_usb _ Hs). by apply Hsub.
  - intros id d Hd [Hid|Hid]%Hnet; [by eapply si_network|]. apply (si_used _ Hs) in Hd. lia.
  - apply (usb_queue_of_waiting s news q Hs Hn3 Hq); [done|]. intros [info E]. unfold usb_given. cbn.
    destruct Hg as [Hg|[-> _]]; [|by apply elem_of_app; right; apply list_elem_of_singleton].
    destruct Hnews as [[-> _]|[(info' & E' & Ec)|(id & -> & _)]]; [done| |done].
    exfalso. rewrite E in Hy. revert Hg. unfold id_events. rewrite Hy, map_app. cbn.
    rewrite given_snoc. intros Hg%(f_equal length). revert Hg. unfold usb_given, id_events.
    rewrite length_app. cbn. lia.
  - apply Hs.
  - apply Hs.
  - intros id Hid. destruct (si_held_own _ Hs id Hid) as (H1 & H2 & H3 & H4). split_and!; [lia| |done..].
    intros [Hi|Hi]%Hnet; [done|lia].
  - apply Hs.
Qed.

Lemma net_step_inv s i :
  sys_inv s → (sy_counter s + 1 < 2 ^ 64)%Z →
  let w := (nw_turn i (net_at s)).1 in
  sys_inv (MkSystem (sy_daemon s) (nw_counter w) (sy_backend s) (sy_usb_queue s) w
             (drop (length (nw_yielded (sy_net s))) (nw_yielded w)) (sy_adding s)).
Proof.
  intros Hs Hc w. pose proof (nw_turn_inv i (net_at s) (si_net _ Hs) Hc) as Hw.
  pose proof (nw_turn_counter i (net_at s) (si_net _ Hs) Hc) as Hcw.
  destruct (nw_turn_news i (net_at s) (si_net _ Hs) Hc) as (news & Hy & Hnews). fold w in Hw, Hcw, Hy.
  cbn [net_at nw_counter] in Hcw. rewrite Hy. cbn [net_at nw_yielded]. rewrite drop_app_length.
  assert (Hg : ∀ id, id ∈ given (nw_id_events w) ↔ id ∈ net_given s ∨ ∃ d, news = [NetworkConnected d] ∧ id = nd_id d).
  { intros id. unfold net_given, nw_id_events. rewrite Hy. cbn [net_at nw_yielded]. rewrite omap_app.
    destruct Hnews as [->|[[e ->]|[(id' & -> & _)|(d & -> & _)]]]; cbn; rewrite ?app_nil_r, ?given_snoc, ?app_nil_r.
    1,2,3: split; [by left|intros [?|(? & ? & _)]; done].
    rewrite elem_of_app, list_elem_of_singleton. split; [|naive_solver]. intros [?| ->]; [by left|right; eauto]. }
  assert (Hnew : ∀ d, news = [NetworkConnected d] → nd_id d = sy_counter s) by naive_solver.
  split; cbn [sy_daemon sy_counter sy_backend sy_net sy_usb_queue sy_net_queue].
  - apply (ids_inv_later _ (sy_counter s)); [cbn; lia|apply Hs].
  - unfold net_at. cbn [sy_net sy_counter]. by destruct w.
  - intros id Hid. unfold net_given. cbn [sy_net]. rewrite Hg. intros [Hid'|(d & Hd%Hnew & ->)].
    + by eapply si_disjoint.
    + apply (usb_given_lt s) in Hid; [cbn in *; lia|done].
  - intros id d Hd%(si_used _ Hs). lia.
  - apply Hs.
  - apply Hs.
  - apply Hs.
  - unfold net_given. cbn [sy_net]. destruct Hnews as [->|[[e ->]|[(id' & -> & Hid)|(d & -> & Hd)]]]; constructor.
    + apply Hg. by left.
    + apply nothing_connected; [done|]. cbn in Hd. lia.
    + apply Hg. right. eauto.
  - apply Hs.
  - intros id Hid. destruct (si_held_own _ Hs id Hid) as (H1 & H2 & H3 & H4). split_and!; [lia|done| |done].
    destruct Hnews as [->|[[e ->]|[(id' & -> & _)|(d & -> & Hd)]]]; cbn; try apply not_elem_of_nil.
    intros ->%list_elem_of_singleton. cbn in Hd. lia.
  - apply Hs.
Qed.

Lemma usb_handled_inv s e q :
  sys_inv s → sy_usb_queue s = e :: q →
  let d' := watch_usb_daemon_turn (daemon_event e) (sy_daemon s) in
  sys_inv (MkSystem d' (sy_counter s) (sy_backend s) q (sy_net s) (sy_net_queue s) (sy_adding s)) ∧
  registry_step (sy_daemon s) (usb_disturbs e (sy_daemon s)) d'.
Proof.
  intros Hs Hq d'. pose proof (si_usb_queue _ Hs) as Hw. rewrite Hq in Hw.
  assert (Hgone : ∀ id o io, e = DeviceDisconnected id o io →
    adds None (connected (sy_daemon s)) (connected d') ∧ connected d' !! id = None ∧
    registry_step (sy_daemon s) (usb_disturbs e (sy_daemon s)) d').
  { intros id o io ->. subst d'. cbn [daemon_event watch_usb_daemon_turn usb_disturbs].
    destruct (remove_device id (sy_daemon s)) as [r d1] eqn:E. destruct (remove_device_adds _ _ _ _ E) as [H1 H2].
    split_and!; [done..|]. by eapply device_removed. }
  assert (Hrest : ∀ q', adds None (connected (sy_daemon s)) (connected d') →
    usb_waiting (connected d') (usb_given s) q' →
    sys_inv (MkSystem d' (sy_counter s) (sy_backend s) q' (sy_net s) (sy_net_queue s) (sy_adding s))).
  { intros q' Ha Hq'. eapply sys_inv_registry; try done.
    eapply net_waiting_adds; [apply Hs|done|done]. }
  inversion Hw as [|e'|d Hd Hid|id o io Hid|id o io e' Hid|d o io Hid]; subst e q.
  - split; [apply Hrest; [by left|constructor]|]. apply usb_error.
  - split; [|by apply usb_connected]. subst d'. cbn [daemon_event].
    eapply sys_inv_registry; [done|apply usb_connected_adds|..|done|constructor| |done].
    + by intros i x [= <- <-].
    + eapply net_waiting_adds; [apply Hs|apply usb_connected_adds|].
      intros i x [= <- <-]. by apply (si_disjoint _ Hs).
  - destruct (Hgone _ _ _ eq_refl) as (Ha & _ & Hr). split; [|done]. apply Hrest; [done|constructor].
  - destruct (Hgone _ _ _ eq_refl) as (Ha & _ & Hr). split; [|done]. apply Hrest; [done|constructor].
  - destruct (Hgone _ _ _ eq_refl) as (Ha & Hn & Hr). split; [|done]. apply Hrest; [done|by constructor].
Qed.

Lemma net_handled_inv s e q r d' :
  sys_inv s → sy_net_queue s = e :: q → watch_network_daemon_turn e (sy_daemon s) = (r, d') →
  sys_inv (MkSystem d' (sy_counter s) (sy_backend s) (sy_usb_queue s) (sy_net s) q (sy_adding s)) ∧
  registry_step (sy_daemon s) ∅ d'.
Proof.
  intros Hs Hq Hr. pose proof (si_net_queue _ Hs) as Hw. rewrite Hq in Hw.
  pose proof (network_turn_adds _ _ _ _ Hr) as Ha.
  assert (Hnot : ∀ id, id ∈ net_given s → id ∉ usb_given s) by (intros id H1 H2; by eapply (si_disjoint _ Hs)).
  assert (q = []) as -> by (by inversion Hw).
  split.
  - eapply sys_inv_registry; [done|exact Ha| |done| |constructor|by intros id ?%not_elem_of_nil].
    + rewrite Hq. inversion Hw as [|e'|d Hd Hid|id Hid]; subst e; intros i x; cbn; try done.
      intros [= <- <-]. split; [done|]. by apply list_elem_of_singleton.
    + eapply usb_waiting_adds; [apply Hs|exact Ha|]. inversion Hw as [|e'|d Hd Hid|id Hid]; subst e; try done.
      intros i x [= <- <-]. by apply Hnot.
  - eapply network_event; [|done]. inversion Hw as [|e'|d Hd Hid|id Hid]; subst e; cbn; [done..|].
    intros u Hu%(si_usb _ Hs). by eapply (si_disjoint _ Hs).
Qed.

(** A request that adds a device begins. *)
Lemma take_old_held D udid force old (d d' : Daemon L) :
  registry_wf D d → take_old udid force d = (Some old, d') →
  ∀ id dev, old = Some (id, dev) → connected d' !! id = None ∧
    ∃ n, connected d !! id = Some (Network n) ∧ dev = Network n ∧ nd_id n = id ∧ nd_udid n = udid.
Proof.
  intros Hwf Hr id dev ->. unfold take_old in Hr.
  destruct (find_network_spec D udid d Hwf) as [(nid & n & E & Hn & Hu)|[E _]]; rewrite E in Hr; [|done].
  destruct force; [|done]. cbn [negb send_event set_connected connected] in Hr. rewrite Hn in Hr.
  injection Hr as <- <- <-. cbn [connected]. split; [apply lookup_delete_eq|]. exists n. split_and!; try done.
  by apply (wf_id _ _ Hwf) in Hn.
Qed.

Lemma add_begins_inv D s udid force old d' :
  registry_wf D (sy_daemon s) → sys_inv s → (sy_counter s + 1 < 2 ^ 64)%Z →
  take_old udid force (sy_daemon s) = (Some old, d') →
  sys_inv (MkSystem d' (next_device_id (sy_counter s)).2 (sy_backend s) (sy_usb_queue s) (sy_net s) (sy_net_queue s)
             ((udid, (next_device_id (sy_counter s)).1, old) :: sy_adding s)).
Proof.
  intros Hwf Hs Hc Hr. pose proof (take_old_adds _ _ _ _ _ Hr) as Ha.
  pose proof (take_old_held _ _ _ _ _ _ Hwf Hr) as Hold. cbn [next_device_id fst snd].
  assert (wrap 64 (sy_counter s + 1) = (sy_counter s + 1)%Z) as ->.
  { apply wrap_small. pose proof (ii_counter _ _ _ (si_backend _ Hs)) as H0. cbn in H0. split; lia. }
  assert (Hnew : ∀ id, id ∈ option_list (fst <$> old) → connected d' !! id = None ∧
    ∃ n, connected (sy_daemon s) !! id = Some (Network n)).
  { destruct old as [[nid dev]|]; cbn; [|by intros id ?%not_elem_of_nil].
    intros id ->%list_elem_of_singleton. destruct (Hold _ _ eq_refl) as (H1 & n & H2 & _). eauto. }
  eapply sys_inv_daemon; [done|exact Ha|done|lia|..]; [| |done|..].
  - eapply usb_waiting_adds; [apply Hs|done|done].
  - eapply net_waiting_adds; [apply Hs|done|done].
  - cbn [held_ids mbind list_bind app fst snd]. apply list.NoDup_cons. split.
    + intros [(_ & n & Hn%(si_used _ Hs))%Hnew|(Hlt & _)%(si_held_own _ Hs)]%elem_of_app; cbn in *; lia.
    + apply list.NoDup_app. split_and!; [by destruct old as [[]|]; repeat constructor; set_solver| |apply Hs].
      intros id (_ & n & Hn)%Hnew (_ & _ & _ & Hno)%(si_held_own _ Hs). congruence.
  - cbn [held_ids mbind list_bind app fst snd]. intros id [->|[Hid|Hid]%elem_of_app]%elem_of_cons.
    + right; left. cbn. lia.
    + right; right. by apply Hnew.
    + by left.
  - apply list.Forall_cons_2; [|apply Hs]. intros id dev E. destruct (Hold _ _ E) as (_ & n & _ & H). by exists n.
Qed.

(** It ends, with its device registered, the old one put back, or neither. *)
Lemma add_ends_inv s udid id made old r d' before after :
  sys_inv s → sy_adding s = before ++ (udid, id, old) :: after →
  (∀ d, made = Ok d → nd_id d = id ∧ nd_udid d = udid) →
  put_new udid id made old (sy_daemon s) = (r, d') →
  sys_inv (MkSystem d' (sy_counter s) (sy_backend s) (sy_usb_queue s) (sy_net s) (sy_net_queue s) (before ++ after)).
Proof.
  intros Hs Hadd Hmade Hr. pose proof (put_new_adds _ _ _ _ _ _ _ Hr) as Ha.
  assert (Hids : held_ids (sy_adding s) ≡ₚ (id :: option_list (fst <$> old)) ++ held_ids (before ++ after)).
  { unfold held_ids. rewrite Hadd, !bind_app. cbn [mbind list_bind fst snd].
    rewrite (assoc_L (++)), (Permutation_app_comm (before ≫= _)). by rewrite <- (assoc_L (++)). }
  pose proof (si_held _ Hs) as Hnd. rewrite Hids in Hnd. apply list.NoDup_app in Hnd as (_ & Hni & Hnd).
  pose proof (si_old _ Hs) as Hold. rewrite Hadd, Forall_app, list.Forall_cons in Hold. destruct Hold as (O1 & O2 & O3).
  assert (Hnew : ∀ i x, put_adds id made old = Some (i, x) →
    i ∈ id :: option_list (fst <$> old) ∧ ∃ n, x = Network n).
  { intros i x. unfold put_adds. destruct made as [d|e| |]; try done.
    - intros [= <- <-]. split; [left|by eexists].
    - destruct old as [[k y]|]; [|done]. intros [= <- <-]. destruct (O2 _ _ eq_refl) as (n & -> & _).
      split; [right; left|by eexists]. }
  assert (Hown : ∀ i, i ∈ id :: option_list (fst <$> old) → (i < sy_counter s)%Z ∧ (i ∉ usb_given s) ∧
    (i ∉ waiting_ids (sy_net_queue s)) ∧ connected (sy_daemon s) !! i = None).
  { intros i Hi. apply (si_held_own _ Hs). rewrite Hids. apply elem_of_app. by left. }
  eapply sys_inv_daemon; [done|exact Ha|..|exact Hnd| |by apply Forall_app].
  - intros i x Hx. destruct (Hnew i x Hx) as (Hi & n & ->). destruct (Hown i Hi) as (H1 & H2 & _).
    split_and!; [done|by apply Hni|done].
  - done.
  - eapply usb_waiting_adds; [apply Hs|exact Ha|]. intros i x Hx. destruct (Hnew i x Hx) as [Hi _].
    by destruct (Hown i Hi) as (_ & ? & _).
  - eapply net_waiting_others; [apply Hs|exact Ha|]. intros i x Hx. destruct (Hnew i x Hx) as [Hi _].
    by destruct (Hown i Hi) as (_ & _ & ? & _).
  - done.
  - intros i Hi. left. rewrite Hids. apply elem_of_app. by right.
Qed.

Lemma system_step_inv D s X s' :
  registry_wf D (sy_daemon s) → sys_inv s → system_step s X s' →
  sys_inv s' ∧ registry_steps (sy_daemon s) X (sy_daemon s').
Proof.
  intros Hwf Hs H. destruct H as [s e q Hq Hc w Hn|s id opaque a q Hq Hid Ht|s e q Hq|s i Hq Hc w|s e q r d' Hq Hr
    |s udid force d' Hr|s udid force old d' Hc Hr|s udid id made old r d' before after Ha Hm Hr|s id r d' Hr];
    cbn [sy_daemon].
  - split; [by apply backend_step_inv|constructor].
  - split; [|constructor]. eapply (sys_inv_registry s _ _ None); try done; [by left| |apply Hs].
    apply usb_turn_tells in Ht as (es' & -> & [->|[(d & -> & <- & _)|[e ->]]]); by constructor.
  - destruct (usb_handled_inv s e q Hs Hq) as [H1 H2]. split; [done|by apply registry_steps_once].
  - split; [by apply net_step_inv|constructor].
  - destruct (net_handled_inv s e q r d' Hs Hq Hr) as [H1 H2]. split; [done|by apply registry_steps_once].
  - split; [|apply registry_steps_once; by eapply network_taken]. pose proof (take_old_adds _ _ _ _ _ Hr) as Ha.
    eapply sys_inv_registry; [done|exact Ha|done|done|..|done].
    + eapply usb_waiting_adds; [apply Hs|done|done].
    + eapply net_waiting_adds; [apply Hs|done|done].
  - split; [by apply (add_begins_inv D s udid force)|]. apply registry_steps_once. by eapply network_taken.
  - split; [by eapply add_ends_inv|]. apply registry_steps_once. eapply network_put; [| |done].
    + intros d Hd. destruct (Hm d Hd). split_and!; [done..|]. apply (si_held_own _ Hs).
      unfold held_ids. rewrite Ha, bind_app. apply elem_of_app. right. left.
    + intros i dev ->. pose proof (si_old _ Hs) as Ho. rewrite Ha, Forall_app, list.Forall_cons in Ho.
      destruct Ho as (_ & Ho & _). split; [|by apply Ho]. apply (si_held_own _ Hs).
      unfold held_ids. rewrite Ha, bind_app. apply elem_of_app. right. right. left.
  - pose proof (remove_device_adds _ _ _ _ Hr) as [Ha _].
    split; [|apply registry_steps_once; by eapply device_removed].
    eapply sys_inv_registry; [done|done|done|done|..|done].
    + eapply usb_waiting_adds; [apply Hs|done|done].
    + eapply net_waiting_adds; [apply Hs|done|done].
Qed.

Lemma sy_start_inv counter : (0 ≤ counter)%Z → sys_inv (sy_start counter).
Proof.
  intros Hc. split; [by apply watch_start_inv|by apply nw_start_inv|..|constructor|constructor|constructor| |constructor]; cbn.
  - intros id Hid. by apply not_elem_of_nil in Hid.
  - intros id d Hd. by rewrite lookup_empty in Hd.
  - intros id d Hd. by rewrite lookup_empty in Hd.
  - intros id d Hd. by rewrite lookup_empty in Hd.
  - intros id Hid. by apply not_elem_of_nil in Hid.
Qed.

Lemma system_steps_inv D s X s' :
  registry_wf D (sy_daemon s) → sys_inv s → system_steps s X s' →
  sys_inv s' ∧ registry_steps (sy_daemon s) X (sy_daemon s').
Proof.
  intros Hwf Hs H. induction H as [s|s X s1 Y s' _ IH Hl]; [split; [done|constructor]|].
  destruct (IH Hwf Hs) as [Hs1 Hr1]. destruct (registry_steps_tell _ _ _ _ Hwf Hr1) as [Hwf1 _].
  destruct (system_step_inv _ _ _ _ Hwf1 Hs1 Hl) as [Hs' Hr']. split; [done|]. by eapply registry_steps_app.
Qed.

(** ** Theorem *)


End watchers.
