(* ===== verification/Preflight.v ===== *)
(** * Pairing a new USB device ([src/watcher/preflight.rs],
    [src/bin/rusbmux/watcher/preflight.rs], [RusbmuxProvider] of [src/provider.rs])

    When a USB device appears the daemon checks the pairing file it has saved for
    it and makes a new one if the device does not accept it.  The conversation with
    the device goes through the [idevice] crate's clients; they are the class
    [Lockdown], whose operations act on the state [Peer] of the other side.  The
    theorems say which pairing file may come out of that and what the daemon does
    to its files. *)

From Stdlib Require Import Strings.Ascii.
From S2P Require Import Prelude Text Io Plist Request UsbMux Errors Conn Registry World Records Network.

Module IdeviceError.
(** [idevice::IdeviceError]: the variants the code matches on or makes, and any
    other with its text. *)
Inductive t : Type :=
| NotFound
| InvalidHostID
| Rustls (display : string)
| TlsBuilderFailed (display : string)
| PemParseFailed (display : string)
| PasswordProtected
| PairingDialogResponsePending
| UserDeniedPairing
| UnexpectedResponse (msg : string)
| Other (display : string).
End IdeviceError.

(** The lockdown and notification clients. *)
Class Lockdown `{Idevice} : Type := {
  Peer : Type;
  (** [LockdownClient::connect(&provider)] *)
  lockdown_connect : stateful Peer IdeviceError.t ();
  get_type : stateful Peer IdeviceError.t string;
  start_session : PairingFile → stateful Peer IdeviceError.t ();
  set_value : string → string → stateful Peer IdeviceError.t ();
  get_value : string → stateful Peer IdeviceError.t Value;
  (** [pair_once(host_id, system_buid, None)] *)
  pair_once : string → string → stateful Peer IdeviceError.t PairingFile;
  (** the port of the service *)
  start_service : string → stateful Peer IdeviceError.t Z;
  (** [NotificationProxyClient::new(provider.connect(port).await?)] *)
  notifications_connect : Z → stateful Peer IdeviceError.t ();
  observe_notifications : list string → stateful Peer IdeviceError.t ();
  receive_notification : stateful Peer IdeviceError.t string;
  (** [PairingFile::serialize], [PairingFile::host_id] *)
  pairing_file_serialize : PairingFile → string + list byte;
  idevice_display : IdeviceError.t → string;
}.

Definition INSECURE_NOTIFICATION_PROXY : string := "com.apple.mobile.insecure_notification_proxy".
Definition REQUEST_PAIR : string := "com.apple.mobile.lockdown.request_pair".
Definition REQUEST_HOST_BUID : string := "com.apple.mobile.lockdown.request_host_buid".

(** [Value::into_string] *)
Definition into_string (v : Value) : option string :=
  match v with String s => Some s | _ => None end.

Section preflight.
Context {plist : PlistCodec} {idev : Idevice} {ld : Lockdown}.

Definition idevice_error (e : IdeviceError.t) : RusbmuxError.t :=
  RusbmuxError.Idevice (idevice_display e).

(** The [?] operator on an [IdeviceError] *)
Definition ask {A} (m : stateful Peer IdeviceError.t A) : stateful Peer RusbmuxError.t A :=
  st_map_err idevice_error m.

(** A result that is matched on. *)
Definition attempt {A} (m : stateful Peer IdeviceError.t A)
  : stateful Peer RusbmuxError.t (IdeviceError.t + A) := λ d,
  match m d with
  | (Ok a, d) => (Ok (inr a), d)
  | (Err e, d) => (Ok (inl e), d)
  | (Panic, d) => (Panic, d)
  | (Ub, d) => (Ub, d)
  end.

Definition connect_notifications : stateful Peer RusbmuxError.t () :=
  let! port := ask (start_service INSECURE_NOTIFICATION_PROXY) in
  let! _ := ask (notifications_connect port) in
  ask (observe_notifications [REQUEST_PAIR; REQUEST_HOST_BUID]).

(** Which branch of the [select!] completed: a notification, or the timer. *)
Inductive wait_event : Type := NotificationCame | TimeElapsed.

(** Whether the pairing was requested; [false] when the events run out first. *)
Fixpoint wait_for_pair_request (es : list wait_event) (system_buid host_id : string)
  : stateful Peer RusbmuxError.t bool :=
  match es with
  | [] => st_ret false
  | NotificationCame :: es =>
      let! notification := ask receive_notification in
      if String.eqb notification REQUEST_PAIR then st_ret true
      else if String.eqb notification REQUEST_HOST_BUID then
        let! _ := ask (set_value "UntrustedHostBUID" system_buid) in
        wait_for_pair_request es system_buid host_id
      else wait_for_pair_request es system_buid host_id
  | TimeElapsed :: es =>
      let! r := attempt (pair_once host_id system_buid) in
      match r with
      | inl IdeviceError.UserDeniedPairing =>
          st_lift (Err (idevice_error IdeviceError.UserDeniedPairing))
      | _ => wait_for_pair_request es system_buid host_id
      end
  end.

Definition support_notifications (device_class : string) (product_version_major : Z) : bool :=
  ((String.eqb device_class "iPhone" || String.eqb device_class "iPad")
     && (7 <=? product_version_major)%Z)
  || (String.eqb device_class "Watch" && (2 <=? product_version_major)%Z)
  || (String.eqb device_class "AppleTV" && (9 <=? product_version_major)%Z).

(** What [preflight] returns, or that it still waits for the user. *)
Inductive preflight_result : Type :=
| Paired (pairing_file : PairingFile)
| NotPaired
| StillWaiting.

(** The part before a new pairing: [true] when the preflight is already done. *)
Definition check_pairing_file (pairing_file : option PairingFile)
  : stateful Peer RusbmuxError.t bool :=
  match pairing_file with
  | None => st_ret false
  | Some pairing_file =>
      let! r := attempt (start_session pairing_file) in
      match r with
      | inr _ => st_ret true
      | inl IdeviceError.InvalidHostID => st_ret false
      | inl (IdeviceError.Rustls _ | IdeviceError.TlsBuilderFailed _ | IdeviceError.PemParseFailed _) =>
          let! _ := ask lockdown_connect in
          st_ret false
      | inl err => st_lift (Err (idevice_error err))
      end
  end.

(** [host_id] is the upper-case UUID the call makes. *)
Definition preflight (es : list wait_event) (host_id : string) (pairing_file : option PairingFile)
    (system_buid : string) : stateful Peer RusbmuxError.t preflight_result :=
  let! _ := ask lockdown_connect in
  let! ty := ask get_type in
  if negb (String.eqb ty "com.apple.mobile.lockdown") then st_ret NotPaired
  else
    let! done := check_pairing_file pairing_file in
    if done : bool then st_ret NotPaired
    else
      let! _ := ask (set_value "UntrustedHostBUID" system_buid) in
      let! v := ask (get_value "ProductVersion") in
      let! product_version := st_lift (ok_or (RusbmuxError.InvalidData
        "`ProductVersion` is not a string") (into_string v)) in
      let! product_version_major := st_lift (ok_or (RusbmuxError.InvalidData
        "`ProductVersion` is not valid") (parse_u32 (split_next "."%char product_version))) in
      let! v := ask (get_value "DeviceClass") in
      let! device_class := st_lift (ok_or (RusbmuxError.InvalidData
        "`DeviceClass` is not a string") (into_string v)) in
      let! r := attempt (pair_once host_id system_buid) in
      let! paired :=
        match r with
        | inr pairing_file => st_ret (Paired pairing_file)
        | inl (IdeviceError.PasswordProtected | IdeviceError.PairingDialogResponsePending) =>
            if support_notifications device_class product_version_major then
              let! _ := connect_notifications in
              let! requested := wait_for_pair_request es system_buid host_id in
              if requested : bool then
                let! pairing_file := ask (pair_once host_id system_buid) in
                st_ret (Paired pairing_file)
              else st_ret StillWaiting
            else st_ret NotPaired
        | inl err => st_lift (Err (idevice_error err))
        end in
      match paired with
      | Paired pairing_file =>
          let! _ := ask (start_session pairing_file) in
          st_ret (Paired pairing_file)
      | r => st_ret r
      end.

(** ** The provider's pairing file *)

Record RusbmuxProvider : Type := MkRusbmuxProvider {
  pv_pairing_file : option PairingFile;
  pv_label : string;
  pv_system_buid : string;
}.

(** [RusbmuxProvider::new] and [new_from]; [new_uuid] as in [read_system_buid] *)
Definition provider_new (new_uuid label : string) (system_buid : option string) : RusbmuxProvider :=
  MkRusbmuxProvider None label (default new_uuid system_buid).

Definition set_pairing_file (pairing_file : PairingFile) (p : RusbmuxProvider) : RusbmuxProvider :=
  MkRusbmuxProvider (Some pairing_file) (pv_label p) (pv_system_buid p).

(** [RusbmuxProvider::preflight]; [None] while it waits. *)
Definition provider_preflight (es : list wait_event) (host_id : string) (p : RusbmuxProvider)
  : stateful Peer RusbmuxError.t (option bool * RusbmuxProvider) :=
  let! r := preflight es host_id (pv_pairing_file p) (pv_system_buid p) in
  match r with
  | Paired pairing_file => st_ret (Some true, set_pairing_file pairing_file p)
  | NotPaired => st_ret (Some false, p)
  | StillWaiting => st_ret (None, p)
  end.

(** [IdeviceProvider::get_pairing_file] *)
Definition get_pairing_file (p : RusbmuxProvider) : outcome IdeviceError.t PairingFile :=
  match pv_pairing_file p with
  | Some pairing_file => Ok pairing_file
  | None => Err IdeviceError.NotFound
  end.

(** ** The daemon's preflight task *)

Section daemon.
Context {L : Type}.
Abbreviation handler := (handler (L := L)).

(** The device's end of the conversation next to the daemon's state *)
Definition task (A : Type) : Type := stateful (World L * Peer) RusbmuxError.t A.

Definition on_world {A} (m : handler A) : task A := λ '(w, d),
  let '(r, w) := m w in (r, (w, d)).

Definition on_peer {A} (m : stateful Peer RusbmuxError.t A) : task A := λ '(w, d),
  let '(r, d) := m d in (r, (w, d)).

Definition saved_pairing_file (path : string) : task (option PairingFile) :=
  let! data := on_world (read_disk (fs_read path)) in
  match data with
  | Ok data =>
      match pairing_file_from_bytes data with
      | inr p => st_ret (Some p)
      | inl _ =>
          let! _ := on_world (on_disk (fs_remove path)) in
          st_ret None
      end
  | Err NotFound => st_ret None
  | Err err => st_lift (Err (RusbmuxError.IO err))
  | Panic => st_lift Panic
  | Ub => st_lift Ub
  end.

(** [run]; [false] while the user has not answered. *)
Definition preflight_run (es : list wait_event) (new_uuid host_id udid : string) : task bool :=
  let path := path_join LOCKDOWN_PATH (udid +:+ ".plist") in
  let! pairing_file := saved_pairing_file path in
  let! system_buid := on_world (read_system_buid new_uuid) in
  let! pairing_file := on_peer (preflight es host_id pairing_file system_buid) in
  match pairing_file with
  | Paired pf =>
      let! data := st_lift (idevice_result (pairing_file_serialize pf)) in
      let! _ := on_world (on_disk (fs_write path data)) in
      st_ret true
  | NotPaired => st_ret true
  | StillWaiting => st_ret false
  end.

End daemon.
End preflight.

(** ** Lemmas *)

Section lemmas.
Context {plist : PlistCodec} {idev : Idevice} {ld : Lockdown}.

Lemma ask_ok {A} (m : stateful Peer IdeviceError.t A) d a d' :
  ask m d = (Ok a, d') ↔ m d = (Ok a, d').
Proof. apply st_map_err_ok. Qed.

Lemma attempt_ok {A} (m : stateful Peer IdeviceError.t A) d r d' :
  attempt m d = (Ok r, d') →
  match r with inr a => m d = (Ok a, d') | inl e => m d = (Err e, d') end.
Proof. unfold attempt. destruct (m d) as [[]]; naive_solver. Qed.

Lemma st_lift_ok {S E A} (m : outcome E A) (s : S) a s' :
  st_lift m s = (Ok a, s') ↔ m = Ok a ∧ s' = s.
Proof. unfold st_lift. naive_solver. Qed.

(** Takes a successful chain of requests apart. *)
Ltac run_requests :=
  repeat match goal with
  | H : st_bind _ _ _ = (Ok _, _) |- _ => apply st_bind_ok in H; destruct H as (? & ? & ? & H)
  | H : ask _ _ = (Ok _, _) |- _ => rewrite ask_ok in H
  | H : attempt _ _ = (Ok _, _) |- _ => apply attempt_ok in H
  | H : st_lift _ _ = (Ok _, _) |- _ => apply st_lift_ok in H as [? ->]
  | H : st_ret _ _ = (Ok _, _) |- _ => unfold st_ret in H; simplify_eq
  end.

(** The values the steps of [preflight] branch on. *)
Ltac on_checked k := match goal with H : check_pairing_file _ _ = (Ok ?b, _) |- _ => k b end.
Ltac on_result k := match goal with H : match ?r with Paired _ => _ | _ => _ end _ = _ |- _ => k r end.
Ltac on_answer k := match goal with H : match ?r with inl _ => _ | inr _ => _ end _ = _ |- _ => k r end.
Ltac on_waited k := match goal with H : wait_for_pair_request _ _ _ _ = (Ok ?b, _) |- _ => k b end.

Lemma check_pairing_file_ok pf d b d' :
  check_pairing_file pf d = (Ok b, d') →
  b = true → ∃ p, pf = Some p ∧ start_session p d = (Ok (), d').
Proof.
  unfold check_pairing_file. intros H ->. destruct pf as [p|]; [|by injection H].
  exists p. split; [done|]. run_requests. destruct x as [e|[]].
  - destruct e; run_requests; done.
  - by run_requests.
Qed.

(** A pairing file comes out of [pair_once] with the host's ids, and the session
    that verifies it is the last thing asked of the device. *)
Lemma preflight_paired es host_id old buid d pf d' :
  preflight es host_id old buid d = (Ok (Paired pf), d') →
  (∃ d1 d2, pair_once host_id buid d1 = (Ok pf, d2)) ∧
  ∃ d1, start_session pf d1 = (Ok (), d').
Proof.
  intros H. unfold preflight in H. run_requests. destruct (negb _); [by run_requests|].
  run_requests. on_checked ltac:(fun b => destruct b; [by run_requests|]). run_requests.
  on_result ltac:(fun r => destruct r as [pf'| |]; run_requests; try done).
  match goal with H : start_session _ _ = (Ok ?u, _) |- _ => destruct u end. split; [|by eexists].
  on_answer ltac:(fun r => destruct r as [e|p]); [|run_requests; simplify_eq; eauto].
  destruct e; run_requests; try done;
    destruct (support_notifications _ _); run_requests;
    on_waited ltac:(fun b => destruct b; run_requests; simplify_eq; eauto).
Qed.

(** The reasons for which a preflight ends without a new pairing file. *)
Lemma preflight_not_paired es host_id old buid d d' :
  preflight es host_id old buid d = (Ok NotPaired, d') →
  (∃ ty d1, get_type d1 = (Ok ty, d') ∧ ty ≠ "com.apple.mobile.lockdown")
  ∨ (∃ p d1, old = Some p ∧ start_session p d1 = (Ok (), d'))
  ∨ (∃ e d1, (e = IdeviceError.PasswordProtected ∨ e = IdeviceError.PairingDialogResponsePending) ∧
       pair_once host_id buid d1 = (Err e, d')).
Proof.
  intros H. unfold preflight in H. run_requests.
  match goal with H : (if negb ?b then _ else _) _ = _ |- _ => destruct b eqn:Et; cbn [negb] in H end.
  - run_requests. match goal with H : check_pairing_file _ _ = (Ok ?b, _) |- _ => destruct b eqn:Eb end.
    + run_requests. right. left. match goal with H : check_pairing_file _ _ = _ |- _ =>
        destruct (check_pairing_file_ok _ _ _ _ H eq_refl) as (p & -> & Hs) end. eauto.
    + run_requests. right. right. on_result ltac:(fun r => destruct r; run_requests; try done).
      on_answer ltac:(fun r => destruct r as [e|p]); [|by run_requests].
      destruct e; run_requests; try done;
        (destruct (support_notifications _ _); run_requests;
         [on_waited ltac:(fun b => destruct b; by run_requests)|]); eauto 10.
  - left. apply String.eqb_neq in Et. run_requests. eauto.
Qed.

(** ** The daemon's files *)

Section daemon.
Context {L : Type}.
Implicit Types (w : World L) (d : Peer).

(** The file at [path] is there as before, or it did not parse and is gone. *)
Definition kept_or_dropped (path : string) (f f' : gmap string (list byte)) : Prop :=
  f' = f ∨
  (f' = delete path f ∧ ∃ data e, f !! path = Some data ∧ pairing_file_from_bytes data = inl e).

Lemma saved_pairing_file_disk path w d o w' d' :
  saved_pairing_file path (w, d) = (o, (w', d')) →
  d' = d ∧ fs_fault (disk w') = fs_fault (disk w) ∧
  kept_or_dropped path (files (disk w)) (files (disk w')).
Proof.
  unfold saved_pairing_file, st_bind at 1, on_world, read_disk. intros H.
  destruct (fs_read path (disk w)) as [data|k| |] eqn:E;
    [|by destruct k; injection H as <- <- <-; split_and!; try done; left
     |by injection H as <- <- <-; split_and!; try done; left..].
  destruct (pairing_file_from_bytes data) as [e|p] eqn:Ep;
    [|by injection H as <- <- <-; split_and!; try done; left].
  assert (El : files (disk w) !! path = Some data).
  { unfold fs_read in E. destruct (fs_fault (disk w) path) as [[]|], (files (disk w) !! path); by simplify_eq. }
  assert (Er : fs_remove path (disk w) = (Ok (), MkDisk (delete path (files (disk w))) (fs_fault (disk w)))).
  { unfold fs_remove. rewrite El. unfold fs_read in E. by destruct (fs_fault (disk w) path) as [[]|]. }
  unfold st_bind, on_disk in H. rewrite Er in H. cbn in H. injection H as <- <- <-.
  cbn. split_and!; try done. right. eauto.
Qed.

Lemma read_system_buid_disk u w o w' :
  read_system_buid u w = (o, w') →
  ∀ p, p ≠ system_configuration_path → files (disk w') !! p = files (disk w) !! p.
Proof.
  unfold read_system_buid. intros H p Hp. unfold st_bind at 1, read_disk at 1 in H.
  destruct (negb _).
  - unfold st_bind, on_disk, fs_write in H. destruct (fs_fault (disk w) _) as [[]|]; cbn in H;
      injection H as <- <-; [done|..]; cbn; by rewrite lookup_insert_ne.
  - assert (w' = w) as ->; [|done]. unfold st_bind, read_disk, st_of, st_lift in H.
    repeat (case_match; simplify_eq; try done).
Qed.

Lemma kept_or_dropped_after path (f f1 f2 : gmap string (list byte)) :
  path ≠ system_configuration_path → kept_or_dropped path f f1 →
  (∀ p, p ≠ system_configuration_path → f2 !! p = f1 !! p) →
  (∀ p, p ≠ path → p ≠ system_configuration_path → f2 !! p = f !! p) ∧
  (f2 !! path = f !! path ∨
   (f2 !! path = None ∧ ∃ data e, f !! path = Some data ∧ pairing_file_from_bytes data = inl e)).
Proof.
  intros Hne [->|[-> Hd]] H2; (split; [intros p Hp1 Hp2; rewrite H2 by done|]).
  - done.
  - left. by apply H2.
  - by rewrite lookup_delete_ne.
  - right. rewrite H2, lookup_delete_eq by done. auto.
Qed.

(** C33.  The files after the daemon's preflight.  Only two can change, the pairing file
    of the device and the system configuration; the pairing file is as before, or
    it did not parse and is gone, or it is the serialisation of a file the device
    has just accepted in a session, or what a failed write has left of that. *)
Theorem preflight_run_files es new_uuid host_id udid w d o w' d' :
  let path := path_join LOCKDOWN_PATH (udid +:+ ".plist") in
  path ≠ system_configuration_path →
  preflight_run es new_uuid host_id udid (w, d) = (o, (w', d')) →
  (∀ p, p ≠ path → p ≠ system_configuration_path →
     files (disk w') !! p = files (disk w) !! p) ∧
  (files (disk w') !! path = files (disk w) !! path
   ∨ (files (disk w') !! path = None ∧
      ∃ data e, files (disk w) !! path = Some data ∧ pairing_file_from_bytes data = inl e)
   ∨ (∃ pf data d1, pairing_file_serialize pf = inr data ∧ start_session pf d1 = (Ok (), d') ∧
        ((o = Ok true ∧ files (disk w') !! path = Some data) ∨
         (∃ k n, o = Err (RusbmuxError.IO k) ∧ files (disk w') !! path = Some (take n data))))).
Proof.
  intros path Hne. unfold preflight_run. fold path. unfold st_bind at 1.
  destruct (saved_pairing_file path (w, d)) as [o1 [w1 d1]] eqn:E1.
  apply saved_pairing_file_disk in E1 as (-> & Hf & Hk).
  assert (G : ∀ wx : World L, (∀ p, p ≠ system_configuration_path →
      files (disk wx) !! p = files (disk w1) !! p) → ∀ (ox : outcome RusbmuxError.t bool) dx,
    (∀ p, p ≠ path → p ≠ system_configuration_path → files (disk wx) !! p = files (disk w) !! p) ∧
    (files (disk wx) !! path = files (disk w) !! path ∨ (files (disk wx) !! path = None ∧
      ∃ data e, files (disk w) !! path = Some data ∧ pairing_file_from_bytes data = inl e)
     ∨ (∃ pf data d1, pairing_file_serialize pf = inr data ∧ start_session pf d1 = (Ok (), dx) ∧
        ((ox = Ok true ∧ files (disk wx) !! path = Some data) ∨
         (∃ k n, ox = Err (RusbmuxError.IO k) ∧ files (disk wx) !! path = Some (take n data)))))).
  { intros wx Hwx ox dx. destruct (kept_or_dropped_after _ _ _ _ Hne Hk Hwx) as [? [?|?]]; auto. }
  destruct o1 as [pfo| | |]; try (intros [= <- <- <-]; by apply G).
  unfold st_bind at 1, on_world at 1.
  destruct (read_system_buid new_uuid w1) as [o2 w2] eqn:E2.
  pose proof (read_system_buid_disk _ _ _ _ E2) as H2.
  destruct o2 as [buid| | |]; try (intros [= <- <- <-]; by apply G).
  unfold st_bind at 1, on_peer at 1.
  destruct (preflight es host_id pfo buid d) as [o3 d3] eqn:E3.
  destruct o3 as [[pf| |]| | |]; try (intros [= <- <- <-]; by apply G).
  unfold st_bind at 1, st_lift at 1. destruct (pairing_file_serialize pf) as [e|data] eqn:E4;
    cbn [idevice_result]; [intros [= <- <- <-]; by apply G|].
  destruct (kept_or_dropped_after _ _ _ _ Hne Hk H2) as [Ho _].
  apply preflight_paired in E3 as (_ & dp & Hs).
  unfold st_bind, on_world, on_disk, fs_write. destruct (fs_fault (disk w2) path) as [[k|k n]|]; cbn;
    intros [= <- <- <-]; [by apply G|..]; cbn; (split; [intros p Hp1 Hp2; rewrite lookup_insert_ne by done; by apply Ho|]);
    right; right; exists pf, data, dp; rewrite lookup_insert_eq; eauto 10.
Qed.

(** The device names the file: its serial number is not checked, and one that is an
    absolute path makes the preflight delete a file anywhere that does not parse as
    a pairing file. *)
Theorem preflight_removes_outside udid w d data e :
  String.prefix "/" udid = true →
  let path := udid +:+ ".plist" in
  fs_fault (disk w) path = None → files (disk w) !! path = Some data →
  pairing_file_from_bytes data = inl e →
  path_join LOCKDOWN_PATH (udid +:+ ".plist") = path ∧
  ∃ w', saved_pairing_file path (w, d) = (Ok None, (w', d)) ∧ files (disk w') !! path = None.
Proof.
  intros Hu path Hf Hl Hp. split.
  - unfold path_join. destruct udid as [|c udid]; [done|].
    rewrite prefix_slash in Hu. change (String.String c udid +:+ ".plist")
      with (String.String c (udid +:+ ".plist")). by rewrite prefix_slash, Hu.
  - unfold saved_pairing_file, st_bind at 1, on_world at 1, read_disk, fs_read. rewrite Hf, Hl, Hp.
    unfold st_bind, on_world, on_disk, fs_remove. rewrite Hf, Hl. cbn.
    eexists. split; [done|]. cbn. by rewrite lookup_delete_eq.
Qed.

End daemon.
End lemmas.
