(* ===== verification/Provider.v ===== *)
(** * Connections of the provider ([src/provider.rs], [IdeviceProvider::connect])

    The library's counterpart of [UsbDevice::connect]: it registers a port, shakes
    hands and wraps the connection in a [RusbmuxStream].  The receiver of the port
    stays with the stream; the [UsbDeviceConn] itself gets a closed dummy. *)

From S2P Require Import Prelude Io Tcp DeviceMux Plist Builder Errors Conn Bridge Poll ProviderStream.
From S2P Require Import Router UsbDevice Request UsbMux Registry World Records Network Preflight.

Section provider.
Context {L : Type} {link : Link L} {plink : PollLink L} {text : ErrorText}.

(** [Idevice::new(Box::new(stream), label)] with its [udid] set *)
Record IdeviceConn : Type := MkIdeviceConn {
  ic_stream : RusbmuxStream L;
  ic_label : string;
  ic_udid : string;
}.

Definition connect_failed (port : Z) (udid : string) (err : RusbmuxError.t) : IdeviceError.t :=
  IdeviceError.UnexpectedResponse
    ("failed to connect to port " +:+ pretty port +:+ " on " +:+ udid +:+ ": " +:+ error_display err).

(** As in [UsbDevice.connect], [meanwhile] is what the reader loop does to the router
    during the handshake.  The receiver is dropped when the handshake fails. *)
Definition provider_connect (meanwhile : RouterState → RouterState) (label : string) (port : Z)
  : stateful (UsbDevice L) IdeviceError.t IdeviceConn := λ d,
  match register (ud_router d) with
  | (Ok (source_port, rx), r) =>
      match perform source_port port (ud_link d) with
      | (Ok handshake, l) =>
          let conn := new_from (ud_id d) port source_port (hs_sent_bytes handshake)
            (hs_received_bytes handshake) (hs_device_window_size handshake)
            (hs_device_received_bytes handshake) in
          let c := fresh (dom (ud_conns d)) in
          let stream := MkRusbmuxStream conn l [] false 0 None in
          (Ok (MkIdeviceConn stream label (ud_udid d)),
           set_state (attach_conn (conn_source_port conn) c (meanwhile r))
             (<[c := conn]> (ud_conns d)) l d)
      | (Err err, l) =>
          (Err (connect_failed port (ud_udid d) err),
           set_state (rx_drop rx (meanwhile r)) (ud_conns d) l d)
      | (Panic, l) => (Panic, set_state (rx_drop rx (meanwhile r)) (ud_conns d) l d)
      | (Ub, l) => (Ub, set_state (rx_drop rx (meanwhile r)) (ud_conns d) l d)
      end
  | (Err err, r) =>
      (Err (connect_failed port (ud_udid d) err), set_state r (ud_conns d) (ud_link d) d)
  | (Panic, r) => (Panic, set_state r (ud_conns d) (ud_link d) d)
  | (Ub, r) => (Ub, set_state r (ud_conns d) (ud_link d) d)
  end.

(** ** Lemmas *)

Context {laws : LinkLaws L}.

Lemma perform_cases s d (l : L) :
  (∃ h l', perform s d l = (Ok h, l')) ∨ ∃ e l', perform s d l = (Err e, l').
Proof.
  unfold perform, st_bind, st_lift, st_ret.
  destruct (tx_send_spec (tcp_flag_packet s d 0 0 SYN) l) as (l1 & [[-> _]|[[? ->] _]]); [|eauto].
  destruct (rx_recv_spec l1) as (l2 & _ & [[p ->]|[? ->]]); [|eauto].
  destruct (tcp_hdr p) as [h|]; cbn [ok_or]; [|eauto]. destruct (negb _); [eauto|].
  set (q := tcp_flag_packet s d (0 + _) _ ACK).
  destruct (tx_send_spec q l2) as (l3 & [[-> _]|[[? ->] _]]); eauto.
Qed.

(** The handshake's numbers are the [u32] the device acknowledged. *)
Lemma perform_sent s d (l l' : L) h :
  perform s d l = (Ok h, l') →
  ∃ p hdr, tcp_hdr p = Some hdr ∧ hs_sent_bytes h = acknowledgment_number hdr ∧
    ∃ l1 l2, Conn.rx_recv l1 = (Ok p, l2).
Proof.
  unfold perform. intros H. apply st_bind_ok in H as (u & l1 & H1 & H).
  apply st_bind_ok in H as (p & l2 & H2 & H). apply st_bind_ok in H as (hdr & l3 & H3 & H).
  apply st_lift_ok in H3 as [Hh ->]. destruct (tcp_hdr p) as [hdr'|] eqn:Ep; [|done].
  injection Hh as ->. destruct (negb _); [done|].
  apply st_bind_ok in H as (u' & l4 & H4 & H). injection H as <- <-.
  exists p, hdr. split_and!; [done| |eauto]. cbn. lia.
Qed.

Lemma rx_drop_dead c s e port :
  is_Some (chans s !! c) → routes (router (rx_drop c s)) !! port = Some e → tx e = c →
  routes (router (cleanup_dead (rx_drop c s))) !! port = None.
Proof.
  intros [ch Hc] He Ht. destruct (routes (router (cleanup_dead (rx_drop c s))) !! port) as [e'|] eqn:E;
    [|done].
  apply cleanup_dead_lookup in E as [He' Hd]. rewrite He in He'. injection He' as <-.
  unfold is_disconnected, rx_drop in Hd. rewrite Hc, Ht in Hd. cbn in Hd. by rewrite lookup_insert_eq in Hd.
Qed.

Lemma provider_connect_ok meanwhile label port d sp rx r h l :
  register (ud_router d) = (Ok (sp, rx), r) → perform sp port (ud_link d) = (Ok h, l) →
  ∃ conn c, provider_connect meanwhile label port d
    = (Ok (MkIdeviceConn (MkRusbmuxStream conn l [] false 0 None) label (ud_udid d)),
       set_state (attach_conn sp c (meanwhile r)) (<[c := conn]> (ud_conns d)) l d) ∧
    conn = new_from (ud_id d) port sp (hs_sent_bytes h) (hs_received_bytes h)
             (hs_device_window_size h) (hs_device_received_bytes h) ∧
    ud_conns d !! c = None.
Proof.
  intros E Eh. eexists _, _. split; [unfold provider_connect; rewrite E, Eh; reflexivity|].
  split; [reflexivity|]. apply not_elem_of_dom, is_fresh.
Qed.

Lemma provider_connect_err meanwhile label port d sp rx r e l :
  register (ud_router d) = (Ok (sp, rx), r) → perform sp port (ud_link d) = (Err e, l) →
  provider_connect meanwhile label port d
    = (Err (connect_failed port (ud_udid d) e),
       set_state (rx_drop rx (meanwhile r)) (ud_conns d) l d).
Proof. intros E Eh. unfold provider_connect. by rewrite E, Eh. Qed.

Lemma provider_connect_full meanwhile label port d e r :
  register (ud_router d) = (Err e, r) →
  provider_connect meanwhile label port d
    = (Err (connect_failed port (ud_udid d) e), set_state r (ud_conns d) (ud_link d) d).
Proof. intros E. unfold provider_connect. by rewrite E. Qed.

Lemma attach_conn_lookup sp c s e :
  routes (router s) !! sp = Some e →
  routes (router (attach_conn sp c s)) !! sp = Some (Entry (tx e) (Some c)).
Proof. intros He. unfold attach_conn. rewrite He. cbn [router routes]. apply lookup_insert_eq. Qed.

Lemma rx_drop_routes rx s : routes (router (rx_drop rx s)) = routes (router s).
Proof. unfold rx_drop. by destruct (chans s !! rx). Qed.

(** ** Properties *)

(** Whatever the reader loop does during the handshake, a successful [connect]
    gives a stream with nothing half written, whose connection is attached to its
    port if the port is still registered.  A failed one holds no connection; unlike
    [UsbDevice::connect] it leaves its port in the router, with the receiver
    dropped: no packet reaches it and the next registration removes it. *)
Theorem provider_connect_spec meanwhile label port d o d' :
  (∀ l1 l2 p h, Conn.rx_recv (L := L) l1 = (Ok p, l2) → tcp_hdr p = Some h →
     in_width 32 (acknowledgment_number h)) →
  provider_connect meanwhile label port d = (o, d') →
  match register (ud_router d) with
  | (Ok (sp, rx), r) =>
      is_Some (chans (meanwhile r) !! rx) →
      match o with
      | Ok ic => fresh_stream (ic_stream ic) ∧ unread (ic_stream ic) = payloads (link_inbox (ud_link d')) ∧
          ic_udid ic = ud_udid d ∧ conn_source_port (rs_conn (ic_stream ic)) = sp ∧
          conn_destination_port (rs_conn (ic_stream ic)) = port ∧
          ∃ c, ud_conns d !! c = None ∧ ud_conns d' = <[c := rs_conn (ic_stream ic)]> (ud_conns d) ∧
            ∀ e, routes (router (meanwhile r)) !! sp = Some e →
              routes (router (ud_router d')) !! sp = Some (Entry (tx e) (Some c))
      | _ => (∃ m, o = Err (IdeviceError.UnexpectedResponse m)) ∧ ud_conns d' = ud_conns d ∧
          routes (router (ud_router d')) = routes (router (meanwhile r)) ∧
          ∀ e, routes (router (meanwhile r)) !! sp = Some e → tx e = rx →
            live_routes (ud_router d') !! sp = None
      end
  | (_, r) => (∃ m, o = Err (IdeviceError.UnexpectedResponse m)) ∧
      d' = set_state r (ud_conns d) (ud_link d) d
  end.
Proof.
  intros Hwidth H.
  destruct (register (ud_router d)) as [[[sp rx]|e| |] r] eqn:E;
    [|rewrite (provider_connect_full meanwhile label port d e r E) in H;
      injection H as <- <-; split; [by eexists|done]
     |destruct (register_total (ud_router d)) as [(? & ? & ? & E')|(? & ? & E')]; congruence..].
  intros Hrx. destruct (perform_cases sp port (ud_link d)) as [(h & l & Eh)|(e & l & Eh)].
  - destruct (provider_connect_ok meanwhile label port d sp rx r h l E Eh) as (conn & c & E' & Hc & Hf).
    rewrite E' in H. injection H as <- <-. cbn [ic_stream ic_udid rs_conn ud_router ud_conns ud_link set_state].
    split_and!; [split_and!|..].
    + done.
    + rewrite Hc. cbn. destruct (perform_sent _ _ _ _ _ Eh) as (p & hdr & Hh & -> & l1 & l2 & Hr).
      by eapply Hwidth.
    + rewrite Hc. apply calc_sendable_nonneg.
    + done.
    + done.
    + by rewrite Hc.
    + by rewrite Hc.
    + exists c. split_and!; [done|done|]. apply attach_conn_lookup.
  - rewrite (provider_connect_err meanwhile label port d sp rx r e l E Eh) in H.
    injection H as <- <-. cbn [ud_router ud_conns ud_link set_state].
    rewrite rx_drop_routes. split_and!; [by eexists|done|done|].
    intros e' He Ht. eapply rx_drop_dead; [done| |done]. by rewrite rx_drop_routes.
Qed.

End provider.
