(* ===== verification/NetConn.v ===== *)
(** * Network connections and the library's view of a connection
    ([src/conn/network.rs], [src/conn/mod.rs], [NetworkDevice::connect] of
    [src/device/network.rs], the renewal of [src/device/power_assertion.rs])

    What a user of the library gets from [Device::connect]: a TCP stream to a network
    device, or a connection of a USB device's multiplexer. *)

From S2P Require Import Prelude Io Plist Request UsbMux Errors Conn Router UsbDevice Registry World Network Bridge.

(** ** Network connections *)

(** [std::net::SocketAddr]; an IPv6 address has a flow label and a scope. *)
Inductive SocketAddr : Type :=
| SocketV4 (octets : list byte) (port : Z)
| SocketV6 (octets : list byte) (port flowinfo scope_id : Z).

Definition socket_port (a : SocketAddr) : Z :=
  match a with SocketV4 _ port => port | SocketV6 _ port _ _ => port end.

Record NetworkDeviceConn : Type := MkNetworkConn {
  nc_stream : stream;
  nc_device_id : Z;
  nc_destination_port : Z;
}.

(** [NetworkDeviceConn::new]; [connected] is what [TcpStream::connect] gives. *)
Definition network_conn_new (connected : SocketAddr → ErrorKind + stream) (socket : SocketAddr) (device_id : Z)
  : outcome RusbmuxError.t NetworkDeviceConn :=
  match connected socket with
  | inl k => Err (RusbmuxError.IO k)
  | inr stream => Ok (MkNetworkConn stream device_id (socket_port socket))
  end.

(** [NetworkDevice::connect] *)
Definition network_connect (connected : SocketAddr → ErrorKind + stream) (d : NetworkDevice) (destination_port : Z)
  : outcome RusbmuxError.t NetworkDeviceConn :=
  let socket := match nd_addr d with
                | IpV4 octets => SocketV4 octets destination_port
                | IpV6 octets => SocketV6 octets destination_port 0 (default 0%Z (nd_scope_id d))
                end in
  network_conn_new connected socket (nd_id d).

Definition network_write (value : list byte) : stateful NetworkDeviceConn RusbmuxError.t () := λ c,
  let '(r, s) := write_all value (nc_stream c) in
  (map_err RusbmuxError.IO r, MkNetworkConn s (nc_device_id c) (nc_destination_port c)).

(** [read_buf] into an empty buffer takes what has arrived, [n] bytes of it at most;
    nothing at the end of the stream. *)
Definition network_read (n : nat) : stateful NetworkDeviceConn RusbmuxError.t (list byte) := λ c,
  let s := nc_stream c in
  match s_in s with
  | [] =>
      (match s_end s with
       | UnexpectedEof => Err (RusbmuxError.IO NetworkUnreachable)
       | k => Err (RusbmuxError.IO k)
       end, c)
  | _ =>
      (Ok (take n (s_in s)),
       MkNetworkConn (set_in (drop n (s_in s)) s) (nc_device_id c) (nc_destination_port c))
  end.

(** ** [DeviceConn] *)

Section device_conn.
Context {L : Type} {link : Link L}.

Inductive LibraryConn : Type :=
| LibraryNetwork (dev : NetworkDeviceConn)
| LibraryUsb (conn : UsbDeviceConn) (l : L).

(** [DeviceConn::as_network] and [as_usb] *)
Definition library_as_network (c : LibraryConn) : option NetworkDeviceConn :=
  match c with LibraryNetwork dev => Some dev | LibraryUsb _ _ => None end.

Definition library_as_usb (c : LibraryConn) : option (UsbDeviceConn * L) :=
  match c with LibraryUsb conn l => Some (conn, l) | LibraryNetwork _ => None end.

Definition library_connection_type (c : LibraryConn) : ConnectionType :=
  match c with LibraryUsb _ _ => UsbConnection | LibraryNetwork _ => NetworkConnection end.

Definition library_destination_port (c : LibraryConn) : Z :=
  match c with
  | LibraryUsb conn _ => Conn.conn_destination_port conn
  | LibraryNetwork dev => nc_destination_port dev
  end.

Definition library_device_id (c : LibraryConn) : Z :=
  match c with LibraryUsb conn _ => Conn.device_id conn | LibraryNetwork dev => nc_device_id dev end.

Definition library_close (c : LibraryConn) : outcome RusbmuxError.t () * LibraryConn :=
  match c with
  | LibraryUsb conn l => let '(o, (conn, l)) := close (conn, l) in (o, LibraryUsb conn l)
  | LibraryNetwork dev => (Ok (), LibraryNetwork dev)
  end.

(** ** [Device] *)

Context {plist : PlistCodec} {idev : Idevice} {ptext : PlistText}.

(** [Device::new_network] *)
Definition new_network (id : Z) (addr : IpAddr * option IpAddr) (scope_id : option Z)
    (mac_address service_name udid : string) (d : Disk) : outcome RusbmuxError.t (Device L) :=
  let? dev := network_device_new id addr scope_id mac_address service_name udid d in
  Ok (Registry.Network dev).

(** [Device::connect]; [meanwhile] is what the router sees during the handshake.  The
    connection made is the one that the device holds under its new key. *)
Definition device_connect (connected : SocketAddr → ErrorKind + stream) (meanwhile : RouterState → RouterState)
    (destination_port : Z) (d : Device L) : outcome RusbmuxError.t LibraryConn * Device L :=
  match d with
  | Registry.Network dev =>
      (let? c := network_connect connected dev destination_port in Ok (LibraryNetwork c), d)
  | Registry.Usb dev =>
      match connect meanwhile destination_port dev with
      | (Ok c, dev') =>
          (match ud_conns dev' !! c with
           | Some conn => Ok (LibraryUsb conn (ud_link dev'))
           | None => Panic
           end, Registry.Usb dev')
      | (Err e, dev') => (Err e, Registry.Usb dev')
      | (Panic, dev') => (Panic, Registry.Usb dev')
      | (Ub, dev') => (Ub, Registry.Usb dev')
      end
  end.

(** A connection is of its device, of the device's kind, and goes to the port that was
    asked for; it fails with an error, never otherwise. *)
Theorem device_connect_spec {link_laws : LinkLaws L} connected meanwhile port d o d' :
  device_connect connected meanwhile port d = (o, d') →
  connection_type d' = connection_type d ∧ device_id d' = device_id d ∧
  match o with
  | Ok c => library_connection_type c = connection_type d ∧ library_device_id c = device_id d ∧
      library_destination_port c = port
  | Err _ => True
  | Panic | Ub => False
  end.
Proof.
  destruct d as [dev|dev]; cbn [device_connect].
  - unfold network_connect, network_conn_new.
    destruct (connected _) as [k|s]; intros [= <- <-]; cbn; [done|]. by destruct (nd_addr dev).
  - destruct (usb_connect_cases meanwhile port dev) as [(c & d1 & conn & -> & -> & H1 & H2 & H3)|(e & d1 & -> & H1)];
      intros [= <- <-]; by split_and!.
Qed.

End device_conn.

(** ** Renewing the power assertion *)

Section renewal.
Context {plist : PlistCodec} {idev : Idevice} {ptext : PlistText}.

(** The task: every ten minutes a new assertion replaces the one it holds; the first
    failure ends the task, and with it what it holds.  The files are as they are
    then.  [true]: an assertion is held. *)
Fixpoint renewal_run (addr : IpAddr) (scope_id : option Z) (udid : string) (rounds : list Disk) : bool :=
  match rounds with
  | [] => true
  | d :: rounds =>
      match assertion_new addr scope_id udid d with
      | Ok _ => renewal_run addr scope_id udid rounds
      | _ => false
      end
  end.

(** An assertion is held as long as every renewal so far succeeded; one failure is
    for good, although the device stays connected. *)
Lemma renewal_held addr scope_id udid rounds :
  renewal_run addr scope_id udid rounds = true ↔
  Forall (λ d, assertion_new addr scope_id udid d = Ok ()) rounds.
Proof.
  induction rounds as [|d rounds IH]; cbn [renewal_run]; [by split|].
  rewrite list.Forall_cons, <- IH. destruct (assertion_new addr scope_id udid d) as [[]|e| |]; naive_solver.
Qed.

End renewal.

(** ** Lemmas *)

(** Reading over and over, as much as has arrived each time. *)
Fixpoint network_reads (ns : list nat) (c : NetworkDeviceConn)
  : list byte * option RusbmuxError.t * NetworkDeviceConn :=
  match ns with
  | [] => ([], None, c)
  | n :: ns =>
      match network_read n c with
      | (Ok bs, c) => let '(rest, e, c) := network_reads ns c in (bs ++ rest, e, c)
      | (Err e, c) => ([], Some e, c)
      | (_, c) => ([], None, c)
      end
  end.

(** What was read and what is left are what the device sends; the end of the stream
    is an error, which comes only when everything was read. *)
Lemma network_reads_stream ns : ∀ c bs e c',
  network_reads ns c = (bs, e, c') →
  bs ++ s_in (nc_stream c') = s_in (nc_stream c) ∧ (is_Some e → s_in (nc_stream c') = []).
Proof.
  induction ns as [|n ns IH]; intros c bs e c'; cbn [network_reads]; [intros [= <- <- <-]; by split; [|intros []]|].
  unfold network_read. destruct (s_in (nc_stream c)) as [|b l] eqn:E.
  - destruct (s_end (nc_stream c)); intros [= <- <- <-]; by rewrite E.
  - destruct (network_reads ns _) as [[rest e1] c1] eqn:E1. intros [= <- <- <-].
    apply IH in E1 as [H1 H2]. cbn in H1. rewrite <- app_assoc, H1, take_drop. by split.
Qed.
