(* ===== verification/Handlers.v ===== *)
(** * Answering clients ([src/bin/rusbmux/handler/])

    The handlers of [device_list.rs], [listeners_list.rs], [listen.rs],
    [add_device.rs] and [connect.rs] (those about pair records are in [Records],
    the dispatch and the loop in [Session]).  What happens around a request (the UUID that is
    made, how a connection's handshake and transfer go, when the registry changes
    while a client listens) is the record [Env], one for each round of the loop. *)

From S2P Require Import Prelude Io Plist UsbMux Request Errors Conn.
From S2P Require Import Bridge Router UsbDevice Registry World Records Network.

(** [TcpStream] as far as the source uses it: connecting, and the copying in both
    directions of a connection that is handed over. *)
Class TcpNet : Type := {
  tcp_connect : IpAddr → Z → Z → ErrorKind + stream;
  copy_bidirectional : stream → stream → (ErrorKind + ()) * (stream * stream);
  (** what it has done to the two streams when it is given up *)
  copy_given_up : stream → stream → stream * stream;
}.

Record Env (L : Type) : Type := MkEnv {
  env_uuid : string;
  (** [connect]: what the reader loop does to the router during the handshake *)
  env_meanwhile : RouterState → RouterState;
  (** a USB connection's rounds, a network connection's cancellation *)
  env_bridge : list bridge_event;
  env_cancelled : bool;
  (** [Listen]: what happens to the registry between subscription and snapshot; the keys
      the snapshot's iterator visits, with what happens before each; what happens
      before each [recv] *)
  env_subscribed : Daemon L → Daemon L;
  env_visits : list ((Daemon L → Daemon L) * Z);
  env_listen : list (Daemon L → Daemon L);
}.
Arguments MkEnv {L}.
Arguments env_uuid {L}.
Arguments env_meanwhile {L}.
Arguments env_bridge {L}.
Arguments env_cancelled {L}.
Arguments env_subscribed {L}.
Arguments env_visits {L}.
Arguments env_listen {L}.

Section handlers.
Context {L : Type} {link : Link L} {mo : MapOrder} {ro : RegistryOrder L}.
Context {plist : PlistCodec}.
Context {idev : Idevice} {ptext : PlistText} {net : TcpNet}.
Abbreviation handler := (handler (L := L)).

Definition read_registry {A} (f : Daemon L → A) : handler A := λ w, (Ok (f (registry w)), w).

Definition modify_registry (f : Daemon L → Daemon L) : handler () :=
  on_registry (λ s, (Ok (), f s)).

(** ** Lists *)

(** The devices a client is told of, in the map's order. *)
Definition listed_devices (s : Daemon L) : list (Device L) :=
  filter (λ dev, is_shadowed dev s = false) (devices_in_order (connected s)).*2.

Definition devices_plist (s : Daemon L) : Value :=
  Dictionary [("DeviceList", Array (device_attached <$> listed_devices s))].

Definition handle_device_list (tag : Z) : handler () :=
  let! devices_plist := read_registry devices_plist in
  reply tag devices_plist.

Definition listener_plist : Value :=
  Dictionary [("Blacklisted", Boolean false); ("ConnType", Integer 0);
              ("ID String", String "unknown"); ("ProgName", String "unknown")].

Definition receiver_count : handler nat := λ w, (Ok (listeners w), w).

Definition handle_listeners_list (tag : Z) : handler () :=
  let! listeners_count := receiver_count in
  reply tag (Dictionary [("ListenerList", Array (replicate listeners_count listener_plist))]).

(** ** Listening *)

(** [broadcast::channel(32)] *)
Definition hotplug_capacity : nat := 32.

Inductive recv_result : Type := Received (e : DeviceEvent) | Lagged | Pending.

(** A receiver that has read [pos] events. *)
Definition recv_event (pos : nat) (s : Daemon L) : recv_result :=
  if decide (hotplug_capacity < length (events s) - pos) then Lagged
  else match events s !! pos with Some e => Received e | None => Pending end.

Definition detached_plist (id : Z) : Value :=
  Dictionary [("MessageType", String "Detached"); ("DeviceID", Integer id)].

Definition subscribe : handler nat := λ w,
  (Ok (length (events (registry w))),
   MkWorld (client w) (registry w) (disk w) (S (listeners w)) (next_id w)).

(** The receiver is dropped. *)
Definition unsubscribe : handler () := λ w,
  (Ok (), MkWorld (client w) (registry w) (disk w) (pred (listeners w)) (next_id w)).

(** [CONNECTED_DEVICES.iter().filter(..)]: each entry as it is when the iterator gets to
    it, which is after the one before has been sent.  An entry that is gone by then is
    passed over. *)
Fixpoint send_currently_connected (visits : list ((Daemon L → Daemon L) * Z)) (tag : Z) : handler () :=
  match visits with
  | [] => st_ret ()
  | (happens, key) :: visits =>
      let! _ := modify_registry happens in
      let! device := read_registry (λ s, connected s !! key) in
      let! shadowed := read_registry (λ s, match device with Some dev => is_shadowed dev s | None => true end) in
      let! _ := match device with
                | Some device => if shadowed : bool then st_ret () else reply tag (device_attached device)
                | None => st_ret ()
                end in
      send_currently_connected visits tag
  end.

Definition send_hotplug (tag : Z) (event : DeviceEvent) : handler () :=
  match event with
  | Attached id =>
      let! device := read_registry (λ s, connected s !! id) in
      match device with
      | None => st_ret ()
      | Some device => reply tag (device_attached device)
      end
  | Detached id => reply tag (detached_plist id)
  end.

(** The position of a client that still listens after the rounds; [None] when the
    loop has ended. *)
Fixpoint listen_loop (rounds : list (Daemon L → Daemon L)) (tag : Z) (pos : nat)
  : handler (option nat) :=
  match rounds with
  | [] => st_ret (Some pos)
  | happens :: rounds =>
      let! _ := modify_registry happens in
      let! r := read_registry (recv_event pos) in
      match r with
      | Lagged => st_ret None
      | Pending => listen_loop rounds tag pos
      | Received event =>
          let! _ := send_hotplug tag event in
          listen_loop rounds tag (S pos)
      end
  end.

Definition listen (env : Env L) (tag : Z) (pos : nat) : handler (option nat) :=
  let! _ := modify_registry (env_subscribed env) in
  let! _ := send_result UsbMuxResult.OK tag in
  let! _ := send_currently_connected (env_visits env) tag in
  listen_loop (env_listen env) tag pos.

Definition handle_listen (env : Env L) (tag : Z) : handler (option nat) :=
  let! pos := subscribe in
  let! r := try (listen env tag pos) in
  match r with
  | inl (Some pos) => st_ret (Some pos)
  | inl None => let! _ := unsubscribe in st_ret None
  | inr err => let! _ := unsubscribe in st_of (Err err)
  end.

(** ** Adding a network device by hand *)

Definition next_device_id : handler Z := λ w,
  (Ok (next_id w),
   MkWorld (client w) (registry w) (disk w) (listeners w) (wrap 64 (next_id w + 1))).

Definition add_device (ip : IpAddr) (udid : string) (force : bool) : handler () :=
  let! _ := st_of (check_pair_record_id udid) in
  let! pairing_file := read_disk (pairing_file_at (pair_record_path udid)) in
  let! pairing_file := st_of pairing_file in
  let! existing := read_registry (find_network_id_by_udid udid) in
  if bool_decide (is_Some existing) && negb force then st_ret ()
  else
    let! id := next_device_id in
    let! device := read_disk (network_device_new id (ip, None) None (wifi_mac_address pairing_file)
                                "manual" udid) in
    on_registry (register_network udid force id device).

Definition add_device_code (err : RusbmuxError.t) : UsbMuxResult.t :=
  match err with
  | RusbmuxError.IO (NotFound | PermissionDenied) => UsbMuxResult.BadDeviceOrNoSuchFile
  | RusbmuxError.DeviceNotFound _ => UsbMuxResult.BadDeviceOrNoSuchFile
  | RusbmuxError.Idevice _ => UsbMuxResult.InvalidInput
  | _ => UsbMuxResult.ConnectionRefused
  end.

Definition handle_add_device (ip : IpAddr) (udid : string) (force : bool) (tag : Z) : handler () :=
  let! r := try (add_device ip udid force) in
  match r with
  | inl _ => send_result UsbMuxResult.OK tag
  | inr err =>
      let! _ := send_result (add_device_code err) tag in
      st_of (Err err)
  end.

(** ** Connecting to a device *)

Inductive DeviceConn : Type :=
| NetworkConn (stream : stream)
| UsbConn (c : ConnId).

Definition set_device (id : Z) (dev : Device L) (w : World L) : World L :=
  MkWorld (client w) (set_connected (<[id := dev]> (connected (registry w))) (registry w)) (disk w)
    (listeners w) (next_id w).

Definition set_client (s : stream) (w : World L) : World L :=
  MkWorld s (registry w) (disk w) (listeners w) (next_id w).

Definition connect (env : Env L) (device_id destination_port : Z) : handler DeviceConn := λ w,
  match connected (registry w) !! device_id with
  | None => (Err (RusbmuxError.DeviceNotFound device_id), w)
  | Some (Network dev) =>
      match tcp_connect (nd_addr dev) destination_port (default 0%Z (nd_scope_id dev)) with
      | inr stream => (Ok (NetworkConn stream), w)
      | inl k => (Err (RusbmuxError.IO k), w)
      end
  | Some (Usb dev) =>
      let '(o, dev) := UsbDevice.connect (env_meanwhile env) destination_port dev in
      (let? c := o in Ok (UsbConn c), set_device device_id (Usb dev) w)
  end.

(** The USB device under the id and its connection, if both are there. *)
Definition usb_conn (device_id : Z) (c : ConnId) (w : World L)
  : option (UsbDevice L * UsbDeviceConn) :=
  match connected (registry w) !! device_id with
  | Some (Usb dev) => (λ conn, (dev, conn)) <$> (ud_conns dev !! c)
  | _ => None
  end.

(** Whether the transfer goes on after the rounds of [env]. *)
Definition transfer_usb (env : Env L) (device_id : Z) (c : ConnId) : handler bool := λ w,
  match usb_conn device_id c w with
  | Some (dev, conn) =>
      let '(o, b) := handle_usb_device_connect (env_bridge env) conn (ud_link dev) (client w) in
      (o, set_client (br_client b)
            (set_device device_id
               (Usb (set_state (ud_router dev) (<[c := br_conn b]> (ud_conns dev)) (br_link b) dev)) w))
  | None => (Ok false, w)
  end.

(** The last reference to the connection goes. *)
Definition drop_usb (device_id : Z) (c : ConnId) (w : World L) : World L :=
  match usb_conn device_id c w with
  | Some (dev, conn) =>
      let '(_, l) := conn_drop (conn, ud_link dev) in
      set_device device_id (Usb (set_state (ud_router dev) (delete c (ud_conns dev)) l dev)) w
  | None => w
  end.

Definition handle_network_device_connect (env : Env L) (stream : stream) : handler bool := λ w,
  if env_cancelled env then (Ok false, set_client (copy_given_up stream (client w)).2 w)
  else
    let '(res, (_, s)) := copy_bidirectional stream (client w) in
    (match res with inl k => Err (RusbmuxError.IO k) | inr _ => Ok false end, set_client s w).

Definition connect_error_code (err : RusbmuxError.t) : UsbMuxResult.t :=
  match err with
  | RusbmuxError.DeviceNotFound _ | RusbmuxError.RanOutOfSourcePort =>
      UsbMuxResult.BadDeviceOrNoSuchFile
  | _ => UsbMuxResult.ConnectionRefused
  end.

(** Runs [m]; unless it goes on, [cleanup] follows, whatever it gave. *)
Definition until_done (m : handler bool) (cleanup : World L → World L) : handler bool := λ w,
  match m w with
  | (Ok true, w) => (Ok true, w)
  | (o, w) => (o, cleanup w)
  end.

Definition handle_connect (env : Env L) (device_id destination_port tag : Z) : handler bool :=
  let! r := try (connect env device_id destination_port) in
  match r with
  | inr err =>
      let! _ := send_result (connect_error_code err) tag in
      st_of (Err err)
  | inl (UsbConn c) =>
      until_done (let! _ := send_result UsbMuxResult.OK tag in transfer_usb env device_id c)
        (drop_usb device_id c)
  | inl (NetworkConn stream) =>
      let! _ := send_result UsbMuxResult.OK tag in
      handle_network_device_connect env stream
  end.

End handlers.

(** ** Specification *)

(** The event a message to a listening client announces. *)
Definition message_event (m : Value) : option DeviceEvent :=
  match m with
  | Dictionary d =>
      match dict_get "MessageType" d, dict_get "DeviceID" d with
      | Some (String t), Some (Integer id) =>
          if String.eqb t "Attached" then Some (Attached id)
          else if String.eqb t "Detached" then Some (Detached id) else None
      | _, _ => None
      end
  | _ => None
  end.

(** The devices a client that knew [v] knows after the messages. *)
Definition known (v : gset Z) (ms : list Value) : gset Z := view v (omap message_event ms).

(** What may happen to the registry: any of its transitions, in any number, that disturb
    no id but those in [D]; and one thing after the other. *)
Definition evolves {L} `{Link L, MapOrder, RegistryOrder L} (D : gset Z) (s s' : Daemon L) : Prop :=
  ∃ X, X ⊆ D ∧ registry_steps s X s'.

Fixpoint evolving {L} `{Link L, MapOrder, RegistryOrder L} (D : gset Z) (s : Daemon L)
    (fs : list (Daemon L → Daemon L)) : Prop :=
  match fs with
  | [] => True
  | f :: fs => evolves D s (f s) ∧ evolving D (f s) fs
  end.

(** The states an iterator meets. *)
Fixpoint visiting {L} (s : Daemon L) (visits : list ((Daemon L → Daemon L) * Z)) : list (Daemon L) :=
  s :: match visits with [] => [] | (f, _) :: visits => visiting (f s) visits end.

(** What [DashMap]'s iterator promises: it gets to every key that is there all the time. *)
Definition iterates {L} (s : Daemon L) (visits : list ((Daemon L → Daemon L) * Z)) : Prop :=
  ∀ id, (∀ st, st ∈ visiting s visits → is_Some (connected st !! id)) → id ∈ visits.*2.

(** ** Lemmas *)

Section lemmas.
Context {L : Type} {link : Link L} {mo : MapOrder} {ro : RegistryOrder L}.
Context {plist : PlistCodec}.

Lemma message_event_attached (d : Device L) :
  message_event (device_attached d) = Some (Attached (device_id d)).
Proof. by destruct d. Qed.

Lemma elem_of_listed_devices (s : Daemon L) dev :
  dev ∈ listed_devices s ↔ ∃ id, connected s !! id = Some dev ∧ is_shadowed dev s = false.
Proof.
  unfold listed_devices. rewrite list_elem_of_filter, list_elem_of_fmap. split.
  - intros [Hs ([id d] & -> & Hin)]. rewrite devices_in_order_perm in Hin.
    apply elem_of_map_to_list in Hin. eauto.
  - intros (id & Hd & Hs). split; [done|]. exists (id, dev). split; [done|].
    rewrite devices_in_order_perm. by apply elem_of_map_to_list.
Qed.

Lemma listed_devices_visible D (s : Daemon L) :
  registry_wf D s → ∀ id, id ∈ (device_id <$> listed_devices s) ↔ id ∈ visible s.
Proof.
  intros Hwf id. rewrite list_elem_of_fmap. unfold visible. rewrite elem_of_dom. unfold is_Some.
  setoid_rewrite map_lookup_filter_Some. cbn. split.
  - intros (d & -> & (i & Hd & Hs)%elem_of_listed_devices). exists d.
    by rewrite (wf_id _ _ Hwf _ _ Hd).
  - intros (d & Hd & Hs). exists d. split; [by rewrite (wf_id _ _ Hwf _ _ Hd)|].
    apply elem_of_listed_devices. eauto.
Qed.

Lemma listed_devices_NoDup D (s : Daemon L) : registry_wf D s → NoDup (device_id <$> listed_devices s).
Proof.
  intros Hwf. unfold listed_devices.
  assert (Hl : ∀ kv, kv ∈ devices_in_order (connected s) → device_id kv.2 = kv.1).
  { intros [id d] Hin. rewrite devices_in_order_perm in Hin. apply elem_of_map_to_list in Hin.
    by apply (wf_id _ _ Hwf). }
  assert (Hn : NoDup (devices_in_order (connected s)).*1).
  { rewrite devices_in_order_perm. apply NoDup_fst_map_to_list. }
  revert Hl Hn. induction (devices_in_order (connected s)) as [|[id d] l IH]; intros Hl Hn;
    [constructor|].
  cbn [fmap list_fmap] in *. apply list.NoDup_cons in Hn as [Hid Hn]. cbn [fst snd] in *.
  rewrite filter_cons. case_decide; cbn [fmap list_fmap]; [|apply IH; [|done]; set_solver].
  apply list.NoDup_cons. split; [|apply IH; [|done]; set_solver].
  pose proof (Hl (id, d) ltac:(left)) as Hd. cbn in Hd. rewrite Hd. intros (d' & -> & Hin)%list_elem_of_fmap. apply Hid.
  apply list_elem_of_filter in Hin as [_ ([id' d''] & -> & Hin)%list_elem_of_fmap].
  apply list_elem_of_fmap. exists (id', d''). split; [|done]. cbn.
  pose proof (Hl (id', d'') ltac:(by right)) as Hd'. cbn in *. congruence.
Qed.

Lemma known_app v ms ms' : known v (ms ++ ms') = known (known v ms) ms'.
Proof. unfold known. by rewrite omap_app, view_app. Qed.

(** An [Attached] event may be skipped when its device is not known in the end. *)
Lemma view_skip id v es x :
  (x = id → x ∉ view ({[id]} ∪ v) es) → x ∈ view v es ↔ x ∈ view ({[id]} ∪ v) es.
Proof.
  intros Hid. destruct (decide (x = id)) as [->|Hx]; [|apply view_local; set_solver].
  specialize (Hid eq_refl). destruct (decide (Exists (names id) es)) as [H|H]; [by apply view_named|].
  rewrite view_unnamed in Hid by done. set_solver.
Qed.

(** ** Lemmas on listening *)

Definition with_registry (s : Daemon L) (w : World L) : World L :=
  MkWorld (client w) s (disk w) (listeners w) (next_id w).

Lemma evolves_tells D (s s' : Daemon L) : registry_wf D s → evolves D s s' → tells D s s'.
Proof.
  intros Hwf (X & HX & H). replace D with (D ∪ X) by set_solver. by apply registry_steps_tell.
Qed.

Lemma evolving_app D (s : Daemon L) fs fs' :
  evolving D s (fs ++ fs') ↔ evolving D s fs ∧ evolving D (fold_left (λ s f, f s) fs s) fs'.
Proof. revert s. induction fs as [|f fs IH]; intros s; cbn; [tauto|]. rewrite IH. tauto. Qed.

(** *** The snapshot *)

(** What [Attached] messages tell. *)
Lemma known_attached v ms ids id :
  omap message_event ms = Attached <$> ids → id ∈ known v ms ↔ id ∈ ids ∨ id ∈ v.
Proof.
  unfold known. intros ->. revert v. induction ids as [|i ids IH]; intros v; cbn [fmap list_fmap].
  - unfold view. cbn. rewrite elem_of_nil. tauto.
  - change (view v (Attached i :: (Attached <$> ids))) with (view ({[i]} ∪ v) (Attached <$> ids)).
    rewrite IH, elem_of_union, elem_of_singleton, elem_of_cons. tauto.
Qed.

(** One visit *)
Lemma visit_sends D f key rest tag (w : World L) :
  writable w → registry_wf D (f (registry w)) →
  ∃ ms ids, omap message_event ms = Attached <$> ids ∧
    (∀ id, id ∈ ids ↔ id = key ∧ key ∈ visible (f (registry w))) ∧
    send_currently_connected ((f, key) :: rest) tag w
      = send_currently_connected rest tag (after_replies tag ms (with_registry (f (registry w)) w)).
Proof.
  intros Hw Hwf. set (w1 := with_registry (f (registry w)) w). set (s1 := f (registry w)) in *.
  assert (Hrun : ∀ ms, (match connected s1 !! key with
      | Some device => if is_shadowed device s1 then st_ret () else reply tag (device_attached device)
      | None => st_ret () end) w1 = (Ok (), after_replies tag ms w1) →
    send_currently_connected ((f, key) :: rest) tag w = send_currently_connected rest tag (after_replies tag ms w1)).
  { intros ms E. cbn [send_currently_connected]. rewrite (st_bind_eq _ _ w () w1) by done.
    rewrite (st_bind_eq _ _ w1 (connected s1 !! key) w1) by done.
    erewrite (st_bind_eq _ _ w1 _ w1) by done. rewrite (st_bind_eq _ _ w1 () (after_replies tag ms w1)); [done|].
    by destruct (connected s1 !! key). }
  destruct (connected s1 !! key) as [d|] eqn:Hd; [destruct (is_shadowed d s1) eqn:Es|].
  - exists [], []. split; [done|]. split; [|apply Hrun; by rewrite after_replies_nil].
    intros id. rewrite elem_of_nil. split; [done|]. intros [_ (d' & Hd' & Hs)%elem_of_visible].
    apply is_shadowed_spec in Es as (n & -> & Hu). by destruct (Hs n); [congruence|].
  - exists [device_attached d], [key]. cbn [omap list_omap fmap list_fmap].
    rewrite message_event_attached, (wf_id _ _ Hwf _ _ Hd). split; [done|].
    split; [|apply Hrun; by apply reply_ok]. intros id. rewrite list_elem_of_singleton.
    split; [intros ->; split; [done|]|by intros [-> _]]. apply elem_of_visible. exists d. split; [done|].
    intros n -> Hu. apply not_true_iff_false in Es. apply Es, is_shadowed_spec. eauto.
  - exists [], []. split; [done|]. split; [|apply Hrun; by rewrite after_replies_nil].
    intros id. rewrite elem_of_nil. split; [done|]. intros [_ (d' & Hd' & _)%elem_of_visible]. congruence.
Qed.

(** What its messages announce: devices that are visible when the iterator gets to
    them, and all of those that always are. *)
Lemma snapshot_sent D visits tag : ∀ (w : World L),
  writable w → registry_wf D (registry w) → evolving D (registry w) visits.*1 →
  ∃ ms ids, omap message_event ms = Attached <$> ids ∧
    send_currently_connected visits tag w = (Ok (), after_replies tag ms
      (with_registry (fold_left (λ s f, f s) visits.*1 (registry w)) w)) ∧
    ∀ id, (id ∈ ids → ∃ st, st ∈ visiting (registry w) visits ∧ id ∈ visible st) ∧
      (id ∈ visits.*2 → (∀ st, st ∈ visiting (registry w) visits → id ∈ visible st) → id ∈ ids).
Proof.
  induction visits as [|[f key] visits IH]; intros w Hw Hwf Hev.
  { exists [], []. rewrite after_replies_nil. split; [done|]. split; [by destruct w|]. set_solver. }
  destruct Hev as [Hf Hev]. destruct (evolves_tells _ _ _ Hwf Hf) as [Hwf1 _].
  destruct (visit_sends D f key visits tag w Hw Hwf1) as (ms1 & ids1 & M1 & H1 & E1).
  destruct (IH (after_replies tag ms1 (with_registry (f (registry w)) w)) Hw Hwf1 Hev)
    as (ms2 & ids2 & M2 & E2 & H2).
  exists (ms1 ++ ms2), (ids1 ++ ids2). split; [by rewrite omap_app, M1, M2, fmap_app|].
  split; [rewrite E1, E2, <- after_replies_app; done|].
  change (registry (after_replies tag ms1 (with_registry (f (registry w)) w))) with (f (registry w)) in H2.
  assert (Hhead : f (registry w) ∈ visiting (f (registry w)) visits) by (destruct visits as [|[]]; left).
  cbn [visiting fmap list_fmap snd]. intros id. rewrite elem_of_app, H1. destruct (H2 id) as [HA HB]. split.
  - intros [[-> Hk]|(st & Hst & Hv)%HA]; [exists (f (registry w))|exists st];
      (split; [apply elem_of_cons; by right|done]).
  - intros [->|Hk]%elem_of_cons Hall.
    + left. split; [done|]. apply Hall, elem_of_cons. by right.
    + right. apply HB; [done|]. intros st Hst. apply Hall, elem_of_cons. by right.
Qed.

(** The states on the way: each comes from the first, and leads to the last. *)
Lemma visiting_tells D visits : ∀ s : Daemon L,
  registry_wf D s → evolving D s visits.*1 →
  ∀ st, st ∈ visiting s visits → tells D s st ∧ tells D st (fold_left (λ s f, f s) visits.*1 s).
Proof.
  induction visits as [|[f key] visits IH]; intros s Hwf Hev st; cbn [visiting fmap list_fmap fold_left].
  - intros ->%list_elem_of_singleton. split; by apply tells_same.
  - destruct Hev as [Hf%evolves_tells Hev]; [|done]. destruct (IH _ (proj1 Hf) Hev) with (f s) as [_ Hlast];
      [destruct visits as [|[]]; left|].
    intros [->|Hst]%elem_of_cons; [split; [by apply tells_same|by eapply tells_trans]|].
    destruct (IH _ (proj1 Hf) Hev st Hst) as [H1 H2]. split; [by eapply tells_trans|done].
Qed.

(** A client that knew [v] and has the events from [pos] on still to come will
    be right about the visible devices. *)
Definition follows (D : gset Z) (s : Daemon L) (pos : nat) (v : gset Z) : Prop :=
  registry_wf D s ∧ pos ≤ length (events s) ∧ right_but D (view v (drop pos (events s))) s.

Lemma visible_unnamed D (s s' : Daemon L) es id :
  id ∉ D → ¬ Exists (names id) es → right_but D (view (visible s) es) s' →
  id ∈ visible s ↔ id ∈ visible s'.
Proof. intros Hid Hn H. by rewrite <- (H id Hid), view_unnamed. Qed.

(** The snapshot is as good as one that is taken at once. *)
Lemma snapshot_follows D (s0 s : Daemon L) visits ms ids v :
  tells D s0 s → registry_wf D s0 → evolving D s visits.*1 → iterates s visits →
  omap message_event ms = Attached <$> ids → v = known ∅ ms →
  (∀ id, (id ∈ ids → ∃ st, st ∈ visiting s visits ∧ id ∈ visible st) ∧
     (id ∈ visits.*2 → (∀ st, st ∈ visiting s visits → id ∈ visible st) → id ∈ ids)) →
  follows D (fold_left (λ s f, f s) visits.*1 s) (length (events s0)) v.
Proof.
  intros Ht Hwf0 Hev Hit Hms -> Hids. pose proof (proj1 Ht) as Hwf. set (s' := fold_left _ _ s).
  assert (Hall : ∀ st, st ∈ visiting s visits → ∃ es1 es2, events st = events s0 ++ es1 ∧
    events s' = events s0 ++ es1 ++ es2 ∧ right_but D (view (visible s0) es1) st).
  { intros st Hst. destruct (visiting_tells D visits s Hwf Hev st Hst) as [H1 H2].
    destruct (tells_trans D D s0 s st (reflexivity D) Ht H1) as (_ & es1 & E1 & R1).
    destruct H2 as (_ & es2 & E2 & _). change (events s' = events st ++ es2) in E2.
    exists es1, es2. by rewrite E2, E1, app_assoc. }
  assert (Hs' : tells D s0 s').
  { eapply tells_trans; [reflexivity|exact Ht|]. apply (visiting_tells D visits s Hwf Hev s).
    by destruct visits as [|[]]; left. }
  destruct Hs' as (Hwf' & es & E & R). split; [done|]. rewrite E, length_app, drop_app_length.
  split; [lia|]. intros id Hid. rewrite <- (R id Hid).
  destruct (decide (Exists (names id) es)) as [Hn|Hn]; [by apply view_named|].
  rewrite !view_unnamed, (known_attached ∅ ms ids) by done. destruct (Hids id) as [HA HB].
  assert (Hsame : ∀ st, st ∈ visiting s visits → id ∈ visible s0 ↔ id ∈ visible st).
  { intros st Hst. destruct (Hall st Hst) as (es1 & es2 & _ & E' & R1). rewrite E' in E.
    apply app_inv_head in E. eapply visible_unnamed; [done| |exact R1]. rewrite <- E, Exists_app in Hn. tauto. }
  split.
  - intros [Hin|Hin]; [|by apply not_elem_of_empty in Hin]. destruct (HA Hin) as (st & Hst & Hv). by apply (Hsame st).
  - intros Hv. left. apply HB; [|by intros st Hst; apply Hsame]. apply Hit. intros st Hst.
    apply (Hsame st Hst) in Hv. apply elem_of_visible in Hv as (d & Hd & _). by exists d.
Qed.

(** *** The events *)

Lemma follows_evolves D (s s' : Daemon L) pos v : evolves D s s' → follows D s pos v → follows D s' pos v.
Proof.
  intros Hev (Hwf & Hpos & Hv). destruct (evolves_tells _ _ _ Hwf Hev) as (Hwf' & es & He & Hs).
  split; [done|]. rewrite He, length_app. split; [lia|].
  rewrite drop_app_le, view_app by lia. intros x Hx. rewrite <- (Hs x Hx). by apply view_local, Hv.
Qed.

Lemma follows_event D e s pos v :
  events s !! pos = Some e → follows D s pos v → follows D s (S pos) (view v [e]).
Proof.
  intros He (Hwf & Hpos & Hv). split; [done|]. apply lookup_lt_Some in He as Hlt. split; [lia|].
  rewrite (drop_S _ _ _ He) in Hv. exact Hv.
Qed.

Lemma follows_skip D id s pos v :
  events s !! pos = Some (Attached id) → connected s !! id = None →
  follows D s pos v → follows D s (S pos) v.
Proof.
  intros He Hid Hf. apply (follows_event _ _ _ _ _ He) in Hf as (Hwf & Hpos & Hv).
  split; [done|]. split; [done|]. intros x Hx. rewrite <- (Hv x Hx).
  change (view v [Attached id]) with ({[id]} ∪ v) in *. apply view_skip. intros -> Hin.
  apply (Hv id Hx), elem_of_visible in Hin as (d & Hd & _). congruence.
Qed.

(** What is sent for an event, and that it keeps the client following. *)
Lemma send_hotplug_follows D e tag (w : World L) pos v :
  writable w → events (registry w) !! pos = Some e → follows D (registry w) pos v →
  ∃ ms, send_hotplug tag e w = (Ok (), after_replies tag ms w) ∧
    follows D (registry w) (S pos) (known v ms).
Proof.
  intros Hw He Hf. destruct e as [id|id]; cbn [send_hotplug].
  - unfold st_bind, read_registry. destruct (connected (registry w) !! id) as [d|] eqn:Hd.
    + exists [device_attached d]. split; [by apply reply_ok|]. unfold known.
      cbn [omap list_omap]. rewrite message_event_attached, (wf_id _ _ (proj1 Hf) _ _ Hd).
      by apply follows_event.
    + exists []. split; [by rewrite after_replies_nil|]. by eapply follows_skip.
  - exists [detached_plist id]. split; [by apply reply_ok|]. by apply (follows_event D (Detached id)).
Qed.

Lemma listen_loop_follows D rounds tag : ∀ pos (w : World L) v,
  evolving D (registry w) rounds → writable w → follows D (registry w) pos v →
  ∃ r ms s, listen_loop rounds tag pos w = (Ok r, after_replies tag ms (with_registry s w)) ∧
    registry_wf D s ∧ (∀ pos', r = Some pos' → follows D s pos' (known v ms)).
Proof.
  induction rounds as [|f rounds IH]; intros pos w v Hev Hw Hfol.
  { exists (Some pos), [], (registry w). split; [rewrite after_replies_nil; by destruct w|].
    split; [apply Hfol|]. by intros ? [= <-]. }
  destruct Hev as [Hf Hev]. cbn [listen_loop]. set (w1 := with_registry (f (registry w)) w).
  rewrite (st_bind_eq _ _ w () w1) by done.
  rewrite (st_bind_eq _ _ w1 (recv_event pos (registry w1)) w1) by done.
  apply (follows_evolves D _ (f (registry w))) in Hfol; [|done]. unfold recv_event.
  destruct (decide _).
  { exists None, [], (f (registry w)). rewrite after_replies_nil. split; [done|].
    split; [apply Hfol|done]. }
  destruct (events (registry w1) !! pos) as [e|] eqn:He.
  - destruct (send_hotplug_follows D e tag w1 pos v Hw He Hfol) as (ms & E & Hfol1).
    rewrite (st_bind_eq _ _ _ _ _ E).
    destruct (IH (S pos) (after_replies tag ms w1) _ Hev Hw Hfol1) as (r & ms' & s & E' & Hwf & Hr).
    exists r, (ms ++ ms'), s. rewrite known_app. split; [|by split].
    rewrite E'. rewrite <- after_replies_app. done.
  - destruct (IH pos w1 v Hev Hw Hfol) as (r & ms & s & E & Hwf & Hr). by exists r, ms, s.
Qed.

(** ** Properties *)

(** [ListDevices] is answered with one packet that announces exactly
    the visible devices, each once. *)
Theorem device_list_exact D tag (w : World L) :
  writable w → registry_wf D (registry w) →
  ∃ ms, handle_device_list tag w
      = (Ok (), after_replies tag [Dictionary [("DeviceList", Array ms)]] w) ∧
    ∃ ids, omap message_event ms = Attached <$> ids ∧ length ms = length ids ∧ NoDup ids ∧
      ∀ id, id ∈ ids ↔ id ∈ visible (registry w).
Proof.
  intros Hw Hwf. exists (device_attached <$> listed_devices (registry w)). split.
  { unfold handle_device_list, st_bind, read_registry. by apply reply_ok. }
  exists (device_id <$> listed_devices (registry w)). split_and!.
  - induction (listed_devices (registry w)) as [|d l IH]; [done|].
    cbn [fmap list_fmap omap list_omap]. by rewrite message_event_attached, IH.
  - by rewrite !length_fmap.
  - by eapply listed_devices_NoDup.
  - by eapply listed_devices_visible.
Qed.

(** C3.  A listening client knows what is connected.  The registry may change, by any
    of its transitions, between the client's subscription and the snapshot, from one entry
    of the snapshot to the next, and before each event: the client gets the [OK] and then
    messages such that, while it is still listening and once it has been sent all events,
    it is right about the visible devices, but for the ids that those changes disturbed
    ([registry_step] says which do); if there were none it knows exactly the visible
    devices.  An [Attached] event whose device is gone already may be skipped. *)
Theorem listen_client_exact D (env : Env L) tag (w : World L) :
  writable w → registry_wf D (registry w) →
  evolving D (registry w) (env_subscribed env :: (env_visits env).*1 ++ env_listen env) →
  iterates (env_subscribed env (registry w)) (env_visits env) →
  ∃ r ms w', handle_listen env tag w = (Ok r, w') ∧ writable w' ∧
    s_out (client w')
      = s_out (client w) ++ ((result_plist UsbMuxResult.OK :: ms) ≫= reply_bytes tag) ∧
    ∀ pos, r = Some pos → pos = length (events (registry w')) →
      right_but D (known ∅ ms) (registry w') ∧ (D = ∅ → known ∅ ms = visible (registry w')).
Proof.
  intros Hw Hwf [Hsub Hev] Hit. apply evolving_app in Hev as [Hvis Hrounds].
  unfold handle_listen, listen.
  set (pos := length (events (registry w))). set (s1 := env_subscribed env (registry w)) in *.
  set (w0 := MkWorld (client w) (registry w) (disk w) (S (listeners w)) (next_id w)).
  set (w1 := with_registry s1 w0). set (w2 := after_replies tag [result_plist UsbMuxResult.OK] w1).
  pose proof (evolves_tells _ _ _ Hwf Hsub) as Ht.
  destruct (snapshot_sent D (env_visits env) tag w2 Hw (proj1 Ht) Hvis) as (ms0 & ids & M0 & E0 & H0).
  change (registry w2) with s1 in *. set (s2 := fold_left _ _ s1) in *.
  set (w3 := after_replies tag ms0 (with_registry s2 w2)).
  pose proof (snapshot_follows D (registry w) s1 _ ms0 ids _ Ht Hwf Hvis Hit M0 eq_refl H0) as Hfol.
  destruct (listen_loop_follows D (env_listen env) tag pos w3 _ Hrounds Hw Hfol) as (r & ms & s & E & Hwf' & Hr).
  set (w4 := after_replies tag ms (with_registry s w3)) in E.
  assert (El : (let! _ := modify_registry (env_subscribed env) in
                let! _ := send_result UsbMuxResult.OK tag in
                let! _ := send_currently_connected (env_visits env) tag in
                listen_loop (env_listen env) tag pos) w0 = (Ok r, w4)).
  { rewrite (st_bind_eq _ _ w0 () w1) by done.
    rewrite (st_bind_eq _ _ _ _ _ (send_result_ok UsbMuxResult.OK tag w1 Hw)).
    by rewrite (st_bind_eq _ _ _ () w3). }
  assert (Hout : s_out (client w4)
    = s_out (client w) ++ ((result_plist UsbMuxResult.OK :: ms0 ++ ms) ≫= reply_bytes tag)).
  { unfold w4, w3, w2. cbn [client after_replies with_registry s_out]. rewrite <- !app_assoc.
    cbn. by rewrite app_nil_r, bind_app. }
  rewrite (st_bind_eq _ _ w pos w0) by done. unfold st_bind at 1, try. rewrite El.
  exists r, (ms0 ++ ms). destruct r as [pos'|]; eexists; (split; [done|]); (split; [done|]);
    (split; [exact Hout|]); [|done].
  intros ? [= <-] Hpos. destruct (Hr _ eq_refl) as (_ & _ & Hv).
  change (registry w4) with s in *. rewrite Hpos, drop_ge in Hv by lia. rewrite known_app.
  split; [exact Hv|]. intros ->. apply set_eq. intros x. apply Hv. set_solver.
Qed.

End lemmas.

Section connect.
Context {L : Type} {link : Link L} {laws : LinkLaws L} {plist : PlistCodec} {net : TcpNet}.

Lemma connect_cases (env : Env L) id port w :
  (∃ c w1 dev conn, connect env id port w = (Ok (UsbConn c), w1) ∧
     usb_conn id c w1 = Some (dev, conn) ∧ client w1 = client w) ∨
  (∃ s, connect env id port w = (Ok (NetworkConn s), w)) ∨
  (∃ e w1, connect env id port w = (Err e, w1) ∧ client w1 = client w).
Proof.
  unfold connect. destruct (connected (registry w) !! id) as [[n|u]|] eqn:E; [..|eauto 10].
  - destruct (tcp_connect _ _ _) as [k|s]; eauto 10.
  - destruct (usb_connect_cases (env_meanwhile env) port u)
      as [(c & u' & conn & -> & Hc & _)|(e & u' & -> & _)]; [left|by eauto 10].
    eexists c, _, u', conn. split; [done|]. split; [|done].
    unfold usb_conn. cbn. by rewrite lookup_insert_eq, Hc.
Qed.

Lemma usb_conn_set_device id c dev (w : World L) :
  usb_conn id c (set_device id (Usb dev) w) = (λ conn, (dev, conn)) <$> (ud_conns dev !! c).
Proof. unfold usb_conn. cbn. by rewrite lookup_insert_eq. Qed.

Lemma handle_connect_step (env : Env L) id port tag w o w1 :
  connect env id port w = (o, w1) →
  handle_connect env id port tag w =
  match o with
  | Ok (UsbConn c) =>
      until_done (let! _ := send_result UsbMuxResult.OK tag in transfer_usb env id c)
        (drop_usb id c) w1
  | Ok (NetworkConn s) =>
      (let! _ := send_result UsbMuxResult.OK tag in handle_network_device_connect env s) w1
  | Err err => (let! _ := send_result (connect_error_code err) tag in st_of (Err err)) w1
  | Panic => (Panic, w1)
  | Ub => (Ub, w1)
  end.
Proof. intros E. unfold handle_connect, st_bind, try. rewrite E. by destruct o as [[]| | |]. Qed.

(** C28.  [Connect] hands the client over or refuses it.  When the
    connection cannot be made the client gets the one reply that the error stands
    for ([BadDeviceOrNoSuchFile] if there is no such device or no port is free,
    else [ConnectionRefused]) and the session fails with that error.  When it is
    made over USB the client gets [OK] and from then on exactly what the bridge
    between its socket and the connection writes; when the bridge ends, in
    whatever way, the connection is no longer held and its drop has queued what
    it queues. *)
Theorem handle_connect_spec (env : Env L) id port tag w :
  writable w →
  match connect env id port w with
  | (Ok (UsbConn c), w1) =>
      ∃ dev conn, usb_conn id c w1 = Some (dev, conn) ∧
      ∃ o b w', bridge_run (env_bridge env)
          (MkBridge conn (ud_link dev) (client (after_replies tag [result_plist UsbMuxResult.OK] w)) [])
          = (o, b) ∧
        handle_connect env id port tag w = (o, w') ∧ client w' = br_client b ∧
        (o = Ok true → ∃ dev', usb_conn id c w' = Some (dev', br_conn b) ∧ ud_link dev' = br_link b) ∧
        (o ≠ Ok true → usb_conn id c w' = None ∧ ∃ dev', connected (registry w') !! id = Some (Usb dev') ∧
           ud_link dev' = (conn_drop (br_conn b, br_link b)).2)
  | (Ok (NetworkConn s), w1) =>
      handle_connect env id port tag w
      = handle_network_device_connect env s (after_replies tag [result_plist UsbMuxResult.OK] w1)
  | (Err e, w1) =>
      handle_connect env id port tag w
        = (Err e, after_replies tag [result_plist (connect_error_code e)] w1) ∧
      (connected (registry w) !! id = None →
         connect_error_code e = UsbMuxResult.BadDeviceOrNoSuchFile ∧ w1 = w)
  | (Panic, _) | (Ub, _) => False
  end.
Proof.
  intros Hw. destruct (connect_cases env id port w)
    as [(c & w1 & dev & conn & E & Hc & Hcl)|[(s & E)|(e & w1 & E & Hcl)]]; rewrite E;
    rewrite (handle_connect_step _ _ _ _ _ _ _ E).
  - exists dev, conn. split; [done|].
    assert (Hw1 : writable w1) by (unfold writable; by rewrite Hcl).
    unfold until_done. rewrite (st_bind_eq _ _ _ _ _ (send_result_ok UsbMuxResult.OK tag w1 Hw1)).
    unfold transfer_usb. change (usb_conn id c (after_replies ?t ?vs w1)) with (usb_conn id c w1).
    rewrite Hc. unfold handle_usb_device_connect.
    replace (client (after_replies tag [result_plist UsbMuxResult.OK] w1))
      with (client (after_replies tag [result_plist UsbMuxResult.OK] w))
      by (unfold after_replies; cbn; by rewrite Hcl).
    destruct (bridge_run _ _) as [o b]. exists o, b.
    set (d1 := set_state _ _ _ dev).
    assert (Hd : usb_conn id c (set_client (br_client b)
      (set_device id (Usb d1) (after_replies tag [result_plist UsbMuxResult.OK] w1))) = Some (d1, br_conn b)).
    { transitivity (usb_conn id c (set_device id (Usb d1) w1)); [done|].
      rewrite usb_conn_set_device. cbn. by rewrite lookup_insert_eq. }
    assert (o = Ok true ∨ o ≠ Ok true) as [->|Ho] by (destruct o as [[]| | |]; (by left) || by right).
    + eexists. split; [done|]. split; [done|]. split; [done|]. split; [|done].
      intros _. exists d1. split; [exact Hd|done].
    + set (wd := drop_usb id c (set_client (br_client b) (set_device id (Usb d1)
        (after_replies tag [result_plist UsbMuxResult.OK] w1)))).
      exists wd. split; [done|]. split; [by destruct o as [[]| | |]|].
      unfold wd, drop_usb. rewrite Hd. cbn [ud_link d1 set_state].
      destruct (conn_drop (br_conn b, br_link b)) as [c' l]. split; [done|]. split; [done|].
      intros _. rewrite usb_conn_set_device. cbn. rewrite lookup_delete_eq. split; [done|].
      eexists. rewrite lookup_insert_eq. by split.
  - by rewrite (st_bind_eq _ _ _ _ _ (send_result_ok UsbMuxResult.OK tag w Hw)).
  - rewrite (st_bind_eq _ _ _ _ _ (send_result_ok (connect_error_code e) tag w1 ltac:(unfold writable; by rewrite Hcl))).
    split; [done|]. intros Hn. unfold connect in E. rewrite Hn in E. by simplify_eq.
Qed.

End connect.
