(* ===== verification/Session.v ===== *)
(** * A client's session ([src/bin/rusbmux/handler/mod.rs])

    [handle_message] turns a packet into a request and runs its handler;
    [handle_client] reads packets until the client is gone or its session is over.
    The theorems are about whole sessions: which replies go out, with which tag,
    and that requests are served in order whatever came before them.  [serves] is
    the interface between the handlers and the session: what a handler has to do
    for the loop to go on. *)

From S2P Require Import Prelude Io Plist UsbMux Request Errors Conn Bridge.
From S2P Require Import Router UsbDevice Registry World Records Network Handlers.

(** The [Display] text of [serde]'s and [plist]'s errors. *)
Class PlistErrors : Type := { de_display : DeError → string }.

Definition missing_field_text (f : string) : string := "missing field `" +:+ f +:+ "`".

(** The fields a request can lack, and those a reply is chosen by. *)
Definition required_fields : list string :=
  ["MessageType"; "PairRecordID"; "PairRecordData"; "DeviceID"; "PortNumber"; "ip"; "udid"; "force"].
Definition reported_fields : list string :=
  ["PairRecordID"; "PairRecordData"; "DeviceID"; "PortNumber"].

(** The error about a missing field says so, and says so of no other field. *)
Class PlistErrorsLaws `{PlistErrors} : Prop := {
  de_display_missing : ∀ f g, f ∈ required_fields → g ∈ reported_fields →
    contains (missing_field_text g) (de_display (MissingField f)) = String.eqb f g;
}.

Section session.
Context {L : Type} {link : Link L} {mo : MapOrder} {ro : RegistryOrder L}.
Context {plist : PlistCodec} {ip_text : IpText} {perr : PlistErrors}.
Context {idev : Idevice} {ptext : PlistText} {net : TcpNet}.
Abbreviation handler := (handler (L := L)).

(** ** Dispatch *)

Record HandlerError : Type := MkHandlerError {
  he_err : RusbmuxError.t;
  he_request : option string;
  he_fatal : bool;
}.

(** [ControlFlow], and [Busy] for a [Listen] or [Connect] that is still running
    after the rounds of its [Env]. *)
Inductive flow : Type := Continue | Break | Busy.

Definition message_handler (A : Type) : Type := stateful (World L) HandlerError A.

(** The three [From] implementations of [HandlerError] *)
Definition plain {A} (m : handler A) : message_handler A :=
  st_map_err (λ err, MkHandlerError err None false) m.
Definition named {A} (request : string) (m : handler A) : message_handler A :=
  st_map_err (λ err, MkHandlerError err (Some request) false) m.
Definition fatal {A} (request : string) (m : handler A) : message_handler A :=
  st_map_err (λ err, MkHandlerError err (Some request) true) m.

(** The error a request that cannot be read becomes. *)
Definition request_error (err : DeError) : RusbmuxError.t :=
  let err_str := de_display err in
  match find (λ field, contains (missing_field_text (missing_field_debug field)) err_str)
          [MissingFields.PairRecordID; MissingFields.PairRecordData; MissingFields.DeviceID;
           MissingFields.PortNumber] with
  | Some field => RusbmuxError.ValueNotFound field
  | None => RusbmuxError.Parse (ParseError.Plist err_str)
  end.

Definition request_error_code (err : RusbmuxError.t) : UsbMuxResult.t :=
  match err with
  | RusbmuxError.ValueNotFound field => result_code field
  | _ => UsbMuxResult.InvalidInput
  end.

Definition handle_request (env : Env L) (tag : Z) (r : UsbMuxRequest.t) : message_handler flow :=
  match r with
  | UsbMuxRequest.ListDevices _ =>
      let! _ := named "ListDevices" (handle_device_list tag) in st_ret Continue
  | UsbMuxRequest.Listen _ =>
      let! pos := fatal "Listen" (handle_listen env tag) in
      st_ret (match pos with Some _ => Busy | None => Break end)
  | UsbMuxRequest.ListListeners _ =>
      let! _ := named "ListListeners" (handle_listeners_list tag) in st_ret Continue
  | UsbMuxRequest.ReadPairRecord _ pair_record_id =>
      let! _ := named "ReadPairRecord" (handle_read_pair_record pair_record_id tag) in st_ret Continue
  | UsbMuxRequest.Connect _ device_id port =>
      let! busy := fatal "Connect" (handle_connect env device_id port tag) in
      st_ret (if busy : bool then Busy else Break)
  | UsbMuxRequest.ReadBUID _ =>
      let! _ := named "ReadBUID" (handle_read_buid (env_uuid env) tag) in st_ret Continue
  | UsbMuxRequest.SavePairRecord _ pair_record_id pair_record_data device_id =>
      let! _ := named "SavePairRecord"
        (handle_save_pair_record pair_record_id pair_record_data device_id tag) in st_ret Continue
  | UsbMuxRequest.DeletePairRecord _ pair_record_id =>
      let! _ := named "DeletePairRecord" (handle_delete_pair_record pair_record_id tag) in
      st_ret Continue
  | UsbMuxRequest.AddDevice _ ip udid force =>
      let! _ := named "AddDevice" (handle_add_device ip udid force tag) in st_ret Continue
  end.

Definition handle_message (env : Env L) (usbmux_packet : UsbMuxPacket) : message_handler flow :=
  let tag := UsbMux.tag (mux_header usbmux_packet) in
  match msg_type (mux_header usbmux_packet) with
  | UsbMuxMsgType.MessagePlist =>
      let! payload := plain (st_of (ok_or (RusbmuxError.UnexpectedPacket "expected plist payload")
                                     (as_plist (mux_payload usbmux_packet)))) in
      match from_value payload with
      | Ok r => handle_request env tag r
      | Err e =>
          let err := request_error e in
          let! _ := plain (send_result (request_error_code err) tag) in
          plain (st_of (Err err))
      | Panic => plain (st_of Panic)
      | Ub => plain (st_of Ub)
      end
  | _ => let! _ := plain (send_result UsbMuxResult.BadCommand tag) in st_ret Continue
  end.

(** ** The loop *)

(** How a client's session stands: the client is gone, the daemon has closed it,
    or it is still served after the rounds given. *)
Inductive session : Type := ClientGone | Closed | Serving.

Definition read_packet (w : World L) : outcome ParseError.t UsbMuxPacket * World L :=
  let '(o, s) := from_reader (client w) in (o, set_client s w).

(** [handle_client], one [Env] for each round. *)
Fixpoint handle_client (envs : list (Env L)) : stateful (World L) HandlerError session :=
  match envs with
  | [] => st_ret Serving
  | env :: envs => λ w,
      match read_packet w with
      | (Ok usbmux_packet, w) =>
          match handle_message env usbmux_packet w with
          | (Ok Break, w) => (Ok Closed, w)
          | (Ok Continue, w) => handle_client envs w
          | (Ok Busy, w) => (Ok Serving, w)
          | (Err e, w) =>
              if he_fatal e then (Ok Closed, w)
              else if is_disconnect (he_err e) then (Ok Closed, w)
              else handle_client envs w
          | (Panic, w) => (Panic, w)
          | (Ub, w) => (Ub, w)
          end
      | (Err (ParseError.IO (UnexpectedEof | ConnectionReset | BrokenPipe)), w) =>
          (Ok ClientGone, w)
      | (Err _, w) => handle_client envs w
      | (Panic, w) => (Panic, w)
      | (Ub, w) => (Ub, w)
      end
  end.

End session.

(** ** What the loop needs from a handler *)

(** The file system's errors are not those of a lost client. *)
Definition quiet (d : Disk) : Prop :=
  ∀ path k n, fs_fault d path = Some (Refused k) ∨ fs_fault d path = Some (WriteFails k n) →
    is_disconnect_io k = false.

(** A result the loop goes on after: no panic, no lost client. *)
Definition settled {A} (P : A → Prop) (o : outcome RusbmuxError.t A) : Prop :=
  match o with
  | Ok a => P a
  | Err e => is_disconnect e = false
  | Panic | Ub => False
  end.

Section serves.
Context {L : Type} {plist : PlistCodec}.
Implicit Types w : World L.
Abbreviation handler := (handler (L := L)).

(** On a client that can be written to, [m] settles, sends replies with the tag and
    nothing else, and neither reads the client's input nor depends on it; when
    [speaks] is set it sends some reply whenever it succeeds. *)
Definition serves {A} (speaks : bool) (tag : Z) (P : A → Prop) (m : handler A) : Prop :=
  ∀ w, quiet (disk w) → ∃ o vs w1, settled P o ∧ (speaks = true → (∃ a, o = Ok a) → vs ≠ []) ∧ quiet (disk w1) ∧
    ∀ s, s_faults s = [] → m (set_client s w) = (o, after_replies tag vs (set_client s w1)).

Lemma serves_ret {A} tag (P : A → Prop) a : P a → serves false tag P (st_ret a).
Proof.
  intros Ha w Hq. exists (Ok a), [], w. split_and!; [done..|]. intros s _. by rewrite after_replies_nil.
Qed.

Lemma serves_of {A} tag (P : A → Prop) o : settled P o → serves false tag P (st_of o).
Proof.
  intros Ho w Hq. exists o, [], w. split_and!; [done..|]. intros s _. by rewrite after_replies_nil.
Qed.

Lemma serves_err {A} b tag (P : A → Prop) e : is_disconnect e = false → serves b tag P (st_of (Err e)).
Proof.
  intros He w Hq. exists (Err e), [], w. split_and!; [done|by intros _ [a [=]]|done|].
  intros s _. by rewrite after_replies_nil.
Qed.

Lemma serves_reply b tag (P : () → Prop) v : P () → serves b tag P (reply tag v).
Proof.
  intros Hu w Hq. exists (Ok ()), [v], w. split_and!; [done..|]. intros s Hs. by apply reply_ok.
Qed.

Lemma serves_send_result b tag (P : () → Prop) code : P () → serves b tag P (send_result code tag).
Proof. apply serves_reply. Qed.

(** Either of two steps may speak for both. *)
Lemma serves_bind {A B} b b' tag (P : A → Prop) (Q : B → Prop) m f :
  serves b tag P m → (∀ a, P a → serves b' tag Q (f a)) → serves (b || b') tag Q (st_bind m f).
Proof.
  intros Hm Hf w Hq. destruct (Hm w Hq) as (o & vs & w1 & Ho & Hs1 & Hq1 & E).
  destruct o as [a|e| |]; cbn in Ho; try done.
  - destruct (Hf a Ho w1 Hq1) as (o & vs' & w2 & Ho2 & Hs2 & Hq2 & E2). exists o, (vs ++ vs'), w2.
    split_and!; [done| |done|].
    { intros [Hb|Hb]%orb_true_iff Hok Hnil; apply app_nil in Hnil as [-> ->].
      - apply Hs1; [done|by eexists|done].
      - by apply Hs2. }
    intros s Hs. rewrite (st_bind_eq _ _ _ _ _ (E s Hs)).
    rewrite <- after_replies_app.
    exact (E2 (client (after_replies tag vs (set_client s w1))) Hs).
  - exists (Err e), vs, w1. split_and!; [done|by intros _ [a [=]]|done|]. intros s Hs.
    by rewrite (st_bind_fail _ _ _ _ _ (E s Hs)).
Qed.

(** The forms of a bind in the handlers: a step whose value does not matter, a step after
    which nothing is left to say, a result that is matched on, a look at the files or the
    registry. *)
Lemma serves_bind_any {A B} b tag (Q : B → Prop) (m : handler A) f :
  serves false tag (λ _, True) m → (∀ a, serves b tag Q (f a)) → serves b tag Q (st_bind m f).
Proof. intros Hm Hf. apply (serves_bind false b tag (λ _, True)); auto. Qed.

Lemma serves_bind_spoken {A B} tag (Q : B → Prop) (m : handler A) f :
  serves true tag (λ _, True) m → (∀ a, serves false tag Q (f a)) → serves true tag Q (st_bind m f).
Proof. intros Hm Hf. apply (serves_bind true false tag (λ _, True)); auto. Qed.

Lemma serves_quieter {A} b tag (P : A → Prop) m : serves b tag P m → serves false tag P m.
Proof. intros Hm w Hq. destruct (Hm w Hq) as (o & vs & w1 & ? & _ & ? & ?). by exists o, vs, w1. Qed.

Lemma serves_bind_try {A B} b b' tag (Q : B → Prop) (m : handler A) f :
  serves b tag (λ _, True) m → (∀ a, serves (negb b && b') tag Q (f (inl a))) →
  (∀ e, is_disconnect e = false → serves b' tag Q (f (inr e))) → serves b' tag Q (st_bind (try m) f).
Proof.
  intros Hm Ha He w Hq. destruct (Hm w Hq) as (o & vs & w1 & Ho & Hs1 & Hq1 & E).
  assert (Hk : ∀ r b1, serves b1 tag Q (f r) → (b' = true → vs = [] → b1 = true) →
    (∀ s, s_faults s = [] → try m (set_client s w) = (Ok r, after_replies tag vs (set_client s w1))) →
    ∃ o vs w1, settled Q o ∧ (b' = true → (∃ a, o = Ok a) → vs ≠ []) ∧ quiet (disk w1) ∧
      ∀ s, s_faults s = [] → st_bind (try m) f (set_client s w) = (o, after_replies tag vs (set_client s w1))).
  { intros r b1 Hf Hb Et. destruct (Hf w1 Hq1) as (o2 & vs2 & w2 & Ho2 & Hs2 & Hq2 & E2).
    exists o2, (vs ++ vs2), w2. split_and!; [done| |done|].
    - intros Hb' Hok Hnil. apply app_nil in Hnil as [Hv ->]. by apply Hs2; [apply Hb|..].
    - intros s Hs. rewrite (st_bind_eq _ _ _ _ _ (Et s Hs)), <- after_replies_app.
      exact (E2 (client (after_replies tag vs (set_client s w1))) Hs). }
  destruct o as [a|e| |]; cbn in Ho; try done.
  - apply (Hk (inl a) (negb b && b')); [done| |intros s Hs; unfold try; by rewrite (E s Hs)].
    intros -> ->. destruct b; [|done]. by destruct (Hs1 eq_refl (ex_intro _ a eq_refl)).
  - apply (Hk (inr e) b'); [by apply He|done|intros s Hs; unfold try; by rewrite (E s Hs)].
Qed.

(** A result that is sent, whether that succeeds or not *)
Lemma serves_try_send b tag code : serves b tag (λ _, True) (try (send_result (L := L) code tag)).
Proof.
  intros w Hq. exists (Ok (inl ())), [result_plist code], w. split_and!; [done..|]. intros s Hs.
  unfold try. by rewrite send_result_ok.
Qed.

Lemma serves_bind_disk {A B} b tag (Q : B → Prop) (f : Disk → A) k :
  (∀ d, quiet d → serves b tag Q (k (f d))) → serves b tag Q (st_bind (read_disk f) k).
Proof. intros Hk w Hq. exact (Hk _ Hq w Hq). Qed.

Lemma serves_bind_registry {A B} b tag (Q : B → Prop) (f : Daemon L → A) k :
  (∀ s, serves b tag Q (k (f s))) → serves b tag Q (st_bind (read_registry f) k).
Proof. intros Hk w Hq. exact (Hk _ w Hq). Qed.

Lemma serves_on_disk {A} tag (P : A → Prop) (m : stateful Disk ErrorKind A) :
  (∀ d, quiet d → settled P (map_err RusbmuxError.IO (m d).1) ∧ quiet (m d).2) →
  serves false tag P (on_disk m).
Proof.
  intros Hm w Hq. destruct (Hm _ Hq) as [Ho Hq1]. destruct (m (disk w)) as [o d] eqn:E.
  exists (map_err RusbmuxError.IO o), [], (MkWorld (client w) (registry w) d (listeners w) (next_id w)).
  split_and!; [done..|]. intros s _. rewrite after_replies_nil.
  unfold on_disk. cbn [disk set_client]. by rewrite E.
Qed.

Lemma serves_on_registry {A} tag (P : A → Prop) (m : stateful (Daemon L) RusbmuxError.t A) :
  (∀ s, settled P (m s).1) → serves false tag P (on_registry m).
Proof.
  intros Hm w Hq. specialize (Hm (registry w)). destruct (m (registry w)) as [o d] eqn:E.
  exists o, [], (MkWorld (client w) d (disk w) (listeners w) (next_id w)).
  split_and!; [done..|]. intros s _. rewrite after_replies_nil.
  unfold on_registry. cbn [registry set_client]. by rewrite E.
Qed.

Lemma serves_next_device_id tag : serves false tag (λ _, True) (next_device_id (L := L)).
Proof.
  intros w Hq. exists (Ok (next_id w)), [],
    (MkWorld (client w) (registry w) (disk w) (listeners w) (wrap 64 (next_id w + 1))).
  split_and!; [done..|]. intros s _. by rewrite after_replies_nil.
Qed.

Lemma serves_receiver_count tag : serves false tag (λ _, True) (receiver_count (L := L)).
Proof.
  intros w Hq. exists (Ok (listeners w)), [], w. split_and!; [done..|]. intros s _. by rewrite after_replies_nil.
Qed.

(** Files *)

Lemma settled_fs_read path d : quiet d → settled (λ _, True) (map_err RusbmuxError.IO (fs_read path d)).
Proof.
  intros Hq. unfold fs_read.
  destruct (fs_fault d path) as [[k|k n]|] eqn:E; [by apply (Hq _ _ 0 (or_introl E))|..]; by destruct (files d !! path).
Qed.

Lemma settled_fs_write path data d :
  quiet d → settled (λ _, True) (map_err RusbmuxError.IO (fs_write path data d).1) ∧
    quiet (fs_write path data d).2.
Proof.
  intros Hq. unfold fs_write. destruct (fs_fault d path) as [[k|k n]|] eqn:E; [..|by split].
  - split; [by apply (Hq _ _ 0 (or_introl E))|done].
  - split; [by apply (Hq _ _ n (or_intror E))|done].
Qed.

Lemma settled_fs_remove path d :
  quiet d → settled (λ _, True) (map_err RusbmuxError.IO (fs_remove path d).1) ∧
    quiet (fs_remove path d).2.
Proof.
  intros Hq. unfold fs_remove.
  destruct (fs_fault d path) as [[k|k n]|] eqn:E; [by split; [apply (Hq _ _ 0 (or_introl E))|]|..];
    (destruct (files d !! path); by split).
Qed.

Lemma settled_check id : settled (λ _, True) (check_pair_record_id id).
Proof. unfold check_pair_record_id. by case_match. Qed.

Lemma settled_bind {A B} (P : A → Prop) (Q : B → Prop) m f :
  settled P m → (∀ a, P a → settled Q (f a)) → settled Q (outcome_bind f m).
Proof. destruct m; cbn; auto; done. Qed.

Lemma settled_ok_or {A} e (o : option A) :
  is_disconnect e = false → settled (λ _, True) (ok_or e o).
Proof. by destruct o. Qed.

End serves.

Create HintDb serves discriminated.
#[export] Hint Constants Opaque : serves.
#[export] Hint Resolve serves_ret serves_of serves_err serves_try_send serves_reply serves_send_result serves_on_disk
  serves_on_registry serves_next_device_id serves_receiver_count settled_fs_read settled_fs_write
  settled_fs_remove settled_check settled_ok_or I : serves.

(** Walks through a handler, branch by branch; [b]: the call that is tried speaks. *)
Ltac solve_serves_with b :=
  repeat lazymatch goal with
  | |- serves _ _ _ (st_bind (read_disk _) _) => apply serves_bind_disk; intros ? ?
  | |- serves _ _ _ (st_bind (read_registry _) _) => apply serves_bind_registry; intros ?
  | |- serves true _ _ (st_bind (try (send_result _ _)) _) => apply serves_bind_spoken; [|intros ?]
  | |- serves _ _ _ (st_bind (try _) _) => apply (serves_bind_try b); [|intros ?; cbn [negb andb]|intros ? ?]
  | |- serves _ _ _ (st_bind _ _) => apply serves_bind_any; [|intros ?]
  | |- serves _ _ _ (match _ with _ => _ end) => case_match
  | |- _ => solve [eauto 5 with serves]
  end.

Tactic Notation "solve_serves" := solve_serves_with false.
Tactic Notation "solve_serves" "speaking" := solve_serves_with true.

(** ** The handlers serve *)

Section handlers_serve.
Context {L : Type} {link : Link L} {laws : LinkLaws L} {mo : MapOrder} {ro : RegistryOrder L}.
Context {plist : PlistCodec} {plaws : PlistCodecLaws} {ip_text : IpText} {perr : PlistErrors}.
Context {idev : Idevice} {ptext : PlistText} {net : TcpNet}.
Abbreviation anything := (λ _, True).

Lemma settled_from_bytes bs : settled anything (map_err RusbmuxError.Plist (from_bytes bs)).
Proof. by destruct (from_bytes_total bs) as [[v ->]|[e ->]]. Qed.

Lemma settled_idevice {A} (r : string + A) : settled anything (idevice_result r).
Proof. by destruct r. Qed.

Lemma settled_idevice_io {A} (m : stateful stream ErrorKind A) s :
  (∀ s, (∃ a s', m s = (Ok a, s')) ∨ (∃ k s', m s = (Err k, s'))) →
  settled anything (idevice_io m s).1.
Proof.
  intros Hm. unfold idevice_io, st_map_err. by destruct (Hm s) as [(a & s' & ->)|(k & s' & ->)].
Qed.

Lemma read_exact_total n (s : stream) :
  (∃ a s', read_exact n s = (Ok a, s')) ∨ (∃ k s', read_exact n s = (Err k, s')).
Proof. unfold read_exact, stream_reader, stream_read_exact. case_decide; eauto. Qed.

Lemma write_all_settles bs (s : stream) :
  (∃ a s', write_all bs s = (Ok a, s')) ∨ (∃ k s', write_all bs s = (Err k, s')).
Proof. destruct (write_all_total bs s) as [[s' ->]|(k & s' & ->)]; eauto. Qed.

Lemma settled_st_bind {A B S} (P : A → Prop) (Q : B → Prop) (m : stateful S RusbmuxError.t A) f s :
  settled P (m s).1 → (∀ a s', P a → settled Q (f a s').1) → settled Q (st_bind m f s).1.
Proof. unfold st_bind. destruct (m s) as [[] s']; cbn; auto; done. Qed.

Lemma settled_assertion_exchange s : settled anything (assertion_exchange s).1.
Proof.
  unfold assertion_exchange. apply (settled_st_bind anything).
  - unfold send_recv. apply (settled_st_bind anything);
      [apply settled_idevice_io, write_all_settles|intros _ s1 _].
    apply (settled_st_bind anything); [apply settled_idevice_io, read_exact_total|intros len s2 _].
    apply (settled_st_bind anything); [apply settled_idevice_io, read_exact_total|intros body s3 _].
    apply (settled_st_bind anything); [apply settled_from_bytes|intros v s4 _].
    by apply settled_ok_or.
  - intros reply s1 _. by case_match.
Qed.

Lemma settled_pairing_file path d : quiet d → settled anything (pairing_file_at path d).
Proof.
  intros Hq. unfold pairing_file_at. eapply settled_bind; [by apply settled_fs_read|].
  intros bs _. apply settled_idevice.
Qed.

Lemma settled_network_device id addr scope mac name udid d :
  quiet d → settled anything (network_device_new id addr scope mac name udid d).
Proof.
  intros Hq. unfold network_device_new. eapply settled_bind.
  - unfold connect_heartbeat_client. eapply settled_bind; [by apply settled_pairing_file|].
    intros pf _. instantiate (1 := anything). by repeat case_match.
  - intros a _. eapply settled_bind; [|done]. unfold assertion_new.
    eapply settled_bind; [by apply settled_pairing_file|]. intros pf _.
    eapply settled_bind; [apply settled_idevice|]. intros s _. apply settled_assertion_exchange.
Qed.

Lemma settled_register_network udid force id made (s : Daemon L) :
  settled anything made → settled anything (register_network udid force id made s).1.
Proof. intros Hm. unfold register_network, take_old, put_new. by repeat case_match. Qed.

#[local] Hint Resolve settled_from_bytes settled_idevice settled_pairing_file settled_network_device
  settled_register_network : serves.

Lemma serves_device_list tag : serves true tag anything (handle_device_list (L := L) tag).
Proof. unfold handle_device_list. solve_serves. Qed.

Lemma serves_listeners_list tag : serves true tag anything (handle_listeners_list (L := L) tag).
Proof. unfold handle_listeners_list. solve_serves. Qed.

Lemma serves_save id data dev tag :
  serves true tag anything (handle_save_pair_record (L := L) id data dev tag).
Proof. unfold handle_save_pair_record, save_pair_record. solve_serves. Qed.

Lemma serves_read id tag : serves true tag anything (handle_read_pair_record (L := L) id tag).
Proof. unfold handle_read_pair_record, read_pair_record. solve_serves speaking. Qed.

Lemma serves_delete id tag : serves true tag anything (handle_delete_pair_record (L := L) id tag).
Proof. unfold handle_delete_pair_record, delete_pair_record. solve_serves. Qed.

Lemma serves_read_buid uuid tag : serves true tag anything (handle_read_buid (L := L) uuid tag).
Proof. unfold handle_read_buid, read_system_buid. solve_serves. Qed.

Lemma serves_add_device ip udid force tag :
  serves true tag anything (handle_add_device (L := L) ip udid force tag).
Proof. unfold handle_add_device, add_device. solve_serves. Qed.

End handlers_serve.

(** ** Sessions *)

(** A packet a client sends, and what happens around its handling. *)
Record item (L : Type) : Type := MkItem {
  it_env : Env L;
  it_version : UsbMuxVersion;
  it_type : UsbMuxMsgType.t;
  it_tag : Z;
  it_payload : list byte;
}.
Arguments MkItem {L}.
Arguments it_env {L}.
Arguments it_version {L}.
Arguments it_type {L}.
Arguments it_tag {L}.
Arguments it_payload {L}.

(** [Listen] and [Connect] take the client over. *)
Definition transforms (r : UsbMuxRequest.t) : Prop :=
  match r with UsbMuxRequest.Listen _ | UsbMuxRequest.Connect _ _ _ => True | _ => False end.

Section sessions.
Context {L : Type} {link : Link L} {laws : LinkLaws L} {mo : MapOrder} {ro : RegistryOrder L}.
Context {plist : PlistCodec} {plaws : PlistCodecLaws} {ip_text : IpText} {perr : PlistErrors}.
Context {idev : Idevice} {ptext : PlistText} {net : TcpNet}.
Implicit Types w : World L.

Definition item_bytes (i : item L) : list byte :=
  encode_from (it_payload i) (it_version i) (it_type i) (it_tag i).

Definition item_packet (i : item L) (p : UsbMuxPayload) : UsbMuxPacket :=
  MuxPacket (Header (Z.of_nat (length (it_payload i) + USBMUX_HEADER_SIZE)) (it_version i)
    (it_type i) (it_tag i)) p.

(** The packet is one the protocol can carry, and asks for nothing that ends the
    session. *)
Definition item_ok (i : item L) : Prop :=
  in_width 32 (it_tag i) ∧ (Z.of_nat (length (it_payload i) + USBMUX_HEADER_SIZE) < 2 ^ 32)%Z ∧
  ∀ v r, payload_decode (it_version i) (it_payload i) = Ok (PlistPayload v) →
    it_type i = UsbMuxMsgType.MessagePlist → from_value v = Ok r → ¬ transforms r.

(** What one packet does to the daemon: its handler runs if its payload parses. *)
Definition serve_item (w : World L) (i : item L) : World L :=
  match payload_decode (it_version i) (it_payload i) with
  | Ok p => (handle_message (it_env i) (item_packet i p) w).2
  | _ => w
  end.

(** What [handle_message] has to do for the loop to go on. *)
Definition answers (tag : Z) (m : message_handler (L := L) flow) : Prop :=
  ∀ w, quiet (disk w) → ∃ o vs w1,
    ((o = Ok Continue ∧ vs ≠ []) ∨ ∃ e, o = Err e ∧ he_fatal e = false ∧ is_disconnect (he_err e) = false) ∧
    quiet (disk w1) ∧
    ∀ s, s_faults s = [] → m (set_client s w) = (o, after_replies tag vs (set_client s w1)).

Lemma answers_map_err tag (m : handler ()) f :
  (∀ e, he_err (f e) = e ∧ he_fatal (f e) = false) →
  serves true tag (λ _, True) m → answers tag (let! _ := st_map_err f m in st_ret Continue).
Proof.
  intros Hf Hm w Hq. destruct (Hm w Hq) as (o & vs & w1 & Ho & Hsp & Hq1 & E).
  destruct o as [a|e| |]; cbn in Ho; try done.
  - exists (Ok Continue), vs, w1. split; [left; split; [done|by apply Hsp; [|exists a]]|]. split; [done|].
    intros s Hs. unfold st_bind, st_map_err. by rewrite (E s Hs).
  - exists (Err (f e)), vs, w1. destruct (Hf e) as [He Hfat]. split.
    { right. exists (f e). by rewrite He. }
    split; [done|]. intros s Hs. unfold st_bind, st_map_err. by rewrite (E s Hs).
Qed.

Lemma answers_err tag (m : handler ()) e :
  is_disconnect e = false → serves true tag (λ _, True) m →
  answers tag (let! _ := plain m in plain (st_of (Err e))).
Proof.
  intros He Hm w Hq. destruct (Hm w Hq) as (o & vs & w1 & Ho & _ & Hq1 & E).
  destruct o as [a|e'| |]; cbn in Ho; try done.
  - exists (Err (MkHandlerError e None false)), vs, w1. split; [right; by eexists|]. split; [done|].
    intros s Hs. unfold st_bind, plain, st_map_err. by rewrite (E s Hs).
  - exists (Err (MkHandlerError e' None false)), vs, w1. split; [right; by eexists|]. split; [done|].
    intros s Hs. unfold st_bind, plain, st_map_err. by rewrite (E s Hs).
Qed.

Lemma request_error_connected e : is_disconnect (request_error e) = false.
Proof. unfold request_error. by case_match. Qed.

Lemma handle_request_answers env tag r : ¬ transforms r → answers tag (handle_request env tag r).
Proof.
  intros Hr. destruct r; cbn [handle_request transforms] in *; try tauto;
    apply answers_map_err; try done;
    auto using serves_device_list, serves_listeners_list, serves_read, serves_save, serves_delete,
      serves_read_buid, serves_add_device.
Qed.

Lemma handle_message_answers env p :
  (∀ v r, mux_payload p = PlistPayload v → msg_type (mux_header p) = UsbMuxMsgType.MessagePlist →
    from_value v = Ok r → ¬ transforms r) →
  answers (tag (mux_header p)) (handle_message env p).
Proof.
  intros Hp. unfold handle_message.
  destruct (msg_type (mux_header p)) eqn:Et; try by apply answers_map_err; [|apply serves_send_result].
  destruct (mux_payload p) as [v|b]; cbn [as_plist ok_or].
  - change (answers (tag (mux_header p)) (match from_value v with
      | Ok r => handle_request env (tag (mux_header p)) r
      | Err e => let! _ := plain (send_result (request_error_code (request_error e)) (tag (mux_header p))) in
                 plain (st_of (Err (request_error e)))
      | Panic => plain (st_of Panic) | Ub => plain (st_of Ub) end)).
    destruct (from_value_total v) as [[r Er]|[e Ee]].
    + rewrite Er. by apply handle_request_answers, (Hp v r).
    + rewrite Ee. apply answers_err; [apply request_error_connected|by apply serves_send_result].
  - intros w Hq.
    exists (Err (MkHandlerError (RusbmuxError.UnexpectedPacket "expected plist payload") None false)), [], w.
    split; [right; by eexists|]. split; [done|].
    intros s _. by rewrite after_replies_nil.
Qed.

(** Reading one packet off the input, and reading at its end. *)
Lemma from_reader_packet payload v mt t rest e out fs :
  in_width 32 t → (Z.of_nat (length payload + USBMUX_HEADER_SIZE) < 2 ^ 32)%Z →
  from_reader (Stream (encode_from payload v mt t ++ rest) e out fs)
  = (let? p := payload_decode v payload in
     Ok (MuxPacket (Header (Z.of_nat (length payload + USBMUX_HEADER_SIZE)) v mt t) p),
     Stream rest e out fs).
Proof.
  intros Ht Hn. unfold from_reader, header_from_reader.
  unfold encode_from, packet_encode. cbn [mux_header mux_payload payload_encode].
  rewrite wrap_small by (split; lia). rewrite <- app_assoc.
  set (n := Z.of_nat _) in *. set (h := Header n _ _ _).
  erewrite st_bind_eq.
  2:{ unfold st_bind, st_map_err. rewrite stream_read_app by apply length_usbmux_header.
      cbn [map_err]. unfold st_lift. rewrite header_of_bytes_encode by (subst h; cbn; (done || (split; lia))).
      done. }
  erewrite st_bind_eq.
  2:{ unfold st_lift, checked_sub. rewrite decide_True by (subst h n; cbn [len]; lia). done. }
  erewrite st_bind_eq.
  2:{ unfold st_map_err. rewrite stream_read_app by (subst h n; cbn [len]; lia). done. }
  unfold st_bind, st_lift, st_ret. subst h. cbn [version].
  by destruct (payload_decode _ _).
Qed.

Lemma read_packet_item (i : item L) w rest e out :
  in_width 32 (it_tag i) → (Z.of_nat (length (it_payload i) + USBMUX_HEADER_SIZE) < 2 ^ 32)%Z →
  read_packet (set_client (Stream (item_bytes i ++ rest) e out []) w)
  = (let? p := payload_decode (it_version i) (it_payload i) in Ok (item_packet i p),
     set_client (Stream rest e out []) w).
Proof.
  intros Ht Hn. unfold read_packet. cbn [client set_client].
  unfold item_bytes. by rewrite from_reader_packet.
Qed.

Lemma read_packet_end w e out :
  read_packet (set_client (Stream [] e out []) w)
  = (Err (ParseError.IO e), set_client (Stream [] e out []) w).
Proof. done. Qed.

Lemma payload_decode_total v bs :
  (∃ p, payload_decode v bs = Ok p) ∨ (∃ e, payload_decode v bs = Err (ParseError.Plist e)).
Proof.
  unfold payload_decode. destruct v; [eauto|].
  destruct (from_bytes_total bs) as [[x ->]|[e ->]]; cbn; eauto.
Qed.

(** The handler of a packet succeeds. *)
Definition item_served (w : World L) (i : item L) : Prop :=
  ∃ p w', payload_decode (it_version i) (it_payload i) = Ok p ∧
    handle_message (it_env i) (item_packet i p) w = (Ok Continue, w').

(** One round of the loop on one packet. *)
Lemma serve_item_round i w :
  item_ok i → quiet (disk w) → ∃ vs w1, quiet (disk w1) ∧
    (∀ s, s_faults s = [] → serve_item (set_client s w) i = after_replies (it_tag i) vs (set_client s w1) ∧
       (item_served (set_client s w) i → vs ≠ [])) ∧
    ∀ envs rest e out,
      handle_client (it_env i :: envs) (set_client (Stream (item_bytes i ++ rest) e out []) w)
      = handle_client envs
          (set_client (Stream rest e (out ++ (vs ≫= reply_bytes (it_tag i))) []) w1).
Proof.
  intros (Ht & Hn & Hstay) Hq. unfold serve_item, item_served.
  destruct (payload_decode_total (it_version i) (it_payload i)) as [[p E]|[e E]].
  - destruct (handle_message_answers (it_env i) (item_packet i p)) with w as (o & vs & w1 & Ho & Hq1 & Em);
      [|done|].
    { cbn. intros v r -> Hty Hr. by eapply Hstay. }
    exists vs, w1. split; [done|]. rewrite E. split.
    + intros s Hs. rewrite (Em s Hs). split; [done|]. intros (p' & w' & [= <-] & E'). rewrite (Em s Hs) in E'.
      destruct Ho as [[_ Hv]|(e & -> & _)]; [done|discriminate E'].
    + intros envs rest e out. cbn [handle_client]. rewrite read_packet_item, E by done.
      cbn [outcome_bind]. rewrite Em by done.
      destruct Ho as [[-> _]|(e' & -> & -> & ->)]; done.
  - exists [], w. split; [done|]. rewrite E. split; [|].
    + intros s _. rewrite after_replies_nil. split; [done|]. by intros (p & w' & [=] & _).
    + intros envs rest e' out. cbn [handle_client]. rewrite read_packet_item, E by done.
      cbn. by rewrite app_nil_r.
Qed.

Lemma session_rounds items : ∀ w,
  Forall item_ok items → quiet (disk w) → ∃ vss w1, length vss = length items ∧
    (∀ s, s_faults s = [] → (∃ s', s_faults s' = [] ∧ fold_left serve_item items (set_client s w) = set_client s' w1) ∧
       ∀ k i vs, items !! k = Some i → vss !! k = Some vs →
         item_served (fold_left serve_item (take k items) (set_client s w)) i → vs ≠ []) ∧
    ∀ envs rest e out,
      handle_client ((it_env <$> items) ++ envs)
        (set_client (Stream (mjoin (item_bytes <$> items) ++ rest) e out []) w)
      = handle_client envs (set_client (Stream rest e
          (out ++ mjoin (zip_with (λ i vs, vs ≫= reply_bytes (it_tag i)) items vss)) []) w1).
Proof.
  induction items as [|i items IH]; intros w Hok Hq.
  - exists [], w. split; [done|]. split; [intros s Hs; split; [by exists s|by intros []]|].
    intros envs rest e out. cbn. by rewrite app_nil_r.
  - apply list.Forall_cons in Hok as [Hi Hok]. destruct (serve_item_round i w Hi Hq) as (vs & w1 & Hq1 & Hs & Hround).
    destruct (IH w1 Hok Hq1) as (vss & w2 & Hlen & Hfold & Hrun).
    exists (vs :: vss), w2. split; [cbn; by rewrite Hlen|]. split.
    + intros s Hsf. cbn [fold_left]. destruct (Hs s Hsf) as [-> Hv].
      destruct (Hfold (client (after_replies (it_tag i) vs (set_client s w1))) Hsf) as [H1 H2].
      split; [exact H1|]. intros [|k] i' vs' Hi' Hvs'; cbn in Hi', Hvs'.
      * injection Hi' as <-. injection Hvs' as <-. exact Hv.
      * cbn [take fold_left]. rewrite (proj1 (Hs s Hsf)). exact (H2 k i' vs' Hi' Hvs').
    + intros envs rest e out. cbn [fmap list_fmap app mjoin list_join]. rewrite <- app_assoc, Hround, Hrun.
      cbn [zip_with mjoin list_join]. by rewrite app_assoc.
Qed.

(** After a [Listen] or a [Connect] the loop serves nothing more. *)
Lemma transforming_last (i : item L) v r envs w rest e out fs :
  in_width 32 (it_tag i) → (Z.of_nat (length (it_payload i) + USBMUX_HEADER_SIZE) < 2 ^ 32)%Z →
  payload_decode (it_version i) (it_payload i) = Ok (PlistPayload v) →
  it_type i = UsbMuxMsgType.MessagePlist → from_value v = Ok r → transforms r →
  handle_client (it_env i :: envs) (set_client (Stream (item_bytes i ++ rest) e out fs) w)
  = handle_client [it_env i] (set_client (Stream (item_bytes i ++ rest) e out fs) w).
Proof.
  intros Ht Hn Hd Hty Hr Htr. cbn [handle_client]. unfold read_packet. cbn [client set_client].
  unfold item_bytes at 1 3. rewrite !from_reader_packet, Hd by done. cbn [outcome_bind].
  assert (Hend : ∀ wx, match handle_message (it_env i) (item_packet i (PlistPayload v)) wx with
    | (Ok Continue, _) => False | (Err e, _) => he_fatal e = true | _ => True end).
  { intros wx. unfold handle_message. cbn [item_packet mux_header msg_type UsbMux.tag mux_payload as_plist ok_or].
    rewrite Hty. unfold st_bind at 1, plain at 1, st_map_err at 1, st_of at 1, st_lift at 1. cbn [map_err].
    rewrite Hr. destruct r; cbn [transforms] in Htr; try done; cbn [handle_request];
      unfold st_bind, fatal, st_map_err.
    - destruct (handle_listen _ _ _) as [[[pos|]|err| |] w']; done.
    - destruct (handle_connect _ _ _ _ _) as [[[]|err| |] w']; done. }
  specialize (Hend (set_client (Stream rest e out fs) (set_client (Stream (item_bytes i ++ rest) e out fs) w))).
  unfold item_packet in Hend.
  destruct (handle_message _ _ _) as [[[]|err| |] w']; try done. by rewrite Hend.
Qed.

(** ** Properties *)


(** C39.  A request that cannot be read is answered with one result packet
    that carries its tag, changes nothing and does not end the session; a request
    without a device gets [BadDeviceOrNoSuchFile], one without a port
    [BadCommand], one that lacks anything else [InvalidInput]. *)
Theorem bad_request_reply `{!PlistErrorsLaws} env h v e w :
  writable w → msg_type h = UsbMuxMsgType.MessagePlist → from_value v = Err e →
  ∃ err code, handle_message env (MuxPacket h (PlistPayload v)) w
      = (Err (MkHandlerError err None false), after_replies (tag h) [result_plist code] w) ∧
    is_disconnect err = false ∧
    ∀ f, e = MissingField f → f ∈ required_fields →
      code = if String.eqb f "DeviceID" then UsbMuxResult.BadDeviceOrNoSuchFile
             else if String.eqb f "PortNumber" then UsbMuxResult.BadCommand
             else UsbMuxResult.InvalidInput.
Proof.
  intros Hw Ht He. exists (request_error e), (request_error_code (request_error e)). split_and!.
  - unfold handle_message. cbn [mux_header mux_payload as_plist ok_or]. rewrite Ht.
    rewrite (st_bind_eq _ _ w v w) by done. rewrite He. unfold st_bind, plain, st_map_err.
    by rewrite send_result_ok.
  - apply request_error_connected.
  - intros f -> Hf. unfold request_error. cbn [find missing_field_debug].
    rewrite !de_display_missing by (done || (unfold reported_fields; set_solver)).
    unfold required_fields in Hf. rewrite !elem_of_cons, elem_of_nil in Hf.
    by destruct_or! Hf; subst.
Qed.

(** The loop ends only on three kinds of read error: when the client's socket
    fails with any other one, [ConnectionAborted] included although it counts as
    a disconnect elsewhere, the loop reads again at once, without end and without
    doing anything. *)
Theorem session_spins envs w :
  s_in (client w) = [] → s_end (client w) ∉ [UnexpectedEof; ConnectionReset; BrokenPipe] →
  handle_client envs w = (Ok Serving, w).
Proof.
  intros Hin Hend. induction envs as [|env envs IH]; [done|].
  assert (E : read_packet w = (Err (ParseError.IO (s_end (client w))), w)).
  { destruct w as [[i e o f] r d l n]. cbn in Hin. by subst i. }
  cbn [handle_client]. rewrite E. destruct (s_end (client w)); try done; set_solver.
Qed.

(** A client can read what it is sent: the bytes of a reply, with
    anything behind them, are read as one property-list packet that carries the
    request's tag and the reply's value, and the bytes behind it are left. *)
Theorem reply_readable tag v rest e out fs :
  in_width 32 tag → plist_wf v = true →
  (Z.of_nat (length (to_xml v) + USBMUX_HEADER_SIZE) < 2 ^ 32)%Z →
  ∃ n, from_reader (Stream (reply_bytes tag v ++ rest) e out fs)
    = (Ok (MuxPacket (Header n PlistVersion UsbMuxMsgType.MessagePlist tag) (PlistPayload v)),
       Stream rest e out fs).
Proof.
  intros Ht Hv Hn. eexists. unfold reply_bytes. rewrite from_reader_packet by done.
  unfold payload_decode. by rewrite from_to_xml.
Qed.

End sessions.
