(* ===== verification/Cli.v ===== *)
(** * The command line ([src/bin/rusbmux/cli.rs], [src/bin/rusbmux/main.rs])

    [rusbmux add-device] is a client of the daemon: it sends one request and turns
    the result it is sent into what the process says and exits with.  Parsing the
    arguments ([clap]) and the log are left out; an [anyhow] error is its outermost
    text. *)

From S2P Require Import Prelude Text Io Plist UsbMux Request Errors Conn Router UsbDevice Registry World.
From S2P Require Import Records Network Handlers Session.

Definition CARGO_PKG_VERSION : string := "0.3.0".

Record AddDeviceArgs : Type := MkAddDeviceArgs {
  arg_ip : IpAddr;
  arg_udid : string;
  arg_force : bool;
  arg_timeout : Z;
}.

(** How [run_add_device] ends: [Ok], an error, or [std::process::exit]. *)
Inductive cli_end : Type :=
| Added
| Bailed (context : string)
| Exits (code : Z)
| Aborted.

(** What connecting to the socket meets within its five seconds. *)
Inductive connecting : Type :=
| ConnectTimedOut
| ConnectFailed (kind : ErrorKind)
| ConnectedTo (daemon : stream).

Section cli.
Context {plist : PlistCodec} {ip_text : IpText} {ptext : PlistText}.

Definition extract_result_number (plist : Value) : string + Z :=
  match as_dictionary plist with
  | None => inl "reply is not a dictionary"
  | Some dict =>
      match dict_get "Number" dict with
      | None => inl "reply missing 'Number' field (not a Result?)"
      | Some number_val =>
          match as_unsigned_integer number_val with
          | Some n => inr (wrap 16 n)
          | None =>
              match as_signed_integer number_val with
              | Some n => inr (wrap 16 n)
              | None => inl ("'Number' field is not an integer: " +:+ value_debug number_val)
              end
          end
      end
  end.

Definition handle_result (number : Z) (args : AddDeviceArgs) : cli_end :=
  match number with
  | 0 => Added
  | 2 => Exits 2
  | 3 => Bailed ("Connection refused (3) - daemon could not reach device at " +:+ ip_to_string (arg_ip args))
  | 22 => Bailed "Invalid input (22) - daemon could not parse request/pairing file"
  | n => Exits n
  end%Z.

Definition connect_error (socket : string) (kind : ErrorKind) : string :=
  match kind with
  | NotFound => "daemon socket not found at '" +:+ socket +:+ "' - is rusbmux running?"
  | PermissionDenied => "permission denied connecting to '" +:+ socket +:+ "' - check permissions"
  | _ => "failed to connect to daemon socket '" +:+ socket +:+ "'"
  end.

(** [connect], on Unix *)
Definition cli_connect (socket : string) (c : connecting) : string + stream :=
  match c with
  | ConnectTimedOut => inl ("timed out connecting to daemon socket '" +:+ socket +:+ "'")
  | ConnectFailed kind => inl (connect_error socket kind)
  | ConnectedTo daemon => inr daemon
  end.

Definition reply_timeout (secs : Z) : string :=
  "timed out waiting for daemon reply (" +:+ pretty secs
  +:+ "s) - daemon may not have implemented AddDevice response or device is unreachable".

Definition add_device_request (args : AddDeviceArgs) (udid : string) : UsbMuxRequest.t :=
  UsbMuxRequest.AddDevice
    (with_client_version_string CARGO_PKG_VERSION (with_program_name "rusbmux" common_builder))
    (arg_ip args) udid (arg_force args).

Definition add_device_packet (args : AddDeviceArgs) (udid : string) : list byte :=
  encode_from (to_xml (into_plist (add_device_request args udid))) PlistVersion
    UsbMuxMsgType.MessagePlist 1.

(** [in_time]: the reply comes before the timeout.  The stream is the connection
    afterwards, if there was one. *)
Definition run_add_device (args : AddDeviceArgs) (socket : string) (c : connecting) (in_time : bool)
  : cli_end * option stream :=
  let udid := trim (arg_udid args) in
  if String.eqb udid "" then (Bailed "--udid must not be empty", None)
  else
    match cli_connect socket c with
    | inl e => (Bailed e, None)
    | inr s =>
        match write_all (add_device_packet args udid) s with
        | (Ok _, s) =>
            if negb in_time then (Bailed (reply_timeout (arg_timeout args)), Some s)
            else
              match from_reader s with
              | (Ok reply, s) =>
                  (match as_plist (mux_payload reply) with
                   | None => Bailed "daemon replied with non-plist payload"
                   | Some plist =>
                       match extract_result_number plist with
                       | inl e => Bailed e
                       | inr number => handle_result number args
                       end
                   end, Some s)
              | (Err _, s) => (Bailed "failed to read daemon reply", Some s)
              | (_, s) => (Aborted, Some s)
              end
        | (Err _, s) => (Bailed "failed to send AddDevice request", Some s)
        | (_, s) => (Aborted, Some s)
        end
    end.

(** What [main] makes of it, as the shell sees it: the code's low eight bits. *)
Definition exit_status (e : cli_end) : Z :=
  match e with
  | Added => 0
  | Bailed _ => 1
  | Exits code => wrap 8 code
  | Aborted => 101
  end.

(** Whether [main] prints that the device was added. *)
Definition prints_added (e : cli_end) : bool :=
  match e with Added => true | _ => false end.

(** [RUST_LOG], or the number of [-v] *)
Definition log_filter (rust_log : option string) (verbose : Z) : string :=
  match rust_log with
  | Some val => val
  | None =>
      match verbose with
      | 0 => "error"
      | 1 => "info"
      | 2 => "debug"
      | _ => "trace"
      end%Z
  end.

(** ** Lemmas *)

Context {laws : PlistCodecLaws} {ip_laws : IpTextLaws}.

Lemma extract_number_integer d z :
  dict_get "Number" d = Some (Integer z) → int_range z = true →
  extract_result_number (Dictionary d) = inr (wrap 16 z).
Proof.
  intros Hd Hz%bool_decide_eq_true. unfold extract_result_number. cbn [as_dictionary]. rewrite Hd. cbn.
  destruct (decide (0 ≤ z)%Z); [done|]. by rewrite decide_True by lia.
Qed.

Lemma request_plist_wf args udid :
  xml_safe udid = true → xml_safe (ip_to_string (arg_ip args)) = true →
  plist_wf (into_plist (add_device_request args udid)) = true.
Proof.
  intros Hu Hi. unfold into_plist, add_device_request. cbn -[xml_safe].
  by rewrite Hu, Hi.
Qed.

(** ** Theorems *)

(** C35.  [add-device] against the daemon.  For a [udid] that is not blank, on a connection
    that works: what is sent is one packet that the daemon's parser reads, whatever
    comes behind it, as the request to add a device with this address, the trimmed
    [udid] and the force flag, under tag 1; and when the daemon replies with a
    result, the process says that the device was added, and exits with status 0,
    exactly for [OK]. *)
Theorem add_device_exchange args socket (s : stream) code rest :
  let udid := trim (arg_udid args) in
  let packet := add_device_packet args udid in
  udid ≠ "" → xml_safe udid = true → xml_safe (ip_to_string (arg_ip args)) = true →
  (Z.of_nat (length packet) < 2 ^ 32)%Z →
  (Z.of_nat (length (to_xml (result_plist code)) + USBMUX_HEADER_SIZE) < 2 ^ 32)%Z →
  s_faults s = [] → s_in s = reply_bytes 1 (result_plist code) ++ rest →
  (∃ e, run_add_device args socket (ConnectedTo s) true =
     (e, Some (Stream rest (s_end s) (s_out s ++ packet) [])) ∧
     (prints_added e = true ↔ code = UsbMuxResult.OK) ∧ (exit_status e = 0%Z ↔ code = UsbMuxResult.OK)) ∧
  ∀ more en out fs, ∃ n v,
    from_reader (Stream (packet ++ more) en out fs) =
      (Ok (MuxPacket (Header n PlistVersion UsbMuxMsgType.MessagePlist 1) (PlistPayload v)),
       Stream more en out fs) ∧
    from_value v = Ok (UsbMuxRequest.AddDevice (Common None (Some CARGO_PKG_VERSION) None None None None)
                         (arg_ip args) udid (arg_force args)).
Proof.
  intros udid packet Hne Hu Hi Hp Hr Hf Hin. split.
  - unfold run_add_device. fold udid. destruct (String.eqb_spec udid ""); [done|]. cbn [cli_connect].
    rewrite write_all_faultless by done. cbn [negb]. rewrite Hin. unfold reply_bytes.
    rewrite from_reader_packet by (done || (split; lia)).
    unfold payload_decode. rewrite from_to_xml by (by destruct code). cbn [map_err outcome_bind mux_payload as_plist].
    unfold result_plist. erewrite extract_number_integer; [|reflexivity|by destruct code].
    eexists. split; [reflexivity|]. by destruct code.
  - intros more en out fs. pose proof (request_plist_wf args udid Hu Hi) as Hwf.
    assert (Hl : length packet = length (to_xml (into_plist (add_device_request args udid))) + USBMUX_HEADER_SIZE).
    { subst packet. unfold add_device_packet, encode_from, packet_encode.
      cbn [mux_header mux_payload payload_encode]. rewrite length_app, length_usbmux_header. lia. }
    eexists _, _. split.
    + subst packet. unfold add_device_packet. rewrite from_reader_packet; [|by split|by rewrite <- Hl].
      unfold payload_decode. by rewrite from_to_xml.
    + rewrite into_plist_read; [done|]. by split; [split_and!|].
Qed.

(** A result number that is none of the daemon's is passed to the shell: it is cut to
    sixteen bits when it is read and to eight when the process exits.  The process
    says that the device was added for a multiple of 65536, and its status is 0
    for every multiple of 256. *)
Theorem add_device_status args d z :
  dict_get "Number" d = Some (Integer z) → int_range z = true →
  let e := match extract_result_number (Dictionary d) with inl m => Bailed m | inr n => handle_result n args end in
  (prints_added e = true ↔ (2 ^ 16 | z)%Z) ∧ (exit_status e = 0%Z ↔ (2 ^ 8 | z)%Z).
Proof.
  intros Hd Hz e. subst e. rewrite (extract_number_integer d z Hd Hz).
  assert (H8 : (wrap 8 (wrap 16 z) = wrap 8 z)%Z).
  { unfold wrap. apply Z.mod_mod_divide. by exists (2 ^ 8)%Z. }
  assert (D16 : (2 ^ 16 | z)%Z ↔ wrap 16 z = 0%Z) by (unfold wrap; by rewrite Z.mod_divide).
  assert (D8 : (2 ^ 8 | z)%Z ↔ wrap 8 (wrap 16 z) = 0%Z) by (rewrite H8; unfold wrap; by rewrite Z.mod_divide).
  rewrite D16, D8. generalize (wrap 16 z). intros n.
  unfold handle_result. repeat case_match; subst; cbn [prints_added exit_status]; try done.
Qed.

End cli.
