(* ===== verification/Daemon.v ===== *)
(** * The process ([src/bin/rusbmux/daemon.rs], [src/bin/rusbmux/main.rs])

    The daemon's start on each platform, accepting clients and ending: which steps are
    taken and which failures are survived, when the devices are shut down, and how the
    process ends, under either command.  Sockets, directories, [launchd] and signals
    are the system's: a start scripts what each of them gives. *)

From S2P Require Import Prelude Io Plist Request Errors Conn Router UsbDevice Registry World Network Cli.

Inductive Platform : Type := Linux | MacOS | Windows.

Definition unix (p : Platform) : bool := match p with Windows => false | _ => true end.

Definition LISTENER_PATH (p : Platform) : string :=
  if unix p then "/var/run/usbmuxd" else "127.0.0.1:27015".

(** [LOCKDOWN_PATH]; the handlers' is that of Linux. *)
Definition lockdown_path (p : Platform) : string :=
  match p with
  | Linux => LOCKDOWN_PATH
  | MacOS => "/var/db/lockdown"
  | Windows => "C:\ProgramData\Apple\Lockdown"
  end.

(** [0o666] *)
Definition MODE_666 : Z := 6 * 64 + 6 * 8 + 6.

Inductive Signal : Type := Sigterm | CtrlShutdown | CtrlBreak | CtrlClose | CtrlLogoff.

#[export] Instance signal_eq_dec : EqDecision Signal.
Proof. solve_decision. Defined.

(** The handlers of [wait_shutdown], in the order of their registration. *)
Definition signals (p : Platform) : list Signal :=
  if unix p then [Sigterm] else [CtrlShutdown; CtrlBreak; CtrlClose; CtrlLogoff].

(** What [launch_activate_socket] gives, and what is done with its first descriptor. *)
Record Launchd : Type := MkLaunchd {
  activate_ret : Z;
  activate_count : Z;
  nonblocking_fails : option ErrorKind;
  from_std_fails : option ErrorKind;
}.

(** What start-up meets: [Some k] is a failure. *)
Record StartEnv : Type := MkStartEnv {
  socket_exists : bool;
  remove_fails : option ErrorKind;
  launchd : Launchd;
  bind_fails : option ErrorKind;
  create_dir_fails : option ErrorKind;
  reuseaddr_fails : option ErrorKind;
  nosigpipe_fails : option ErrorKind;
  permissions_fail : option ErrorKind;
  (** whether a handler can be registered *)
  registers : Signal → bool;
  ctrl_c_registers : bool;
}.

Inductive StartStep : Type :=
| RemoveSocket (path : string)
| TakeLaunchdSocket
| BindListener (path : string)
| CreateDirAll (path : string)
| SetReuseAddr
| SetNosigpipe
| SetPermissions (path : string) (mode : Z)
| SpawnUsbWatcher
| SpawnNetworkWatcher.

#[export] Instance start_step_eq_dec : EqDecision StartStep.
Proof. solve_decision. Defined.

(** What wakes the [select!] of the running daemon. *)
Inductive MainEvent : Type :=
| Accepted (failed : option ErrorKind)
| CtrlC
| Signalled (s : Signal).

(** How the process ends. *)
Inductive daemon_end : Type :=
| Failed (e : RusbmuxError.t)
| Finished
| Exited (code : Z)
| StillServing.

(** ** Starting up *)

(** [tracing::warn!] or [error!] and on *)
Definition logged (fails : option ErrorKind) : outcome RusbmuxError.t () :=
  match fails with Some _ | None => Ok () end.

(** [?] on an I/O result *)
Definition io_result (fails : option ErrorKind) : outcome RusbmuxError.t () :=
  match fails with Some k => Err (RusbmuxError.IO k) | None => Ok () end.

(** [true]: there is a listener. *)
Definition launchd_listener (l : Launchd) : outcome RusbmuxError.t bool :=
  if negb (activate_ret l =? 0)%Z || (activate_count l =? 0)%Z then Ok false
  else
    let? _ := io_result (nonblocking_fails l) in
    let? _ := io_result (from_std_fails l) in
    Ok true.

(** The step that makes the listener. *)
Definition get_listener (p : Platform) (env : StartEnv) (socket_path : string)
  : outcome RusbmuxError.t StartStep :=
  let? taken := match p return outcome RusbmuxError.t bool with
                | MacOS => launchd_listener (launchd env)
                | _ => Ok false
                end in
  if (taken : bool) then Ok TakeLaunchdSocket
  else let? _ := io_result (bind_fails env) in Ok (BindListener socket_path).

Definition create_lockdown_dir (env : StartEnv) : outcome RusbmuxError.t () := io_result (create_dir_fails env).

(** The steps up to the first that ends it. *)
Definition start (p : Platform) (env : StartEnv) (socket : string)
  : list StartStep * outcome RusbmuxError.t () :=
  let removed := if unix p && socket_exists env then [RemoveSocket socket] else [] in
  match get_listener p env socket with
  | Ok listener =>
      (removed ++ [listener; CreateDirAll (lockdown_path p)] ++
       (if unix p then [SetReuseAddr] else []) ++
       (match p with MacOS => [SetNosigpipe] | _ => [] end) ++
       (if unix p then [SetPermissions socket MODE_666] else []) ++
       [SpawnUsbWatcher; SpawnNetworkWatcher],
       let? _ := match create_lockdown_dir env with Err _ => Ok () | o => o end in
       let? _ := logged (reuseaddr_fails env) in
       let? _ := logged (nosigpipe_fails env) in
       logged (permissions_fail env))
  | Err e => (removed, Err e)
  | o => (removed, let? _ := o in Ok ())
  end.

Section daemon.
Context {L : Type} {link : Link L} {mo : MapOrder} {ro : RegistryOrder L}.

(** ** Serving and ending *)

(** The loop over the devices, whose failures are only logged. *)
Definition cleanup (s : Daemon L) : Daemon L :=
  fold_left (λ s kv, set_connected (<[kv.1 := device_shutdown kv.2]> (connected s)) s)
    (devices_in_order (connected s)) s.

(** A turn of [start_accepting]; [n] clients have been given a task of their own.
    [Some]: the process exits. *)
Definition start_accepting (failed : option ErrorKind) (n : nat) (s : Daemon L)
  : option daemon_end * nat * Daemon L :=
  match failed with
  | None => (None, S n, s)
  | Some _ => (Some (Exited 1), n, cleanup s)
  end.

(** Whether [wait_shutdown] waits; otherwise it returns at once. *)
Definition wait_shutdown (p : Platform) (env : StartEnv) : bool := forallb (registers env) (signals p).

(** [start_accepting], [ctrl_c] and [wait_shutdown] side by side; a signal without a
    handler does not come this way. *)
Fixpoint serve (p : Platform) (events : list MainEvent) (n : nat) (s : Daemon L)
  : daemon_end * nat * Daemon L :=
  match events with
  | [] => (StillServing, n, s)
  | Accepted failed :: events =>
      match start_accepting failed n s with
      | (Some e, n, s) => (e, n, s)
      | (None, n, s) => serve p events n s
      end
  | CtrlC :: _ => (Finished, n, cleanup s)
  | Signalled sig :: events =>
      if bool_decide (sig ∈ signals p) then (Finished, n, cleanup s) else serve p events n s
  end.

(** What ends the [select!]: an error of [ctrl_c] does, as its success would. *)
Definition awaited (p : Platform) (env : StartEnv) (events : list MainEvent) : list MainEvent :=
  if wait_shutdown p env && ctrl_c_registers env then events else [CtrlC].

Definition daemon_run (p : Platform) (env : StartEnv) (socket : option string) (events : list MainEvent)
    (s : Daemon L) : list StartStep * daemon_end * nat * Daemon L :=
  let socket := default (LISTENER_PATH p) socket in
  match start p env socket with
  | (steps, Ok _) =>
      let '(e, n, s) := serve p (awaited p env events) 0 s in
      (steps, e, n, s)
  | (steps, Err e) => (steps, Failed e, 0, s)
  | (steps, _) => (steps, StillServing, 0, s)
  end.

(** ** Lemmas *)

Definition is_canceled (d : Device L) : bool :=
  match d with Network n => nd_canceled n | Usb u => ud_canceled u end.

Lemma device_shutdown_canceled d : is_canceled (device_shutdown d) = true.
Proof.
  destruct d as [n|u]; [done|]. cbn [device_shutdown is_canceled].
  unfold shutdown, st_bind, modify_device, close_all, close_all_with.
  destruct (taken_conns (cancel u)) as [cs r]. destruct (rst_each _ _ _ _) as [[e|] l]; done.
Qed.

Lemma cleanup_fold l : ∀ s : Daemon L,
  base.NoDup l.*1 → (∀ kv, kv ∈ l → connected s !! kv.1 = Some kv.2) →
  let s' := fold_left (λ s kv, set_connected (<[kv.1 := device_shutdown kv.2]> (connected s)) s) l s in
  events s' = events s ∧
  ∀ id, connected s' !! id = if decide (id ∈ l.*1) then device_shutdown <$> connected s !! id else connected s !! id.
Proof.
  induction l as [|[k d] l IH]; intros s Hn Hl; cbn [fold_left].
  { split; [done|]. intros id. by rewrite decide_False by (apply not_elem_of_nil). }
  cbn in Hn. apply list.NoDup_cons in Hn as [Hk Hn]. cbn [fst snd].
  destruct (IH (set_connected (<[k := device_shutdown d]> (connected s)) s)) as [He Hc]; [done| |].
  { intros kv Hkv. cbn. rewrite lookup_insert_ne; [apply Hl; by constructor|].
    intros ->. apply Hk. by apply list_elem_of_fmap_2. }
  split; [done|]. intros id. rewrite Hc. cbn [set_connected connected fmap list_fmap fst].
  specialize (Hl (k, d) ltac:(constructor)). cbn in Hl.
  destruct (decide (id = k)) as [->|Hne].
  - rewrite lookup_insert_eq, decide_False by done.
    rewrite decide_True by constructor. by rewrite Hl.
  - rewrite lookup_insert_ne by done. destruct (decide (id ∈ l.*1)).
    + by rewrite decide_True by (by constructor).
    + rewrite decide_False; [done|]. by intros [?|?]%elem_of_cons.
Qed.

Lemma cleanup_spec (s : Daemon L) :
  connected (cleanup s) = device_shutdown <$> connected s ∧ events (cleanup s) = events s.
Proof.
  unfold cleanup. pose proof (devices_in_order_perm (connected s)) as Hp.
  destruct (cleanup_fold (devices_in_order (connected s)) s) as [He Hc].
  - rewrite Hp. apply NoDup_fst_map_to_list.
  - intros [k d] H. rewrite Hp in H. by apply elem_of_map_to_list in H.
  - split; [|done]. apply map_eq. intros id. rewrite Hc, lookup_fmap.
    destruct (decide _) as [H|H]; [done|]. destruct (connected s !! id) as [d|] eqn:E; [|done].
    exfalso. apply H. apply list_elem_of_fmap. exists (id, d). split; [done|]. rewrite Hp.
    by apply elem_of_map_to_list.
Qed.

Lemma serve_cleanup p evs : ∀ n (s : Daemon L) e m s',
  serve p evs n s = (e, m, s') →
  (e = StillServing ∧ s' = s) ∨ ((e = Finished ∨ e = Exited 1) ∧ s' = cleanup s).
Proof.
  induction evs as [|[[k|]| |sig] evs IH]; intros n s e m s'; cbn [serve start_accepting];
    try by (intros [= <- <- <-]; auto).
  - apply IH.
  - destruct (bool_decide _); [by intros [= <- <- <-]; auto|apply IH].
Qed.

(** How many clients were given a task: those up to the event that ends it. *)
Definition ends (p : Platform) (e : MainEvent) : bool :=
  match e with
  | Accepted (Some _) => true
  | Accepted None => false
  | CtrlC => true
  | Signalled sig => bool_decide (sig ∈ signals p)
  end.

Fixpoint before_end (p : Platform) (evs : list MainEvent) : list MainEvent :=
  match evs with
  | [] => []
  | e :: evs => if ends p e then [] else e :: before_end p evs
  end.

Definition comes (e : MainEvent) : bool := match e with Accepted None => true | _ => false end.

Lemma serve_clients p evs : ∀ n (s : Daemon L) e m s',
  serve p evs n s = (e, m, s') →
  m = n + length (filter (λ e, comes e = true) (before_end p evs)) ∧
  (e = StillServing ↔ Forall (λ e, ends p e = false) evs).
Proof.
  induction evs as [|[[k|]| |sig] evs IH]; intros n s e m s'; cbn [serve start_accepting before_end ends].
  - intros [= <- <- <-]. split; [cbn; lia|]. by split.
  - intros [= <- <- <-]. split; [cbn; lia|]. split; [done|]. intros H. by apply list.Forall_cons in H as [? _].
  - intros E. apply IH in E as [-> ->]. rewrite list.filter_cons_True by done. cbn [length].
    split; [lia|]. rewrite list.Forall_cons. naive_solver.
  - intros [= <- <- <-]. split; [cbn; lia|]. split; [done|]. intros H. by apply list.Forall_cons in H as [? _].
  - destruct (bool_decide _) eqn:Eb.
    + intros [= <- <- <-]. split; [cbn; lia|]. split; [done|]. intros H.
      apply list.Forall_cons in H as [H _]. cbn [ends] in H. by rewrite Eb in H.
    + intros E. apply IH in E as [-> ->]. split; [done|]. rewrite list.Forall_cons. cbn [ends]. naive_solver.
Qed.

(** What ends the start. *)
Definition no_listener (p : Platform) (env : StartEnv) : option ErrorKind :=
  let bound := bind_fails env in
  match p with
  | MacOS =>
      let l := launchd env in
      if decide (activate_ret l = 0 ∧ activate_count l ≠ 0)%Z then
        match nonblocking_fails l with Some k => Some k | None => from_std_fails l end
      else bound
  | _ => bound
  end.

Lemma launchd_listener_spec l :
  launchd_listener l =
  if decide (activate_ret l = 0 ∧ activate_count l ≠ 0)%Z then
    match nonblocking_fails l with
    | Some k => Err (RusbmuxError.IO k)
    | None => match from_std_fails l with Some k => Err (RusbmuxError.IO k) | None => Ok true end
    end
  else Ok false.
Proof.
  unfold launchd_listener, io_result.
  destruct (Z.eqb_spec (activate_ret l) 0), (Z.eqb_spec (activate_count l) 0); cbn [negb orb];
    case_decide; try (exfalso; tauto); try done.
  by destruct (nonblocking_fails l), (from_std_fails l).
Qed.

Lemma get_listener_spec p env socket :
  match no_listener p env with
  | Some k => get_listener p env socket = Err (RusbmuxError.IO k)
  | None => ∃ step, get_listener p env socket = Ok step ∧ (step = TakeLaunchdSocket ∨ step = BindListener socket)
  end.
Proof.
  unfold no_listener, get_listener. destruct p; cbn [outcome_bind].
  1,3: destruct (bind_fails env); cbn; eauto.
  rewrite launchd_listener_spec. case_decide; [|destruct (bind_fails env); cbn; eauto].
  destruct (nonblocking_fails _); [done|]. destruct (from_std_fails _); cbn; eauto.
Qed.

Lemma start_ends p env socket k :
  no_listener p env = Some k →
  start p env socket = (if unix p && socket_exists env then [RemoveSocket socket] else [], Err (RusbmuxError.IO k)).
Proof. intros H. pose proof (get_listener_spec p env socket) as E. rewrite H in E. unfold start. by rewrite E. Qed.

Lemma start_goes_on p env socket :
  no_listener p env = None →
  ∃ steps, start p env socket = (steps, Ok ()) ∧ SpawnUsbWatcher ∈ steps ∧ SpawnNetworkWatcher ∈ steps.
Proof.
  intros H. pose proof (get_listener_spec p env socket) as E. rewrite H in E. destruct E as (step & E & _).
  unfold start. rewrite E. eexists. split.
  - f_equal. unfold create_lockdown_dir, io_result, logged.
    by destruct (create_dir_fails env), (reuseaddr_fails env), (nosigpipe_fails env), (permissions_fail env).
  - split; rewrite !elem_of_app; do 5 right; set_solver.
Qed.

(** ** Theorems *)

(** C36.  Of what start-up meets, on every platform, only a listener that cannot be had
    ends it: a socket that cannot be bound or, on macOS, a socket of [launchd] that cannot
    be taken over; the rest is only logged, and both watchers are started.  However the
    daemon ends after that, every connected device has been shut down, and clients are
    told nothing of it; and every client that was accepted before got a task of its own. *)
Theorem daemon_shuts_down p env socket evs (s : Daemon L) steps e n s' :
  daemon_run p env socket evs s = (steps, e, n, s') →
  (no_listener p env = None ↔ SpawnUsbWatcher ∈ steps) ∧
  (SpawnUsbWatcher ∈ steps ↔ SpawnNetworkWatcher ∈ steps) ∧
  (∀ k, no_listener p env = Some k ↔ e = Failed (RusbmuxError.IO k)) ∧
  (no_listener p env = None → e ≠ StillServing →
     (e = Finished ∨ e = Exited 1) ∧
     (∀ id d, connected s' !! id = Some d → is_canceled d = true) ∧
     dom (connected s') = dom (connected s) ∧ events s' = events s ∧
     n = length (filter (λ e, comes e = true) (before_end p (awaited p env evs)))).
Proof.
  unfold daemon_run. set (sock := default _ socket). destruct (no_listener p env) as [k|] eqn:Hb.
  - rewrite (start_ends p env sock k Hb). intros [= <- <- <- <-].
    assert (∀ x, x ∈ (if unix p && socket_exists env then [RemoveSocket sock] else []) → x = RemoveSocket sock) as Hx
      by (destruct (unix p && socket_exists env); set_solver).
    split_and!; [..|done].
    + split; [done|]. by intros ?%Hx.
    + split; by intros ?%Hx.
    + intros k'. split; by intros [= ->].
  - destruct (start_goes_on p env sock Hb) as (steps' & -> & H1 & H2).
    destruct (serve _ _ 0 s) as [[e1 n1] s1] eqn:E. intros [= <- <- <- <-].
    pose proof (serve_clients _ _ _ _ _ _ _ E) as [Hn _]. apply serve_cleanup in E.
    split_and!; [by split|by split| |].
    + intros k. split; [done|]. intros ->. naive_solver.
    + intros _ Hne. destruct E as [[-> _]|[He ->]]; [done|].
      destruct (cleanup_spec s) as [Hc Hev]. split_and!; [done| |by rewrite Hc, dom_fmap_L|done|exact Hn].
      intros id d Hd. rewrite Hc, lookup_fmap in Hd. destruct (connected s !! id) as [d0|]; [|done].
      injection Hd as <-. apply device_shutdown_canceled.
Qed.

(** Without one of its handlers the daemon does not serve: [wait_shutdown] or [ctrl_c]
    returns at once, which ends the [select!] as the signal would. *)
Theorem no_handler_ends p env socket evs (s : Daemon L) :
  no_listener p env = None → wait_shutdown p env && ctrl_c_registers env = false →
  ∃ steps, daemon_run p env socket evs s = (steps, Finished, 0, cleanup s).
Proof.
  intros Hb Hs. unfold daemon_run, awaited. rewrite Hs.
  destruct (start_goes_on p env (default (LISTENER_PATH p) socket) Hb) as (steps & -> & _). by exists steps.
Qed.

(** A listener that [launchd] made has its socket file removed first, and nothing makes
    another: the path that clients connect to is gone. *)
Theorem launchd_socket_removed env socket :
  socket_exists env = true → launchd_listener (launchd env) = Ok true →
  ∃ steps, start MacOS env socket = (steps, Ok ()) ∧ RemoveSocket socket ∈ steps ∧ BindListener socket ∉ steps.
Proof.
  intros Hx Hl. unfold start, get_listener. rewrite Hl, Hx. cbn -[lockdown_path MODE_666 elem_of].
  eexists. split.
  - f_equal. unfold create_lockdown_dir, io_result, logged.
    by destruct (create_dir_fails env), (reuseaddr_fails env), (nosigpipe_fails env), (permissions_fail env).
  - split; [by left|]. rewrite !elem_of_cons, elem_of_nil. naive_solver.
Qed.

(** ** [main] *)

Section main.
Context {plist : PlistCodec} {ip_text : IpText} {ptext : PlistText}.

(** The command line; [None]: the daemon. *)
Record Cli : Type := MkCli {
  command : option AddDeviceArgs;
  cli_socket : option string;
}.

(** The status the process exits with, [None] while it runs. *)
Definition daemon_status (e : daemon_end) : option Z :=
  match e with
  | Failed _ => Some 1%Z
  | Finished => Some 0%Z
  | Exited code => Some code
  | StillServing => None
  end.

Definition main (p : Platform) (env : StartEnv) (c : connecting) (in_time : bool) (cli : Cli)
    (events : list MainEvent) (s : Daemon L) : option Z :=
  match command cli with
  | None =>
      let '(_, e, _, _) := daemon_run p env (cli_socket cli) events s in daemon_status e
  | Some args =>
      Some (exit_status (run_add_device args (default (LISTENER_PATH p) (cli_socket cli)) c in_time).1)
  end.

(** The daemon exits with 0 exactly when it was told to end, or could not be: not when it
    could not start, and not when it could no longer accept. *)
Lemma main_daemon_status p env c in_time socket evs (s : Daemon L) :
  main p env c in_time (MkCli None socket) evs s = Some 0%Z ↔
  no_listener p env = None ∧ ∃ evs1 e evs2, awaited p env evs = evs1 ++ e :: evs2 ∧
    Forall (λ e, ends p e = false) evs1 ∧ ends p e = true ∧ (∀ k, e ≠ Accepted (Some k)).
Proof.
  unfold main. cbn [command cli_socket]. unfold daemon_run. set (sock := default _ socket).
  destruct (no_listener p env) as [k|] eqn:Hb.
  - rewrite (start_ends p env sock k Hb). split; [done|by intros [? _]].
  - destruct (start_goes_on p env sock Hb) as (steps & -> & _).
    generalize (awaited p env evs) 0. clear. intros l.
    induction l as [|[[k|]| |sig] l IH]; intros n; cbn [serve start_accepting].
    + split; [done|]. intros (_ & [|] & ? & ? & ? & _); done.
    + split; [done|]. intros (_ & [|? evs1] & e & evs2 & H & Hf & _ & Hn); simplify_eq/=.
      * by destruct (Hn k).
      * apply list.Forall_cons in Hf as [Hf _]. done.
    + rewrite IH. split; intros (_ & evs1 & e & evs2 & H & Hf & He & Hn); (split; [done|]).
      * exists (Accepted None :: evs1), e, evs2. rewrite H. split_and!; try done. by apply list.Forall_cons_2.
      * destruct evs1 as [|? evs1]; simplify_eq/=. apply list.Forall_cons in Hf as [_ Hf]. by exists evs1, e, evs2.
    + split; [|done]. intros _. split; [done|]. by exists [], CtrlC, l.
    + destruct (bool_decide _) eqn:Eb.
      * split; [|done]. intros _. split; [done|]. by exists [], (Signalled sig), l.
      * rewrite IH. split; intros (_ & evs1 & e & evs2 & H & Hf & He & Hn); (split; [done|]).
        -- exists (Signalled sig :: evs1), e, evs2. rewrite H. split_and!; try done. by apply list.Forall_cons_2.
        -- destruct evs1 as [|? evs1]; simplify_eq/=; [by rewrite He in Eb|].
           apply list.Forall_cons in Hf as [_ Hf]. by exists evs1, e, evs2.
Qed.

End main.
End daemon.
