(* ===== verification/WinDriver.v ===== *)
(** * The Windows driver tool ([src/windows/rusbmux-usb-win-driver/src/])

    The program the Windows installer runs: with [--clean] it removes the drivers of
    other vendors for Apple devices, with [--install] it installs libusb-win32 for the
    device that is plugged in.  It works by spawning [pnputil] and by the [wdi_rs]
    crate, which are the classes [Pnputil] and [Wdi]; what they were asked to do, and
    answered, is kept in a log.  Parsing the arguments and what is printed are left
    out. *)

From Stdlib Require Import Strings.Ascii.
From S2P Require Import Prelude Text Utf8.

(** [std::process::Output], with [status.success()] *)
Record Output : Type := MkOutput {
  out_stdout : list byte;
  out_stderr : list byte;
  out_success : bool;
}.

(** Running [pnputil] with some arguments, in a system in state [W]: [None] when it
    cannot be spawned (the error is only printed). *)
Class Pnputil (W : Type) : Type := {
  pnputil_run : list string → W → option Output * W;
}.

(** The [wdi_rs] crate: [D] is its [DeviceInfo], [None] and [false] are its errors. *)
Class Wdi (W D : Type) : Type := {
  set_log_level : W → bool;
  create_list : W → option (list D) * W;
  driver_install : D → list byte → W → bool * W;
  dev_vid : D → Z;
  dev_pid : D → Z;
  dev_is_composite : D → bool;
}.

(** What the tool has done, in order, and what came of it: [Listed None] and [Installed]
    with [false] are calls that failed. *)
Inductive event (D : Type) : Type :=
| Spawned (args : list string) (result : option Output)
| Listed (devices : option (list D))
| Installed (dev : D) (inf_data : list byte) (ok : bool)
| Pressed.
Arguments Spawned {D} args result.
Arguments Listed {D} devices.
Arguments Installed {D} dev inf_data ok.
Arguments Pressed {D}.

Record machine (W D : Type) : Type := Machine {
  m_os : W;
  m_log : list (event D);
}.
Arguments Machine {W D} m_os m_log.
Arguments m_os {W D} m.
Arguments m_log {W D} m.

(** ** [uninstall.rs] *)

Record PnpEntity : Type := MkPnpEntity { inf_name : string }.

(** The four options of a block that is being collected. *)
Record pnp_fields : Type := PnpFields {
  instance_id : option string;
  device_desc : option string;
  manufacturer : option string;
  driver_name : option string;
}.

Definition no_fields : pnp_fields := PnpFields None None None None.

(** One line of a block: a later line with the same key replaces the value. *)
Definition take_line (b : pnp_fields) (raw : string) : pnp_fields :=
  let trimmed := trim raw in
  match str_strip_prefix "Instance ID:" trimmed with
  | Some v => PnpFields (Some (trim v)) (device_desc b) (manufacturer b) (driver_name b)
  | None =>
  match str_strip_prefix "Device Description:" trimmed with
  | Some v => PnpFields (instance_id b) (Some (trim v)) (manufacturer b) (driver_name b)
  | None =>
  match str_strip_prefix "Manufacturer Name:" trimmed with
  | Some v => PnpFields (instance_id b) (device_desc b) (Some (trim v)) (driver_name b)
  | None =>
  match str_strip_prefix "Driver Name:" trimmed with
  | Some v => PnpFields (instance_id b) (device_desc b) (manufacturer b) (Some (trim v))
  | None => b
  end end end end.

(** Skipping blank lines. *)
Fixpoint skip_blank (lines : list string) : list string :=
  match lines with
  | l :: ls => if is_blank l then skip_blank ls else lines
  | [] => []
  end.

(** Collecting a block: up to a blank line, which is consumed, or the end. *)
Fixpoint collect_block (b : pnp_fields) (lines : list string) : pnp_fields * list string :=
  match lines with
  | [] => (b, [])
  | l :: ls => if is_blank l then (b, ls) else collect_block (take_line b l) ls
  end.

Definition is_some_and (p : string → bool) (o : option string) : bool :=
  match o with Some s => p s | None => false end.

Definition is_apple (b : pnp_fields) : bool :=
  is_some_and (str_contains "VID_05AC") (instance_id b)
  || is_some_and (λ d, str_contains "iPhone" d || str_contains "iPad" d
                       || str_contains "iPod" d || str_contains "Apple" d) (device_desc b)
  || is_some_and (str_contains "Apple") (manufacturer b).

Definition block_entity (b : pnp_fields) : option PnpEntity :=
  match driver_name b, manufacturer b with
  | Some inf, Some prov =>
      if is_apple b && (negb (str_contains "Microsoft" prov) && negb (str_contains "wpdmtp" inf))
      then Some (MkPnpEntity inf) else None
  | _, _ => None
  end.

(** The outer loop; every round but the last takes a line. *)
Fixpoint parse_blocks (fuel : nat) (lines : list string) : list PnpEntity :=
  match fuel with
  | O => []
  | S fuel =>
      match skip_blank lines with
      | [] => []
      | lines =>
          let '(b, rest) := collect_block no_fields lines in
          match block_entity b with
          | Some e => e :: parse_blocks fuel rest
          | None => parse_blocks fuel rest
          end
      end
  end.

Definition parse_devices (text : string) : list PnpEntity :=
  let lines := str_lines text in parse_blocks (S (length lines)) lines.

Definition output_text (out : Output) : string :=
  String.string_of_list_byte (from_utf8_lossy (out_stdout out)).

Section tool.
Context {W D : Type} {pnp : Pnputil W} {wdi : Wdi W D}.

Abbreviation tool := (stateful (machine W D) Z).

Definition push_event (e : event D) : tool () :=
  λ m, (Ok (), Machine (m_os m) (m_log m ++ [e])).

(** [Command::new("pnputil").args(args).output()], where the caller turns an error
    into its own code. *)
Definition pnputil (args : list string) (code : Z) : tool Output :=
  λ m, let '(r, w) := pnputil_run args (m_os m) in
       (ok_or code r, Machine w (m_log m ++ [Spawned args r])).

Definition remove_device (inf : string) : tool () :=
  let! output := pnputil ["/delete-driver"; inf; "/uninstall"] 677 in
  match out_stderr output with
  | [] => st_ret ()
  | _ => st_lift (Err 677%Z)
  end.

Definition rescan : tool () :=
  let! output := pnputil ["/scan-devices"] 667 in
  if out_success output then st_ret () else st_lift (Err 667%Z).

Definition find_apple_devices : tool (list PnpEntity) :=
  let! output := pnputil ["/enum-devices"] 67 in
  st_ret (parse_devices (output_text output)).

Fixpoint remove_devices (devices : list PnpEntity) : tool () :=
  match devices with
  | [] => st_ret ()
  | dev :: devices => let! _ := remove_device (inf_name dev) in remove_devices devices
  end.

Fixpoint uninstall_rounds (rescans : nat) : tool () :=
  match rescans with
  | O => st_ret ()
  | S rescans =>
      let! devices := find_apple_devices in
      match devices with
      | [] => st_ret ()
      | _ =>
          let! _ := remove_devices devices in
          let! _ := rescan in
          uninstall_rounds rescans
      end
  end.

(** [rescans : u8] *)
Definition uninstall_any_apple_driver (rescans : Z) : tool () :=
  uninstall_rounds (Z.to_nat rescans).

(** ** [main.rs] *)

Definition APPLE_VID : Z := 0x5ac.

Definition in_APPLE_PID_RANGE (pid : Z) : bool := ((0x1290 <=? pid) && (pid <=? 0x12af))%Z.

Record Args : Type := MkArgs {
  clean : bool;
  wait : bool;
  install : bool;
  rescans : Z;
}.

(** Without the carriage returns of [INF_DATA]. *)
Definition inf_without_cr (inf_data : list byte) : list byte :=
  List.filter (λ b, negb (bool_decide (b = Byte.x0d))) inf_data.

Definition press_to_continue (args : Args) : tool () :=
  if wait args then push_event Pressed else st_ret ().

(** An error that is printed: the process waits for a key when asked to, and exits. *)
Definition exit_with {A} (args : Args) (code : Z) : tool A :=
  let! _ := press_to_continue args in st_lift (Err code).

Definition is_wanted (dev : D) : bool :=
  Z.eqb (dev_vid dev) APPLE_VID && in_APPLE_PID_RANGE (dev_pid dev)
  && negb (dev_is_composite dev).

(** The second half of [main]. *)
Definition install_driver (INF_DATA : list byte) (args : Args) : tool () :=
  let! m := st_get in
  let listed := create_list (m_os m) in
  let! _ := st_put (Machine listed.2 (m_log m ++ [Listed listed.1])) in
  match listed.1 with
  | None => exit_with args (-667)
  | Some devices =>
      match List.find is_wanted devices with
      | None => exit_with args (-677)
      | Some device =>
          let! m := st_get in
          let inf_data := inf_without_cr INF_DATA in
          let installed := driver_install device inf_data (m_os m) in
          let! _ := st_put (Machine installed.2 (m_log m ++ [Installed device inf_data installed.1])) in
          if installed.1 then press_to_continue args else exit_with args (-67)
      end
  end.

(** [main] after the arguments are parsed: an [Err] is [process::exit].,
    a failed [unwrap] a panic. *)
Definition driver_main (INF_DATA : list byte) (args : Args) : tool () :=
  let! m := st_get in
  let! _ := (if set_log_level (m_os m) then st_ret () else st_lift Panic) in
  let! _ := (if clean args then uninstall_any_apple_driver (rescans args) else st_ret ()) in
  if negb (install args) then st_lift (Err 0%Z)
  else
    install_driver INF_DATA args.

End tool.

(** ** What the exit status means to the installer

    The codes [src/windows/rusbmux-setup.iss] tells apart. *)

Inductive failure : Type :=
| DriverGeneric
| DriverFetchDevices
| DriverNoDevice
| RemoveEnumDevices
| RemoveScanDevices
| RemoveDeleteDriver.

Definition EXIT_SUCCESS : Z := 0.

(** [None]: an unknown code. *)
Definition exit_meaning (code : Z) : option (option failure) :=
  if decide (code = EXIT_SUCCESS) then Some None
  else if decide (code = -67)%Z then Some (Some DriverGeneric)
  else if decide (code = -667)%Z then Some (Some DriverFetchDevices)
  else if decide (code = -677)%Z then Some (Some DriverNoDevice)
  else if decide (code = 67)%Z then Some (Some RemoveEnumDevices)
  else if decide (code = 667)%Z then Some (Some RemoveScanDevices)
  else if decide (code = 677)%Z then Some (Some RemoveDeleteDriver)
  else None.

(** The exit status of a [main] that does not panic. *)
Definition exit_status (r : outcome Z ()) : option Z :=
  match r with Ok _ => Some 0%Z | Err code => Some code | _ => None end.

(** ** The reference for the parser: the blocks of lines that are not blank *)

Definition flush_block (cur : list string) : list (list string) :=
  match cur with [] => [] | _ => [cur] end.

Fixpoint device_blocks_go (cur lines : list string) : list (list string) :=
  match lines with
  | [] => flush_block cur
  | l :: ls =>
      if is_blank l then flush_block cur ++ device_blocks_go [] ls
      else device_blocks_go (cur ++ [l]) ls
  end.

Definition device_blocks (lines : list string) : list (list string) := device_blocks_go [] lines.

(** What a line says for a key, and the value of a key in a block: its last. *)
Definition line_value (key l : string) : option string := trim <$> str_strip_prefix key (trim l).

Definition block_value (key : string) (block : list string) : option string :=
  list.last (omap (line_value key) block).

Definition block_fields (block : list string) : pnp_fields :=
  PnpFields (block_value "Instance ID:" block) (block_value "Device Description:" block)
            (block_value "Manufacturer Name:" block) (block_value "Driver Name:" block).

(** A device with a driver that the tool is to remove. *)
Definition foreign_apple_driver (block : list string) (inf : string) : Prop :=
  is_apple (block_fields block) = true ∧
  block_value "Driver Name:" block = Some inf ∧
  (∃ prov, block_value "Manufacturer Name:" block = Some prov ∧ str_contains "Microsoft" prov = false) ∧
  str_contains "wpdmtp" inf = false.

(** * Theorems *)

Definition or_old (new old : option string) : option string :=
  match new with Some v => Some v | None => old end.

Lemma take_line_fields b raw :
  take_line b raw =
  PnpFields (or_old (line_value "Instance ID:" raw) (instance_id b))
            (or_old (line_value "Device Description:" raw) (device_desc b))
            (or_old (line_value "Manufacturer Name:" raw) (manufacturer b))
            (or_old (line_value "Driver Name:" raw) (driver_name b)).
Proof.
  unfold take_line, line_value, str_strip_prefix.
  set (l := String.list_ascii_of_string (trim raw)). clearbody l.
  destruct (strip_prefix (String.list_ascii_of_string "Instance ID:") l) as [k|] eqn:E1.
  { apply strip_prefix_app in E1 as ->. reflexivity. }
  destruct (strip_prefix (String.list_ascii_of_string "Device Description:") l) as [k|] eqn:E2.
  { apply strip_prefix_app in E2 as ->. reflexivity. }
  destruct (strip_prefix (String.list_ascii_of_string "Manufacturer Name:") l) as [k|] eqn:E3.
  { apply strip_prefix_app in E3 as ->. reflexivity. }
  destruct (strip_prefix (String.list_ascii_of_string "Driver Name:") l) as [k|] eqn:E4.
  { apply strip_prefix_app in E4 as ->. reflexivity. }
  by destruct b.
Qed.

Lemma block_value_snoc key block l :
  block_value key (block ++ [l]) = or_old (line_value key l) (block_value key block).
Proof.
  unfold block_value. rewrite omap_app. cbn.
  destruct (line_value key l); cbn; [apply last_snoc|by rewrite app_nil_r].
Qed.

Lemma fold_take_line block : foldl take_line no_fields block = block_fields block.
Proof.
  induction block as [|l block IH] using rev_ind; [done|].
  rewrite foldl_app, IH. cbn [foldl]. rewrite take_line_fields.
  unfold block_fields. by rewrite !block_value_snoc.
Qed.

(** A collected block is the run of lines that the reference closes. *)
Lemma collect_block_go cur lines b :
  cur ≠ [] →
  ∃ run, collect_block b lines = (foldl take_line b run, (collect_block b lines).2) ∧
    device_blocks_go cur lines = (cur ++ run) :: device_blocks_go [] (collect_block b lines).2 ∧
    length (collect_block b lines).2 ≤ length lines.
Proof.
  revert cur b. induction lines as [|l lines IH]; intros cur b Hcur; cbn [collect_block device_blocks_go].
  - exists []. rewrite app_nil_r. destruct cur; done.
  - destruct (is_blank l).
    + exists []. rewrite app_nil_r. destruct cur; [done|]. cbn. split_and!; [done..|lia].
    + destruct (IH (cur ++ [l]) (take_line b l)) as (run & E1 & E2 & E3); [by destruct cur|].
      exists (l :: run). cbn [length foldl]. rewrite E2, <- app_assoc. split_and!; [done..|lia].
Qed.

Lemma skip_blank_go lines :
  device_blocks_go [] lines = device_blocks_go [] (skip_blank lines) ∧
  length (skip_blank lines) ≤ length lines ∧
  (∀ l ls, skip_blank lines = l :: ls → is_blank l = false).
Proof.
  induction lines as [|l lines IH]; cbn [skip_blank]; [done|].
  destruct (is_blank l) eqn:E.
  - cbn [device_blocks_go length]. rewrite E. cbn. destruct IH as (? & ? & ?). split_and!; [done|lia|done].
  - split_and!; [done|lia|]. by intros ? ? [= <- <-].
Qed.

Lemma parse_blocks_reference fuel lines :
  length lines < fuel →
  parse_blocks fuel lines = omap (block_entity ∘ block_fields) (device_blocks lines).
Proof.
  revert lines. induction fuel as [|fuel IH]; intros lines Hf; [lia|]. cbn [parse_blocks].
  destruct (skip_blank_go lines) as (E & Hl & Hb). unfold device_blocks. rewrite E.
  destruct (skip_blank lines) as [|l ls]; [done|]. specialize (Hb l ls eq_refl).
  cbn [collect_block device_blocks_go]. rewrite Hb. cbn [length app] in Hl |- *.
  destruct (collect_block_go [l] ls (take_line no_fields l)) as (run & E1 & -> & E3); [done|].
  destruct (collect_block (take_line no_fields l) ls) as [b rest]. cbn [snd] in *. injection E1 as ->.
  change (foldl take_line (take_line no_fields l) run) with (foldl take_line no_fields ([l] ++ run)).
  rewrite fold_take_line, IH by lia. cbn. by destruct (block_entity _).
Qed.

Lemma parse_devices_reference text :
  parse_devices text = omap (block_entity ∘ block_fields) (device_blocks (str_lines text)).
Proof. apply parse_blocks_reference. lia. Qed.

Lemma block_entity_foreign block e :
  block_entity (block_fields block) = Some e ↔ foreign_apple_driver block (inf_name e).
Proof.
  unfold block_entity, foreign_apple_driver. cbn [driver_name manufacturer block_fields].
  destruct e as [inf]. cbn [inf_name].
  destruct (block_value "Driver Name:" block) as [i|]; [|by split; [|intros (? & ? & ?)]].
  destruct (block_value "Manufacturer Name:" block) as [p|];
    [|by split; [|intros (? & ? & (? & ? & ?) & ?)]].
  split.
  - intros H. destruct (is_apple _), (str_contains "Microsoft" p) eqn:?,
      (str_contains "wpdmtp" i) eqn:?; try done. injection H as <-. split_and!; [done..|by exists p|done].
  - by intros (-> & [= ->] & (? & [= <-] & ->) & ->).
Qed.

(** The loop over a peekable line iterator finds exactly what the blocks of
    lines that are not blank say: one entity per block that names a driver and a
    manufacturer, is about an Apple device and is neither Microsoft's nor the default
    one; in order, the last line of a key in a block counting. *)
Theorem parse_devices_blocks text e :
  parse_devices text = omap (block_entity ∘ block_fields) (device_blocks (str_lines text)) ∧
  (e ∈ parse_devices text ↔
   ∃ block, block ∈ device_blocks (str_lines text) ∧ foreign_apple_driver block (inf_name e)).
Proof.
  split; [apply parse_devices_reference|]. rewrite parse_devices_reference, list_elem_of_omap.
  by setoid_rewrite block_entity_foreign.
Qed.

(** The blocks are the lines that are not blank, in order. *)
Lemma device_blocks_lines cur lines :
  concat (device_blocks_go cur lines) = cur ++ List.filter (negb ∘ is_blank) lines.
Proof.
  revert cur. induction lines as [|l lines IH]; intros cur; cbn.
  - destruct cur; cbn; by rewrite ?app_nil_r.
  - destruct (is_blank l); cbn.
    + rewrite concat_app, IH. destruct cur; cbn; by rewrite ?app_nil_r.
    + by rewrite IH, <- app_assoc.
Qed.

Definition enum_args : list string := ["/enum-devices"].
Definition delete_args (inf : string) : list string := ["/delete-driver"; inf; "/uninstall"].
Definition scan_args : list string := ["/scan-devices"].

Section trace.
Context {W D : Type} {pnp : Pnputil W} {wdi : Wdi W D}.
Implicit Types (m : machine W D) (evs : list (event D)).

Definition deleted_ok (r : option Output) : Prop := ∃ out, r = Some out ∧ out_stderr out = [].
Definition scanned_ok (r : option Output) : Prop := ∃ out, r = Some out ∧ out_success out = true.

(** A device with Apple's vendor id and a product id of the range that is not a composite
    device. *)
Definition apple_mobile (dev : D) : Prop :=
  dev_vid dev = 0x5ac%Z ∧ (0x1290 ≤ dev_pid dev ≤ 0x12af)%Z ∧ dev_is_composite dev = false.

(** The call that a failure is about, and how it failed. *)
Definition failed_event (f : failure) (e : event D) : Prop :=
  match f with
  | RemoveEnumDevices => e = Spawned enum_args None
  | RemoveDeleteDriver => ∃ inf r, e = Spawned (delete_args inf) r ∧ ¬ deleted_ok r
  | RemoveScanDevices => ∃ r, e = Spawned scan_args r ∧ ¬ scanned_ok r
  | DriverFetchDevices => e = Listed None
  | DriverNoDevice => ∃ devices, e = Listed (Some devices) ∧ Forall (λ dev, ¬ apple_mobile dev) devices
  | DriverGeneric => ∃ dev inf, e = Installed dev inf false
  end.

Definition delete_events (devices : list PnpEntity) (rs : list (option Output)) : list (event D) :=
  zip_with (λ dev r, Spawned (delete_args (inf_name dev)) r) devices rs.

(** One round of the removal: an enumeration, the deletions of what it reported, in
    order and until one fails, and a scan when none did. *)
Definition is_round evs : Prop :=
  evs = [Spawned enum_args None] ∨
  ∃ out rs tail,
    evs = Spawned enum_args (Some out) :: delete_events (parse_devices (output_text out)) rs ++ tail ∧
    length rs ≤ length (parse_devices (output_text out)) ∧
    Forall deleted_ok (removelast rs) ∧
    (tail = [] ∨ ∃ r, tail = [Spawned scan_args r] ∧ Forall deleted_ok rs ∧
                     length rs = length (parse_devices (output_text out))).

(** How a part of the removal ends. *)
Definition ends_with_cause (r : outcome Z ()) evs : Prop :=
  r = Ok () ∨ ∃ code f e, r = Err code ∧ exit_meaning code = Some (Some f) ∧
                          list.last evs = Some e ∧ failed_event f e.

Lemma remove_device_log inf m r m' :
  remove_device inf m = (r, m') →
  ∃ o, m_log m' = m_log m ++ [Spawned (delete_args inf) o] ∧
    ((r = Ok () ∧ deleted_ok o) ∨ (r = Err 677%Z ∧ ¬ deleted_ok o)).
Proof.
  unfold remove_device, pnputil, st_bind, deleted_ok.
  destruct (pnputil_run _ _) as [[o|] w]; cbn.
  - destruct (out_stderr o) eqn:E; cbn; intros [= <- <-]; eexists; (split; [done|]); [left|right];
      (split; [done|]); [by exists o|]. intros (? & [= <-] & ?). congruence.
  - intros [= <- <-]. eexists. split; [done|right]. split; [done|]. by intros (? & ? & ?).
Qed.

Lemma remove_devices_log devices m r m' :
  remove_devices devices m = (r, m') →
  ∃ rs, m_log m' = m_log m ++ delete_events devices rs ∧ length rs ≤ length devices ∧
    Forall deleted_ok (removelast rs) ∧
    ((r = Ok () ∧ Forall deleted_ok rs ∧ length rs = length devices) ∨
     (r = Err 677%Z ∧ ends_with_cause r (delete_events devices rs))).
Proof.
  revert m r m'. induction devices as [|dev devices IH]; intros m r m'; cbn [remove_devices].
  - intros [= <- <-]. exists []. rewrite app_nil_r. cbn. split_and!; [done|lia|constructor|]. left. naive_solver.
  - unfold st_bind. destruct (remove_device _ m) as [r1 m1] eqn:E1.
    apply remove_device_log in E1 as (o & L1 & [[-> Ho]|[-> Ho]]).
    + intros H. apply IH in H as (rs & L2 & Hl & Hf & Hr). exists (o :: rs).
      rewrite L2, L1, <- app_assoc. cbn [length delete_events zip_with app].
      split_and!; [done|lia|destruct rs; [constructor|by constructor]|].
      destruct Hr as [(-> & Ha & Hn)|(-> & Hc)]; [left; split_and!; [done|by constructor|lia]|right].
      split; [done|]. right. destruct Hc as [?|(c & f & e & ? & ? & Hlast & ?)]; [done|].
      exists c, f, e. split_and!; try done. fold (delete_events devices rs).
      by destruct (delete_events devices rs) as [|x l].
    + intros [= <- <-]. exists [o]. rewrite L1. destruct devices; cbn; (split_and!; [done|lia|constructor|right; split; [done|right]]);
        exists 677%Z, RemoveDeleteDriver; eexists; split_and!; try done; cbn; eauto.
Qed.

Lemma rescan_log m r m' :
  rescan m = (r, m') →
  ∃ o, m_log m' = m_log m ++ [Spawned scan_args o] ∧ ends_with_cause r [Spawned scan_args o].
Proof.
  unfold rescan, pnputil, st_bind, ends_with_cause, scanned_ok.
  destruct (pnputil_run _ _) as [[o|] w]; cbn.
  - destruct (out_success o) eqn:E; cbn; intros [= <- <-]; eexists; (split; [done|]); [by left|right].
    exists 667%Z, RemoveScanDevices. eexists. split_and!; try done. cbn. unfold scanned_ok.
    eexists. split; [done|]. intros (? & ? & ?). congruence.
  - intros [= <- <-]. eexists. split; [done|right].
    exists 667%Z, RemoveScanDevices. eexists. split_and!; try done. cbn. unfold scanned_ok.
    eexists. split; [done|]. intros (? & ? & ?). congruence.
Qed.

Lemma find_log m :
  ∃ o m', m_log m' = m_log m ++ [Spawned enum_args o] ∧
    find_apple_devices m = match o with
                           | None => (Err 67%Z, m')
                           | Some out => (Ok (parse_devices (output_text out)), m')
                           end.
Proof.
  unfold find_apple_devices, pnputil, st_bind. destruct (pnputil_run _ _) as [[o|] w]; cbn.
  - exists (Some o). eexists. split; [|reflexivity]. done.
  - exists None. eexists. split; [|reflexivity]. done.
Qed.

Lemma ends_with_cause_app r evs evs' : ends_with_cause r evs' → ends_with_cause r (evs ++ evs').
Proof.
  intros [->|(code & f & e & ? & ? & Hl & ?)]; [by left|right].
  exists code, f, e. rewrite last_app, Hl. done.
Qed.

(** One round; [true] when the loop goes on. *)
Definition uninstall_round : stateful (machine W D) Z bool :=
  let! devices := find_apple_devices in
  match devices with
  | [] => st_ret false
  | _ => let! _ := remove_devices devices in let! _ := rescan in st_ret true
  end.

Lemma uninstall_rounds_S n m :
  uninstall_rounds (S n) m =
  st_bind uninstall_round (λ again, if again then uninstall_rounds n else st_ret ()) m.
Proof.
  cbn [uninstall_rounds]. unfold uninstall_round, st_bind.
  destruct (find_apple_devices m) as [[[|d ds]| | |] m1]; try done.
  destruct (remove_devices (d :: ds) m1) as [[[]| | |] m2]; try done.
  by destruct (rescan m2) as [[[]| | |] m3].
Qed.

Lemma uninstall_round_log m r m' :
  uninstall_round m = (r, m') →
  ∃ round, m_log m' = m_log m ++ round ∧ is_round round ∧
    ((∃ again, r = Ok again) ∨ ∃ code, r = Err code ∧ ends_with_cause (Err code) round).
Proof.
  unfold uninstall_round, st_bind at 1. destruct (find_log m) as (o & m1 & L1 & ->).
  destruct o as [out|].
  2: { intros [= <- <-]. eexists. split_and!; [done|by left|]. right. exists 67%Z. split; [done|].
       right. by exists 67%Z, RemoveEnumDevices, (Spawned enum_args None). }
  destruct (parse_devices (output_text out)) as [|d ds] eqn:Ep.
  { intros [= <- <-]. eexists. split_and!; [done| |left; by eexists]. right. exists out, [], [].
    rewrite Ep. cbn. split_and!; [done|lia|constructor|by left]. }
  unfold st_bind at 1. destruct (remove_devices (d :: ds) m1) as [r2 m2] eqn:E2.
  apply remove_devices_log in E2 as (rs & L2 & Hl & Hf & Hr). rewrite <- Ep in *.
  rewrite L1, <- app_assoc in L2. destruct Hr as [(-> & Ha & Hn)|(-> & Hc)].
  2: { intros [= <- <-]. eexists. split; [exact L2|]. split.
       - right. exists out, rs, []. rewrite app_nil_r. split_and!; [done..|by left].
       - right. eexists. split; [done|]. by apply (ends_with_cause_app _ [_]). }
  unfold st_bind. destruct (rescan m2) as [r3 m3] eqn:E3. apply rescan_log in E3 as (o & L3 & Hc).
  rewrite L2, <- app_assoc in L3. intros H.
  assert (m' = m3) as -> by (destruct r3; unfold st_ret in H; congruence).
  eexists. split; [exact L3|]. split.
  - right. exists out, rs, [Spawned scan_args o]. split_and!; [done|lia|done|right; eauto].
  - destruct Hc as [->|(c & f & e & -> & Hc)]; injection H as <-; [left; by eexists|right].
    eexists. split; [done|]. apply (ends_with_cause_app _ (_ :: _)). right. by exists c, f, e.
Qed.

(** The removal is a sequence of rounds, not more than it was asked for. *)
Lemma uninstall_rounds_log n m r m' :
  uninstall_rounds n m = (r, m') →
  ∃ rounds, m_log m' = m_log m ++ concat rounds ∧ length rounds ≤ n ∧
    Forall is_round rounds ∧ ends_with_cause r (concat rounds).
Proof.
  revert m r m'. induction n as [|n IH]; intros m r m'.
  { intros [= <- <-]. exists []. rewrite app_nil_r. split_and!; [done|apply le_n|constructor|by left]. }
  rewrite uninstall_rounds_S. unfold st_bind. destruct (uninstall_round m) as [r1 m1] eqn:E1.
  apply uninstall_round_log in E1 as (round & L1 & Hr & [[[] ->]|(code & -> & Hc)]).
  - intros H. apply IH in H as (rounds & L2 & Hn & Hf & Hc). exists (round :: rounds).
    cbn [concat length]. rewrite L2, L1, <- app_assoc.
    split_and!; [done|lia|by constructor|by apply ends_with_cause_app].
  - intros [= <- <-]. exists [round]. cbn. rewrite app_nil_r, L1. split_and!; [done|lia|by constructor|by left].
  - intros [= <- <-]. exists [round]. cbn. rewrite app_nil_r, L1. split_and!; [done|lia|by constructor|done].
Qed.

(** What a round deletes was reported in it. *)
Lemma round_deletes evs inf r :
  is_round evs → Spawned (delete_args inf) r ∈ evs →
  ∃ out rest block, evs = Spawned enum_args (Some out) :: rest ∧
    block ∈ device_blocks (str_lines (output_text out)) ∧ foreign_apple_driver block inf.
Proof.
  intros [->|(out & rs & tail & -> & _ & _ & Ht)] Hin.
  { by apply list_elem_of_singleton in Hin. }
  rewrite elem_of_cons, elem_of_app in Hin. destruct Hin as [?|[Hin|Hin]]; [done| |].
  - apply elem_of_lookup_zip_with in Hin as (i & dev & o & [= -> _] & Hd & _).
    apply list_elem_of_lookup_2 in Hd. rewrite parse_devices_reference in Hd.
    apply list_elem_of_omap in Hd as (block & Hb & He). apply block_entity_foreign in He.
    by eexists out, _, block.
  - destruct Ht as [->|(o & -> & _)]; [by inversion Hin|]. by apply list_elem_of_singleton in Hin.
Qed.

(** C37.  The removal never runs more rounds than it is asked for; every driver it
    deletes is one that the enumeration of that round reported for an Apple device,
    from a block that names a manufacturer other than Microsoft; and when it fails,
    its code says which command failed, and nothing was run after that command. *)
Theorem uninstall_removes_reported k m r m' :
  uninstall_any_apple_driver k m = (r, m') →
  ∃ rounds, m_log m' = m_log m ++ concat rounds ∧ length rounds ≤ Z.to_nat k ∧
    (∀ round inf o, round ∈ rounds → Spawned (delete_args inf) o ∈ round →
       ∃ out rest block, round = Spawned enum_args (Some out) :: rest ∧
         block ∈ device_blocks (str_lines (output_text out)) ∧ foreign_apple_driver block inf) ∧
    ends_with_cause r (concat rounds).
Proof.
  intros H. apply uninstall_rounds_log in H as (rounds & HL & Hn & Hf & Hc).
  exists rounds. split_and!; try done. intros round inf o Hr Hin.
  rewrite list.Forall_forall in Hf. eapply round_deletes; [by apply Hf|done].
Qed.

(** ** What the removal comes to *)

Lemma press_log args m :
  ∃ m', press_to_continue args m = (Ok (), m') ∧
    m_log m' = m_log m ++ (if wait args then [Pressed] else []).
Proof. unfold press_to_continue. destruct (wait args); eexists; (split; [reflexivity|]); [done|by rewrite app_nil_r]. Qed.

Lemma exit_with_log {A} args code m :
  ∃ m', exit_with (A := A) args code m = (Err code, m') ∧
    m_log m' = m_log m ++ (if wait args then [Pressed] else []).
Proof. unfold exit_with, st_bind. destruct (press_log args m) as (m' & -> & ?). by exists m'. Qed.

(** The part of [main] that cleans. *)
Lemma clean_log args m r m' :
  (if clean args then uninstall_any_apple_driver (rescans args) else st_ret ()) m = (r, m') →
  ∃ evs, m_log m' = m_log m ++ evs ∧ ends_with_cause r evs ∧ (∀ dev inf ok, Installed dev inf ok ∉ evs).
Proof.
  destruct (clean args).
  - intros H. apply uninstall_rounds_log in H as (rounds & HL & _ & Hf & Hc).
    exists (concat rounds). split_and!; [done..|]. intros dev inf ok (round & Hr & Hin)%list_elem_of_In%List.in_concat.
    apply list_elem_of_In in Hr, Hin.
    rewrite list.Forall_forall in Hf. destruct (Hf _ Hr) as [->|(out & rs & tail & -> & _ & _ & Ht)].
    + by apply list_elem_of_singleton in Hin.
    + rewrite elem_of_cons, elem_of_app in Hin. destruct Hin as [?|[Hin|Hin]]; [done| |].
      * by apply elem_of_lookup_zip_with in Hin as (? & ? & ? & ? & _).
      * destruct Ht as [->|(o & -> & _)]; [by inversion Hin|]. by apply list_elem_of_singleton in Hin.
  - intros [= <- <-]. exists []. rewrite app_nil_r. split_and!; [done|by left|]. intros dev inf ok Hin. inversion Hin.
Qed.

Lemma is_wanted_spec dev : is_wanted dev = true ↔ apple_mobile dev.
Proof.
  unfold is_wanted, in_APPLE_PID_RANGE, apple_mobile, APPLE_VID.
  rewrite !andb_true_iff, Z.eqb_eq, !Z.leb_le, negb_true_iff. tauto.
Qed.

(** What is installed: when asked for, the INF data without carriage returns, for the
    first fitting device of those that were listed. *)
Definition installs_wanted (INF_DATA : list byte) (args : Args) evs : Prop :=
  ∀ dev inf ok, Installed dev inf ok ∈ evs →
    install args = true ∧ inf = inf_without_cr INF_DATA ∧ apple_mobile dev ∧
    ∃ before after, Listed (Some (before ++ dev :: after)) ∈ evs ∧ Forall (λ d, ¬ apple_mobile d) before.

(** What the process has come to when it ends with [r]: the part of the log that is
    its own, the key it may have waited for left out. *)
Definition main_result (INF_DATA : list byte) (args : Args) (r : outcome Z ()) evs : Prop :=
  ∃ code f, exit_status r = Some code ∧ exit_meaning code = Some f ∧
    match f with
    | Some f => ∃ e, list.last evs = Some e ∧ failed_event f e
    | None => install args = true → ∃ dev inf, list.last evs = Some (Installed dev inf true)
    end ∧ installs_wanted INF_DATA args evs.

Lemma installs_nothing INF_DATA args evs : (∀ dev inf ok, Installed dev inf ok ∉ evs) → installs_wanted INF_DATA args evs.
Proof. intros H dev inf ok Hin. by destruct (H dev inf ok). Qed.

Lemma find_wanted devices dev :
  List.find is_wanted devices = Some dev →
  ∃ before after, devices = before ++ dev :: after ∧ Forall (λ d, ¬ apple_mobile d) before ∧ apple_mobile dev.
Proof.
  induction devices as [|d devices IH]; [done|]. cbn. destruct (is_wanted d) eqn:E.
  - intros [= <-]. exists [], devices. split_and!; [done|constructor|by apply is_wanted_spec].
  - intros (before & after & -> & Hb & Hd)%IH. exists (d :: before), after. split_and!; [done| |done].
    constructor; [|done]. rewrite <- is_wanted_spec. congruence.
Qed.

Lemma find_none devices : List.find is_wanted devices = None → Forall (λ d, ¬ apple_mobile d) devices.
Proof.
  intros H. apply list.Forall_forall. intros d Hd%list_elem_of_In. rewrite <- is_wanted_spec.
  by rewrite (List.find_none _ _ H d Hd).
Qed.

(** [exit_with] after a call that failed *)
Lemma exit_after INF_DATA args code f evs e m r m' :
  exit_meaning code = Some (Some f) → failed_event f e → installs_wanted INF_DATA args (evs ++ [e]) →
  exit_with args code m = (r, m') →
  ∃ pressed, m_log m' = m_log m ++ pressed ∧
    (pressed = [] ∨ wait args = true ∧ pressed = [Pressed]) ∧ main_result INF_DATA args r (evs ++ [e]).
Proof.
  intros Hm Hf Hw. destruct (exit_with_log (A := ()) args code m) as (m2 & -> & L). intros [= <- <-].
  rewrite L. eexists. split_and!; [done|destruct (wait args); auto|].
  exists code, (Some f). split_and!; [done..| |done]. exists e. by rewrite last_snoc.
Qed.

(** The two steps of installing, after [evs]. *)
Lemma install_driver_log INF_DATA args m evs r m' :
  install args = true → (∀ dev inf ok, Installed dev inf ok ∉ evs) →
  install_driver INF_DATA args m = (r, m') →
  ∃ evs' pressed, m_log m' = m_log m ++ evs' ++ pressed ∧
    (pressed = [] ∨ wait args = true ∧ pressed = [Pressed]) ∧ main_result INF_DATA args r (evs ++ evs').
Proof.
  intros Hi Hni. unfold install_driver. unfold st_bind, st_get, st_put. cbn [m_os m_log].
  destruct (create_list (m_os m)) as [listed w]; cbn [fst snd].
  assert (Hin1 : ∀ dev inf ok, Installed dev inf ok ∉ evs ++ [Listed listed]).
  { intros dev inf ok [?|?%list_elem_of_singleton]%elem_of_app; [by eapply Hni|done]. }
  destruct listed as [devices|].
  2: { intros H. eapply (exit_after INF_DATA _ _ DriverFetchDevices evs (Listed None)) in H
         as (p & L & Hp & Hr); [|done|done|by apply installs_nothing].
       exists [Listed None], p. rewrite L. cbn [m_log]. rewrite <- app_assoc. done. }
  destruct (List.find is_wanted devices) as [dev|] eqn:Ef.
  2: { apply find_none in Ef. intros H.
       eapply (exit_after INF_DATA _ _ DriverNoDevice evs (Listed (Some devices))) in H
         as (p & L & Hp & Hr); [|done|by exists devices|by apply installs_nothing].
       exists [Listed (Some devices)], p. rewrite L. cbn [m_log]. rewrite <- app_assoc. done. }
  apply find_wanted in Ef as (before & after & -> & Hb & Hw). set (devices := before ++ dev :: after) in *.
  destruct (driver_install _ _ _) as [ok w']; cbn [fst snd m_log].
  set (e := Installed dev (inf_without_cr INF_DATA) ok) in *.
  assert (Hin2 : installs_wanted INF_DATA args ((evs ++ [Listed (Some devices)]) ++ [e])).
  { intros dev' inf' ok' [?|Hd%list_elem_of_singleton]%elem_of_app; [by destruct (Hin1 dev' inf' ok')|].
    injection Hd as -> -> ->. split_and!; [done..|]. exists before, after. split; [|done]. set_solver. }
  destruct ok.
  - destruct (press_log args (Machine w' ((m_log m ++ [Listed (Some devices)]) ++ [e]))) as (m2 & -> & L).
    intros [= <- <-]. exists [Listed (Some devices); e]. eexists. rewrite L. cbn.
    rewrite <- !app_assoc. split; [done|]. split; [destruct (wait args); auto|].
    exists 0%Z, None. change [Listed (Some devices); e] with ([Listed (Some devices)] ++ [e]). rewrite app_assoc.
    split_and!; [done..| |done]. intros _. eexists _, _. by rewrite last_snoc.
  - intros H. eapply (exit_after INF_DATA _ _ DriverGeneric (evs ++ [Listed (Some devices)]) e) in H
      as (p & L & Hp & Hr); [|done|by eexists _, _|done].
    exists [Listed (Some devices); e], p. rewrite L. cbn [m_log].
    rewrite <- !app_assoc in *. done.
Qed.

(** C38.  Unless setting the log level panics, the exit status is one that the
    installer knows, and says what happened.  A failure's code names the call that failed,
    which is the last the process made: -667 that the devices could not be listed, -677 that
    none of those listed fits, -67 that the driver's installation failed, 67, 667 and 677
    that a command of the removal failed; 0 means that the driver's installation succeeded,
    when it was asked for.  And a driver is only ever installed when that was asked for, with
    the INF data less its carriage returns, for the first device listed that has Apple's
    vendor id and a product id of the range and is not a composite device. *)
Theorem driver_main_exit INF_DATA args m r m' :
  set_log_level (m_os m) = true →
  driver_main INF_DATA args m = (r, m') →
  ∃ evs pressed, m_log m' = m_log m ++ evs ++ pressed ∧
    (pressed = [] ∨ wait args = true ∧ pressed = [Pressed]) ∧ main_result INF_DATA args r evs.
Proof.
  intros Hlog. unfold driver_main. unfold st_bind at 1 2, st_get. rewrite Hlog.
  unfold st_ret at 1, st_bind at 1.
  destruct ((if clean args then uninstall_any_apple_driver (rescans args) else st_ret ()) m)
    as [r1 m1] eqn:E1.
  apply clean_log in E1 as (evs & L1 & Hc & Hni).
  destruct Hc as [->|(code & f & e & -> & Hm & Hl & Hf)].
  - destruct (install args) eqn:Hi; cbn [negb].
    + intros H. eapply (install_driver_log _ _ _ evs) in H as (evs' & p & L & Hp & Hr); [|done..].
      exists (evs ++ evs'), p. rewrite L, L1, <- !app_assoc. done.
    + intros [= <- <-]. exists evs, []. rewrite app_nil_r. split_and!; [done|by left|].
      exists 0%Z, None. split_and!; [done..|congruence|]. by apply installs_nothing.
  - intros [= <- <-]. exists evs, []. rewrite app_nil_r. split_and!; [done|by left|].
    exists code, (Some f). split_and!; [done..|by exists e|]. by apply installs_nothing.
Qed.

End trace.

(** What [pnputil] documents of the driver store: [installed] are its packages.  An
    enumeration names only those; a deletion that reports nothing has removed its
    package; a scan for hardware adds none. *)
Class PnputilLaws (W : Type) `{Pnputil W} : Type := {
  installed : W → gset string;
  enum_installed : ∀ w out w', pnputil_run enum_args w = (Some out, w') →
    installed w' = installed w ∧
    ∀ block inf, block ∈ device_blocks (str_lines (output_text out)) →
      block_value "Driver Name:" block = Some inf → inf ∈ installed w;
  delete_uninstalls : ∀ inf w out w', pnputil_run (delete_args inf) w = (Some out, w') →
    out_stderr out = [] → installed w' = installed w ∖ {[inf]};
  scan_installed : ∀ w out w', pnputil_run scan_args w = (Some out, w') → installed w' = installed w;
}.

Section store.
Context {W D : Type} {pnp : Pnputil W} {laws : PnputilLaws W}.
Implicit Types (m : machine W D).

Lemma remove_devices_installed devices m m' :
  remove_devices devices m = (Ok (), m') →
  installed (m_os m') ⊆ installed (m_os m) ∧
  (∀ dev, dev ∈ devices → inf_name dev ∉ installed (m_os m')).
Proof.
  revert m. induction devices as [|dev devices IH]; intros m; cbn [remove_devices].
  - intros [= <-]. split; [done|]. intros ? H. inversion H.
  - intros H. apply st_bind_ok in H as ([] & m1 & H1 & H2). apply IH in H2 as [Hs Hd].
    unfold remove_device, pnputil, st_bind in H1.
    destruct (pnputil_run _ _) as [[o|] w] eqn:E; cbn in H1; [|done].
    destruct (out_stderr o) eqn:Eo; [|done]. injection H1 as <-. cbn [m_os] in *.
    apply delete_uninstalls in E; [|done]. rewrite E in Hs. split; [set_solver|].
    intros d [->|Hin]%elem_of_cons; [set_solver|by apply Hd].
Qed.

Lemma find_ok m devices m' :
  find_apple_devices m = (Ok devices, m') →
  ∃ out w, pnputil_run enum_args (m_os m) = (Some out, w) ∧
    m' = Machine w (m_log m ++ [Spawned enum_args (Some out)]) ∧
    devices = parse_devices (output_text out).
Proof.
  intros H. apply st_bind_ok in H as (out & m1 & H1 & H). unfold pnputil in H1.
  destruct (pnputil_run _ _) as [[o|] w] eqn:E; [|done]. unfold st_ret in H. cbn [ok_or] in H1.
  injection H1 as -> <-. injection H as <- <-. by exists out, w.
Qed.

Lemma uninstall_round_installed m again m' :
  uninstall_round m = (Ok again, m') →
  if again then installed (m_os m') ⊂ installed (m_os m)
  else ∃ out, list.last (m_log m') = Some (Spawned enum_args (Some out)) ∧
              parse_devices (output_text out) = [].
Proof.
  intros H. apply st_bind_ok in H as (devices & m1 & H1 & H).
  apply find_ok in H1 as (o & w & E & -> & ->). apply enum_installed in E as [Ei Hb].
  destruct (parse_devices (output_text o)) as [|d ds] eqn:Ep.
  { unfold st_ret in H. simplify_eq. exists o. cbn [m_log]. by rewrite last_snoc. }
  apply st_bind_ok in H as ([] & m2 & H2 & H). apply st_bind_ok in H as ([] & m3 & H3 & H).
  unfold st_ret in H. simplify_eq. apply remove_devices_installed in H2 as [Hs Hd]. cbn [m_os] in Hs.
  unfold rescan, pnputil, st_bind in H3.
  destruct (pnputil_run _ _) as [[o'|] w'] eqn:E'; cbn in H3; [|done].
  destruct (out_success o'); [|done]. injection H3 as <-. cbn [m_os]. apply scan_installed in E'.
  assert (Hin : d ∈ parse_devices (output_text o)) by (rewrite Ep; left).
  rewrite parse_devices_reference in Hin. apply list_elem_of_omap in Hin as (block & Hin & He).
  apply block_entity_foreign in He as (_ & Hv & _). specialize (Hb _ _ Hin Hv).
  specialize (Hd d ltac:(left)). rewrite E'. rewrite Ei in Hs. set_solver.
Qed.

(** Given enough rounds, more than there are driver packages, a removal that
    succeeds has ended because an enumeration found no driver to remove. *)
Theorem uninstall_leaves_none k m m' :
  (size (installed (m_os m)) < Z.to_nat k)%nat →
  uninstall_any_apple_driver k m = (Ok (), m') →
  ∃ out, list.last (m_log m') = Some (Spawned enum_args (Some out)) ∧
         parse_devices (output_text out) = [].
Proof.
  unfold uninstall_any_apple_driver. generalize (Z.to_nat k) as n. intros n. revert m.
  induction n as [|n IH]; intros m Hn; [lia|]. rewrite uninstall_rounds_S.
  intros H. apply st_bind_ok in H as (again & m1 & H1 & H).
  apply uninstall_round_installed in H1. destruct again.
  - apply subset_size in H1. apply IH in H; [done|lia].
  - by injection H as <-.
Qed.

End store.
