(* ===== verification/Witnesses.v ===== *)
(** * Witnesses

    Every theorem with hypotheses applied at a concrete input where they hold: the
    codecs of [Tcp] and [Plist], the scripted link of [Conn], and for the other
    interfaces the instances at the top of this file. *)

From Stdlib Require Import Strings.Ascii.
From S2P Require Import Prelude Io Tcp Utf8 DeviceMux Plist Builder UsbMux Request Errors Conn.
From S2P Require Import Bridge Router Loops UsbDevice Registry World Records Network Handlers Session.

(** ** Instances *)

#[export] Existing Instance WireTcp.
#[export] Existing Instance TestPlist.

#[export] Instance sorted_keys : MapOrder := {
  keys_in_order m := (map_to_list m).*1;
  keys_in_order_perm m := reflexivity _;
}.

#[export] Instance sorted_devices : RegistryOrder script := {
  devices_in_order := map_to_list;
  devices_in_order_perm m := reflexivity _;
}.

(** An address is printed as its kind and its octets. *)
#[export] Instance raw_ip : IpText := {
  ip_to_string ip :=
    match ip with
    | IpV4 o => String.String "4"%char (string_of_bytes o)
    | IpV6 o => String.String "6"%char (string_of_bytes o)
    end;
  ip_from_str s :=
    match s with
    | String.String "4"%char s => Some (IpV4 (bytes_of_string s))
    | String.String "6"%char s => Some (IpV6 (bytes_of_string s))
    | _ => None
    end;
}.

#[export] Instance raw_ip_laws : IpTextLaws.
Proof.
  split. intros [o|o]; cbn; unfold bytes_of_string, string_of_bytes;
    by rewrite String.list_byte_of_string_of_list_byte.
Qed.

#[export] Instance short_errors : PlistErrors := {
  de_display e :=
    match e with
    | MissingField f => missing_field_text f
    | UnknownVariant v => "unknown variant"
    | Malformed => "invalid type"
    end;
}.

#[export] Instance short_errors_laws : PlistErrorsLaws.
Proof.
  split. intros f g Hf Hg. unfold required_fields, reported_fields in *.
  rewrite !elem_of_cons, elem_of_nil in Hf. rewrite !elem_of_cons, elem_of_nil in Hg.
  destruct_or! Hf; try done; destruct_or! Hg; try done; subst; vm_compute; reflexivity.
Qed.

(** A device that answers at IPv4 addresses only, and grants every assertion. *)
#[export] Instance ipv4_device : Idevice := {
  PairingFile := list byte;
  pairing_file_from_bytes bs := match bs with [] => inl "empty pairing file" | _ => inr bs end;
  wifi_mac_address _ := "00:00:5e:00:53:01";
  heartbeat_connect p := match provider_addr p with IpV4 _ => inr () | IpV6 _ => inl "unreachable" end;
  assertion_connect p :=
    let reply := to_xml (Dictionary []) in
    inr (stream_of (be_encode 4 (Z.of_nat (length reply)) ++ reply));
  idevice_socket_error _ := "socket error";
}.

#[export] Instance short_plist_text : PlistText := {
  value_debug _ := "value";
  expected_dictionary := "expected a dictionary";
}.

#[export] Instance loopback : TcpNet := {
  tcp_connect _ _ _ := inr (stream_of []);
  copy_bidirectional s c := (inr (), (s, c));
  copy_given_up s c := (s, c);
}.

(** ** Concrete states *)

Definition bytes (n : nat) : list byte := replicate n Byte.x61.

Definition a_usb_device : UsbDevice script :=
  MkUsbDevice 7 "A" None 0 4776 (RState router_new ∅) ∅ (Script [] 10 []) false false false.

Definition a_network_device : NetworkDevice :=
  MkNetworkDevice 9 (IpV4 [Byte.x0a; Byte.x00; Byte.x00; Byte.x02]) None "00:00:5e:00:53:01" "manual" "A"
    false.

Definition a_daemon : Daemon script := MkDaemon {[ 9 := Network a_network_device ]}%Z [].

Definition a_disk : Disk := MkDisk ∅ (λ _, None).

Definition a_world : World script := MkWorld (stream_of []) a_daemon a_disk 0 10.

Definition an_env : Env script :=
  MkEnv "UUID" (λ r, r) [DevicePacket; ClientRead 3 false; DeviceShutdown] false (λ s, s)
    [(λ s, s, 9%Z)] [watch_usb_daemon_turn (UsbDisconnected 9)].

Definition a_header (w ackn : Z) : TcpHeader := {|
  source_port := 62078; destination_port := 1; sequence_number := 0; acknowledgment_number := ackn;
  ns := false; fin := false; syn := true; rst := false; psh := false; ack := true; urg := false;
  ece := false; cwr := false; window_size := w; checksum := 0; urgent_pointer := 0; options := []
|}.

(** A packet of the device with a header and a payload. *)
Definition a_builder (w ackn : Z) (data : list byte)
  : UsbDevicePacketBuilder (list byte) (Z * Z) TcpHeader := Builder data (3, 4)%Z (a_header w ackn).

Definition a_packet (w ackn : Z) (data : list byte) : UsbDevicePacket := build (a_builder w ackn data).

Definition a_script : script := Script [a_packet 512 1 []; a_packet 512 1 (bytes 5)] 10 [].

Definition a_conn : UsbDeviceConn := Conn 7 1 1 1 62078 49116 512 1 false.

Lemma a_daemon_wf : registry_wf ∅ a_daemon.
Proof.
  split; intros *; unfold a_daemon; cbn; rewrite ?lookup_singleton_Some; naive_solver.
Defined.

(** ** Sessions and handlers *)

Definition some_items : list (item script) :=
  [MkItem an_env PlistVersion UsbMuxMsgType.MessagePlist 5
     (to_xml (Dictionary [("MessageType", String "ListDevices")]));
   MkItem an_env PlistVersion UsbMuxMsgType.MessagePlist 6 (bytes 3);
   MkItem an_env Binary UsbMuxMsgType.Connect 7 (bytes 2);
   MkItem an_env PlistVersion UsbMuxMsgType.MessagePlist 8
     (to_xml (Dictionary [("MessageType", String "AddDevice"); ("IP", Boolean true)]))].

Definition session_world : World script :=
  MkWorld (stream_of (mjoin (item_bytes <$> some_items))) a_daemon a_disk 0 10.

(** An item whose payload parses to a given request is in order. *)
Lemma item_ok_decoded (i : item script) o :
  in_width 32 (it_tag i) → (Z.of_nat (length (it_payload i) + USBMUX_HEADER_SIZE) < 2 ^ 32)%Z →
  payload_decode (it_version i) (it_payload i) = o →
  match o with
  | Ok (PlistPayload v) => match from_value v with Ok r => ¬ transforms r | _ => True end
  | _ => True
  end → item_ok i.
Proof.
  intros Ht Hn <- Ho. split; [done|]. split; [done|]. intros v r Hv _ Hr.
  rewrite Hv, Hr in Ho. done.
Qed.

Lemma some_items_ok : Forall item_ok some_items.
Proof.
  unfold some_items. repeat apply Forall_cons_2; [..|apply Forall_nil_2]; (eapply item_ok_decoded;
    [vm_compute; split; congruence|vm_compute; reflexivity|vm_compute; reflexivity|]); vm_compute; tauto.
Qed.

Lemma first_item_served i : some_items !! 0 = Some i → item_served session_world i.
Proof.
  intros [= <-]. set (i := MkItem _ _ _ _ _). set (p := PlistPayload (Dictionary [("MessageType", String "ListDevices")])).
  exists p, (handle_message (it_env i) (item_packet i p) session_world).2. split.
  - vm_compute. reflexivity.
  - rewrite (surjective_pairing (handle_message _ _ _)) at 1. apply (f_equal2 pair); [vm_compute|]; reflexivity.
Qed.


Lemma still_evolves D (s : Daemon script) : evolves D s s.
Proof. exists ∅. split; [set_solver|constructor]. Qed.

Lemma disconnect_evolves D id (s : Daemon script) : evolves D s (watch_usb_daemon_turn (UsbDisconnected id) s).
Proof. exists ∅. split; [set_solver|]. apply registry_steps_once, usb_disconnected. Qed.

Lemma an_env_evolving :
  evolving ∅ a_daemon (env_subscribed an_env :: (env_visits an_env).*1 ++ env_listen an_env).
Proof.
  split; [apply still_evolves|]. split; [apply still_evolves|]. split; [apply disconnect_evolves|done].
Qed.

Lemma an_env_iterates : iterates (env_subscribed an_env a_daemon) (env_visits an_env).
Proof.
  intros id H. destruct (H a_daemon ltac:(left)) as [d Hd].
  unfold a_daemon in Hd; cbn in Hd. apply lookup_singleton_Some in Hd as [<- _]. left.
Qed.

Lemma listen_client_exact_witness : ∃ r ms w',
  handle_listen an_env 3 a_world = (Ok r, w') ∧
  (∀ pos, r = Some pos → pos = length (events (registry w')) → known ∅ ms = visible (registry w')).
Proof.
  destruct (listen_client_exact ∅ an_env 3 a_world ltac:(reflexivity) a_daemon_wf an_env_evolving
    an_env_iterates) as (r & ms & w' & E & _ & _ & H).
  exists r, ms, w'. split; [exact E|]. intros pos Hr Hp. exact (proj2 (H pos Hr Hp) eq_refl).
Defined.

(** A device connected by USB under id 7 that connects again under id 8, and a
    device the backend then removes. *)
Definition usb_daemon : Daemon script :=
  MkDaemon {[ 7 := Usb (MkUsbDevice 7 "A" None 0 4776 (RState router_new ∅) ∅ (Script [] 10 []) false false false) ]}%Z
    [].

Definition back_again : UsbDevice script :=
  MkUsbDevice 8 "A" None 0 4776 (RState router_new ∅) ∅ (Script [] 10 []) false false false.

Lemma usb_daemon_wf : registry_wf ∅ usb_daemon.
Proof. split; intros *; unfold usb_daemon; cbn; rewrite ?lookup_singleton_Some; naive_solver. Qed.

Lemma back_again_steps :
  registry_steps usb_daemon (usb_ids "A" usb_daemon ∪ ∅)
    (watch_usb_daemon_turn (UsbConnected back_again 8) usb_daemon).
Proof. eapply steps_cons; [exact (usb_connected usb_daemon back_again eq_refl)|constructor]. Qed.

Lemma registry_steps_view_witness :
  let s' := watch_usb_daemon_turn (UsbConnected back_again 8) usb_daemon in
  usb_ids "A" usb_daemon = {[ 7%Z ]} ∧
  ∃ es, events s' = [] ++ es ∧ right_but {[ 7%Z ]} (view (visible usb_daemon) es) s'.
Proof.
  assert (Hids : usb_ids "A" usb_daemon = {[ 7%Z ]}) by reflexivity.
  split; [exact Hids|].
  destruct (registry_steps_view ∅ usb_daemon _ _ usb_daemon_wf back_again_steps) as (_ & es & He & H & _).
  exists es. split; [exact He|].
  pose proof (H (visible usb_daemon) (λ x _, iff_refl _)) as H'. rewrite Hids in H'. exact H'.
Defined.

Lemma visible_dedup_witness : ∃ id d, id ∈ visible a_daemon ∧ connected a_daemon !! id = Some d ∧
  device_udid d = "A".
Proof.
  destruct (visible_dedup a_daemon a_daemon_wf) as (_ & _ & H).
  exact (H 9%Z (Network a_network_device) (lookup_singleton_eq _ _)).
Defined.

Lemma device_list_exact_witness : ∃ ms,
  handle_device_list 4 a_world
    = (Ok (), after_replies 4 [Dictionary [("DeviceList", Array ms)]] a_world) ∧
  ∃ ids, omap message_event ms = Attached <$> ids ∧ ∀ id, id ∈ ids ↔ id ∈ visible a_daemon.
Proof.
  destruct (device_list_exact ∅ 4 a_world ltac:(reflexivity) a_daemon_wf)
    as (ms & E & ids & H1 & _ & _ & H2).
  exists ms. split; [exact E|]. exists ids. split; [exact H1|exact H2].
Defined.

Definition usb_world : World script :=
  MkWorld (stream_of (bytes 4))
    (MkDaemon {[ 7 := Usb (MkUsbDevice 7 "A" None 0 4776 (RState router_new ∅) ∅ a_script
                             false false false) ]}%Z []) a_disk 0 10.

Lemma handle_connect_spec_witness : ∃ c w1 o (b : Bridge script) w',
  connect an_env 7 62078 usb_world = (Ok (UsbConn c), w1) ∧
  handle_connect an_env 7 62078 11 usb_world = (o, w') ∧ client w' = br_client b.
Proof.
  pose proof (handle_connect_spec an_env 7 62078 11 usb_world ltac:(reflexivity)) as H.
  destruct (connect an_env 7 62078 usb_world) as [[[s|c]|e| |] w1] eqn:E; vm_compute in E;
    try discriminate E.
  destruct H as (dev & conn & _ & o & b & w' & _ & E' & Hc & _).
  exists c, w1, o, b, w'. split; [reflexivity|]. split; [exact E'|exact Hc].
Defined.

Lemma bad_request_reply_witness : ∃ err code w',
  handle_message an_env (MuxPacket (Header 0 PlistVersion UsbMuxMsgType.MessagePlist 9)
    (PlistPayload (Dictionary [("MessageType", String "Connect"); ("PortNumber", Integer 32498)]))) a_world
  = (Err (MkHandlerError err None false), w') ∧ is_disconnect err = false ∧
  code = UsbMuxResult.BadDeviceOrNoSuchFile.
Proof.
  destruct (bad_request_reply an_env (Header 0 PlistVersion UsbMuxMsgType.MessagePlist 9)
    (Dictionary [("MessageType", String "Connect"); ("PortNumber", Integer 32498)])
    (MissingField "DeviceID") a_world ltac:(reflexivity) ltac:(reflexivity) ltac:(vm_compute; reflexivity))
    as (err & code & E & Hd & Hcode).
  exists err, code. eexists. split; [exact E|]. split; [exact Hd|].
  exact (Hcode "DeviceID" eq_refl ltac:(unfold required_fields; set_solver)).
Defined.

(** ** Packets *)

Ltac widths := repeat split; try (vm_compute; congruence); try lia.

Lemma a_builder_ok w ackn n :
  in_width 16 w → in_width 32 ackn → n < 1000 → builder_ok (a_builder w ackn (bytes n)).
Proof.
  intros Hw Ha Hn. cbn. split_and!; try done.
  - split; [|done]. unfold tcp_wf, in_width in *. cbn in *. split_and!; done || lia.
  - unfold payload_fits, bytes, HEADER_V2_SIZE, TCP_MIN_LEN. rewrite length_replicate. lia.
Qed.

Lemma a_packet_ok w ackn n :
  in_width 16 w → in_width 32 ackn → n < 1000 → sendable_packet (a_packet w ackn (bytes n)).
Proof. intros. by apply (build_ok (a_builder w ackn (bytes n))), a_builder_ok. Qed.

Lemma the_packet_ok : sendable_packet (a_packet 512 1 (bytes 5)).
Proof. apply a_packet_ok; [done..|lia]. Qed.

Lemma packet_from_slice_encode_witness :
  packet_from_slice (DeviceMux.packet_encode (a_packet 512 1 (bytes 5)) ++ bytes 2)
  = (Ok (a_packet 512 1 (bytes 5)), bytes 2).
Proof. exact (packet_from_slice_encode _ (bytes 2) (proj1 the_packet_ok)). Defined.

Lemma packet_from_reader_equiv_witness :
  ∃ r', packet_from_reader (stream_of (DeviceMux.packet_encode (a_packet 512 1 (bytes 5))))
    = (Ok (a_packet 512 1 (bytes 5)), r') ∧ reader_data r' = [].
Proof.
  apply (packet_from_reader_equiv (stream_of (DeviceMux.packet_encode (a_packet 512 1 (bytes 5))))
    (a_packet 512 1 (bytes 5)) []).
  split; [vm_compute; reflexivity|exact (proj2 the_packet_ok)].
Defined.

Lemma packet_from_slice_no_ub_witness : (packet_from_slice (bytes 30)).1 ≠ Ub.
Proof. exact (packet_from_slice_no_ub (bytes 30)). Defined.

(** A version packet that is one byte too long. *)
Definition long_version : stream :=
  stream_of (be_encode 4 0 ++ be_encode 4 21 ++ bytes 13).

Lemma packet_from_reader_panic_witness : (packet_from_reader long_version).1 = Panic.
Proof.
  apply (packet_from_reader_panic long_version). eexists _, _. split; [vm_compute; reflexivity|].
  vm_compute. repeat split; congruence.
Defined.

Lemma build_roundtrip_witness : ∃ r',
  packet_from_reader (stream_of (DeviceMux.packet_encode (build (a_builder 512 1 (bytes 5))) ++ bytes 1))
    = (Ok (build (a_builder 512 1 (bytes 5))), r') ∧ reader_data r' = bytes 1.
Proof.
  apply (build_roundtrip (a_builder 512 1 (bytes 5))); [|reflexivity].
  apply a_builder_ok; [done..|lia].
Defined.

Lemma from_reader_implements_frame_witness : ∃ o c r',
  frame (bytes 20) o c ∧ from_reader (stream_of (bytes 20)) = (o, r').
Proof.
  destruct (from_reader_implements_frame (stream_of (bytes 20))) as (o & c & r' & H & E & _).
  exists o, c, r'. split; [exact H|exact E].
Defined.

Definition a_connect_request : UsbMuxRequest.t := UsbMuxRequest.Connect common_default 7 62078.

Lemma from_value_into_plist_witness :
  from_value (into_plist a_connect_request) = Ok (UsbMuxRequest.Connect common_default 7 32498).
Proof. refine (from_value_into_plist a_connect_request _). widths. Defined.

Lemma from_value_wf_witness : request_wf (UsbMuxRequest.Connect common_default 7 32498).
Proof.
  exact (proj1 (from_value_wf (into_plist a_connect_request) _ ltac:(vm_compute; reflexivity))).
Defined.

(** ** Connections and the bridge *)

Lemma conn_new_handshake_witness : ∃ c l',
  conn_new 7 1 62078 (Script [a_packet 512 1 []] 10 []) = (Ok c, l') ∧
  link_sent l' = [tcp_flag_packet 1 62078 0 0 SYN; tcp_flag_packet 1 62078 1 1 ACK] ∧ coherent c.
Proof.
  destruct (conn_new_handshake 7 1 62078 (Script [a_packet 512 1 []] 10 [])) as (o & l' & E & H).
  destruct o as [c|e| |]; [|vm_compute in E; discriminate E|done|done].
  destruct H as (l1 & l2 & p & h & E1 & E2 & Hh & _ & _ & Hs & Hc & Hco).
  vm_compute in E1. injection E1 as <-. vm_compute in E2. injection E2 as <- <-.
  injection Hh as <-. exists c, l'. split; [exact E|]. split; [exact Hs|exact Hco].
Defined.

Lemma run_calls_contiguous_witness : ∃ c' l' ps,
  run_calls [CallSendBytes (bytes 3); CallRecv; CallClose] (a_conn, a_script) = (c', l') ∧
  link_sent l' = [] ++ ps ∧ contiguous a_conn 1 ps (sent_bytes c').
Proof.
  destruct (run_calls [CallSendBytes (bytes 3); CallRecv; CallClose] (a_conn, a_script))
    as [c' l'] eqn:E.
  destruct (run_calls_contiguous _ a_conn a_script c' l' ltac:(widths) E) as (ps & H1 & H2).
  exists c', l', ps. split; [reflexivity|]. split; [exact H1|exact H2].
Defined.

Lemma recv_acknowledges_witness : ∃ c' l' q,
  recv (a_conn, Script [a_packet 512 1 (bytes 5)] 10 []) = (Ok (a_packet 512 1 (bytes 5)), (c', l')) ∧
  link_sent l' = [] ++ [q] ∧ received_bytes c' = 5%Z.
Proof.
  destruct (recv (a_conn, Script [a_packet 512 1 (bytes 5)] 10 [])) as [o [c' l']] eqn:E.
  assert (o = Ok (a_packet 512 1 (bytes 5))) as -> by (vm_compute in E; vm_compute; congruence).
  destruct (recv_acknowledges _ _ _ _ _ _ E eq_refl)
    as (q & g & Hs & _ & _ & _ & _ & _ & _ & _ & Hr & _).
  exists c', l', q. split; [reflexivity|]. split; [exact Hs|exact Hr].
Defined.

Definition a_bridge : Bridge (script * list UsbDevicePacket) :=
  MkBridge a_conn (a_script, []) (stream_of (bytes 4)) (bytes 2).

Lemma bridge_sends_stream_witness : ∃ o b' ps lost,
  bridge_run [ClientRead 0 false; DevicePacket; ClientRead 8 true] a_bridge = (o, b') ∧
  payloads ps ++ lost ++ unsent b' = bytes 6 ∧ (lost = [] ∨ failed o).
Proof.
  destruct (bridge_run [ClientRead 0 false; DevicePacket; ClientRead 8 true] a_bridge)
    as [o b'] eqn:E.
  destruct (bridge_sends_stream _ _ _ _ E) as (ps & lost & _ & H1 & H2).
  exists o, b', ps, lost. split; [reflexivity|]. split; [exact H1|exact H2].
Defined.

Lemma bridge_delivers_stream_witness : ∃ o b' ps rest,
  bridge_run [DevicePacket; ClientRead 0 false; DevicePacket] a_bridge = (o, b') ∧
  s_out (br_client b') ++ rest = [] ++ payloads ps ∧ (rest = [] ∨ failed o).
Proof.
  destruct (bridge_run [DevicePacket; ClientRead 0 false; DevicePacket] a_bridge) as [o b'] eqn:E.
  assert (Hes : Forall uninterrupted [DevicePacket; ClientRead 0 false; DevicePacket])
    by (repeat (apply Forall_cons_2; [done|]); apply Forall_nil_2).
  destruct (bridge_delivers_stream _ _ _ _ Hes E) as (ps & rest & _ & H1 & H2).
  exists o, b', ps, rest. split; [reflexivity|]. split; [exact H1|exact H2].
Defined.

(** A link that delivers the same packet a number of times. *)
Definition steady : Type := nat * list UsbDevicePacket.

#[export] Instance steady_link : Link steady := {
  tx_send p l := (Ok (), (l.1, l.2 ++ [p]));
  tx_try_send p l := (Ok (), (l.1, l.2 ++ [p]));
  rx_recv l :=
    match l.1 with
    | O => (Err from_recv_error, l)
    | S n => (Ok (a_packet 512 1 (bytes 5)), (n, l.2))
    end;
  link_sent l := l.2;
}.

#[export] Instance steady_link_laws : LinkLaws steady.
Proof.
  split; [by intros p l; eexists; left|by intros p l; eexists; left|].
  intros [[|n] q]; eexists; (split; [|eauto]); done.
Qed.

Definition steady_bridge : Bridge (steady * list UsbDevicePacket) :=
  MkBridge a_conn ((2, []), []) (stream_of (bytes 4)) [].

Lemma steady_windows : windows_fit (L := steady * list UsbDevicePacket).
Proof. intros [[[|n] q] log] p l' h H; cbn in H; [done|]. injection H as <- <-. intros [= <-]. widths. Qed.

Lemma bridge_within_window_witness : ∃ b1 b2,
  bridge_run [DevicePacket; DevicePacket] steady_bridge = (Ok true, b1) ∧
  bridge_turn (ClientRead 3 false) b1 = (Ok true, b2) ∧
  (queued_for_device b2 = queued_for_device b1 ∨
   (unacked (br_conn b2) ≤ window_bytes (br_conn b2))%Z).
Proof.
  destruct (bridge_run [DevicePacket; DevicePacket] steady_bridge) as [o b1] eqn:E1.
  assert (o = Ok true) as -> by (vm_compute in E1; congruence).
  destruct (bridge_turn (ClientRead 3 false) b1) as [o b2] eqn:E2.
  assert (o = Ok true) as -> by (vm_compute in E1; injection E1 as <-; vm_compute in E2; congruence).
  assert (Hes : Forall uninterrupted [DevicePacket; DevicePacket])
    by (repeat (apply Forall_cons_2; [done|]); apply Forall_nil_2).
  exists b1, b2. split; [reflexivity|]. split; [exact E2|].
  assert (Hcur : window_current (br_conn steady_bridge)) by (split; [widths|reflexivity]).
  destruct (bridge_within_window _ _ _ _ _ steady_windows Hes Hcur E1 E2)
    as [H|[H _]]; [left; exact H|right; exact H].
Defined.

Lemma interrupted_recv_loses_witness : ∃ o b',
  bridge_turn (ClientRead 3 true) (MkBridge a_conn (Script [a_packet 512 1 (bytes 5)] 10 [], [])
    (stream_of []) (bytes 2)) = (o, b') ∧
  Bridge.delivered b' = [a_packet 512 1 (bytes 5)] ∧ s_out (br_client b') = [].
Proof.
  set (b := MkBridge _ _ _ _). destruct (bridge_turn (ClientRead 3 true) b) as [o b'] eqn:E.
  destruct (interrupted_recv_loses b (a_packet 512 1 (bytes 5)) (Script [] 10 []) Byte.x61 (bytes 1)
    3 o b' ltac:(vm_compute; reflexivity) eq_refl eq_refl E) as (H1 & H2 & _).
  exists o, b'. split; [reflexivity|]. split; [exact H1|]. rewrite H2. reflexivity.
Defined.

(** ** The router and the device *)

Definition a_route : RouterState :=
  RState (Router {[ 1%Z := Entry 0 (Some 0) ]} 2) {[ 0 := Chan [a_packet 512 1 []] true ]}.

Lemma a_route_wf : router_wf a_route.
Proof.
  split; unfold a_route; cbn [routes router chans next_source_port].
  - intros port e [<- <-]%lookup_singleton_Some. lia.
  - widths.
  - intros port e [<- <-]%lookup_singleton_Some. by eexists.
  - intros p1 p2 e1 e2 [<- <-]%lookup_singleton_Some [<- <-]%lookup_singleton_Some _. done.
  - intros c ch [<- <-]%lookup_singleton_Some. unfold CHANNEL_CAPACITY. cbn. lia.
Qed.

(** A port is drawn and claimed, a packet routed to it and received, another one still
    queued when the port is unregistered, and a third comes too late. *)
Definition run_packet : UsbDevicePacket := a_packet 512 1 (bytes 5).

Definition a_trace : list event :=
  [EvClaim 1 0; EvRoute run_packet; EvReceive 0 run_packet; EvRoute (a_packet 512 1 []);
   EvUnregister 1; EvRoute (a_packet 512 1 (bytes 7))].

Definition a_run : RouterState :=
  RState (Router ∅ 2) {[ 0 := Chan [a_packet 512 1 []] true ]}.

Lemma a_run_steps : router_steps router_start a_trace (Run a_run []).
Proof.
  refine (router_cons _ None _ _ _ (step_fetch _ [] 1 (RState (Router ∅ 2) ∅) _) _); [reflexivity|].
  refine (router_cons _ (Some (EvClaim 1 0)) _ _ _ (step_claim _ [] 1 [] (Some 0) _ _) _); [reflexivity|].
  refine (router_cons _ (Some (EvRoute run_packet)) _ _ _ (step_route _ _ _ Delivered _ _ _) _);
    [reflexivity|done|].
  refine (router_cons _ (Some (EvReceive 0 run_packet)) _ _ _ (step_recv _ _ _ _ _ _) _); [reflexivity|].
  refine (router_cons _ (Some (EvRoute (a_packet 512 1 []))) _ _ _ (step_route _ _ _ Delivered _ _ _) _);
    [reflexivity|done|].
  refine (router_cons _ (Some (EvUnregister 1)) _ _ _ (step_unregister _ _ 1) _).
  refine (router_cons _ (Some (EvRoute (a_packet 512 1 (bytes 7)))) _ [] _
    (step_route _ _ _ NoConnection _ _ _) _); [reflexivity|done|].
  refine (eq_rect _ (λ s, router_steps s [] (Run a_run [])) (router_nil _) _ _). reflexivity.
Qed.

Lemma router_steps_wf_witness : router_wf a_run.
Proof. exact (router_steps_wf a_trace (Run a_run []) a_run_steps). Defined.

Lemma routed_in_order_witness : ∃ ch, chans a_run !! 0 = Some ch ∧
  [run_packet] ++ chan_queue ch = [run_packet; a_packet 512 1 []].
Proof.
  destruct (routed_in_order [] 1 0 (tail a_trace) (Run a_run []) a_run_steps) as (ch & Hc & E & _).
  - unfold a_trace; cbn [tail]; rewrite !not_elem_of_cons. split_and!; [discriminate..|apply not_elem_of_nil].
  - exists ch. split; [exact Hc|exact E].
Defined.

Lemma route_isolation_witness :
  chans (route (a_packet 512 1 (bytes 5)) a_route).2 !! 0
  = Some (Chan [a_packet 512 1 []; a_packet 512 1 (bytes 5)] true).
Proof.
  destruct (route (a_packet 512 1 (bytes 5)) a_route) as [r s'] eqn:E.
  destruct (route_isolation _ _ _ _ a_route_wf E) as (_ & Hd & _).
  assert (r = Delivered) as -> by (vm_compute in E; congruence).
  destruct (Hd eq_refl) as (e & ch & He & Hc & _ & H). cbn in He. injection He as <-.
  injection Hc as <-. exact H.
Defined.

Lemma register_spec_witness : ∃ o s', register a_route = (o, s') ∧
  ((∃ sp c, o = Ok (sp, c) ∧ (1 ≤ sp < 2 ^ 16)%Z ∧ chans a_route !! c = None) ∨
   o = Err RusbmuxError.RanOutOfSourcePort).
Proof.
  destruct (register_spec a_route a_route_wf) as [(sp & c & s' & E & H1 & _ & H2 & _)|(s' & E & _)].
  - exists (Ok (sp, c)), s'. split; [exact E|]. left. exists sp, c. split; [reflexivity|]. split; [exact H1|exact H2].
  - exists (Err RusbmuxError.RanOutOfSourcePort), s'. split; [exact E|]. right. reflexivity.
Defined.

Definition a_full_device : UsbDevice script :=
  MkUsbDevice 7 "A" None 0 4776 a_route {[ 0 := a_conn ]} (Script [a_packet 512 1 []] 3 [])
    false false false.

Lemma connect_spec_witness : ∃ o d', UsbDevice.connect (λ r, r) 62078 a_full_device = (o, d') ∧
  match register a_route with
  | (Ok (sp, _), r) => ∀ p, p ≠ sp → routes (router (ud_router d')) !! p = routes (router r) !! p
  | _ => True
  end.
Proof.
  destruct (UsbDevice.connect (λ r, r) 62078 a_full_device) as [o d'] eqn:E.
  pose proof (connect_spec _ _ _ _ _ E) as H. exists o, d'. split; [reflexivity|].
  change (ud_router a_full_device) with a_route in H.
  destruct (register a_route) as [[[sp c]|e| |] r]; [exact (proj1 H)|exact I..].
Defined.

Lemma close_all_resets_witness : ∃ o d',
  close_all a_full_device = (o, d') ∧ routes (router (ud_router d')) = ∅.
Proof.
  destruct (close_all a_full_device) as [o d'] eqn:E.
  destruct (close_all_resets _ _ _ E) as [H _]. exists o, d'. split; [reflexivity|exact H].
Defined.

Lemma shutdown_then_drop_witness : ∃ o d',
  shutdown a_full_device = (o, d') ∧ ud_loops_aborted (device_drop d') = true.
Proof.
  destruct (shutdown a_full_device) as [o d'] eqn:E.
  destruct (shutdown_then_drop a_full_device _ _ eq_refl E) as (_ & H & _).
  exists o, d'. split; [reflexivity|exact H].
Defined.

(** ** The loops *)

Definition a_reset_builder : UsbDevicePacketBuilder (list byte) (Z * Z) TcpHeader :=
  Builder [] (3, 4)%Z
    {| source_port := 62078; destination_port := 1; sequence_number := 0; acknowledgment_number := 0;
       ns := false; fin := false; syn := false; rst := true; psh := false; ack := false; urg := false;
       ece := false; cwr := false; window_size := 0; checksum := 0; urgent_pointer := 0; options := [] |}.

Definition a_reset : UsbDevicePacket := build a_reset_builder.

Lemma rst_closes_connection_witness :
  routes (router (handle_packet a_reset a_route).2) = delete 1%Z (routes (router a_route)).
Proof.
  destruct (handle_packet a_reset a_route) as [t r'] eqn:E.
  destruct (rst_closes_connection a_reset (b_tcp_hdr a_reset_builder) _ _ _ a_route_wf eq_refl eq_refl E)
    as (_ & _ & H & _).
  exact H.
Defined.

Definition two_packets : list UsbDevicePacket := [a_packet 512 1 (bytes 5); a_packet 512 1 (bytes 7)].

Lemma two_packets_ok : Forall sendable_packet two_packets.
Proof.
  apply Forall_cons_2; [apply a_packet_ok; [done..|lia]|].
  apply Forall_cons_2; [apply a_packet_ok; [done..|lia]|apply Forall_nil_2].
Qed.

Lemma version_packet_ok : sendable_packet version_packet.
Proof.
  apply (build_ok (payload_version 2 0 (header_version builder_new))). cbn. widths.
Qed.

Lemma negotiate_spec_witness : ∃ ver s',
  negotiate 3 (stream_of (wire two_packets ++ DeviceMux.packet_encode version_packet ++ bytes 2))
  = (Ok ver, s') ∧ s_in s' = bytes 2.
Proof.
  assert (Hn : Forall (λ p, sendable_packet p ∧ as_version (DeviceMux.payload p) = None) two_packets).
  { pose proof two_packets_ok as H. inversion H as [|? ? H1 H2]; subst. inversion H2 as [|? ? H3 _]; subst.
    apply Forall_cons_2; [split; [exact H1|reflexivity]|].
    apply Forall_cons_2; [split; [exact H3|reflexivity]|apply Forall_nil_2]. }
  destruct (negotiate_spec 3 two_packets version_packet _ (bytes 2)
    (stream_of (wire two_packets ++ DeviceMux.packet_encode version_packet ++ bytes 2))
    eq_refl Hn version_packet_ok eq_refl eq_refl) as [H _].
  destruct (H ltac:(cbn; lia)) as (s' & E & Hin & _).
  eexists _, s'. split; [exact E|exact Hin].
Defined.

Lemma writer_loop_wire_witness : ∃ s',
  start_writer_loop true [(a_packet 512 1 (bytes 5), 1%Z); (a_packet 512 1 (bytes 7), 2%Z)]
    (writer_init (EndOut (stream_of []) [])) = (true, s') ∧ length (ended (end_out s')) = 2 ∧
  read_all 2 (wire (numbered 1 [(a_packet 512 1 (bytes 5), 1%Z); (a_packet 512 1 (bytes 7), 2%Z)]))
  = Some (numbered 1 [(a_packet 512 1 (bytes 5), 1%Z); (a_packet 512 1 (bytes 7), 2%Z)], []).
Proof.
  destruct (writer_loop_wire true [(a_packet 512 1 (bytes 5), 1%Z); (a_packet 512 1 (bytes 7), 2%Z)]
    (writer_init (EndOut (stream_of []) []))) as (s' & E & _ & Hsent & _ & Hread).
  - widths.
  - reflexivity.
  - reflexivity.
  - apply Forall_cons_2; [split; [apply a_packet_ok; [done..|lia]|widths]|].
    apply Forall_cons_2; [split; [apply a_packet_ok; [done..|lia]|widths]|apply Forall_nil_2].
  - right. vm_compute. reflexivity.
  - repeat constructor.
  - exists s'. split; [exact E|]. split; [|exact Hread]. cbn [out_sent stream_endpoint_laws] in Hsent.
    rewrite Hsent. reflexivity.
Defined.

Lemma writer_seq_overflow_witness :
  (writer_turn true (a_packet 512 1 (bytes 5)) 1
     (Writing U16_MAX (EndOut (stream_of []) []))).1 = WriterDied.
Proof.
  destruct (writer_seq_overflow (a_packet 512 1 (bytes 5)) 1 (EndOut (stream_of []) [])) as [E _].
  - by eexists.
  - exact the_packet_ok.
  - widths.
  - reflexivity.
  - reflexivity.
  - exact I.
  - rewrite E. reflexivity.
Defined.

Lemma reader_loop_refines_witness : ∃ s',
  start_reader_loop 2 true 7 70 (Reading (stream_of (wire two_packets ++ bytes 3)) a_route 0 [])
  = (Loops.Continue, s') ∧ reader_data (end_in s') = bytes 3 ∧
  rd_router s' = handle_all two_packets a_route.
Proof.
  destruct (reader_loop_refines two_packets true 7 70
    (Reading (stream_of (wire two_packets ++ bytes 3)) a_route 0 []) (bytes 3) two_packets_ok)
    as (s' & E & H1 & H2 & _).
  - reflexivity.
  - vm_compute. repeat split.
  - widths.
  - exists s'. split; [exact E|]. split; [exact H1|exact H2].
Defined.

(** ** Files, pairing and the heartbeat *)

Lemma pair_record_id_safe_witness :
  path_components (pair_record_path "00008110-A")
  = path_components LOCKDOWN_PATH ++ ["00008110-A.plist"].
Proof.
  exact (proj1 (proj1 (pair_record_id_safe (L := script) "00008110-A") ltac:(vm_compute; reflexivity))).
Defined.

Lemma pair_record_roundtrip_witness : ∃ w1 w2,
  handle_save_pair_record "00008110-A" (bytes 9) (Some 7%Z) 1 a_world = (Ok (), w1) ∧
  handle_read_pair_record "00008110-A" 2 w1 = (Ok (), w2).
Proof.
  destruct (pair_record_roundtrip "00008110-A" (bytes 9) (Some 7%Z) 1 2 3 4 a_world
    ltac:(reflexivity) ltac:(vm_compute; reflexivity) ltac:(reflexivity))
    as (w1 & w2 & w3 & E1 & _ & E2 & _).
  exists w1, w2. split; [exact E1|exact E2].
Defined.

Lemma buid_stable_witness : ∃ w1,
  handle_read_buid "UUID-1" 1 a_world = (Ok (), w1) ∧
  handle_read_buid "UUID-2" 2 w1 = (Ok (), after_replies 2 [buid_plist "UUID-1"] w1).
Proof.
  destruct (buid_stable "UUID-1" "UUID-2" 1 2 a_world ltac:(reflexivity) ltac:(vm_compute; reflexivity)
    ltac:(reflexivity) ltac:(reflexivity)) as (w1 & E1 & _ & E2).
  exists w1. split; [exact E1|exact E2].
Defined.

Lemma heartbeat_gives_up_witness :
  heartbeat_run true [(inl "timeout", inr ()); (inr 15%Z, inl "closed"); (inl "timeout", inr ())] heartbeat_start
  = Ok None.
Proof.
  apply (heartbeat_gives_up true [(inl "timeout", inr ()); (inr 15%Z, inl "closed"); (inl "timeout", inr ())]).
  - repeat apply Forall_cons_2; [intros _; exact I|intros _; vm_compute; reflexivity|intros _; exact I|apply Forall_nil_2].
  - exists [Failure; PoloSent; MarcoCame], [], [PoloSent]. split; [reflexivity|apply not_elem_of_nil].
Defined.

Lemma send_recv_roundtrip_witness : ∃ s',
  send_recv create_assertion (stream_of (be_encode 4 (Z.of_nat (length (to_xml (Dictionary []))))
    ++ to_xml (Dictionary []))) = (Ok [], s') ∧ s_in s' = [].
Proof.
  eexists. split.
  - apply (send_recv_roundtrip create_assertion [] []); [vm_compute; reflexivity..|].
    by rewrite app_nil_r.
  - reflexivity.
Defined.

Definition paired_disk : Disk :=
  MkDisk {[ pair_record_path "A" := bytes 3 ]} (λ _, None).

Lemma network_device_new_reached_witness : ∃ d,
  network_device_new 9 (IpV6 (bytes 16), Some (IpV4 (bytes 4))) None "m" "n" "A" paired_disk = Ok d ∧
  nd_addr d = IpV4 (bytes 4).
Proof.
  destruct (network_device_new 9 (IpV6 (bytes 16), Some (IpV4 (bytes 4))) None "m" "n" "A" paired_disk)
    as [d|e| |] eqn:E; [|vm_compute in E; discriminate E..].
  destruct (network_device_new_reached 9 (IpV6 (bytes 16), Some (IpV4 (bytes 4))) None "m" "n" "A"
    paired_disk) as [H _].
  destruct (H d E) as (_ & bs & pf & _ & _ & _ & [Ha|[Ha _]] & _).
  - vm_compute in E. injection E as <-. discriminate Ha.
  - exists d. split; [reflexivity|]. injection Ha as <-. reflexivity.
Defined.
