(* ===== verification/LibraryWitnesses.v ===== *)
(** * Witnesses of the backends, the watchers, the provider and the process

    The theorems of the library's files applied at concrete inputs, with the
    instances of [Witnesses] and, for the interfaces of these files, those at the
    top. *)

From Stdlib Require Import Strings.Ascii.
From S2P Require Import Prelude Text Io Tcp Utf8 DeviceMux Plist Builder UsbMux Request Errors Conn.
From S2P Require Import Bridge Poll ProviderStream Router Loops DeviceFlow FlowPackets DeviceBus UsbDevice Registry World Records.
From S2P Require Import Network Ids Backend Hotplug HotplugStream WatchUsb WatchNetwork Watchers RusbIo Transfer Endpoints Preflight.
From S2P Require Import Provider Handlers Cli Daemon Witnesses.

(** ** Instances *)

#[export] Instance list_order : HashOrder := {
  hash_order := map_to_list;
  hash_order_perm m := reflexivity _;
}.

(** Tags are the identifier; a record has the properties it lists. *)
#[export] Instance plain_mdns : Mdns := {
  get_property_val ps k := txt_val <$> find (λ p, String.eqb (txt_key p) k) ps;
  decode_auth_tag t := if length t =? 8 then Some t else None;
  derive_auth_tag _ ident := ident;
  host_id _ := "HOST";
  mdns_shutdown := "daemon shut down";
}.

#[export] Instance flat_directory : ReadDir := {
  read_dir _ d := Ok (inr <$> (map_to_list (files d)).*1);
}.

(** A device that counts what it is asked and pairs at once. *)
#[export] Instance trusting_device : Lockdown := {
  Peer := nat;
  lockdown_connect n := (Ok (), S n);
  get_type n := (Ok "com.apple.mobile.lockdown", S n);
  start_session _ n := (Ok (), S n);
  set_value _ _ n := (Ok (), S n);
  get_value k n := (Ok (String (if String.eqb k "DeviceClass" then "iPhone" else "17.1")), S n);
  pair_once _ _ n := (Ok (bytes 3), S n);
  start_service _ n := (Ok 49152%Z, S n);
  notifications_connect _ n := (Ok (), S n);
  observe_notifications _ n := (Ok (), S n);
  receive_notification n := (Ok REQUEST_PAIR, S n);
  pairing_file_serialize pf := inr pf;
  idevice_display _ := "device error";
}.

#[export] Instance short_texts : ErrorText := {
  io_display _ := "i/o error";
  recv_error_display := "closed";
}.

(** The link of [Witnesses] that delivers one packet a number of times. *)
#[export] Instance steady_poll : PollLink steady := {
  poll_send p l := (Sent, (l.1, l.2 ++ [p]));
  poll_item l :=
    match l.1 with
    | O => (Ready None, l)
    | S n => (Ready (Some (a_packet 512 1 (bytes 5))), (n, l.2))
    end;
  link_inbox l := replicate l.1 (a_packet 512 1 (bytes 5));
  link_room _ := 1000;
}.

(** ** The provider *)

Definition a_stream : RusbmuxStream mailbox :=
  MkRusbmuxStream a_conn (Mailbox [a_packet 512 1 (bytes 5)] true 5 true []) (bytes 2) false 0 None.

Lemma a_stream_fresh : fresh_stream a_stream.
Proof. split_and!; [reflexivity|widths|vm_compute; congruence]. Qed.

Lemma polls_terminate_witness : ∃ r, poll_read (read_buf_of 4) a_stream = Some r.
Proof.
  destruct (polls_terminate a_stream (read_buf_of 4) (bytes 3) 100) as [(r & E & _) _].
  exists r. exact E.
Defined.

Lemma polls_make_progress_witness :
  (∃ s' b, poll_read (read_buf_of 4) a_stream = Some (Ready (inr ()), (s', b)) ∧ filled b ≠ []) ∧
  ∃ s', poll_write (bytes 9) a_stream = Some (Ready (inr 9), s').
Proof.
  destruct (polls_make_progress a_stream 4 (bytes 9)) as [H1 H2]. split.
  - apply H1; [lia|discriminate|cbn; lia].
  - apply H2; [discriminate|reflexivity|vm_compute; reflexivity|cbn; lia].
Defined.

Lemma stream_reads_exactly_witness : ∃ r s' buf,
  poll_read (read_buf_of 4) a_stream = Some (r, (s', buf)) ∧
  unread a_stream ++ payloads [] = filled buf ++ unread s'.
Proof.
  destruct (poll_read (read_buf_of 4) a_stream) as [[r [s' buf]]|] eqn:E; [|vm_compute in E; discriminate E].
  exists r, s', buf. split; [reflexivity|].
  exact (proj1 (stream_reads_exactly [] a_stream _ _ _ _ a_stream_fresh
    (user_read [] a_stream [] [] a_stream 0 4 r s' buf (user_start [] a_stream) E))).
Defined.

Lemma stream_writes_exactly_witness : ∃ r s' ps,
  poll_write (bytes 3) a_stream = Some (r, s') ∧
  link_sent (rs_link s') = [] ++ ps ∧ payloads ps = take (0 + reported r) (bytes 3).
Proof.
  destruct (poll_write (bytes 3) a_stream) as [[r s']|] eqn:E; [|vm_compute in E; discriminate E].
  destruct (stream_writes_exactly (bytes 3) a_stream _ _ _ _ a_stream_fresh
    (user_write (bytes 3) a_stream [] [] a_stream 0 r s' (user_start _ a_stream) E))
    as (_ & _ & ps & H1 & H2 & _).
  exists r, s', ps. split; [reflexivity|]. split; [exact H1|exact H2].
Defined.

Definition steady_device : UsbDevice steady :=
  MkUsbDevice 7 "A" None 0 4776 a_route ∅ (2, []) false false false.

Lemma provider_connect_spec_witness : ∃ ic d',
  provider_connect (λ r, r) "label" 62078 steady_device = (Ok ic, d') ∧ fresh_stream (ic_stream ic).
Proof.
  destruct (provider_connect (λ r, r) "label" 62078 steady_device) as [o d'] eqn:E.
  assert (Hack : ∀ l1 l2 p h, Conn.rx_recv (L := steady) l1 = (Ok p, l2) → tcp_hdr p = Some h →
    in_width 32 (acknowledgment_number h)).
  { intros [[|n] q] l2 p h H; cbn in H; [done|]. injection H as <- <-. intros [= <-]. widths. }
  pose proof (provider_connect_spec _ _ _ _ _ _ Hack E) as H.
  destruct (register (ud_router steady_device)) as [[[sp rx]|e| |] r] eqn:Er;
    [|vm_compute in Er; discriminate Er..].
  assert (Hc : is_Some (chans r !! rx)) by (vm_compute in Er; injection Er as <- <- <-; by eexists).
  specialize (H Hc). destruct o as [ic|e| |]; [|vm_compute in E; discriminate E..].
  exists ic, d'. split; [reflexivity|exact (proj1 H)].
Defined.

Definition a_peer : Peer := 0.

Lemma preflight_run_files_witness : ∃ o w' d',
  preflight_run [] "UUID" "HOST" "A" (a_world, a_peer) = (o, (w', d')) ∧
  files (disk w') !! "/etc/passwd" = files (disk a_world) !! "/etc/passwd".
Proof.
  destruct (preflight_run [] "UUID" "HOST" "A" (a_world, a_peer)) as [o [w' d']] eqn:E.
  destruct (preflight_run_files [] "UUID" "HOST" "A" a_world a_peer o w' d' ltac:(vm_compute; congruence) E)
    as [H _].
  exists o, w', d'. split; [reflexivity|]. apply H; vm_compute; congruence.
Defined.

(** ** The backends *)

Definition ep_in : Endpoint := MkEndpoint 133 In Bulk 512.
Definition ep_out : Endpoint := MkEndpoint 4 Out Bulk 512.
Definition an_alt : AltSetting := MkAltSetting 1 0 255 254 2 [ep_in; ep_out].
Definition another_alt : AltSetting := MkAltSetting 0 0 6 1 1 [].

Definition some_configurations : list Configuration :=
  [MkConfiguration 1 [[another_alt]]; MkConfiguration 4 [[another_alt]; [an_alt]]].

Definition a_handle : UsbHandle := MkUsbHandle (Some 1%Z) (λ _, None) [].

Lemma endpoints_agree_witness : ∃ r w h1 h2,
  nusb_device_endpoints some_configurations a_handle = (Ok (r, w), h1) ∧
  rusb_device_endpoints (inr <$> some_configurations) a_handle
    = (Ok (io_address r, io_address w, ep_max_packet_size ep_out), h2) ∧
  commands h2 = [DetachKernelDriver 1; SetConfiguration 4; ClaimInterface 1].
Proof.
  destruct (endpoints_agree some_configurations 4 an_alt ep_in ep_out a_handle)
    as (r & w & h1 & h2 & E & E2 & _ & _ & cfg & _ & _ & _ & _ & H).
  - repeat split; vm_compute; reflexivity.
  - intros c. reflexivity.
  - exists r, w, h1, h2. split; [exact E|]. split; [exact E2|exact H].
Defined.

Definition rusb_device (address : Z) : RusbDevice :=
  MkRusbDevice (Some (APPLE_VID, 4776%Z)) true (Some [0%Z]) (λ _, Some "S") High 1 address.

Definition some_ticks : list (option (list RusbDevice)) :=
  [Some [rusb_device 5; rusb_device 6]; None; Some [rusb_device 6]].

(** One of two devices leaves before both have been announced. *)
Lemma polling_catches_up_witness :
  let s := polling_run (replicate 9 (Some [rusb_device 6])) (polling_run some_ticks polling_new) in
  dom (devices_id_map (rusb_watch_devices (sent s) (watch_start 3))) = dom (current_devices [rusb_device 6]).
Proof.
  exact (proj1 (polling_catches_up 3 some_ticks [rusb_device 6] 9 ltac:(lia)
    ltac:(apply Nat.ltb_lt; vm_compute; reflexivity)
    ltac:(apply Z.ltb_lt; vm_compute; reflexivity))).
Defined.

(** A bus where libusb has no hotplug: a device leaves, one comes, one is of another
    vendor. *)
#[local] Instance a_libusb : LibusbHotplug := {
  has_hotplug := false;
  register_fails := None;
  enumerated vendor_id devices := filter (λ d, match rd_descriptor d with
                                               | Some desc => (desc.1 =? vendor_id)%Z
                                               | None => false
                                               end = true) devices;
  hotplug_matches vendor_id d := match rd_descriptor d with
                                 | Some desc => (desc.1 =? vendor_id)%Z
                                 | None => false
                                 end;
}.

#[local] Instance a_libusb_laws : LibusbHotplugLaws.
Proof. by split. Qed.

Definition other_device : RusbDevice := MkRusbDevice (Some (1%Z, 2%Z)) true None (λ _, None) High 1 9.

Definition bus_events : list hotplug_event :=
  [Tick true; PollNext; Tick true; BusChange (Unplug (rusb_device 5)); Tick false; PollNext;
   BusChange (Plug other_device); BusChange (Plug (rusb_device 7)); Tick true].

Definition bus_started : watching :=
  match watching_start 3 [rusb_device 5; rusb_device 6] with
  | Ok s => s
  | _ => Watching [] (HotplugEvents (MkHotplugStream 0 [])) (watch_start 0)
  end.

Definition bus_rests : watching := watching_run (replicate 9 (Tick true)) (watching_run bus_events bus_started).

Lemma watch_catches_up_witness :
  dom (devices_id_map (wg_watch (watching_run (replicate 6 PollNext) bus_rests)))
  = apple_places [rusb_device 6; other_device; rusb_device 7].
Proof.
  refine (proj1 (watch_catches_up 3 [rusb_device 5; rusb_device 6] bus_events bus_started 9 6 _ _ _ _ _ _ _)).
  - lia.
  - apply NoDup_cons_2; [intros H%list_elem_of_singleton; discriminate H|apply NoDup_singleton].
  - reflexivity.
  - repeat split; cbn [change_ok bus_turn].
    + left.
    + intros H. vm_compute in H. apply list_elem_of_singleton in H. discriminate H.
    + intros H. vm_compute in H. repeat (apply elem_of_cons in H as [H|H]; [discriminate H|]). by apply not_elem_of_nil in H.
  - apply Nat.ltb_lt. vm_compute. reflexivity.
  - apply Nat.leb_le. vm_compute. reflexivity.
  - apply Z.ltb_lt. vm_compute. reflexivity.
Defined.

Lemma rusb_writer_refines_witness : ∃ w e',
  endpoint_outs [WriteAll (bytes 3); WriteAll (bytes 5); SubmitEnd; WriteAll (bytes 2); SubmitEnd]
    (writer_new 4 [] []) = (true, w) ∧
  endpoint_outs [WriteAll (bytes 3); WriteAll (bytes 5); SubmitEnd; WriteAll (bytes 2); SubmitEnd]
    (EndOut (stream_of []) []) = (true, e') ∧
  reassemble 4 [] (transfers w ≫= usb_packets 4) = [bytes 8; bytes 2].
Proof.
  destruct (rusb_writer_refines
    [WriteAll (bytes 3); WriteAll (bytes 5); SubmitEnd; WriteAll (bytes 2); SubmitEnd] 4 []
    [bytes 8; bytes 2] [] (EndOut (stream_of []) []))
    as (w & e' & E1 & E2 & _ & _ & _ & H).
  - lia.
  - repeat split; apply Nat.ltb_lt; vm_compute; reflexivity.
  - reflexivity.
  - reflexivity.
  - reflexivity.
  - reflexivity.
  - exists w, e'. split; [exact E1|]. split; [exact E2|exact H].
Defined.

(** A SYN-sized packet and one that is sent in two bus packets. *)
Definition queued : list (UsbDevicePacket * Z) :=
  [(a_packet 512 1 (bytes 0), 0%Z); (a_packet 512 1 (bytes 90), 3%Z)].

Lemma opened_writer_on_bus_witness : ∃ s',
  start_writer_loop true queued (Writing 1 (open_writes 2 0
    (writer_new 64 [inr (2, Some (MkBulkResult 0 [])); inr (0, Some (MkBulkResult 0 []))] []))) = (true, s') ∧
  length (transfers (end_out s') ≫= usb_packets 64) = 5 ∧
  length (reassemble 64 [] (transfers (end_out s') ≫= usb_packets 64)) = 4.
Proof.
  destruct (opened_writer_on_bus true 64 2 0 (a_packet 512 1 (bytes 0)) 0 [(a_packet 512 1 (bytes 90), 3%Z)])
    as (s' & E & _ & H & _).
  - left.
  - apply Forall_cons_2; [split; [apply a_packet_ok; [done..|lia]|widths]|].
    apply Forall_cons_2; [split; [apply a_packet_ok; [done..|lia]|widths]|apply Forall_nil_2].
  - right. vm_compute. reflexivity.
  - repeat apply Forall_cons_2; [apply Nat.ltb_lt; vm_compute; reflexivity..|apply Forall_nil_2].
  - vm_compute. reflexivity.
  - vm_compute. reflexivity.
  - exists s'. split; [exact E|]. split; [|rewrite H; reflexivity].
    change (start_writer_loop true queued (Writing 1 (open_writes 2 0
      (writer_new 64 [inr (2, Some (MkBulkResult 0 [])); inr (0, Some (MkBulkResult 0 []))] []))) = (true, s')) in E.
    assert (H' : s' = (start_writer_loop true queued (Writing 1 (open_writes 2 0
      (writer_new 64 [inr (2, Some (MkBulkResult 0 [])); inr (0, Some (MkBulkResult 0 []))] [])))).2)
      by (by rewrite E).
    rewrite H'. vm_compute. reflexivity.
Defined.

(** Two packets cut into three transfers. *)
Definition cut_transfers : list (nat * list byte) :=
  let w := wire two_packets in [(0, take 7 w); (3, take 40 (drop 7 w)); (1, drop 47 w)].

Lemma device_read_until_gone_witness : ∃ s',
  start_reader_loop 3 true 7 70
    (Reading (RusbEnd (fresh_reader "gone" cut_transfers) : any_endpoint stream live_reader) a_route 0 [])
  = (Loops.Break, s') ∧ notified s' = [IODisconnected 7 70] ∧ routes (router (rd_router s')) = ∅.
Proof.
  destruct (device_read_until_gone (NR := stream) two_packets cut_transfers "gone" true 7 70 a_route two_packets_ok)
    as (s' & E & Hr & _ & Hn).
  - repeat apply Forall_cons_2; [vm_compute; congruence..|apply Forall_nil_2].
  - vm_compute. reflexivity.
  - vm_compute. repeat split.
  - exists s'. split; [exact E|]. split; [exact Hn|]. rewrite Hr. reflexivity.
Defined.

(** ** Watching USB *)

Definition nusb_device : AnyDeviceInfo :=
  Nusb (MkNusbInfo APPLE_VID 4776 (Some "S") (Some High) 1 5 77).

(** The pipes have packets of older connections before the version. *)
Definition an_opening : Opening :=
  MkOpening (inr a_handle) some_configurations []
    (λ _ _, stream_of (wire two_packets ++ DeviceMux.packet_encode version_packet ++ bytes 2)) 3.

Definition no_opening : Opening := MkOpening (inl "no such device") [] [] (λ _ _, stream_of []) 3.

Lemma new_device_spec_witness :
  new_with_disconnect_tx nusb_device 3 an_opening a_script =
    Ok (MkUsbDevice 3 "S" (Some 480000000%Z) 65541 4776 (RState router_new ∅) ∅ a_script false false false).
Proof.
  assert (Hn : Forall (λ p, sendable_packet p ∧ as_version (DeviceMux.payload p) = None) two_packets).
  { pose proof two_packets_ok as H. inversion H as [|? ? H1 H2]; subst. inversion H2 as [|? ? H3 _]; subst.
    apply Forall_cons_2; [split; [exact H1|reflexivity]|].
    apply Forall_cons_2; [split; [exact H3|reflexivity]|apply Forall_nil_2]. }
  destruct (new_device_spec nusb_device 3 an_opening a_script "S" 4776 (NusbHandle a_handle) (133, 4)%Z
    two_packets version_packet
    (packet_version_new 2 0 0)
    (bytes 2)) as [_ H].
  exact (H eq_refl eq_refl eq_refl eq_refl eq_refl Hn version_packet_ok eq_refl eq_refl).
Defined.

Definition failing_attempt : Attempt := MkAttempt [nusb_device] no_opening a_script 20.

Lemma usb_turn_ends_witness :
  usb_turn (HotplugCame (inr (Hotplug.Connected nusb_device 3)) no_opening a_script 1000
    (replicate 30 failing_attempt)) ≠ Ok None.
Proof.
  apply usb_turn_ends. intros event first link now attempts [= <- <- <- <- <-]. split.
  - apply Nat.leb_le. reflexivity.
  - repeat (apply Forall_cons_2; [vm_compute; congruence|]). apply Forall_nil_2.
Defined.

(** ** Watching the network *)

Definition a_service : ResolvedService :=
  MkResolved "00:00:5e:00:53:01@fe80._apple-mobdev2._tcp.local." [ScopedV4 (bytes 4) [2%Z]] [].

Definition a_tagged_service : ResolvedService :=
  MkResolved "tag@x" [ScopedV6 (bytes 16) 3; ScopedV4 (bytes 4) [3%Z]]
    [MkTxtProperty "identifier" (Some (bytes 8)); MkTxtProperty "authTag" (Some (bytes 8))].

Lemma resolve_service_spec_witness : ∃ rd,
  resolve_service a_tagged_service LOCKDOWN_PATH paired_disk = Some rd ∧
  saved_match a_tagged_service (rs_udid rd) paired_disk.
Proof.
  destruct (resolve_service_spec a_tagged_service paired_disk) as [_ H].
  destruct (resolve_service a_tagged_service LOCKDOWN_PATH paired_disk) as [rd|] eqn:E;
    [|vm_compute in E; discriminate E].
  exists rd. split; [reflexivity|exact (proj1 (H rd eq_refl))].
Defined.

Definition some_network_inputs : list nw_input :=
  [ServiceCame (ServiceResolved a_service) paired_disk; TokenCancelled 3;
   ServiceCame (ServiceResolved a_service) paired_disk;
   ServiceCame (ServiceRemoved SERVICE_TYPE "other@x") paired_disk].

Lemma watch_network_ids_witness :
  let w := (watch_network (inr ()) some_network_inputs (nw_start 3)).1 in
  bracketed (nw_id_events w) ∧ nw_id_events w = [Given 3; Taken 3; Given 4].
Proof.
  split; [|vm_compute; reflexivity].
  exact (proj1 (watch_network_ids 3 (inr ()) some_network_inputs ltac:(lia) ltac:(vm_compute; reflexivity))).
Defined.

(** ** The watchers together *)

Definition usb_answers : list (WatchEvent (L := script)) :=
  match usb_turn (HotplugCame (inr (Hotplug.Connected nusb_device 4)) an_opening a_script 1000 []) with
  | Ok (Some q) => q
  | _ => []
  end.

(** A request to add a device takes the id 3. *)
Definition adding_begun : System (L := script) :=
  MkSystem (MkDaemon ∅ []) 4 (watch_start 3) [] (nw_start 3) [] [("A", 3%Z, None)].

Definition after_backend : System (L := script) :=
  let w := backend_turn (NusbListed nusb_device) (backend_at adding_begun) in
  MkSystem (MkDaemon ∅ []) (id_counter w) w usb_answers (nw_start 3) [] (sy_adding adding_begun).

Definition after_usb : System (L := script) :=
  match usb_answers with
  | e :: q =>
      MkSystem (watch_usb_daemon_turn (daemon_event e) (MkDaemon ∅ [])) (sy_counter after_backend)
        (sy_backend after_backend) q (nw_start 3) [] (sy_adding adding_begun)
  | [] => after_backend
  end.

Definition added_device : NetworkDevice :=
  MkNetworkDevice 3 (nd_addr a_network_device) None (nd_mac_address a_network_device) "manual" "A" false.

Definition after_adding : System (L := script) :=
  MkSystem (put_new "A" 3 (Ok added_device) None (sy_daemon after_usb)).2 (sy_counter after_usb)
    (sy_backend after_usb) (sy_usb_queue after_usb) (sy_net after_usb) (sy_net_queue after_usb) [].

Lemma usb_answers_are : ∃ d, usb_answers = [DeviceConnected d 4].
Proof. vm_compute. eexists. reflexivity. Qed.

Lemma undisturbed_snoc (s s1 s' : System (L := script)) Y :
  system_steps s ∅ s1 → system_step s1 Y s' → Y = ∅ → system_steps s ∅ s'.
Proof. intros H H1 ->. rewrite <- (union_idemp_L ∅). by eapply system_snoc. Qed.

(** Meanwhile a USB device is found, opened and taken over by the daemon. *)
Lemma usb_device_found : system_steps (L := script) (sy_start 3) ∅ after_usb.
Proof.
  apply (undisturbed_snoc _ after_backend _ (usb_disturbs (default (WatchFailed RusbmuxError.RanOutOfSourcePort) (head usb_answers)) (MkDaemon ∅ []))).
  - apply (undisturbed_snoc _ adding_begun _ ∅); [|apply (backend_tells adding_begun (NusbListed nusb_device) usb_answers eq_refl)|done].
    + apply (undisturbed_snoc _ (sy_start 3) _ ∅); [constructor| |done].
      by apply (add_begins (sy_start 3) "A" false None).
    + vm_compute. reflexivity.
    + exists an_opening, a_script, 1000%Z, []. vm_compute. reflexivity.
  - unfold after_usb. destruct usb_answers as [|e q] eqn:E; [by destruct usb_answers_are; congruence|].
    by apply (usb_handled after_backend e q).
  - destruct (default _ _) as [d ?|? ? ?|?]; [|done..]. unfold usb_disturbs, usb_ids.
    cbn [connected]. by rewrite map_filter_empty, dom_empty_L.
Qed.

Lemma after_usb_connected : ∃ d, connected (sy_daemon after_usb) = {[4%Z := Usb d]}.
Proof. vm_compute. eexists. reflexivity. Qed.

Lemma put_new_ok udid id d old (s : Daemon script) :
  put_new udid id (Ok d) old s = (Ok (), (put_new udid id (Ok d) old s).2).
Proof. reflexivity. Qed.

(** The request reaches its device. *)
Lemma device_was_added : system_steps (L := script) (sy_start 3) ∅ after_adding.
Proof.
  eapply undisturbed_snoc; [exact usb_device_found| |].
  - apply (add_ends after_usb "A" 3 (Ok added_device) None (Ok ()) (put_new "A" 3 (Ok added_device) None (sy_daemon after_usb)).2 [] []).
    + vm_compute. reflexivity.
    + by intros ? [= <-].
    + apply put_new_ok.
  - unfold put_disturbs. rewrite decide_True; [done|]. apply set_eq. intros id.
    rewrite elem_of_network_ids. split; [|by intros ?%elem_of_empty]. intros (n & Hn & _).
    destruct after_usb_connected as [d E]. rewrite E in Hn.
    by apply lookup_singleton_Some in Hn as [_ [=]].
Qed.


(** ** The process *)

Definition some_args : AddDeviceArgs := MkAddDeviceArgs (IpV4 (bytes 4)) " A " true 5.

Lemma add_device_exchange_witness : ∃ e s',
  run_add_device some_args "/var/run/usbmuxd"
    (ConnectedTo (stream_of (reply_bytes 1 (result_plist UsbMuxResult.OK)))) true = (e, Some s') ∧
  exit_status e = 0%Z.
Proof.
  destruct (add_device_exchange some_args "/var/run/usbmuxd"
    (stream_of (reply_bytes 1 (result_plist UsbMuxResult.OK))) UsbMuxResult.OK []) as [(e & E & _ & H) _].
  - vm_compute. congruence.
  - vm_compute. reflexivity.
  - vm_compute. reflexivity.
  - apply Z.ltb_lt. vm_compute. reflexivity.
  - apply Z.ltb_lt. vm_compute. reflexivity.
  - reflexivity.
  - rewrite app_nil_r. reflexivity.
  - eexists e, _. split; [exact E|]. apply H. reflexivity.
Defined.

(** Nothing can be removed, created or set, but the socket of [launchd] is there. *)
Definition a_start : StartEnv :=
  MkStartEnv true (Some PermissionDenied) (MkLaunchd 0 1 None None) (Some OtherKind) (Some PermissionDenied)
    (Some PermissionDenied) None None (λ _, true) true.

Definition main_events : list MainEvent := [Accepted None; Signalled CtrlClose; Accepted None; Signalled Sigterm].

Lemma daemon_shuts_down_witness : ∃ steps e n s',
  daemon_run MacOS a_start None main_events a_daemon = (steps, e, n, s') ∧
  SpawnNetworkWatcher ∈ steps ∧ events s' = [] ∧ n = 2.
Proof.
  destruct (daemon_run MacOS a_start None main_events a_daemon) as [[[steps e] n] s'] eqn:E.
  destruct (daemon_shuts_down _ _ _ _ _ _ _ _ _ E) as (H1 & H2 & _ & H3).
  exists steps, e, n, s'. split; [reflexivity|]. split; [apply H2, H1; reflexivity|].
  destruct H3 as (_ & _ & _ & H & ->); [reflexivity| |by split; [exact H|]].
  vm_compute in E. by injection E as <- <- <- <-.
Defined.

(** ** Transfers *)

Definition a_submission : outcome RusbmuxError.t nat * Heap := alloc_and_submit false 0 129 (bytes 4) 4 ∅.

Definition a_transfer : nat := match a_submission.1 with Ok t => t | _ => 0 end.

Definition a_record : LibusbTransfer :=
  match a_submission.2 !! a_transfer with Some (CellTransfer t) => t | _ => MkTransfer 0 0 0 0 0 0 end.

(** A read of four bytes that gets three. *)
Lemma transfer_memory_safe_witness : ∃ x',
  callback_turns 8 (libusb_done a_record (bytes 4) 3 0 (submitted a_transfer a_submission.2)) = Ok x' ∧
  sh_sent (x_shared x') = Some (MkBulkResult 0 (bytes 3)) ∧ sh_heap (x_shared x') = ∅.
Proof.
  pose proof (transfer_memory_safe false 0 129 (bytes 4) 4 ∅) as H.
  assert (alloc_and_submit false 0 129 (bytes 4) 4 ∅ = (Ok a_transfer, a_submission.2)) as E
    by (vm_compute; reflexivity).
  rewrite E in H. clear E.
  destruct (H (libusb_done a_record (bytes 4) 3 0 (submitted a_transfer a_submission.2)))
    as (_ & _ & _ & H4).
  - apply rtc_once, step_done; vm_compute; congruence.
  - exact (H4 (MkBulkResult 0 (bytes 3)) ltac:(vm_compute; reflexivity)).
Defined.

(** ** Two clients of one device *)

Definition from_device (port : Z) (flags : TcpFlags) (data : list byte) : UsbDevicePacket :=
  build (payload_bytes data (tcp_header 62078 port 0 1 flags (header_tcp 0 0 builder_new))).

Definition opening : list flow_cmd :=
  [CmdConnect 80 (stream_of (bytes 3)); CmdConnect 81 (stream_of (bytes 6));
   CmdHandle (from_device 2 (Z.lor SYN ACK) []); CmdHandle (from_device 1 (Z.lor SYN ACK) []);
   CmdUp 0; CmdUp 1].

Definition traffic : list flow_cmd :=
  [CmdHandle (from_device 2 ACK (bytes 4)); CmdHandle (from_device 1 ACK (bytes 2));
   CmdTurn 1 (ClientRead 5 false); CmdTurn 0 DevicePacket; CmdTurn 0 (ClientRead 1 false);
   CmdHandle (from_device 1 ACK (bytes 5)); CmdTurn 1 DevicePacket].

Definition run_result (cmds : list flow_cmd) (f : flow) : list flow_label * flow :=
  default ([], f) (flow_run 7 cmds f).

Definition opened : flow := (run_result opening flow_init).2.
Definition after_traffic : flow := (run_result traffic opened).2.

Lemma run_result_steps cmds f :
  (if flow_run 7 cmds f is Some _ then true else false) = true →
  flow_steps 7 f (run_result cmds f).1 (run_result cmds f).2.
Proof.
  unfold run_result. destruct (flow_run 7 cmds f) as [[tr f']|] eqn:E; [|done]. intros _.
  by apply flow_run_sound in E.
Qed.

Definition some_conn (f : flow) (i : ConnId) : flow_conn :=
  match fl_conns f !! i with Some fc => fc | None => FlowConn 0 0 0 (stream_of []) [] None end.

Lemma traffic_labels : (run_result traffic opened).1 =
  [Handled (from_device 2 ACK (bytes 4)); Handled (from_device 1 ACK (bytes 2));
   Turned 1 (ClientRead 5 false); Turned 0 DevicePacket; Turned 0 (ClientRead 1 false);
   Handled (from_device 1 ACK (bytes 5)); Turned 1 DevicePacket].
Proof. vm_compute. reflexivity. Qed.

(** The first client has two bytes, five more wait in its channel; the device has been
    given the two bytes it has read from it. *)
Lemma flow_streams_exact_witness :
  s_out (fc_client (some_conn after_traffic 0)) ++
    payloads (waiting (some_conn after_traffic 0) (sh_router (fl_shared after_traffic))) = bytes 2 ++ bytes 5 ∧
  ∃ ps, of_conn 0 (sh_queue (fl_shared after_traffic)) = of_conn 0 (sh_queue (fl_shared opened)) ++ ps ∧
    payloads ps ++ fc_unsent (some_conn after_traffic 0) = bytes 3.
Proof.
  destruct (flow_streams_exact 7 (run_result opening flow_init).1 opened (run_result traffic opened).1
    after_traffic 0 (some_conn opened 0) (some_conn after_traffic 0)) as (ds & taken & kept & ps & _ & Hd & Hin & Hw & _ & _ & Hk & Hq & Hout).
  - apply run_result_steps. vm_compute. reflexivity.
  - apply run_result_steps. vm_compute. reflexivity.
  - vm_compute. reflexivity.
  - vm_compute. by eexists.
  - vm_compute. reflexivity.
  - split.
    + rewrite Hw, Hk by (rewrite traffic_labels; reflexivity). rewrite <- app_assoc, <- payloads_app, <- Hin.
      rewrite Hd by (apply (bool_decide_eq_true_1 _); vm_compute; reflexivity).
      vm_compute. reflexivity.
    + exists ps. split; [exact Hq|]. rewrite Hout. vm_compute. reflexivity.
Defined.

(** ** The same over libusb *)

Definition device_sends : list UsbDevicePacket :=
  [from_device 2 (Z.lor SYN ACK) []; from_device 1 (Z.lor SYN ACK) []; from_device 2 ACK (bytes 4);
   from_device 1 ACK (bytes 2); from_device 1 ACK (bytes 5)].

Lemma from_device_ok port fl n :
  in_width 16 port → n ≤ 100 → sendable_packet (from_device port fl (bytes n)).
Proof.
  intros Hp Hn. apply (build_ok (BuildOk := build_bytes_ok)). cbn [builder_ok build_bytes_ok].
  split_and!; [apply tcp_header_plain; [by unfold in_width|exact Hp|by unfold in_width..]|by split|].
  unfold payload_fits, bytes. cbn [b_payload payload_bytes]. rewrite length_replicate.
  change (HEADER_V2_SIZE + TCP_MIN_LEN) with 36. lia.
Qed.

(** Its bytes in two transfers that cut a header. *)
Definition bus_reader : live_reader :=
  fresh_reader "gone" [(1, take 50 (wire device_sends)); (0, drop 50 (wire device_sends))].

Definition bus_writer : RusbAsyncWriter := writer_new 512 [] [].

Definition a_bus : device live_reader RusbAsyncWriter := device_init bus_reader bus_writer.

Definition bus_opening : list device_cmd :=
  [DoTask (CmdConnect 80 (stream_of (bytes 3))); DoTask (CmdConnect 81 (stream_of (bytes 6))); DoWrite; DoRead; DoHandle;
   DoWrite; DoRead; DoHandle; DoTask (CmdUp 0); DoTask (CmdUp 1)].

Definition bus_traffic : list device_cmd :=
  [DoRead; DoHandle; DoRead; DoHandle; DoTask (CmdTurn 1 (ClientRead 5 false)); DoTask (CmdTurn 0 DevicePacket);
   DoTask (CmdTurn 0 (ClientRead 1 false)); DoWrite; DoWrite; DoWrite; DoRead; DoWrite; DoHandle; DoWrite].

Definition bus_result (cmds : list device_cmd) (d : device live_reader RusbAsyncWriter)
  : list flow_label * device live_reader RusbAsyncWriter := default ([], d) (device_run false 7 cmds [] d).

Definition bus_opened : device live_reader RusbAsyncWriter := (bus_result bus_opening a_bus).2.
Definition bus_after : device live_reader RusbAsyncWriter := (bus_result bus_traffic bus_opened).2.

Lemma bus_result_steps cmds d :
  (if device_run false 7 cmds [] d is Some _ then true else false) = true →
  device_steps true false 7 70 d (bus_result cmds d).1 (bus_result cmds d).2.
Proof.
  unfold bus_result. destruct (device_run false 7 cmds [] d) as [[tr d']|] eqn:E; [|done]. intros _.
  eapply device_run_sound; [apply device_nil|exact E].
Qed.

Lemma bus_traffic_labels : (bus_result bus_traffic bus_opened).1 =
  [OtherStep; Handled (from_device 2 ACK (bytes 4)); OtherStep; Handled (from_device 1 ACK (bytes 2));
   Turned 1 (ClientRead 5 false); Turned 0 DevicePacket; Turned 0 (ClientRead 1 false);
   OtherStep; OtherStep; OtherStep; OtherStep; OtherStep; Handled (from_device 1 ACK (bytes 5)); OtherStep].
Proof. vm_compute. reflexivity. Qed.

Lemma bus_opening_steps :
  device_steps true false 7 70 (device_init bus_reader bus_writer) (bus_result bus_opening a_bus).1 bus_opened.
Proof. apply (bus_result_steps bus_opening a_bus). vm_compute. reflexivity. Qed.

Lemma bus_traffic_steps :
  device_steps true false 7 70 bus_opened (bus_result bus_traffic bus_opened).1 bus_after.
Proof. apply (bus_result_steps bus_traffic bus_opened). vm_compute. reflexivity. Qed.

Lemma device_sends_ok : Forall sendable_packet device_sends.
Proof.
  repeat apply Forall_cons_2; try apply Forall_nil_2;
    [apply (from_device_ok _ _ 0)|apply (from_device_ok _ _ 0)|apply from_device_ok..]; unfold in_width; lia.
Qed.

Lemma bus_sent_length :
  length (out_sent (EndpointOutLaws := rusb_endpoint_laws 512) (end_out (dv_writer bus_after))) = 7.
Proof. vm_compute. reflexivity. Qed.

Lemma bus_writer_sent : out_sent (EndpointOutLaws := rusb_endpoint_laws 512) bus_writer = [].
Proof. reflexivity. Qed.

(** The first client has two bytes and five wait for it; the device was sent seven packets. *)
Lemma device_streams_exact_witness :
  s_out (fc_client (some_conn (dv_flow bus_after) 0)) ++
    payloads (waiting (some_conn (dv_flow bus_after) 0) (sh_router (dv_shared bus_after))) = bytes 2 ++ bytes 5 ∧
  (∃ bus : list UsbDevicePacket, length bus = 7 ∧ read_all 7 (wire bus) = Some (bus, [])).
Proof.
  destruct (device_streams_exact (ol := rusb_endpoint_laws 512) true false 7 70 device_sends bus_reader bus_writer
    (bus_result bus_opening a_bus).1 bus_opened (bus_result bus_traffic bus_opened).1
    bus_after 0 (some_conn (dv_flow bus_opened) 0) (some_conn (dv_flow bus_after) 0))
    as (_ & (ds & taken & kept & _ & Hd & Hin & Hw & _ & _ & Hk) & (counts & _ & Hb & Hr & _)).
  - exact device_sends_ok.
  - vm_compute. reflexivity.
  - cbn. split_and!; [done|lia|done|]. by exists [].
  - reflexivity.
  - apply Nat.ltb_lt. vm_compute. reflexivity.
  - exact bus_opening_steps.
  - exact bus_traffic_steps.
  - vm_compute. reflexivity.
  - vm_compute. by eexists.
  - vm_compute. reflexivity.
  - split.
    + rewrite Hw, Hk by (rewrite bus_traffic_labels; reflexivity).
      rewrite <- app_assoc, <- payloads_app, <- Hin, Hd.
      * rewrite bus_traffic_labels. vm_compute. reflexivity.
      * apply (bool_decide_eq_true_1 _). vm_compute. reflexivity.
    + cbv zeta in Hb, Hr. revert Hb Hr. generalize (on_bus (take (dv_taken bus_after) (sh_queue (dv_shared bus_after)))
        (counted <$> counts)).
      intros bus Hb Hr. apply (f_equal length) in Hb.
      rewrite bus_sent_length, bus_writer_sent in Hb. cbn [app] in Hb. rewrite !length_fmap in Hb.
      exists bus.*2. rewrite length_fmap. split; [by symmetry|]. by rewrite Hb.
Defined.
