(* ===== verification/ToolWitnesses.v ===== *)
(** * Witnesses of the Windows driver tool

    A small [pnputil] with one iPhone whose drivers are stacked on each other: the
    enumeration names the topmost, and a deletion uncovers the next. *)

From S2P Require Import Prelude Text Utf8 WinDriver.

(** The drivers for the iPhone, topmost first: [oem7.inf] over [oem12.inf]. *)
Inductive store : Type := TwoDrivers | OneDriver | NoDriver.

Definition drivers (w : store) : list string :=
  match w with TwoDrivers => ["oem7.inf"; "oem12.inf"] | OneDriver => ["oem12.inf"] | NoDriver => [] end.

Definition delete_driver (inf : string) (w : store) : store :=
  match w with
  | TwoDrivers => if String.eqb inf "oem7.inf" then OneDriver else w
  | OneDriver => if String.eqb inf "oem12.inf" then NoDriver else w
  | NoDriver => w
  end.

Definition line (s : string) : string := s +:+ String.String LF "".

(** The block of the iPhone, whose first line is indented, after a block of a keyboard. *)
Definition enumeration (w : store) : string :=
  line "Microsoft PnP Utility" +:+ line "" +:+
  line "Instance ID:                HID\VID_046D" +:+
  line "Manufacturer Name:          Logitech" +:+
  line "Driver Name:                oem3.inf" +:+ line "" +:+ line " " +:+
  match drivers w with
  | [] => ""
  | inf :: _ =>
      line "  Instance ID:              USB\VID_05AC&PID_12A8\0001" +:+
      line "Device Description:         Apple Mobile Device" +:+
      line "Manufacturer Name:          libwdi" +:+
      line ("Driver Name:                " +:+ inf)
  end.

Definition says (text : string) : Output := MkOutput (String.list_byte_of_string text) [] true.

#[export] Instance stacked : Pnputil store := {
  pnputil_run args w :=
    match args with
    | ["/enum-devices"] => (Some (says (enumeration w)), w)
    | ["/scan-devices"] => (Some (says ""), w)
    | ["/delete-driver"; inf; "/uninstall"] =>
        if bool_decide (Some inf = head (drivers w)) then (Some (says ""), delete_driver inf w)
        else (Some (MkOutput [] [Byte.x21] true), w)
    | _ => (None, w)
    end;
}.

Definition packages (w : store) : gset string := list_to_set ("oem3.inf" :: drivers w).

Lemma enumeration_blocks w :
  Forall (λ block, ∀ inf, block_value "Driver Name:" block = Some inf → inf ∈ packages w)
    (device_blocks (str_lines (output_text (says (enumeration w))))).
Proof.
  assert (H : forallb (λ block, match block_value "Driver Name:" block with
                                | Some inf => bool_decide (inf ∈ packages w)
                                | None => true
                                end) (device_blocks (str_lines (output_text (says (enumeration w))))) = true)
    by (destruct w; vm_compute; reflexivity).
  apply list.Forall_forall. intros block Hin inf Hv. rewrite forallb_forall in H.
  specialize (H block ltac:(by apply list_elem_of_In)). rewrite Hv in H. by apply bool_decide_eq_true in H.
Qed.

#[export, refine] Instance stacked_laws : PnputilLaws store := {| installed := packages |}.
Proof.
  - intros w out w' [= <- <-]. split; [done|]. pose proof (enumeration_blocks w) as H.
    rewrite list.Forall_forall in H. intros block inf Hin. by apply H.
  - intros inf w out w'. cbn. destruct (bool_decide_reflect (Some inf = head (drivers w))) as [Hd|_].
    + intros [= <- <-] _. destruct w; [..|done]; injection Hd as ->; vm_compute; reflexivity.
    + by intros [= <- <-].
  - by intros w out w' [= <- <-].
Defined.

(** [wdi_rs] lists a keyboard and the iPhone. *)
#[export] Instance two_devices : Wdi store (Z * Z * bool) := {
  set_log_level _ := true;
  create_list w := (Some [(0x46d, 0xc31c, false); (0x5ac, 0x12a8, true); (0x5ac, 0x12a8, false)]%Z, w);
  driver_install _ _ w := (true, w);
  dev_vid d := d.1.1;
  dev_pid d := d.1.2;
  dev_is_composite d := d.2;
}.

Definition fresh : machine store (Z * Z * bool) := Machine TwoDrivers [].

Lemma two_rounds : uninstall_any_apple_driver 5 fresh = (Ok (), (uninstall_any_apple_driver 5 fresh).2).
Proof. vm_compute. reflexivity. Qed.

Lemma uninstall_removes_reported_witness :
  ∃ rounds, m_log (uninstall_any_apple_driver 5 fresh).2 = concat rounds ∧ length rounds ≤ 5.
Proof.
  destruct (uninstall_removes_reported 5 fresh _ _ two_rounds) as (rounds & H & Hl & _).
  exists rounds. split; [exact H|exact Hl].
Defined.

Lemma uninstall_leaves_none_witness :
  ∃ out, list.last (m_log (uninstall_any_apple_driver 5 fresh).2) = Some (Spawned enum_args (Some out)) ∧
         parse_devices (output_text out) = [].
Proof.
  apply (uninstall_leaves_none 5 fresh).
  - apply Nat.ltb_lt. vm_compute. reflexivity.
  - exact two_rounds.
Defined.

(** Cleaning with one round leaves a driver; the installation follows, and a key. *)
Definition some_flags : Args := MkArgs true true true 1.

Lemma driver_main_exit_witness : ∃ evs,
  m_log (driver_main [Byte.x0d; Byte.x0a] some_flags fresh).2 = evs ++ [Pressed] ∧
  list.last evs = Some (Installed (0x5ac, 0x12a8, false)%Z [Byte.x0a] true).
Proof.
  destruct (driver_main_exit [Byte.x0d; Byte.x0a] some_flags fresh (Ok ())
    (driver_main [Byte.x0d; Byte.x0a] some_flags fresh).2) as (evs & p & L & Hp & Hr).
  - reflexivity.
  - vm_compute. reflexivity.
  - exists evs. destruct Hr as (code & f & E1 & E2 & E3 & E4). injection E1 as <-. injection E2 as <-.
    destruct (E3 eq_refl) as (dev & inf & Hl). destruct Hp as [->|(_ & ->)].
    + exfalso. rewrite app_nil_r in L. change (m_log fresh ++ evs) with evs in L.
      rewrite <- L in Hl. vm_compute in Hl. discriminate.
    + split; [exact L|]. destruct (E4 dev inf true) as [_ Hw]; [by eapply last_Some_elem_of|].
      assert (Hlast : list.last (evs ++ [Pressed]) = Some Pressed) by apply last_snoc.
      change (m_log fresh ++ evs ++ [Pressed]) with (evs ++ [Pressed]) in L.
      assert (He : evs = removelast (evs ++ [Pressed])) by (by rewrite removelast_last).
      rewrite He, <- L. vm_compute. reflexivity.
Defined.
